(** * CSX encoder: a shallow embedding of the sparsex sources

    The development follows the C++ sources function by function:

    - [Delta]       : src/include/sparsex/internals/Delta.hpp
    - [Varint]      : [da_put_ul] and the [uc_get_ul] macro of src/csx/csx.cc
    - [Spm]         : the matrix data model used by drle.cc and csx.cc
    - [Drle]        : src/patterns/drle.cc, the statistics, the encoder, the
                      decoder and the planner
    - [Ctl]         : the constants of the control stream
    - [Csx]         : src/csx/csx.cc, the assembler
    - [CtlBuilder], [CsxManager] :
                      src/include/sparsex/internals/CsxManager.hpp
    - [Pipeline]    : the planner followed by the assembler

    Unsigned 64-bit quantities ([uint64_t], [unsigned long], [size_t]) are
    integers of [Z] reduced modulo [2^64] wherever the source computes with
    them; bytes are integers in [0, 256).  A call returns a [result]: a
    value, or the assertion or undefined operation it stopped at.  Loops
    without a bound in the source take a number of rounds. *)

From Stdlib Require Import ZArith Lia List Bool.
From stdpp Require Import base option list gmap.

Local Open Scope Z_scope.

(** ** Machine integers *)

Definition wrap64 (z : Z) : Z := z mod 2 ^ 64.
Definition wrap32 (z : Z) : Z := z mod 2 ^ 32.
Definition wrap16 (z : Z) : Z := z mod 2 ^ 16.
Definition wrap8 (z : Z) : Z := z mod 2 ^ 8.

Definition is_u64 (z : Z) : Prop := 0 <= z < 2 ^ 64.
Definition is_byte (z : Z) : Prop := 0 <= z < 256.

(** ** Delta.hpp *)

Module Delta.

(** [inline size_t GetDeltaSize(size_t val)]: each test stores [val] in a
    narrower member of the union and compares the stored value with
    [val]. *)
Definition GetDeltaSize (val : Z) : Z :=
  if wrap8 val =? val then 1
  else if wrap16 val =? val then 2
  else if wrap32 val =? val then 4
  else 8.

(** The old interface of delta.h used by src/csx/csx.cc: an enumeration
    of the four widths. *)
Inductive DeltaSize := DELTA_U8 | DELTA_U16 | DELTA_U32 | DELTA_U64.

(** Modelled from the spec: delta.h is not among the sources; its
    [getDeltaSize] is the smallest-fit width of section 4.1, returned as
    the enumeration constant of that width. *)
Definition getDeltaSize (val : Z) : DeltaSize :=
  match GetDeltaSize val with
  | 1 => DELTA_U8
  | 2 => DELTA_U16
  | 4 => DELTA_U32
  | _ => DELTA_U64
  end.

(** Modelled from the spec: [DeltaSize_getBytes] of delta.h, the number
    of bytes of a width. *)
Definition DeltaSize_getBytes (d : DeltaSize) : Z :=
  match d with
  | DELTA_U8 => 1
  | DELTA_U16 => 2
  | DELTA_U32 => 4
  | DELTA_U64 => 8
  end.

(** The position of the constant in the enumeration, as used by
    [8 << delta_size]. *)
Definition DeltaSize_index (d : DeltaSize) : Z :=
  match d with
  | DELTA_U8 => 0
  | DELTA_U16 => 1
  | DELTA_U32 => 2
  | DELTA_U64 => 3
  end.

End Delta.

(** ** The varint codec of csx.cc *)

Module Varint.

Definition LONGUC_SHIFT : Z := 7.

(** [da_put_ul]: the [for (;;)] loop.  An [unsigned long] has 64 bits, so
    the loop is given ten rounds; [None] means the rounds ran out. *)
Fixpoint da_put_ul_loop (rounds : nat) (da : list Z) (val : Z)
  : option (list Z) :=
  match rounds with
  | O => None
  | S rounds' =>
      let uc := Z.land val (Z.shiftl 1 LONGUC_SHIFT - 1) in
      if val <? Z.shiftl 1 LONGUC_SHIFT then Some (da ++ [uc])
      else da_put_ul_loop rounds'
             (da ++ [Z.lor uc (Z.shiftl 1 LONGUC_SHIFT)])
             (Z.shiftr val LONGUC_SHIFT)
  end.

Definition da_put_ul (da : list Z) (val : Z) : option (list Z) :=
  da_put_ul_loop 10 da val.

(** [u8_get(ptr)]: read one byte and advance; reading past the end of the
    buffer has no defined result. *)
Definition u8_get (ptr : list Z) : option (Z * list Z) :=
  match ptr with
  | [] => None
  | b :: ptr' => Some (b, ptr')
  end.

(** The inner [for (;;)] of the [uc_get_ul] macro.  The macro stores the
    byte it reads in [uc], a variable of the enclosing scope, and then
    tests and accumulates [_uc], which it declared without an initial
    value: [_uc] is threaded here as the state it is, starting from
    whatever it held.  The result carries the last byte stored in [uc].
    A shift count of 64 or more has no defined result. *)
Fixpoint uc_get_ul_loop (ptr : list Z) (_uc shift _val : Z)
  : option (Z * list Z) :=
  match ptr with
  | [] => None
  | b :: ptr' =>
      (* uc = u8_get(ptr); *)
      if 64 <=? shift then None
      else if 127 <? _uc then
        let _uc' := _uc - 128 in
        uc_get_ul_loop ptr' _uc' (shift + 7)
          (wrap64 (_val + wrap64 (Z.shiftl _uc' shift)))
      else Some (wrap64 (_val + wrap64 (Z.shiftl _uc shift)), ptr')
  end.

(** [uc_get_ul(ptr)], with [_uc0] the indeterminate initial content of
    [_uc].  Returns the value and the advanced pointer. *)
Definition uc_get_ul (_uc0 : Z) (ptr : list Z) : option (Z * list Z) :=
  match u8_get ptr with
  | None => None
  | Some (_val, ptr') =>
      if 127 <? _val then uc_get_ul_loop ptr' _uc0 7 (_val - 128)
      else Some (_val, ptr')
  end.

End Varint.

(** ** Outcomes of a call

    A call either returns, or stops at an assertion or at an operation
    without a defined result, or never returns. *)

Inductive failure :=
| TooManyPatterns   (* assert(ret <= CTL_PATTERNS_MAX && "too many patterns") *)
| UnitTooLarge      (* the assertions on CTL_SIZE_MAX *)
| ColsPending       (* assert(xs.size() == 0) after PreparePat *)
| BadDeltaSize      (* default: assert(false) in AddXs *)
| NnzMismatch       (* assert(values_idx_ == nr_nzeros_) *)
| ValuesLeft        (* assert(vi == vs.end()) *)
| OutOfBounds       (* a read or write outside an array *)
| DivByZero         (* an integer division by zero *)
| BadAlloc          (* an allocation of a negative number of items *)
| NoReturn.         (* a loop that runs out of its rounds *)

Inductive result (A : Type) :=
| Ok (a : A)
| Fail (f : failure).
Arguments Ok {A} a.
Arguments Fail {A} f.

#[global] Instance result_ret : MRet result := fun A a => Ok a.
#[global] Instance result_bind : MBind result := fun A B k m =>
  match m with
  | Ok a => k a
  | Fail f => Fail f
  end.

Definition assert (b : bool) (f : failure) : result unit :=
  if b then Ok tt else Fail f.

Definition of_option {A} (o : option A) (f : failure) : result A :=
  match o with
  | Some a => Ok a
  | None => Fail f
  end.

(** A call halts when it returns or stops at a failure other than a loop
    running out of its rounds. *)
Definition halts {A} (r : result A) : Prop :=
  match r with
  | Fail NoReturn => False
  | _ => True
  end.

(** Two runs have the same outcome up to [R]: the same failure, or
    results that [R] relates. *)
Definition rel_result {A} (R : A -> A -> Prop) (r1 r2 : result A) : Prop :=
  match r1, r2 with
  | Ok a1, Ok a2 => R a1 a2
  | Fail f1, Fail f2 => f1 = f2
  | _, _ => False
  end.


(** ** The matrix data model (spm.h) *)

Module Spm.

(** Modelled from the spec: spm.h is not among the sources.  The
    iteration orders are the ones drle.cc names ([NONE], [HORIZONTAL],
    [BLOCK_TYPE_START], [BLOCK_ROW_TYPE_NAME(1)], [BLOCK_COL_START],
    [BLOCK_COL_TYPE_NAME(1)], [BLOCK_TYPE_END]; [XFORM_MAX] closes the
    enumeration) and the types of section 3 of the spec. *)
Inductive SpmIterOrder :=
| NONE | HORIZONTAL | VERTICAL | DIAGONAL | REV_DIAGONAL
| BLOCK_TYPE_START
| BLOCK_R1 | BLOCK_R2 | BLOCK_R3 | BLOCK_R4
| BLOCK_R5 | BLOCK_R6 | BLOCK_R7 | BLOCK_R8
| BLOCK_COL_START
| BLOCK_C1 | BLOCK_C2 | BLOCK_C3 | BLOCK_C4
| BLOCK_C5 | BLOCK_C6 | BLOCK_C7 | BLOCK_C8
| BLOCK_TYPE_END.

(** The table [SpmTypes] of drle.cc's [genAllStats], in the order of the
    enumeration; [XFORM_MAX] is its length. *)
Definition SpmTypes : list SpmIterOrder :=
  [ NONE; HORIZONTAL; VERTICAL; DIAGONAL; REV_DIAGONAL;
    BLOCK_TYPE_START;
    BLOCK_R1; BLOCK_R2; BLOCK_R3; BLOCK_R4;
    BLOCK_R5; BLOCK_R6; BLOCK_R7; BLOCK_R8;
    BLOCK_COL_START;
    BLOCK_C1; BLOCK_C2; BLOCK_C3; BLOCK_C4;
    BLOCK_C5; BLOCK_C6; BLOCK_C7; BLOCK_C8;
    BLOCK_TYPE_END ].

Definition XFORM_MAX : nat := length SpmTypes.

(** Modelled from the spec: the alignment [k] of [BlockRow-k] and
    [BlockCol-k], and 0 for every other order. *)
Definition isBlockType (t : SpmIterOrder) : Z :=
  match t with
  | BLOCK_R1 | BLOCK_C1 => 1
  | BLOCK_R2 | BLOCK_C2 => 2
  | BLOCK_R3 | BLOCK_C3 => 3
  | BLOCK_R4 | BLOCK_C4 => 4
  | BLOCK_R5 | BLOCK_C5 => 5
  | BLOCK_R6 | BLOCK_C6 => 6
  | BLOCK_R7 | BLOCK_C7 => 7
  | BLOCK_R8 | BLOCK_C8 => 8
  | _ => 0
  end.

(** The two pattern classes drle.cc instantiates:
    [new DeltaRLE(freq, rle.val, type)] and
    [new BlockRLE(nr_elem_block, nr_elem_block / block_align, type)]. *)
Inductive Pattern :=
| DeltaRLE (size delta : Z) (type : SpmIterOrder)
| BlockRLE (size other_dim : Z) (type : SpmIterOrder).

Definition type_of (p : Pattern) : SpmIterOrder :=
  match p with
  | DeltaRLE _ _ t => t
  | BlockRLE _ _ t => t
  end.

Definition getSize (p : Pattern) : Z :=
  match p with
  | DeltaRLE size _ _ => size
  | BlockRLE size _ _ => size
  end.

(** Modelled from the spec: the stride of a run along the sweep axis is
    its [delta]; the elements of a block are consecutive along the sweep
    axis of its block order. *)
Definition getNextX (p : Pattern) (x : Z) : Z :=
  match p with
  | DeltaRLE _ delta _ => wrap64 (x + delta)
  | BlockRLE _ _ _ => wrap64 (x + 1)
  end.

Section Elements.
Context {V : Type}.

(** [SpmRowElem]: a column, and either one value and no pattern or a
    pattern and its array of values. *)
Inductive SpmRowElem :=
| Elem (x : Z) (val : V)
| PatElem (x : Z) (pattern : Pattern) (vals : list V).

Definition x_of (e : SpmRowElem) : Z :=
  match e with
  | Elem x _ => x
  | PatElem x _ _ => x
  end.

Definition is_plain (e : SpmRowElem) : bool :=
  match e with
  | Elem _ _ => true
  | PatElem _ _ _ => false
  end.

(** [SPM]: the rows with their elements, the current iteration order
    and the counters. *)
Record SPM := {
  type : SpmIterOrder;
  nr_rows_ : Z;
  nr_cols_ : Z;
  nr_nzeros_ : Z;
  row_start_ : Z;
  rows : list (list SpmRowElem);
}.

(** Modelled from the spec: [SPM::Builder]; the rows built replace the
    element storage when the builder is finalized. *)
Definition Builder_Finalize (spm : SPM) (new_rows : list (list SpmRowElem))
  : SPM :=
  {| type := type spm; nr_rows_ := nr_rows_ spm; nr_cols_ := nr_cols_ spm;
     nr_nzeros_ := nr_nzeros_ spm; row_start_ := row_start_ spm;
     rows := new_rows |}.

End Elements.
Arguments SpmRowElem : clear implicits.
Arguments SPM : clear implicits.

End Spm.

(** ** drle.cc: delta run-length encoding, statistics, encoder, planner *)

Module Drle.
Import Spm.

#[global] Instance SpmIterOrder_eq_dec : EqDecision SpmIterOrder.
Proof. solve_decision. Defined.

(** The position of an order in the enumeration. *)
Definition type_index (t : SpmIterOrder) : nat :=
  match t with
  | NONE => 0 | HORIZONTAL => 1 | VERTICAL => 2 | DIAGONAL => 3
  | REV_DIAGONAL => 4 | BLOCK_TYPE_START => 5
  | BLOCK_R1 => 6 | BLOCK_R2 => 7 | BLOCK_R3 => 8 | BLOCK_R4 => 9
  | BLOCK_R5 => 10 | BLOCK_R6 => 11 | BLOCK_R7 => 12 | BLOCK_R8 => 13
  | BLOCK_COL_START => 14
  | BLOCK_C1 => 15 | BLOCK_C2 => 16 | BLOCK_C3 => 17 | BLOCK_C4 => 18
  | BLOCK_C5 => 19 | BLOCK_C6 => 20 | BLOCK_C7 => 21 | BLOCK_C8 => 22
  | BLOCK_TYPE_END => 23
  end%nat.

#[global] Program Instance SpmIterOrder_countable : Countable SpmIterOrder :=
  inj_countable' type_index (fun n => nth n SpmTypes NONE) _.
Next Obligation. by intros []. Qed.

(** [template <typename T> struct RLE { long freq; T val; }] *)
Record RLE := { freq : Z; val : Z }.

(** [DeltaEncode] of drle.cc: the first item is copied, every other item
    is replaced by its difference to the one before it ([uint64_t]
    subtraction).  Every caller tests [xs.size()] first; the empty vector
    is mapped to itself. *)
Fixpoint DeltaEncode_loop (prev : Z) (input : list Z) : list Z :=
  match input with
  | [] => []
  | curr :: input' => wrap64 (curr - prev) :: DeltaEncode_loop curr input'
  end.

Definition DeltaEncode (input : list Z) : list Z :=
  match input with
  | [] => []
  | x0 :: input' => x0 :: DeltaEncode_loop x0 input'
  end.

(** [RLEncode]: [rle] is the run being counted; [output.push_back(rle)]
    puts it in front of the runs of the rest of the input. *)
Fixpoint RLEncode_loop (rle : RLE) (input : list Z) : list RLE :=
  match input with
  | [] => [rle]
  | curr :: input' =>
      if val rle =? curr
      then RLEncode_loop {| freq := freq rle + 1; val := val rle |} input'
      else rle :: RLEncode_loop {| freq := 1; val := curr |} input'
  end.

Definition RLEncode (input : list Z) : list RLE :=
  match input with
  | [] => []
  | x0 :: input' => RLEncode_loop {| freq := 1; val := x0 |} input'
  end.

(** [DeltaRLE::Stats]: a [std::map] from a delta value (or a block's
    other dimension) to its counters; [stats[k]] creates a zero entry. *)
Record StatsVal := { nnz : Z; npatterns : Z }.

Definition stats_at (stats : gmap Z StatsVal) (k : Z) : StatsVal :=
  default {| nnz := 0; npatterns := 0 |} (stats !! k).

(** [stats[k].nnz += n; stats[k].npatterns++;] *)
Definition stats_add (stats : gmap Z StatsVal) (k n : Z) : gmap Z StatsVal :=
  <[k := {| nnz := nnz (stats_at stats k) + n;
            npatterns := npatterns (stats_at stats k) + 1 |}]> stats.

(** [updateStatsBlock]: the body of its [FOREACH], on the pair of
    [unit_start] and the statistics. *)
Definition updateStatsBlock_rle (block_align : Z)
    (acc : Z * gmap Z StatsVal) (rle : RLE) : Z * gmap Z StatsVal :=
  let '(unit_start, stats) := acc in
  let unit_start := wrap64 (unit_start + val rle) in
  let stats :=
    if val rle =? 1 then
      let nr_elem := wrap64 (freq rle + 1) in
      let skip_front :=
        if unit_start =? 1 then 0 else wrap64 (unit_start - 2) mod block_align in
      let nr_elem := if skip_front <? nr_elem then nr_elem - skip_front else 0 in
      let other_dim := nr_elem / block_align in
      if 2 <=? other_dim
      then stats_add stats other_dim (other_dim * block_align)
      else stats
    else stats in
  (wrap64 (unit_start + val rle * (freq rle - 1)), stats).

Definition updateStatsBlock (xs : list Z) (stats : gmap Z StatsVal)
    (block_align : Z) : list Z * gmap Z StatsVal :=
  match xs with
  | [] => (xs, stats)
  | _ =>
      let rles := RLEncode (DeltaEncode xs) in
      ([], snd (fold_left (updateStatsBlock_rle block_align) rles (0, stats)))
  end.

(** [updateStats]: the body of its [FOREACH]. *)
Definition updateStats_rle (min_limit : Z) (stats : gmap Z StatsVal)
    (rle : RLE) : gmap Z StatsVal :=
  if min_limit <=? freq rle
  then stats_add stats (val rle) (freq rle)
  else stats.

(** [updateStats(xs, stats)] for a matrix of order [type]; returns the
    vector [xs] as it is left and the statistics. *)
Definition updateStats (type : SpmIterOrder) (min_limit : Z)
    (xs : list Z) (stats : gmap Z StatsVal) : list Z * gmap Z StatsVal :=
  let block_align := isBlockType type in
  if negb (block_align =? 0) then updateStatsBlock xs stats block_align
  else
    match xs with
    | [] => (xs, stats)
    | _ =>
        let rles := RLEncode (DeltaEncode xs) in
        ([], fold_left (updateStats_rle min_limit) rles stats)
    end.

Section Manager.
Context {V : Type}.

(** [generateStats]: the loop over the elements of one row. *)
Definition generateStats_elem (type : SpmIterOrder) (min_limit : Z)
    (acc : list Z * gmap Z StatsVal) (elem : SpmRowElem V)
  : list Z * gmap Z StatsVal :=
  let '(xs, stats) := acc in
  match elem with
  | Elem x _ => (xs ++ [x], stats)
  | PatElem _ _ _ => updateStats type min_limit xs stats
  end.

Definition generateStats_row (type : SpmIterOrder) (min_limit : Z)
    (acc : list Z * gmap Z StatsVal) (row : list (SpmRowElem V))
  : list Z * gmap Z StatsVal :=
  let '(xs, stats) := fold_left (generateStats_elem type min_limit) row acc in
  updateStats type min_limit xs stats.

(** [DRLE_Manager::generateStats()] on the matrix [Spm]. *)
Definition generateStats (Spm : SPM V) (min_limit : Z) : gmap Z StatsVal :=
  snd (fold_left (generateStats_row (type Spm) min_limit) (rows Spm) ([], ∅)).

(** The manager.  [below_min_perc n total] stands for the test
    [(double)n/(double)total < this->min_perc]; floating point is not
    modelled and the test is a component of the configuration. *)
Record DRLE_Manager := {
  spm : SPM V;
  min_limit : Z;
  max_limit : Z;
  below_min_perc : Z -> Z -> bool;
  stats : gmap SpmIterOrder (gmap Z StatsVal);
  DeltasToEncode : gmap SpmIterOrder (gset Z);
  xforms_ignore : gset SpmIterOrder;
}.

Definition set_spm (m : DRLE_Manager) (s : SPM V) : DRLE_Manager :=
  {| spm := s; min_limit := min_limit m; max_limit := max_limit m;
     below_min_perc := below_min_perc m; stats := stats m;
     DeltasToEncode := DeltasToEncode m; xforms_ignore := xforms_ignore m |}.

Definition set_stats (m : DRLE_Manager)
    (st : gmap SpmIterOrder (gmap Z StatsVal)) : DRLE_Manager :=
  {| spm := spm m; min_limit := min_limit m; max_limit := max_limit m;
     below_min_perc := below_min_perc m; stats := st;
     DeltasToEncode := DeltasToEncode m; xforms_ignore := xforms_ignore m |}.

Definition set_DeltasToEncode (m : DRLE_Manager)
    (d : gmap SpmIterOrder (gset Z)) : DRLE_Manager :=
  {| spm := spm m; min_limit := min_limit m; max_limit := max_limit m;
     below_min_perc := below_min_perc m; stats := stats m;
     DeltasToEncode := d; xforms_ignore := xforms_ignore m |}.

(** [addIgnore]: [this->xforms_ignore.set(type)]. *)
Definition addIgnore (m : DRLE_Manager) (t : SpmIterOrder) : DRLE_Manager :=
  {| spm := spm m; min_limit := min_limit m; max_limit := max_limit m;
     below_min_perc := below_min_perc m; stats := stats m;
     DeltasToEncode := DeltasToEncode m;
     xforms_ignore := {[t]} ∪ xforms_ignore m |}.

(** [this->DeltasToEncode[type]]. *)
Definition deltas_set (m : DRLE_Manager) (t : SpmIterOrder) : gset Z :=
  default ∅ (DeltasToEncode m !! t).

(** *** The encoder *)

(** The running state of [doEncode]: the current column [col], the value
    iterator [vi] as an index in [vs], and the row being built. *)
Record enc_state := {
  st_col : Z;
  st_vi : nat;
  st_newrow : list (SpmRowElem V);
}.

(** [std::copy(vi, vi + n, ...)]: the [n] values from index [vi] on. *)
Definition copy_vals (vs : list V) (vi : nat) (n : Z) : result (list V) :=
  let l := take (Z.to_nat n) (drop vi vs) in
  if (length l =? Z.to_nat n)%nat then Ok l else Fail OutOfBounds.

(** [elem.x = x; elem.val = *vi++; newrow.push_back(elem);] *)
Definition push_plain (vs : list V) (x : Z) (st : enc_state)
  : result enc_state :=
  v ← of_option (vs !! st_vi st) OutOfBounds;
  Ok {| st_col := st_col st; st_vi := S (st_vi st); st_newrow := st_newrow st ++ [Elem x v] |}.

(** [while (rle.freq >= this->min_limit)] of [doEncode], with the run's
    remaining [rle_freq].  A negative [freq] converts to a [uint64_t]
    that [new double[freq]] cannot allocate. *)
Fixpoint doEncode_while (rounds : nat) (type : SpmIterOrder)
    (min_limit max_limit : Z) (vs : list V) (rle_val rle_freq : Z)
    (st : enc_state) : result (Z * enc_state) :=
  if rle_freq <? min_limit then Ok (rle_freq, st)
  else
    match rounds with
    | O => Fail NoReturn
    | S rounds' =>
        let freq := Z.min max_limit rle_freq in
        _ ← assert (0 <=? freq) BadAlloc;
        let col1 := wrap64 (st_col st + rle_val) in
        vals ← copy_vals vs (st_vi st) freq;
        let st' :=
          {| st_col := wrap64 (col1 + rle_val * (freq - 1));
             st_vi := (st_vi st + Z.to_nat freq)%nat;
             st_newrow := st_newrow st ++ [PatElem col1 (DeltaRLE freq rle_val type) vals] |} in
        doEncode_while rounds' type min_limit max_limit vs rle_val
          (rle_freq - freq) st'
    end.

(** [for (int i=0; i < rle.freq; i++)]: the individual elements. *)
Fixpoint doEncode_plain (n : nat) (vs : list V) (rle_val : Z)
    (st : enc_state) : result enc_state :=
  match n with
  | O => Ok st
  | S n' =>
      let col1 := wrap64 (st_col st + rle_val) in
      st' ← push_plain vs col1
              {| st_col := col1; st_vi := st_vi st; st_newrow := st_newrow st |};
      doEncode_plain n' vs rle_val st'
  end.

(** The body of the [FOREACH] of [doEncode].  The [while] loop takes at
    least one of the run's [freq] items in every round that makes
    progress; it is given [freq + 1] rounds. *)
Definition doEncode_rle (type : SpmIterOrder) (min_limit max_limit : Z)
    (deltas : gset Z) (vs : list V) (st : enc_state) (rle : RLE)
  : result enc_state :=
  '(rle_freq, st1) ←
    (if decide (val rle ∈ deltas)
     then doEncode_while (S (Z.to_nat (freq rle))) type min_limit max_limit
            vs (val rle) (freq rle) st
     else Ok (freq rle, st));
  doEncode_plain (Z.to_nat rle_freq) vs (val rle) st1.

Fixpoint foldM {A B} (f : A -> B -> result A) (l : list B) (a : A)
  : result A :=
  match l with
  | [] => Ok a
  | b :: l' => a' ← f a b; foldM f l' a'
  end.

(** Loops [for (uint64_t i = 0; i < n; i++)] of [doEncodeBlock] that push
    one plain element per round at column [x0 + i]. *)
Fixpoint push_plain_run (n : nat) (vs : list V) (x0 : Z) (i : Z)
    (st : enc_state) : result enc_state :=
  match n with
  | O => Ok st
  | S n' =>
      st' ← push_plain vs (wrap64 (x0 + i)) st;
      push_plain_run n' vs x0 (i + 1) st'
  end.

(** [for (uint64_t i = 0; i < nr_blocks; i++)]: the blocks. *)
Fixpoint push_blocks (n : nat) (type : SpmIterOrder) (block_align : Z)
    (vs : list V) (x0 nr_elem_block : Z) (i : Z) (st : enc_state)
  : result enc_state :=
  match n with
  | O => Ok st
  | S n' =>
      vals ← copy_vals vs (st_vi st) nr_elem_block;
      let e := PatElem (wrap64 (x0 + i * nr_elem_block))
                 (BlockRLE nr_elem_block (nr_elem_block / block_align) type)
                 vals in
      push_blocks n' type block_align vs x0 nr_elem_block (i + 1)
        {| st_col := st_col st; st_vi := (st_vi st + Z.to_nat nr_elem_block)%nat;
           st_newrow := st_newrow st ++ [e] |}
  end.

(** [for (int i = 0; i < rle.freq; i++)] of [doEncodeBlock]: the
    individual elements at [col + i*rle.val]. *)
Fixpoint push_strided (n : nat) (vs : list V) (col0 rle_val : Z) (i : Z)
    (st : enc_state) : result enc_state :=
  match n with
  | O => Ok st
  | S n' =>
      st' ← push_plain vs (wrap64 (col0 + i * rle_val)) st;
      push_strided n' vs col0 rle_val (i + 1) st'
  end.

(** [newrow.pop_back(); --vi;] *)
Definition pop_back (st : enc_state) : result enc_state :=
  match st_vi st, st_newrow st with
  | S vi', _ :: _ =>
      Ok {| st_col := st_col st; st_vi := vi'; st_newrow := removelast (st_newrow st) |}
  | _, _ => Fail OutOfBounds
  end.

(** The body of the [FOREACH] of [doEncodeBlock]. *)
Definition doEncodeBlock_rle (type : SpmIterOrder) (max_limit : Z)
    (deltas : gset Z) (block_align : Z) (vs : list V) (st : enc_state)
    (rle : RLE) : result enc_state :=
  let col1 := wrap64 (st_col st + val rle) in
  let '(skip_front, nr_elem) :=
    if col1 =? 1 then (0, freq rle)
    else
      let skip_front := wrap64 (col1 - 2) mod block_align in
      let skip_front :=
        if negb (skip_front =? 0) then block_align - skip_front
        else skip_front in
      (skip_front, wrap64 (freq rle + 1)) in
  let nr_elem := if skip_front <? nr_elem then nr_elem - skip_front else 0 in
  let skip_back := nr_elem mod block_align in
  let nr_elem := if skip_back <? nr_elem then nr_elem - skip_back else 0 in
  let st := {| st_col := col1; st_vi := st_vi st; st_newrow := st_newrow st |} in
  st' ←
    (if (val rle =? 1)
        && bool_decide (nr_elem / block_align ∈ deltas)
        && (2 * block_align <=? nr_elem)
     then
       '(rle_start, st) ←
         (if negb (col1 =? 1)
          then st' ← pop_back st; Ok (wrap64 (col1 - 1), st')
          else Ok (col1, st));
       (* Add elements skipped from start *)
       st ← push_plain_run (Z.to_nat skip_front) vs rle_start 0 st;
       (* Align max_limit *)
       let max_limit :=
         wrap64 (Z.quot max_limit (2 * block_align) * (2 * block_align)) in
       _ ← assert (negb (max_limit =? 0)) DivByZero;
       let nr_blocks := nr_elem / max_limit in
       let nr_elem_block := Z.min max_limit nr_elem in
       let '(nr_blocks, skip_back) :=
         if nr_blocks =? 0 then (1, skip_back)
         else (nr_blocks,
               wrap64 (skip_back + (nr_elem - nr_elem_block * nr_blocks))) in
       st ← push_blocks (Z.to_nat nr_blocks) type block_align vs
              (rle_start + skip_front) nr_elem_block 0 st;
       (* Add the remaining elements *)
       push_plain_run (Z.to_nat skip_back) vs
         (rle_start + skip_front + nr_elem_block * nr_blocks) 0 st
     else
       push_strided (Z.to_nat (freq rle)) vs col1 (val rle) 0 st);
  Ok {| st_col := wrap64 (col1 + val rle * (freq rle - 1));
        st_vi := st_vi st'; st_newrow := st_newrow st' |}.

(** [doEncodeBlock(xs, vs, newrow)]; returns [newrow]. *)
Definition doEncodeBlock (m : DRLE_Manager) (xs : list Z) (vs : list V)
    (newrow : list (SpmRowElem V)) : result (list (SpmRowElem V)) :=
  let rles := RLEncode (DeltaEncode xs) in
  let deltas := deltas_set m (type (spm m)) in
  let block_align := isBlockType (type (spm m)) in
  st ← foldM (doEncodeBlock_rle (type (spm m)) (max_limit m) deltas
                block_align vs)
         rles {| st_col := 0; st_vi := 0; st_newrow := newrow |};
  _ ← assert (st_vi st =? length vs)%nat ValuesLeft;
  Ok (st_newrow st).

(** [doEncode(xs, vs, newrow)]; returns [newrow] ([xs] and [vs] are
    cleared by the source on return). *)
Definition doEncode (m : DRLE_Manager) (xs : list Z) (vs : list V)
    (newrow : list (SpmRowElem V)) : result (list (SpmRowElem V)) :=
  if negb (isBlockType (type (spm m)) =? 0)
  then doEncodeBlock m xs vs newrow
  else
    let rles := RLEncode (DeltaEncode xs) in
    let deltas := deltas_set m (type (spm m)) in
    st ← foldM (doEncode_rle (type (spm m)) (min_limit m) (max_limit m)
                  deltas vs)
           rles {| st_col := 0; st_vi := 0; st_newrow := newrow |};
    _ ← assert (st_vi st =? length vs)%nat ValuesLeft;
    Ok (st_newrow st).

(** [EncodeRow]: the loop over the elements, on [(xs, vs, newrow)]. *)
Definition EncodeRow_elem (m : DRLE_Manager)
    (acc : list Z * list V * list (SpmRowElem V)) (e : SpmRowElem V)
  : result (list Z * list V * list (SpmRowElem V)) :=
  let '(xs, vs, newrow) := acc in
  match e with
  | Elem x v => Ok (xs ++ [x], vs ++ [v], newrow)
  | PatElem _ _ _ =>
      newrow ← (match xs with
                | [] => Ok newrow
                | _ => doEncode m xs vs newrow
                end);
      Ok ([], [], newrow ++ [e])
  end.

Definition EncodeRow (m : DRLE_Manager) (row : list (SpmRowElem V))
    (newrow : list (SpmRowElem V)) : result (list (SpmRowElem V)) :=
  '(xs, vs, newrow) ← foldM (EncodeRow_elem m) row ([], [], newrow);
  match xs with
  | [] => Ok newrow
  | _ => doEncode m xs vs newrow
  end.

(** [doDecode]: the loop [for (i=0; i<elem->pattern->getSize(); i++)]. *)
Fixpoint doDecode_loop (n : nat) (p : Pattern) (vals : list V) (i : nat)
    (cur_x : Z) (newrow : list (SpmRowElem V))
  : result (list (SpmRowElem V)) :=
  match n with
  | O => Ok newrow
  | S n' =>
      v ← of_option (vals !! i) OutOfBounds;
      doDecode_loop n' p vals (S i) (getNextX p cur_x)
        (newrow ++ [Elem cur_x v])
  end.

Definition doDecode (x : Z) (p : Pattern) (vals : list V)
    (newrow : list (SpmRowElem V)) : result (list (SpmRowElem V)) :=
  doDecode_loop (Z.to_nat (getSize p)) p vals 0 x newrow.

Definition DecodeRow_elem (m : DRLE_Manager)
    (newrow : list (SpmRowElem V)) (e : SpmRowElem V)
  : result (list (SpmRowElem V)) :=
  match e with
  | PatElem x p vals =>
      if decide (type_of p = type (spm m))
      then doDecode x p vals newrow
      else Ok (newrow ++ [e])
  | Elem _ _ => Ok (newrow ++ [e])
  end.

Definition DecodeRow (m : DRLE_Manager) (row : list (SpmRowElem V))
    (newrow : list (SpmRowElem V)) : result (list (SpmRowElem V)) :=
  foldM (DecodeRow_elem m) row newrow.


(** *** Transformations, statistics of all types, planner *)

(** [SPM::Transform] is not among the sources: it is a parameter of the
    development. *)
Variable Transform : SpmIterOrder -> SPM V -> SPM V.

Fixpoint mapM {A B} (f : A -> result B) (l : list A) : result (list B) :=
  match l with
  | [] => Ok []
  | a :: l' => b ← f a; bs ← mapM f l'; Ok (b :: bs)
  end.

(** [genAllStats]: the body of [for (int t=HORIZONTAL; t != XFORM_MAX; t++)].
    The filter erases the entries below [min_perc] and inserts the keys of
    the others in [DeltasToEncode[type]]. *)
Definition genAllStats_type (m : DRLE_Manager) (t : SpmIterOrder)
  : DRLE_Manager :=
  if decide (t ∈ xforms_ignore m) then m
  else
    let m := set_spm m (Transform t (spm m)) in
    let sp := generateStats (spm m) (min_limit m) in
    let m := set_spm m (Transform HORIZONTAL (spm m)) in
    let sp :=
      filter (fun kv => below_min_perc m (nnz kv.2) (nr_nzeros_ (spm m)) = false)
             sp in
    let m := set_stats m (<[t := sp]> (stats m)) in
    if decide (dom sp = ∅) then m
    else set_DeltasToEncode m
           (<[t := deltas_set m t ∪ dom sp]> (DeltasToEncode m)).

(** [genAllStats]: [this->stats.clear()], then every type from
    [HORIZONTAL] on. *)
Definition genAllStats (m : DRLE_Manager) : DRLE_Manager :=
  fold_left genAllStats_type (drop 1 SpmTypes) (set_stats m ∅).

(** [getTypeScore]: the two sums run over the entries of the type's
    statistics; the result is a [uint64_t]. *)
Definition getTypeScore (m : DRLE_Manager) (t : SpmIterOrder) : Z :=
  match stats m !! t with
  | None => 0
  | Some sp =>
      let nr_nzeros_encoded := map_fold (fun _ v acc => acc + nnz v) 0 sp in
      let nr_patterns := map_fold (fun _ v acc => acc + npatterns v) 0 sp in
      wrap64 (nr_nzeros_encoded - nr_patterns)
  end.

(** [chooseType]: the loop over [this->stats], a [std::map] iterated in
    the order of the enumeration. *)
Definition chooseType_step (m : DRLE_Manager)
    (acc : SpmIterOrder * Z) (t : SpmIterOrder) : SpmIterOrder * Z :=
  let '(ret, max_out) := acc in
  match stats m !! t with
  | None => acc
  | Some _ =>
      let out := getTypeScore m t in
      if max_out <? out then (t, out) else acc
  end.

Definition chooseType (m : DRLE_Manager) : SpmIterOrder :=
  fst (fold_left (chooseType_step m) SpmTypes (NONE, 0)).

(** [Encode(type)] *)
Definition Encode (m : DRLE_Manager) (t : SpmIterOrder)
  : result (DRLE_Manager) :=
  let t := if decide (t = NONE) then chooseType m else t in
  if decide (t = NONE) then Ok m
  else
    (* Transform matrix to the desired iteration order *)
    let oldtype := type (spm m) in
    let m := set_spm m (Transform t (spm m)) in
    (* Do the encoding *)
    new_rows ← mapM (fun row => EncodeRow m row []) (rows (spm m));
    let m := set_spm m (Builder_Finalize (spm m) new_rows) in
    (* Transform matrix to the original iteration order *)
    let m := set_spm m (Transform oldtype (spm m)) in
    Ok (addIgnore m t).

(** [Decode(type)] *)
Definition Decode (m : DRLE_Manager) (t : SpmIterOrder)
  : result (DRLE_Manager) :=
  if decide (t = NONE) then Ok m
  else
    let oldtype := type (spm m) in
    let m := set_spm m (Transform t (spm m)) in
    new_rows ← mapM (fun row => DecodeRow m row []) (rows (spm m));
    let m := set_spm m (Builder_Finalize (spm m) new_rows) in
    let m := set_spm m (Transform oldtype (spm m)) in
    Ok m.

(** [EncodeAll]: the [for (;;)] loop.  The second component is the list
    of the types written to [std::cerr] after "Encode to". *)
Fixpoint EncodeAll_loop (rounds : nat) (m : DRLE_Manager)
    (log : list SpmIterOrder) : result (DRLE_Manager * list SpmIterOrder) :=
  match rounds with
  | O => Fail NoReturn
  | S rounds' =>
      let m := genAllStats m in
      let t := chooseType m in
      if decide (t = NONE) then Ok (m, log)
      else
        m ← Encode m t;
        EncodeAll_loop rounds' m (log ++ [t])
  end.

(** One round for every iteration order, and one to leave the loop. *)
Definition EncodeAll (m : DRLE_Manager)
  : result (DRLE_Manager * list SpmIterOrder) :=
  EncodeAll_loop (S XFORM_MAX) m [].


End Manager.
Arguments DRLE_Manager : clear implicits.

End Drle.

(** ** The control stream constants (ctl.h) and the byte buffer *)

Module Ctl.

(** Modelled from the spec: ctl.h is not among the sources.  A flags byte
    holds the pattern flag in its low six bits, [CTL_NR] in bit 6 and
    [CTL_RJMP] in bit 7; a size byte holds at most 255. *)
Definition CTL_NR_BIT : Z := 6.
Definition CTL_RJMP_BIT : Z := 7.
Definition CTL_PATTERNS_MAX : Z := 63.
Definition CTL_SIZE_MAX : Z := 255.

(** [set_bit(flags, bit)] on a byte. *)
Definition set_bit (byte bit : Z) : Z := Z.lor byte (Z.shiftl 1 bit).

(** The pattern ids of the delta units: jit.cc dispatches the delta units
    on the ids 8, 16, 32 and 64, that is on [8 << delta_size] with a base
    of zero. *)
Definition PID_DELTA_BASE : Z := 0.

(** Modelled from the spec: [dynarray_alloc_nr_aligned] of dynarray.h
    aligns the end of the buffer up to a multiple of [align], the padding
    bytes being zero, before it allocates. *)
Definition align_pad (len : nat) (align : Z) : list Z :=
  replicate (Z.to_nat ((align - Z.of_nat len mod align) mod align)) 0.

(** The [width] bytes of [v], least significant first: what
    [dst[i] = static_cast<T>(src[i])] stores for a [T] of that width. *)
Fixpoint le_bytes (width : nat) (v : Z) : list Z :=
  match width with
  | O => []
  | S w => v mod 256 :: le_bytes w (v / 256)
  end.

End Ctl.

(** ** csx.cc: the assembler *)

Module Csx.
Import Spm Ctl Delta.

(** [DeltaEncode(start, end, x0)] of csx.cc: every item is replaced by its
    difference to the one before it, the first by its difference to
    [x0]. *)
Fixpoint DeltaEncode (xs : list Z) (prev : Z) : list Z :=
  match xs with
  | [] => []
  | tmp :: xs' => wrap64 (tmp - prev) :: DeltaEncode xs' tmp
  end.

(** [PatInfo(flag, nr)] *)
Record PatInfo := { flag : Z; nr : Z }.

(** Modelled from the spec: [Pattern::GetPatternId]; the linear types use
    disjoint ranges of ids (jit.cc: 10000 and up for horizontal, 20000 and
    up for vertical, 30000 and up for diagonal, 40000 and up for
    anti-diagonal), the block types are keyed by their other dimension. *)
Definition GetPatternId (p : Pattern) : Z :=
  match p with
  | DeltaRLE _ delta t => Z.of_nat (Drle.type_index t) * 10000 + delta
  | BlockRLE _ other_dim t => Z.of_nat (Drle.type_index t) * 10000 + other_dim
  end.

(** Modelled from the spec: [Pattern::ColIncreaseJmp], the last column
    covered by a pattern anchored at [x]. *)
Definition ColIncreaseJmp (p : Pattern) (x : Z) : Z :=
  match p with
  | DeltaRLE size delta HORIZONTAL => wrap64 (x + delta * (size - 1))
  | DeltaRLE _ _ _ => x
  | BlockRLE size other_dim t =>
      match t with
      | BLOCK_R1 | BLOCK_R2 | BLOCK_R3 | BLOCK_R4
      | BLOCK_R5 | BLOCK_R6 | BLOCK_R7 | BLOCK_R8 =>
          wrap64 (x + other_dim - 1)
      | _ => wrap64 (x + isBlockType t - 1)
      end
  end.

Section Assembler.
Context {V : Type}.

(** The members of [CsxManager] that csx.cc uses.  [values_] is the array
    allocated by [MakeCsx]; [units] is a history variable that the source
    does not have: for every unit, in the order of emission, the offset of
    its flags byte in [ctl_da_] and the index in [values_] of its first
    value.  No other member depends on it. *)
Record CsxManager := {
  spm_ : SPM V;
  patterns : gmap Z PatInfo;
  flag_avail_ : Z;
  ctl_da_ : list Z;
  values_ : list V;
  values_idx_ : nat;
  last_col_ : Z;
  new_row_ : bool;
  empty_rows_ : Z;
  row_jmps_ : bool;
  units : list (nat * nat);
}.

Definition set_patterns (m : CsxManager) (p : gmap Z PatInfo) (fa : Z)
  : CsxManager :=
  {| spm_ := spm_ m; patterns := p; flag_avail_ := fa; ctl_da_ := ctl_da_ m;
     values_ := values_ m; values_idx_ := values_idx_ m;
     last_col_ := last_col_ m; new_row_ := new_row_ m;
     empty_rows_ := empty_rows_ m; row_jmps_ := row_jmps_ m;
     units := units m |}.

Definition set_ctl (m : CsxManager) (ctl : list Z) : CsxManager :=
  {| spm_ := spm_ m; patterns := patterns m; flag_avail_ := flag_avail_ m;
     ctl_da_ := ctl; values_ := values_ m; values_idx_ := values_idx_ m;
     last_col_ := last_col_ m; new_row_ := new_row_ m;
     empty_rows_ := empty_rows_ m; row_jmps_ := row_jmps_ m;
     units := units m |}.

Definition set_values (m : CsxManager) (vs : list V) (idx : nat)
  : CsxManager :=
  {| spm_ := spm_ m; patterns := patterns m; flag_avail_ := flag_avail_ m;
     ctl_da_ := ctl_da_ m; values_ := vs; values_idx_ := idx;
     last_col_ := last_col_ m; new_row_ := new_row_ m;
     empty_rows_ := empty_rows_ m; row_jmps_ := row_jmps_ m;
     units := units m |}.

Definition set_last_col (m : CsxManager) (c : Z) : CsxManager :=
  {| spm_ := spm_ m; patterns := patterns m; flag_avail_ := flag_avail_ m;
     ctl_da_ := ctl_da_ m; values_ := values_ m; values_idx_ := values_idx_ m;
     last_col_ := c; new_row_ := new_row_ m;
     empty_rows_ := empty_rows_ m; row_jmps_ := row_jmps_ m;
     units := units m |}.

Definition set_row_state (m : CsxManager) (nr : bool) (er : Z) (rj : bool)
  : CsxManager :=
  {| spm_ := spm_ m; patterns := patterns m; flag_avail_ := flag_avail_ m;
     ctl_da_ := ctl_da_ m; values_ := values_ m; values_idx_ := values_idx_ m;
     last_col_ := last_col_ m; new_row_ := nr;
     empty_rows_ := er; row_jmps_ := rj;
     units := units m |}.

Definition log_unit (m : CsxManager) (u : nat * nat) : CsxManager :=
  {| spm_ := spm_ m; patterns := patterns m; flag_avail_ := flag_avail_ m;
     ctl_da_ := ctl_da_ m; values_ := values_ m; values_idx_ := values_idx_ m;
     last_col_ := last_col_ m; new_row_ := new_row_ m;
     empty_rows_ := empty_rows_ m; row_jmps_ := row_jmps_ m;
     units := units m ++ [u] |}.

(** The history starts again with every buffer [dynarray_create] makes. *)
Definition reset_units (m : CsxManager) : CsxManager :=
  {| spm_ := spm_ m; patterns := patterns m; flag_avail_ := flag_avail_ m;
     ctl_da_ := ctl_da_ m; values_ := values_ m; values_idx_ := values_idx_ m;
     last_col_ := last_col_ m; new_row_ := new_row_ m;
     empty_rows_ := empty_rows_ m; row_jmps_ := row_jmps_ m;
     units := [] |}.

(** [uint8_t CsxManager::GetFlag(long pattern_id, uint64_t nnz)];
    [flag_avail_] is a [uint8_t]. *)
Definition GetFlag (m : CsxManager) (pattern_id nnz : Z)
  : result (Z * CsxManager) :=
  match patterns m !! pattern_id with
  | None =>
      let ret := flag_avail_ m in
      let m := set_patterns m (patterns m) (wrap8 (flag_avail_ m + 1)) in
      _ ← assert (ret <=? CTL_PATTERNS_MAX) TooManyPatterns;
      let pat_info := {| flag := ret; nr := wrap64 nnz |} in
      Ok (ret, set_patterns m (<[pattern_id := pat_info]> (patterns m))
                 (flag_avail_ m))
  | Some pi =>
      let ret := flag pi in
      Ok (ret, set_patterns m
                 (<[pattern_id := {| flag := flag pi;
                                     nr := wrap64 (nr pi + nnz) |}]>
                    (patterns m))
                 (flag_avail_ m))
  end.

(** [*p = b] for a byte of the buffer at offset [off]. *)
Definition poke (m : CsxManager) (off : nat) (b : Z) : CsxManager :=
  set_ctl m (<[off := b]> (ctl_da_ m)).

Definition peek (m : CsxManager) (off : nat) : Z :=
  default 0 (ctl_da_ m !! off).

(** [da_put_ul(ctl_da_, val)] *)
Definition put_ul (m : CsxManager) (val : Z) : result CsxManager :=
  ctl ← of_option (Varint.da_put_ul (ctl_da_ m) val) NoReturn;
  Ok (set_ctl m ctl).

(** [void CsxManager::UpdateNewRow(uint8_t *flags)], with [flags] the
    offset of the flags byte in [ctl_da_]. *)
Definition UpdateNewRow (m : CsxManager) (flags : nat) : result CsxManager :=
  if negb (new_row_ m) then Ok m
  else
    let m := poke m flags (set_bit (peek m flags) CTL_NR_BIT) in
    let m := set_row_state m false (empty_rows_ m) (row_jmps_ m) in
    if negb (empty_rows_ m =? 0) then
      let m := poke m flags (set_bit (peek m flags) CTL_RJMP_BIT) in
      m ← put_ul m (wrap64 (empty_rows_ m + 1));
      Ok (set_row_state m (new_row_ m) 0 true)
    else Ok m.

(** [dynarray_alloc_nr(ctl_da_, 2)]: two more bytes; returns the offset of
    the first.  Both are written before they are read. *)
Definition alloc_head (m : CsxManager) : nat * CsxManager :=
  (length (ctl_da_ m), set_ctl m (ctl_da_ m ++ [0; 0])).

(** [max_element] of the items after the first. *)
Definition max_element (l : list Z) : Z := fold_right Z.max 0 l.

(** [void CsxManager::AddXs(std::vector<uint64_t> &xs)]; the callers pass
    a vector that is not empty, and it is empty on return. *)
Definition AddXs (m : CsxManager) (xs : list Z) : result CsxManager :=
  (* Do delta encoding. *)
  let xs_size := Z.of_nat (length xs) in
  last_col ← of_option (last xs) OutOfBounds;
  let xs := DeltaEncode xs (last_col_ m) in
  let m := set_last_col m last_col in
  (* Calculate the delta's size and the pattern id. *)
  let max := if 1 <? xs_size then max_element (drop 1 xs) else 0 in
  let delta_size := getDeltaSize max in
  let pat_id := Z.shiftl 8 (DeltaSize_index delta_size) + PID_DELTA_BASE in
  (* Set flags. *)
  let '(ctl_flags, m) := alloc_head m in
  let m := log_unit m (ctl_flags, (values_idx_ m - length xs)%nat) in
  '(ret, m) ← GetFlag m (PID_DELTA_BASE + pat_id) xs_size;
  let m := poke m ctl_flags ret in
  (* Set size. *)
  let ctl_size := S ctl_flags in
  _ ← assert ((0 <? xs_size) && (xs_size <=? CTL_SIZE_MAX)) UnitTooLarge;
  let m := poke m ctl_size (wrap8 xs_size) in
  m ← UpdateNewRow m ctl_flags;
  (* Add jmp and deltas. *)
  x0 ← of_option (head xs) OutOfBounds;
  m ← put_ul m x0;
  (* Add deltas (if needed). *)
  if 1 <? xs_size then
    let delta_bytes := DeltaSize_getBytes delta_size in
    let m := set_ctl m (ctl_da_ m ++ align_pad (length (ctl_da_ m)) delta_bytes) in
    match delta_size with
    | DELTA_U8 | DELTA_U16 | DELTA_U32 =>
        Ok (set_ctl m (ctl_da_ m
                       ++ flat_map (le_bytes (Z.to_nat delta_bytes)) (drop 1 xs)))
    | DELTA_U64 => Fail BadDeltaSize
    end
  else Ok m.

(** [void CsxManager::AddPattern(const SpmRowElem &elem, uint64_t jmp)] *)
Definition AddPattern (m : CsxManager) (x : Z) (p : Pattern) (jmp : Z)
  : result CsxManager :=
  let pat_size := getSize p in
  let pat_id := GetPatternId p in
  let '(ctl_flags, m) := alloc_head m in
  let m := log_unit m (ctl_flags, values_idx_ m) in
  '(ret, m) ← GetFlag m pat_id pat_size;
  let m := poke m ctl_flags ret in
  let ctl_size := S ctl_flags in
  let size := pat_size + (if negb (jmp =? 0) then 1 else 0) in
  _ ← assert (size <=? CTL_SIZE_MAX) UnitTooLarge;
  let m := poke m ctl_size (wrap8 size) in
  m ← UpdateNewRow m ctl_flags;
  let ujmp := if negb (jmp =? 0) then jmp else wrap64 (x - last_col_ m) in
  m ← put_ul m ujmp;
  Ok (set_last_col m (ColIncreaseJmp p x)).

(** [uint64_t CsxManager::PreparePat(xs, elem)]: returns the jump, which
    is always 0, and the manager; [xs] is empty afterwards. *)
Definition PreparePat (m : CsxManager) (xs : list Z)
  : result (Z * CsxManager) :=
  match xs with
  | [] => Ok (0, m)
  | _ => m ← AddXs m xs; Ok (0, m)
  end.

(** [values_[values_idx_++] = v] *)
Definition put_value (m : CsxManager) (v : V) : result CsxManager :=
  _ ← assert (values_idx_ m <? length (values_ m))%nat OutOfBounds;
  Ok (set_values m (<[values_idx_ m := v]> (values_ m)) (S (values_idx_ m))).

(** [for (long i=0; i < size; i++) values_[values_idx_++] = vals[i];] *)
Fixpoint put_values (n : nat) (m : CsxManager) (vals : list V) (i : nat)
  : result CsxManager :=
  match n with
  | O => Ok m
  | S n' =>
      v ← of_option (vals !! i) OutOfBounds;
      m ← put_value m v;
      put_values n' m vals (S i)
  end.

(** [DoRow]: the body of the loop over the elements, on the manager and
    the vector [xs]. *)
Definition DoRow_elem (acc : CsxManager * list Z) (e : SpmRowElem V)
  : result (CsxManager * list Z) :=
  let '(m, xs) := acc in
  match e with
  | PatElem x p vals =>
      '(jmp, m) ← PreparePat m xs;
      let xs : list Z := [] in
      _ ← assert (length xs =? 0)%nat ColsPending;
      m ← AddPattern m x p jmp;
      m ← put_values (Z.to_nat (getSize p)) m vals 0;
      Ok (m, xs)
  | Elem x v =>
      (* Check if we exceeded the maximum size for a unit. *)
      _ ← assert (Z.of_nat (length xs) <=? CTL_SIZE_MAX) UnitTooLarge;
      '(m, xs) ←
        (if Z.of_nat (length xs) =? CTL_SIZE_MAX
         then m ← AddXs m xs; Ok (m, [])
         else Ok (m, xs));
      m ← put_value m v;
      Ok (m, xs ++ [x])
  end.

(** [void CsxManager::DoRow(rbegin, rend)] *)
Definition DoRow (m : CsxManager) (row : list (SpmRowElem V))
  : result CsxManager :=
  let m := set_last_col m 1 in
  '(m, xs) ← Drle.foldM DoRow_elem row (m, []);
  match xs with
  | [] => Ok m
  | _ => AddXs m xs
  end.

(** [MakeCsx]: the body of the loop over the rows. *)
Definition MakeCsx_row (m : CsxManager) (row : list (SpmRowElem V))
  : result CsxManager :=
  match row with
  | [] =>
      (* Check if row is empty. *)
      if negb (new_row_ m)
      then Ok (set_row_state m true (empty_rows_ m) (row_jmps_ m))
      else Ok (set_row_state m (new_row_ m) (wrap64 (empty_rows_ m + 1))
                 (row_jmps_ m))
  | _ =>
      m ← DoRow m row;
      Ok (set_row_state m true (empty_rows_ m) (row_jmps_ m))
  end.

(** [csx_double_t] *)
Record csx_double_t := {
  nnz : Z;
  nrows : Z;
  ncols : Z;
  row_start : Z;
  ctl_size : Z;
  ctl : list Z;
  values : list V;
}.

(** [csx_double_t *CsxManager::MakeCsx()].  [junk] is the content of the
    array [malloc] returns for [values_]. *)
Definition MakeCsx (junk : nat -> V) (m : CsxManager)
  : result (csx_double_t * CsxManager) :=
  let m := set_values m (map junk (seq 0 (Z.to_nat (nr_nzeros_ (spm_ m))))) 0 in
  let m := reset_units (set_ctl m []) in
  let m := set_row_state m false (empty_rows_ m) (row_jmps_ m) in
  m ← Drle.foldM MakeCsx_row (rows (spm_ m)) m;
  _ ← assert (Z.of_nat (values_idx_ m) =? nr_nzeros_ (spm_ m)) NnzMismatch;
  let csx :=
    {| nnz := nr_nzeros_ (spm_ m); nrows := nr_rows_ (spm_ m);
       ncols := nr_cols_ (spm_ m); row_start := Spm.row_start_ (spm_ m);
       ctl_size := Z.of_nat (length (ctl_da_ m)); ctl := ctl_da_ m;
       values := values_ m |} in
  Ok (csx, set_values (set_ctl m []) [] 0).

(** The manager as its constructor leaves it (the constructor of
    CsxManager.hpp: no flag given out, no row jump seen, no empty row
    counted). *)
Definition CsxManager_new (spm : SPM V) : CsxManager :=
  {| spm_ := spm; patterns := ∅; flag_avail_ := 0; ctl_da_ := [];
     values_ := []; values_idx_ := 0; last_col_ := 0; new_row_ := false;
     empty_rows_ := 0; row_jmps_ := false; units := [] |}.

End Assembler.
Arguments CsxManager : clear implicits.
Arguments csx_double_t : clear implicits.

End Csx.

(** ** CsxManager.hpp: the assembler with its control-stream builder *)

Module CtlBuilder.
Import Ctl.

(** Modelled from the spec: CtlBuilder.hpp is not among the sources.
    Section 4.1: a fixed-width write emits [width] bytes little-endian
    after aligning the output cursor up to a multiple of [width], with
    zero padding bytes. *)
Definition AppendFixedInt (ctl : list Z) (val width : Z) : list Z :=
  ctl ++ align_pad (length ctl) width ++ le_bytes (Z.to_nat width) val.

(** Modelled from the spec: the varint write of section 4.1 (the low
    seven bits first, the high bit set on every byte but the last). *)
Definition AppendVariableInt (ctl : list Z) (val : Z) : result (list Z) :=
  of_option (Varint.da_put_ul ctl val) NoReturn.

(** Modelled from the spec: [append_ctl_head] of section 4.6, writing the
    two header bytes, the row jump when it is not zero, and the column
    reference. *)
Definition AppendCtlHead (ctl : list Z) (nr : bool) (rowjmp : Z)
    (flag size ucol ucol_size : Z) (full_colind : bool) : result (list Z) :=
  let flags :=
    Z.lor (Z.lor flag (if nr then Z.shiftl 1 CTL_NR_BIT else 0))
          (if negb (rowjmp =? 0) then Z.shiftl 1 CTL_RJMP_BIT else 0) in
  let ctl := ctl ++ [flags; wrap8 size] in
  ctl ← (if negb (rowjmp =? 0) then AppendVariableInt ctl rowjmp else Ok ctl);
  if full_colind then Ok (AppendFixedInt ctl ucol ucol_size)
  else AppendVariableInt ctl ucol.

End CtlBuilder.

Module CsxManager.
Import Spm Ctl Delta CtlBuilder.

(** [PatInfo(flag_, npatterns_, nr_)] *)
Record PatInfo := { flag : Z; npatterns : Z; nr : Z }.

(** [row_info_t] *)
Record row_info_t := { rowptr : Z; valptr : Z; span : Z }.

(** Modelled from the spec: [GetPatternId(delta_bytes)] of CsxUtil.hpp,
    the id [PID_DELTA(delta_bytes)] of a delta unit: 8, 16, 32 or 64. *)
Definition GetPatternId_delta (delta_bytes : Z) : Z :=
  PID_DELTA_BASE + 8 * delta_bytes.

(** Modelled from the spec: [GetPatternId(elem)] and [GetLastCol] of
    CsxUtil.hpp are those of the pattern classes. *)
Definition GetPatternId_elem (p : Pattern) : Z := Csx.GetPatternId p.
Definition GetLastCol (p : Pattern) (x : Z) : Z := Csx.ColIncreaseJmp p x.

(** [Encoding::Instantiation]: the type and the delta of a pattern. *)
Definition GetInstantiation (p : Pattern) : SpmIterOrder * Z :=
  match p with
  | DeltaRLE _ delta t => (t, delta)
  | BlockRLE _ other_dim t => (t, other_dim)
  end.

Section Assembler.
Context {V : Type}.

(** [sizeof(IndexType)]; the arithmetic on [IndexType] is modular. *)
Variable sizeof_IndexType : Z.
Definition wrapI (z : Z) : Z := z mod 2 ^ (8 * sizeof_IndexType).

(** The members of [CsxManager]. *)
Record CsxManager := {
  spm_ : SPM V;
  patterns : gmap Z PatInfo;
  flag_avail_ : Z;
  row_jmps_ : bool;
  full_column_indices_ : bool;
  values_ : list V;
  rows_info_ : list row_info_t;
  span_ : Z;
  values_idx_ : nat;
  ctl_bld_ : list Z;
  last_col_ : Z;
  new_row_ : bool;
  empty_rows_ : Z;
  curr_row_ : Z;
}.

Definition set_patterns (m : CsxManager) (p : gmap Z PatInfo) (fa : Z)
  : CsxManager :=
  {| spm_ := spm_ m; patterns := p; flag_avail_ := fa;
     row_jmps_ := row_jmps_ m; full_column_indices_ := full_column_indices_ m;
     values_ := values_ m; rows_info_ := rows_info_ m; span_ := span_ m;
     values_idx_ := values_idx_ m; ctl_bld_ := ctl_bld_ m;
     last_col_ := last_col_ m; new_row_ := new_row_ m;
     empty_rows_ := empty_rows_ m; curr_row_ := curr_row_ m |}.

Definition set_ctl (m : CsxManager) (ctl : list Z) : CsxManager :=
  {| spm_ := spm_ m; patterns := patterns m; flag_avail_ := flag_avail_ m;
     row_jmps_ := row_jmps_ m; full_column_indices_ := full_column_indices_ m;
     values_ := values_ m; rows_info_ := rows_info_ m; span_ := span_ m;
     values_idx_ := values_idx_ m; ctl_bld_ := ctl;
     last_col_ := last_col_ m; new_row_ := new_row_ m;
     empty_rows_ := empty_rows_ m; curr_row_ := curr_row_ m |}.

Definition set_values (m : CsxManager) (vs : list V) (idx : nat)
  : CsxManager :=
  {| spm_ := spm_ m; patterns := patterns m; flag_avail_ := flag_avail_ m;
     row_jmps_ := row_jmps_ m; full_column_indices_ := full_column_indices_ m;
     values_ := vs; rows_info_ := rows_info_ m; span_ := span_ m;
     values_idx_ := idx; ctl_bld_ := ctl_bld_ m;
     last_col_ := last_col_ m; new_row_ := new_row_ m;
     empty_rows_ := empty_rows_ m; curr_row_ := curr_row_ m |}.

Definition set_rows_info (m : CsxManager) (ri : list row_info_t)
  : CsxManager :=
  {| spm_ := spm_ m; patterns := patterns m; flag_avail_ := flag_avail_ m;
     row_jmps_ := row_jmps_ m; full_column_indices_ := full_column_indices_ m;
     values_ := values_ m; rows_info_ := ri; span_ := span_ m;
     values_idx_ := values_idx_ m; ctl_bld_ := ctl_bld_ m;
     last_col_ := last_col_ m; new_row_ := new_row_ m;
     empty_rows_ := empty_rows_ m; curr_row_ := curr_row_ m |}.

Definition set_span (m : CsxManager) (s : Z) : CsxManager :=
  {| spm_ := spm_ m; patterns := patterns m; flag_avail_ := flag_avail_ m;
     row_jmps_ := row_jmps_ m; full_column_indices_ := full_column_indices_ m;
     values_ := values_ m; rows_info_ := rows_info_ m; span_ := s;
     values_idx_ := values_idx_ m; ctl_bld_ := ctl_bld_ m;
     last_col_ := last_col_ m; new_row_ := new_row_ m;
     empty_rows_ := empty_rows_ m; curr_row_ := curr_row_ m |}.

Definition set_last_col (m : CsxManager) (c : Z) : CsxManager :=
  {| spm_ := spm_ m; patterns := patterns m; flag_avail_ := flag_avail_ m;
     row_jmps_ := row_jmps_ m; full_column_indices_ := full_column_indices_ m;
     values_ := values_ m; rows_info_ := rows_info_ m; span_ := span_ m;
     values_idx_ := values_idx_ m; ctl_bld_ := ctl_bld_ m;
     last_col_ := c; new_row_ := new_row_ m;
     empty_rows_ := empty_rows_ m; curr_row_ := curr_row_ m |}.

Definition set_row_state (m : CsxManager) (nr : bool) (er : Z) (rj : bool)
  : CsxManager :=
  {| spm_ := spm_ m; patterns := patterns m; flag_avail_ := flag_avail_ m;
     row_jmps_ := rj; full_column_indices_ := full_column_indices_ m;
     values_ := values_ m; rows_info_ := rows_info_ m; span_ := span_ m;
     values_idx_ := values_idx_ m; ctl_bld_ := ctl_bld_ m;
     last_col_ := last_col_ m; new_row_ := nr;
     empty_rows_ := er; curr_row_ := curr_row_ m |}.

Definition set_curr_row (m : CsxManager) (r : Z) : CsxManager :=
  {| spm_ := spm_ m; patterns := patterns m; flag_avail_ := flag_avail_ m;
     row_jmps_ := row_jmps_ m; full_column_indices_ := full_column_indices_ m;
     values_ := values_ m; rows_info_ := rows_info_ m; span_ := span_ m;
     values_idx_ := values_idx_ m; ctl_bld_ := ctl_bld_ m;
     last_col_ := last_col_ m; new_row_ := new_row_ m;
     empty_rows_ := empty_rows_ m; curr_row_ := r |}.

(** [uint8_t GetFlag(unsigned long pattern_id, size_t nnz)] *)
Definition GetFlag (m : CsxManager) (pattern_id nnz : Z)
  : result (Z * CsxManager) :=
  match patterns m !! pattern_id with
  | None =>
      let ret := flag_avail_ m in
      let m := set_patterns m (patterns m) (wrap8 (flag_avail_ m + 1)) in
      _ ← assert (ret <=? CTL_PATTERNS_MAX) TooManyPatterns;
      let pat_info := {| flag := ret; npatterns := 1; nr := wrap64 nnz |} in
      Ok (ret, set_patterns m (<[pattern_id := pat_info]> (patterns m))
                 (flag_avail_ m))
  | Some pi =>
      let ret := flag pi in
      Ok (ret, set_patterns m
                 (<[pattern_id := {| flag := flag pi;
                                     npatterns := wrap64 (npatterns pi + 1);
                                     nr := wrap64 (nr pi + nnz) |}]>
                    (patterns m))
                 (flag_avail_ m))
  end.

(** [pair<bool, size_t> UpdateNewRow()] *)
Definition UpdateNewRow (m : CsxManager) : (bool * Z) * CsxManager :=
  if new_row_ m then
    let m := set_row_state m false (empty_rows_ m) (row_jmps_ m) in
    if negb (empty_rows_ m =? 0) then
      let rowjmp := wrap64 (empty_rows_ m + 1) in
      ((true, rowjmp), set_row_state m (new_row_ m) 0 true)
    else ((true, 0), m)
  else ((false, 0), m).

(** [void AddCols(vector<IndexType> &cols)] *)
Definition AddCols (m : CsxManager) (cols : list Z) : result CsxManager :=
  let cols_size := Z.of_nat (length cols) in
  last_col ← of_option (last cols) OutOfBounds;
  col_start ← of_option (head cols) OutOfBounds;
  (* Do delta encoding *)
  let cols := map wrapI (Csx.DeltaEncode cols (last_col_ m)) in
  let m := set_last_col m last_col in
  (* Calculate the delta's size and the pattern id *)
  let max := if 1 <? cols_size then Csx.max_element (drop 1 cols) else 0 in
  let delta_bytes := GetDeltaSize max in
  let patt_id := GetPatternId_delta delta_bytes in
  let '((nr, rowjmp), m) := UpdateNewRow m in
  cols0 ← of_option (head cols) OutOfBounds;
  let ucol := if full_column_indices_ m then wrapI (col_start - 1) else cols0 in
  _ ← assert ((0 <? cols_size) && (cols_size <=? CTL_SIZE_MAX)) UnitTooLarge;
  '(flag, m) ← GetFlag m patt_id cols_size;
  ctl ← AppendCtlHead (ctl_bld_ m) nr rowjmp flag cols_size ucol
          sizeof_IndexType (full_column_indices_ m);
  (* Add deltas (if needed) *)
  let ctl := fold_left (fun ctl c => AppendFixedInt ctl c delta_bytes)
               (drop 1 cols) ctl in
  Ok (set_ctl m ctl).

(** [void AddPattern(const Element<IndexType, ValueType> &elem)] *)
Definition AddPattern (m : CsxManager) (x : Z) (p : Pattern)
  : result CsxManager :=
  let patt_id := GetPatternId_elem p in
  let patt_size := getSize p in
  let '((nr, rowjmp), m) := UpdateNewRow m in
  let ucol := if full_column_indices_ m then wrapI (x - 1)
              else wrapI (x - last_col_ m) in
  _ ← assert (patt_size <=? CTL_SIZE_MAX) UnitTooLarge;
  '(flag, m) ← GetFlag m patt_id patt_size;
  ctl ← AppendCtlHead (ctl_bld_ m) nr rowjmp flag patt_size ucol
          sizeof_IndexType (full_column_indices_ m);
  let m := set_ctl m ctl in
  Ok (set_last_col m (GetLastCol p x)).

(** [void PreparePat(vector<IndexType> &cols)]; [cols] is empty on
    return. *)
Definition PreparePat (m : CsxManager) (cols : list Z) : result CsxManager :=
  match cols with
  | [] => Ok m
  | _ => AddCols m cols
  end.

(** [Encoding::GetBlockAlignment] of the type, and the distance of a
    block-row type from [Encoding::BlockRowMin]. *)
Definition is_block_row (t : SpmIterOrder) : bool :=
  match t with
  | BLOCK_R1 | BLOCK_R2 | BLOCK_R3 | BLOCK_R4
  | BLOCK_R5 | BLOCK_R6 | BLOCK_R7 | BLOCK_R8 => true
  | _ => false
  end.

Definition is_block_col (t : SpmIterOrder) : bool :=
  match t with
  | BLOCK_C1 | BLOCK_C2 | BLOCK_C3 | BLOCK_C4
  | BLOCK_C5 | BLOCK_C6 | BLOCK_C7 | BLOCK_C8 => true
  | _ => false
  end.

(** [void UpdateRowSpan(const Element<IndexType, ValueType> &elem)] *)
Definition UpdateRowSpan (m : CsxManager) (p : Pattern) : CsxManager :=
  let '(t, delta) := GetInstantiation p in
  let size := getSize p in
  let span :=
    match t with
    | VERTICAL | DIAGONAL | REV_DIAGONAL => wrap64 ((size - 1) * delta)
    | _ =>
        if is_block_row t then isBlockType t - 1
        else if is_block_col t then wrap64 (size / isBlockType t - 1)
        else 0
    end in
  if span_ m <? span then set_span m span else m.

(** [values_[values_idx_++] = v] *)
Definition put_value (m : CsxManager) (v : V) : result CsxManager :=
  _ ← assert (values_idx_ m <? length (values_ m))%nat OutOfBounds;
  Ok (set_values m (<[values_idx_ m := v]> (values_ m)) (S (values_idx_ m))).

(** [copy(elem_vals, elem_vals + size, values_ + values_idx_);
     values_idx_ += size;] *)
Fixpoint put_values (n : nat) (m : CsxManager) (vals : list V) (i : nat)
  : result CsxManager :=
  match n with
  | O => Ok m
  | S n' =>
      v ← of_option (vals !! i) OutOfBounds;
      m ← put_value m v;
      put_values n' m vals (S i)
  end.

(** The body of the loops of [DoRow] and [DoSymRow]. *)
Definition DoRow_elem (acc : CsxManager * list Z) (e : SpmRowElem V)
  : result (CsxManager * list Z) :=
  let '(m, cols) := acc in
  match e with
  | PatElem x p vals =>
      let m := UpdateRowSpan m p in
      m ← PreparePat m cols;
      let cols : list Z := [] in
      _ ← assert (length cols =? 0)%nat ColsPending;
      m ← AddPattern m x p;
      m ← put_values (Z.to_nat (getSize p)) m vals 0;
      Ok (m, cols)
  | Elem x v =>
      _ ← assert (Z.of_nat (length cols) <=? CTL_SIZE_MAX) UnitTooLarge;
      '(m, cols) ←
        (if Z.of_nat (length cols) =? CTL_SIZE_MAX
         then m ← AddCols m cols; Ok (m, [])
         else Ok (m, cols));
      m ← put_value m v;
      Ok (m, cols ++ [x])
  end.

(** [void DoRow(rbegin, rend, row)] *)
Definition DoRow (m : CsxManager) (row : list (SpmRowElem V))
  : result CsxManager :=
  let m := set_span m 0 in
  let m := set_last_col m 1 in
  '(m, cols) ← Drle.foldM DoRow_elem row (m, []);
  match cols with
  | [] => Ok m
  | _ => AddCols m cols
  end.

(** The elements the first loop of [DoSymRow] takes: those before the
    first whose column is not below [GetRowStart() + 1]. *)
Fixpoint sym_split (row_start : Z) (row : list (SpmRowElem V))
  : list (SpmRowElem V) * list (SpmRowElem V) :=
  match row with
  | [] => ([], [])
  | e :: row' =>
      if x_of e <? row_start + 1
      then let '(a, b) := sym_split row_start row' in (e :: a, b)
      else ([], row)
  end.

(** [void DoSymRow(rstart, rend)] *)
Definition DoSymRow (m : CsxManager) (row : list (SpmRowElem V))
  : result CsxManager :=
  let m := set_span m 0 in
  let m := set_last_col m 1 in
  let '(row1, row2) := sym_split (row_start_ (spm_ m)) row in
  '(m, cols) ← Drle.foldM DoRow_elem row1 (m, []);
  m ← (match cols with
       | [] => Ok m
       | _ => AddCols m cols
       end);
  '(m, cols) ← Drle.foldM DoRow_elem row2 (m, []);
  match cols with
  | [] => Ok m
  | _ => AddCols m cols
  end.

(** [rows_info_[i] = ...] *)
Definition put_row_info (m : CsxManager) (i : nat) (ri : row_info_t)
  : result CsxManager :=
  _ ← assert (i <? length (rows_info_ m))%nat OutOfBounds;
  Ok (set_rows_info m (<[i := ri]> (rows_info_ m))).

Definition get_row_info (m : CsxManager) (i : nat) : result row_info_t :=
  of_option (rows_info_ m !! i) OutOfBounds.

(** The body of the two loops over the stored rows of [MakeCsx], with
    the row index [i].  The members of [rows_info_[i]] are assigned one by
    one in the source, and together here once the row is done. *)
Definition MakeCsx_row (symmetric : bool) (acc : CsxManager * nat)
    (row : list (SpmRowElem V)) : result (CsxManager * nat) :=
  let '(m, i) := acc in
  let next m :=
    if symmetric then m else set_curr_row m (wrap64 (curr_row_ m + 1)) in
  _ ← assert (i <? length (rows_info_ m))%nat OutOfBounds;
  match row with
  | [] =>
      (* Check if row is empty. *)
      '(m, rowptr) ←
        (if negb (new_row_ m)
         then Ok (set_row_state m true (empty_rows_ m) (row_jmps_ m), 0)
         else
           let m := set_row_state m (new_row_ m) (wrap64 (empty_rows_ m + 1))
                      (row_jmps_ m) in
           _ ← assert (0 <? i)%nat OutOfBounds;
           prev ← get_row_info m (i - 1);
           Ok (m, rowptr prev));
      m ← put_row_info m i {| rowptr := rowptr; valptr := 0; span := 0 |};
      Ok (next m, S i)
  | _ =>
      let rowptr := if (0 <? i)%nat then Z.of_nat (length (ctl_bld_ m)) else 0 in
      let valptr := Z.of_nat (values_idx_ m) in
      m ← (if symmetric then DoSymRow m row else DoRow m row);
      m ← put_row_info m i
            {| rowptr := rowptr; valptr := valptr; span := span_ m |};
      let m := set_row_state m true (empty_rows_ m) (row_jmps_ m) in
      Ok (next m, S i)
  end.

(** [for (i = GetRowptrSize() - 1; i < GetNrRows(); i++)]: the rows
    after the stored ones. *)
Fixpoint MakeCsx_tail (n : nat) (m : CsxManager) (i : nat)
  : result CsxManager :=
  match n with
  | O => Ok m
  | S n' =>
      _ ← assert (0 <? i)%nat OutOfBounds;
      prev ← get_row_info m (i - 1);
      m ← put_row_info m i {| rowptr := rowptr prev; valptr := 0; span := 0 |};
      MakeCsx_tail n' m (S i)
  end.

(** [CsxMatrix<IndexType, ValueType>] *)
Record CsxMatrix := {
  nnz : Z;
  nrows : Z;
  ncols : Z;
  row_start : Z;
  row_jumps : bool;
  ctl_size : Z;
  ctl : list Z;
  values : list V;
  rows_info : list row_info_t;
  id_map : list (Z * Z);
}.

(** [AddMappings]: the pairs of a flag and its pattern id, and the
    terminator at index [patterns.size()]. *)
Definition AddMappings (m : CsxManager) : list (Z * Z) :=
  map (fun kv : Z * PatInfo => (flag kv.2, kv.1)) (map_to_list (patterns m))
  ++ [(Z.of_nat (size (patterns m)), -1)].

(** [CsxMatrix *MakeCsx(bool symmetric)].  [junk] and [junk_info] are the
    contents of the arrays that [new] returns for [values_] and
    [rows_info_]. *)
Definition MakeCsx (junk : nat -> V) (junk_info : nat -> row_info_t)
    (m : CsxManager) (symmetric : bool) : result (CsxMatrix * CsxManager) :=
  let m := set_values m (map junk (seq 0 (Z.to_nat (nr_nzeros_ (spm_ m))))) 0 in
  let m := set_rows_info m
             (map junk_info (seq 0 (Z.to_nat (nr_rows_ (spm_ m))))) in
  let m := set_row_state m false (empty_rows_ m) (row_jmps_ m) in
  let m := if symmetric then m else set_curr_row m 0 in
  '(m, i) ← Drle.foldM (MakeCsx_row symmetric) (rows (spm_ m)) (m, 0%nat);
  m ← MakeCsx_tail (Z.to_nat (nr_rows_ (spm_ m)) - i) m i;
  _ ← assert (Z.of_nat (values_idx_ m) =? nr_nzeros_ (spm_ m)) NnzMismatch;
  let csx :=
    {| nnz := nr_nzeros_ (spm_ m); nrows := nr_rows_ (spm_ m);
       ncols := nr_cols_ (spm_ m); row_start := row_start_ (spm_ m);
       row_jumps := row_jmps_ m;
       ctl_size := Z.of_nat (length (ctl_bld_ m)); ctl := ctl_bld_ m;
       values := values_ m; rows_info := rows_info_ m;
       id_map := AddMappings m |} in
  Ok (csx, set_rows_info (set_values m [] 0) []).

(** The constructor: [flag_avail_(0), row_jmps_(false),
    full_column_indices_(false), last_col_(0), empty_rows_(0)] and an
    empty builder; [uninit] gives the members the constructor does not
    initialize ([values_], [rows_info_], [span_], [values_idx_],
    [new_row_], [curr_row_]). *)
Definition CsxManager_new (spm : SPM V) (uninit : CsxManager) : CsxManager :=
  {| spm_ := spm; patterns := ∅; flag_avail_ := 0; row_jmps_ := false;
     full_column_indices_ := false;
     values_ := values_ uninit; rows_info_ := rows_info_ uninit;
     span_ := span_ uninit; values_idx_ := values_idx_ uninit;
     ctl_bld_ := []; last_col_ := 0; new_row_ := new_row_ uninit;
     empty_rows_ := 0; curr_row_ := curr_row_ uninit |}.

(** [SetFullColumnIndices(val)] *)
Definition SetFullColumnIndices (m : CsxManager) (val : bool) : CsxManager :=
  {| spm_ := spm_ m; patterns := patterns m; flag_avail_ := flag_avail_ m;
     row_jmps_ := row_jmps_ m; full_column_indices_ := val;
     values_ := values_ m; rows_info_ := rows_info_ m; span_ := span_ m;
     values_idx_ := values_idx_ m; ctl_bld_ := ctl_bld_ m;
     last_col_ := last_col_ m; new_row_ := new_row_ m;
     empty_rows_ := empty_rows_ m; curr_row_ := curr_row_ m |}.

End Assembler.
Arguments CsxManager : clear implicits.
Arguments CsxMatrix : clear implicits.

End CsxManager.


(** ** Notions used to state the properties of the assembler *)

Module CsxSpec.
Import Spm Csx.

Definition sumZ (l : list Z) : Z := fold_right Z.add 0 l.

(** The size byte of a unit: the byte after its flags byte. *)
Definition unit_size (ctl : list Z) (u : nat * nat) : Z :=
  default 0 (ctl !! S u.1).

Definition unit_sizes (ctl : list Z) (us : list (nat * nat)) : list Z :=
  map (unit_size ctl) us.

(** The [CTL_RJMP] bit of the flags byte at offset [off]. *)
Definition unit_rjmp (ctl : list Z) (off : nat) : bool :=
  Z.testbit (default 0 (ctl !! off)) Ctl.CTL_RJMP_BIT.

(** The header that a call added at the end of [ctl], giving [ctl'], when
    [empty_rows] empty rows were counted: the [CTL_RJMP] bit of its flags
    byte is set exactly when [empty_rows] is not zero; its two bytes are
    followed by the varint of [empty_rows + 1] in that case, and by
    nothing otherwise, before the column reference [colref]. *)
Definition rjmp_header (ctl ctl' : list Z) (empty_rows : Z)
    (colref : list Z) : Prop :=
  (unit_rjmp ctl' (length ctl) = true <-> empty_rows <> 0)
  /\ exists rj rest,
       drop (length ctl + 2) ctl' = rj ++ colref ++ rest
       /\ (empty_rows <> 0 ->
           Varint.da_put_ul [] (empty_rows + 1) = Some rj)
       /\ (empty_rows = 0 -> rj = []).

(** The sums of the proper prefixes of a list, from [acc] on. *)
Fixpoint psums (acc : Z) (l : list Z) : list Z :=
  match l with
  | [] => []
  | x :: l' => acc :: psums (acc + x) l'
  end.

Section Values.
Context {V : Type}.

(** The state of the assembler between two steps: the array [values_]
    has [N] entries, the first [values_idx_] of them are [W]; every unit
    of the history has its two header bytes in the buffer; the sizes of
    the units and the [pend] values not yet in a unit add up to
    [values_idx_]; the first value of every unit comes right after the
    values of the units before it. *)
Definition csx_inv (N : nat) (W : list V) (pend : Z) (m : CsxManager V)
  : Prop :=
  length (values_ m) = N
  /\ (values_idx_ m <= N)%nat
  /\ take (values_idx_ m) (values_ m) = W
  /\ Forall (fun u => (S u.1 < length (ctl_da_ m))%nat) (units m)
  /\ 0 <= sumZ (unit_sizes (ctl_da_ m) (units m))
  /\ sumZ (unit_sizes (ctl_da_ m) (units m)) + pend
     = Z.of_nat (values_idx_ m)
  /\ map (fun u => Z.of_nat u.2) (units m)
     = psums 0 (unit_sizes (ctl_da_ m) (units m)).

(** What a unit adds to the manager: two header bytes, the second being
    [size], possibly more bytes, and an entry of the history. *)
Definition unit_step (m m' : CsxManager V) (size : Z) (vstart : nat) : Prop :=
  exists f tail,
    ctl_da_ m' = ctl_da_ m ++ [f; size] ++ tail
    /\ units m' = units m ++ [(length (ctl_da_ m), vstart)]
    /\ values_ m' = values_ m
    /\ values_idx_ m' = values_idx_ m
    /\ spm_ m' = spm_ m.

(** The flags handed out so far are within the six bits of a flags
    byte. *)
Definition flags_ok (m : CsxManager V) : Prop :=
  0 <= flag_avail_ m
  /\ forall id pi, patterns m !! id = Some pi -> 0 <= flag pi <= Ctl.CTL_PATTERNS_MAX.

(** No empty row is counted while the current row has a unit. *)
Definition row_ok (m : CsxManager V) : Prop :=
  (new_row_ m = false -> empty_rows_ m = 0)
  /\ 0 <= empty_rows_ m < 2 ^ 64 - 1.

(** The values of an element, in the order the assembler copies them. *)
Definition elem_vals (e : SpmRowElem V) : list V :=
  match e with
  | Elem _ v => [v]
  | PatElem _ p vals => take (Z.to_nat (getSize p)) vals
  end.

Definition row_vals (row : list (SpmRowElem V)) : list V :=
  flat_map elem_vals row.

Definition spm_vals (spm : SPM V) : list V :=
  flat_map row_vals (rows spm).

(** A pattern does not have a negative size. *)
Definition sized_elem (e : SpmRowElem V) : Prop :=
  match e with
  | Elem _ _ => True
  | PatElem _ p _ => 0 <= getSize p
  end.

Definition sized_spm (spm : SPM V) : Prop :=
  Forall (Forall sized_elem) (rows spm).

End Values.

(** The empty rows counted when a row that is not empty is reached after
    [k] empty rows: all of them, but one less when the partition starts
    with them ([pre], the rows before them, is empty), for an empty first
    row is not counted. *)
Definition counted_empty_rows {A} (pre : list A) (k : nat) : Z :=
  match pre with
  | [] => Z.of_nat (k - 1)
  | _ :: _ => Z.of_nat k
  end.

End CsxSpec.


Module CsxManagerSpec.
Import Spm CsxManager.

Section Flags.
Context {V : Type}.

(** The flags handed out so far are within the six bits of a flags
    byte. *)
Definition flags_ok (m : CsxManager V) : Prop :=
  0 <= flag_avail_ m
  /\ forall id pi, patterns m !! id = Some pi -> 0 <= flag pi <= Ctl.CTL_PATTERNS_MAX.

(** No empty row is counted while the current row has a unit. *)
Definition row_ok (m : CsxManager V) : Prop :=
  (new_row_ m = false -> empty_rows_ m = 0)
  /\ 0 <= empty_rows_ m < 2 ^ 64 - 1.

(** The members that the flags and the rows depend on. *)
Definition same_rows_state (m m' : CsxManager V) : Prop :=
  new_row_ m' = new_row_ m /\ empty_rows_ m' = empty_rows_ m
  /\ patterns m' = patterns m /\ flag_avail_ m' = flag_avail_ m.

(** The column reference of a unit written at position [pos]: a varint,
    or a fixed-width integer when the manager uses full column
    indices. *)
Definition colref_at (sizeof_IndexType : Z) (full : bool) (pos : nat)
    (ucol : Z) : option (list Z) :=
  if full
  then Some (Ctl.align_pad pos sizeof_IndexType
             ++ Ctl.le_bytes (Z.to_nat sizeof_IndexType) ucol)
  else Varint.da_put_ul [] ucol.

(** *** Two runs of the assembler *)

(** The members that are the same in two runs. *)
Definition same_core (m1 m2 : CsxManager V) : Prop :=
  spm_ m1 = spm_ m2
  /\ patterns m1 = patterns m2
  /\ flag_avail_ m1 = flag_avail_ m2
  /\ row_jmps_ m1 = row_jmps_ m2
  /\ full_column_indices_ m1 = full_column_indices_ m2
  /\ values_idx_ m1 = values_idx_ m2
  /\ ctl_bld_ m1 = ctl_bld_ m2
  /\ last_col_ m1 = last_col_ m2
  /\ new_row_ m1 = new_row_ m2
  /\ empty_rows_ m1 = empty_rows_ m2.

(** Two runs agree on what they have written: the members above, the
    [values_idx_] values written, the [i] entries of [rows_info_]
    written, and [span_] once a row has set it ([sp]); the matrix is
    [spm0] and the arrays have [Lv] and [Lr] entries. *)
Definition same_written (spm0 : SPM V) (Lv Lr : nat) (sp : bool) (i : nat)
    (m1 m2 : CsxManager V) : Prop :=
  same_core m1 m2
  /\ spm_ m1 = spm0
  /\ (sp = true -> span_ m1 = span_ m2)
  /\ length (values_ m1) = Lv /\ length (values_ m2) = Lv
  /\ take (values_idx_ m1) (values_ m1) = take (values_idx_ m2) (values_ m2)
  /\ length (rows_info_ m1) = Lr /\ length (rows_info_ m2) = Lr
  /\ take i (rows_info_ m1) = take i (rows_info_ m2).

(** Two runs agree on the state of the loop of [DoRow]. *)
Definition same_cols (spm0 : SPM V) (Lv Lr : nat) (i : nat) (a1 a2 : CsxManager V * list Z) : Prop :=
  a1.2 = a2.2 /\ same_written spm0 Lv Lr true i a1.1 a2.1.

(** Two runs agree on the state of the loop over the rows. *)
Definition same_rows (spm0 : SPM V) (Lv Lr : nat) (a1 a2 : CsxManager V * nat) : Prop :=
  a1.2 = a2.2 /\ same_written spm0 Lv Lr false a1.2 a1.1 a2.1.


End Flags.

End CsxManagerSpec.

(** ** The pipeline *)

Module Pipeline.
Import Spm.

(** Modelled from the spec: the driver that runs the planner and then
    the assembler is not among the sources.  Section 2 of the spec:
    "planner loop {statistics, score, transform, encode, restore
    horizontal}, final SparsePartition, CSX assembler".  The assembler is
    constructed on the partition the planner leaves, its
    [full_column_indices_] is set, and [MakeCsx] is called. *)
Definition pipeline {V} (Transform : SpmIterOrder -> SPM V -> SPM V)
    (sizeof_IndexType : Z)
    (junk : nat -> V) (junk_info : nat -> CsxManager.row_info_t)
    (uninit : CsxManager.CsxManager V)
    (m : Drle.DRLE_Manager V) (full_column_indices symmetric : bool)
  : result (CsxManager.CsxMatrix V) :=
  '(m', _) ← Drle.EncodeAll Transform m;
  let csx_mgr :=
    CsxManager.SetFullColumnIndices
      (CsxManager.CsxManager_new (Drle.spm m') uninit) full_column_indices in
  '(csx, _) ← CsxManager.MakeCsx sizeof_IndexType junk junk_info csx_mgr
                 symmetric;
  Ok csx.

End Pipeline.


(** ** Concrete partitions and managers *)

Module Examples.
Import Spm.

Definition mk_spm (nnz : Z) (rws : list (list (SpmRowElem Z))) : SPM Z :=
  {| type := HORIZONTAL; nr_rows_ := Z.of_nat (length rws); nr_cols_ := 2000;
     nr_nzeros_ := nnz; row_start_ := 0; rows := rws |}.

(** Four rows, the second and the third empty; the last has a plain
    element, a horizontal run of three and two more plain elements. *)
Definition spm_mixed : SPM Z :=
  mk_spm 7
    [ [Elem 1 10]; []; [];
      [Elem 2 11; PatElem 5 (DeltaRLE 3 1 HORIZONTAL) [1; 2; 3];
       Elem 300 7; Elem 1000 8] ].

(** One row with one pattern of 256 elements. *)
Definition spm_big_pattern : SPM Z :=
  mk_spm 256 [ [PatElem 1 (DeltaRLE 256 1 HORIZONTAL) (replicate 256 0)] ].

Definition junk : nat -> Z := fun _ => -1.

(** The manager of csx.cc after [GetFlag] was called for every id of
    [ids], each a new pattern of one element. *)
Definition Csx_GetFlag_ids (ids : list Z) (m : Csx.CsxManager Z)
  : result (Csx.CsxManager Z) :=
  Drle.foldM (fun m id => '(_, m') ← Csx.GetFlag m id 1; Ok m') ids m.

Definition CsxManager_GetFlag_ids (ids : list Z)
    (m : CsxManager.CsxManager Z) : result (CsxManager.CsxManager Z) :=
  Drle.foldM (fun m id => '(_, m') ← CsxManager.GetFlag m id 1; Ok m') ids m.

(** The ids 0, 1, ..., 62. *)
Definition ids63 : list Z := map Z.of_nat (seq 0 63).

(** A transformation that keeps the rows and sets the order.  On a
    partition in horizontal order it is what [Transform(HORIZONTAL)]
    does: nothing. *)
Definition Transform_retag (t : SpmIterOrder) (p : SPM Z) : SPM Z :=
  {| type := t; nr_rows_ := nr_rows_ p; nr_cols_ := nr_cols_ p;
     nr_nzeros_ := nr_nzeros_ p; row_start_ := row_start_ p;
     rows := rows p |}.

(** Every iteration order after [HORIZONTAL]. *)
Definition all_but_horizontal : gset SpmIterOrder :=
  list_to_set (drop 2 SpmTypes).

(** One row with five elements at the columns 1 to 5. *)
Definition spm_run : SPM Z :=
  mk_spm 5 [ [Elem 1 10; Elem 2 20; Elem 3 30; Elem 4 40; Elem 5 50] ].

(** A manager before its first statistics pass; nothing is below
    [min_perc]. *)
Definition drle_manager (s : SPM Z) (min_limit max_limit : Z)
    (ignore : gset SpmIterOrder) : Drle.DRLE_Manager Z :=
  {| Drle.spm := s; Drle.min_limit := min_limit; Drle.max_limit := max_limit;
     Drle.below_min_perc := fun _ _ => false; Drle.stats := ∅;
     Drle.DeltasToEncode := ∅; Drle.xforms_ignore := ignore |}.


(** A manager of drle.cc that encodes the delta 1 of the horizontal
    order in runs of at least two elements. *)
Definition drle_encoding : Drle.DRLE_Manager Z :=
  {| Drle.spm := spm_run; Drle.min_limit := 2; Drle.max_limit := 254;
     Drle.below_min_perc := fun _ _ => false; Drle.stats := ∅;
     Drle.DeltasToEncode := {[ HORIZONTAL := {[ 1 ]} ]};
     Drle.xforms_ignore := ∅ |}.

(** The members that the constructor of CsxManager.hpp does not
    assign. *)
Definition uninit : CsxManager.CsxManager Z :=
  {| CsxManager.spm_ := spm_run; CsxManager.patterns := ∅;
     CsxManager.flag_avail_ := 0; CsxManager.row_jmps_ := false;
     CsxManager.full_column_indices_ := false;
     CsxManager.values_ := []; CsxManager.rows_info_ := [];
     CsxManager.span_ := 7; CsxManager.values_idx_ := 3;
     CsxManager.ctl_bld_ := []; CsxManager.last_col_ := 0;
     CsxManager.new_row_ := true; CsxManager.empty_rows_ := 0;
     CsxManager.curr_row_ := 9 |}.

(** Two rows, the first of them empty. *)
Definition spm_leading_empty : SPM Z :=
  mk_spm 1 [ []; [Elem 2 10] ].

(** Every iteration order but [t]. *)
Definition all_but (t : SpmIterOrder) : gset SpmIterOrder :=
  list_to_set (filter (fun t' => t' <> t) SpmTypes).

(** One row with five elements at the columns 2 to 6. *)
Definition spm_run_from_2 : SPM Z :=
  mk_spm 5 [ [Elem 2 10; Elem 3 20; Elem 4 30; Elem 5 40; Elem 6 50] ].

(** The content of the array [new] returns for [rows_info_]. *)
Definition junk_info : nat -> CsxManager.row_info_t :=
  fun _ => {| CsxManager.rowptr := -1; CsxManager.valptr := -1;
              CsxManager.span := -1 |}.

(** The ids 0, 1, ..., 63, and the managers after [GetFlag] was called
    for each of them: the 64 flags 0 to 63 are handed out. *)
Definition ids64 : list Z := map Z.of_nat (seq 0 64).

Definition csx_full : Csx.CsxManager Z :=
  match Csx_GetFlag_ids ids64 (Csx.CsxManager_new spm_mixed) with
  | Ok m => m
  | Fail _ => Csx.CsxManager_new spm_mixed
  end.

Definition csxm_full : CsxManager.CsxManager Z :=
  match CsxManager_GetFlag_ids ids64
          (CsxManager.CsxManager_new spm_mixed uninit) with
  | Ok m => m
  | Fail _ => CsxManager.CsxManager_new spm_mixed uninit
  end.

End Examples.


(** ** Notions used to state the properties of drle.cc *)

Module DrleSpec.
Import Spm Drle.

(** The runs [(val, freq)] that count for a delta value [v]: those of
    that value with [freq >= min_limit]. *)
Definition counts (min_limit v : Z) (rle : RLE) : bool :=
  (val rle =? v) && (min_limit <=? freq rle).

Definition runs_nnz (min_limit v : Z) (rles : list RLE) : Z :=
  CsxSpec.sumZ (map freq (filter (fun r => counts min_limit v r = true) rles)).

Definition runs_npatterns (min_limit v : Z) (rles : list RLE) : Z :=
  Z.of_nat (length (filter (fun r => counts min_limit v r = true) rles)).

(** The items a list of runs stands for. *)
Definition expand (rles : list RLE) : list Z :=
  flat_map (fun r => replicate (Z.to_nat (freq r)) (val r)) rles.

(** The number of items the runs stand for. *)
Definition total_freq (rles : list RLE) : nat := length (expand rles).

(** No two neighbours of a list of runs have the same value. *)
Fixpoint maximal (rles : list RLE) : Prop :=
  match rles with
  | [] => True
  | r :: rles' =>
      match rles' with
      | [] => True
      | r' :: _ => val r <> val r'
      end /\ maximal rles'
  end.

Section Rows.
Context {V : Type}.

(** The columns of the plain elements of a row, cut at every pattern
    element; [cur] is the part already gathered. *)
Fixpoint segments (cur : list Z) (row : list (SpmRowElem V))
  : list (list Z) :=
  match row with
  | [] => [cur]
  | Elem x _ :: row' => segments (cur ++ [x]) row'
  | PatElem _ _ _ :: row' => cur :: segments [] row'
  end.

(** The delta run-length encoding of every segment of a row. *)
Definition row_runs (row : list (SpmRowElem V)) : list RLE :=
  flat_map (fun xs => RLEncode (DeltaEncode xs)) (segments [] row).

(** The types the planner can still choose. *)
Definition candidates (m : DRLE_Manager V) : list SpmIterOrder :=
  filter (fun t => t ∉ xforms_ignore m) (drop 1 SpmTypes).

(** *** [do_encode] in the words of the spec

    The three definitions below follow section 4.4 of the spec, not the
    source; they are compared with [doEncode] of drle.cc.  A run is
    encoded from the column [col] reached so far and the values [vs] not
    yet taken. *)

(** "while [freq >= min_limit]: take [chunk = min(max_limit, freq)]; emit
    a single pattern-bearing element at anchor column [col + val] with
    descriptor [(type, delta=val, size=chunk)] and [chunk] values from
    [vs]; advance [col] by [val x chunk]; subtract [chunk] from [freq]."
    Returns the elements, and the [freq], [col] and [vs] that remain. *)
Fixpoint spec_patterns (rounds : nat) (t : SpmIterOrder)
    (min_limit max_limit val freq col : Z) (vs : list V)
  : list (SpmRowElem V) * (Z * Z * list V) :=
  if freq <? min_limit then ([], (freq, col, vs))
  else
    match rounds with
    | O => ([], (freq, col, vs))
    | S rounds' =>
        let chunk := Z.min max_limit freq in
        let '(l, fin) :=
          spec_patterns rounds' t min_limit max_limit val (freq - chunk)
            (wrap64 (col + val * chunk)) (drop (Z.to_nat chunk) vs) in
        (PatElem (wrap64 (col + val)) (DeltaRLE chunk val t)
           (take (Z.to_nat chunk) vs) :: l, fin)
    end.

(** "Emit remaining [freq] as plain elements, one per step of [val]." *)
Fixpoint spec_plain (n : nat) (val col : Z) (vs : list V)
  : list (SpmRowElem V) * (Z * list V) :=
  match n, vs with
  | S n', v :: vs' =>
      let '(l, fin) := spec_plain n' val (wrap64 (col + val)) vs' in
      (Elem (wrap64 (col + val)) v :: l, fin)
  | _, _ => ([], (col, vs))
  end.

(** "For each run [(val, freq)]: if [val] is in [deltas_to_encode[type]],
    ... Emit remaining [freq] as plain elements". *)
Definition spec_run (t : SpmIterOrder) (min_limit max_limit : Z)
    (deltas : gset Z) (acc : list (SpmRowElem V) * (Z * list V)) (rle : RLE)
  : list (SpmRowElem V) * (Z * list V) :=
  let '(out, (col, vs)) := acc in
  let '(pats, (freq', col, vs)) :=
    if decide (val rle ∈ deltas)
    then spec_patterns (S (Z.to_nat (freq rle))) t min_limit max_limit
           (val rle) (freq rle) col vs
    else ([], (freq rle, col, vs)) in
  let '(plain, fin) := spec_plain (Z.to_nat freq') (val rle) col vs in
  (out ++ pats ++ plain, fin).

(** "[do_encode(xs, vs)] for non-block types: compute
    [delta_rle = rle(delta_encode(xs))]. For each run ..." *)
Definition spec_do_encode (t : SpmIterOrder) (min_limit max_limit : Z)
    (deltas : gset Z) (xs : list Z) (vs : list V) : list (SpmRowElem V) :=
  fst (fold_left (spec_run t min_limit max_limit deltas)
         (RLEncode (DeltaEncode xs)) ([], (0, vs))).

(** *** The elements of a row as [DecodeRow] sees them *)

(** The plain elements at [x], [x + step], ... with the values [vals]. *)
Fixpoint plain_run (x step : Z) (vals : list V) : list (SpmRowElem V) :=
  match vals with
  | [] => []
  | v :: vals' => Elem x v :: plain_run (wrap64 (x + step)) step vals'
  end.

(** The step of [getNextX] for a pattern. *)
Definition step_of (p : Pattern) : Z :=
  match p with
  | DeltaRLE _ delta _ => delta
  | BlockRLE _ _ _ => 1
  end.

(** The plain elements that an element of a row in order [t] stands
    for: a pattern of that order stands for its [getSize] elements, any
    other element for itself. *)
Definition decode_elem (t : SpmIterOrder) (e : SpmRowElem V)
  : list (SpmRowElem V) :=
  match e with
  | PatElem x p vals =>
      if decide (type_of p = t)
      then plain_run x (step_of p) (take (Z.to_nat (getSize p)) vals)
      else [e]
  | Elem _ _ => [e]
  end.

Definition decode_row (t : SpmIterOrder) (row : list (SpmRowElem V))
  : list (SpmRowElem V) :=
  flat_map (decode_elem t) row.

(** A pattern of order [t] has its [getSize] values. *)
Definition wf_elem (t : SpmIterOrder) (e : SpmRowElem V) : Prop :=
  match e with
  | PatElem x p vals =>
      type_of p = t -> (Z.to_nat (getSize p) <= length vals)%nat
  | Elem _ _ => True
  end.

(** The plain elements at the columns reached from [col] by the deltas
    [ds], with the values [vals]. *)
Fixpoint plain_deltas (col : Z) (ds : list Z) (vals : list V)
  : list (SpmRowElem V) :=
  match ds, vals with
  | d :: ds', v :: vals' =>
      Elem (wrap64 (col + d)) v :: plain_deltas (wrap64 (col + d)) ds' vals'
  | _, _ => []
  end.

(** The effect of a loop on the row being built: the elements [l] were
    appended, they are well formed and they stand for the plain elements
    [d]. *)
Definition appended (t : SpmIterOrder) (st st' : enc_state)
    (d : list (SpmRowElem V)) : Prop :=
  exists l, st_newrow st' = st_newrow st ++ l
            /\ Forall (wf_elem t) l /\ decode_row t l = d.

(** The effect of a call that may also take back the last element of
    the row being built: the row stands for what it stood for before,
    followed by the plain elements [d]; it stays well formed. *)
Definition viewed (t : SpmIterOrder) (st st' : enc_state)
    (d : list (SpmRowElem V)) : Prop :=
  decode_row t (st_newrow st') = decode_row t (st_newrow st) ++ d
  /\ (Forall (wf_elem t) (st_newrow st) -> Forall (wf_elem t) (st_newrow st')).

(** The last element of the row being built is plain, at the current
    column, with the value before the value iterator. *)
Definition last_plain (vs : list V) (st : enc_state) : Prop :=
  exists nr v i, st_newrow st = nr ++ [Elem (wrap64 (st_col st)) v]
                 /\ st_vi st = S i /\ vs !! i = Some v.

(** The limits under which the encoder of a row returns: [min_limit]
    and [max_limit] are at least 1, and [max_limit], a [uint64_t] when
    it is aligned, holds a block of two lines of a block order. *)
Definition limits_ok (m : DRLE_Manager V) : Prop :=
  1 <= min_limit m
  /\ 1 <= max_limit m < 2 ^ 64
  /\ 2 * isBlockType (type (spm m)) <= max_limit m.

(** A row of plain elements whose columns are [uint64_t] values and
    whose length fits the [long] that counts a run. *)
Definition plain_row (row : list (SpmRowElem V)) : Prop :=
  Forall (fun e => is_plain e = true /\ is_u64 (x_of e)) row
  /\ Z.of_nat (length row) < 2 ^ 63.

(** A partition of plain rows. *)
Definition plain_spm (p : SPM V) : Prop := Forall plain_row (rows p).


End Rows.

End DrleSpec.


Module CodecSpec.

(** The number a varint stands for: the low seven bits of its bytes,
    least significant group first. *)
Definition varint_value (bs : list Z) : Z :=
  fold_right (fun b acc => Z.land b 127 + 128 * acc) 0 bs.

(** A varint: bytes with the high bit set, closed by one byte below
    128. *)
Definition varint_wf (bs : list Z) : Prop :=
  exists init l, bs = init ++ [l]
                 /\ Forall (fun b => 128 <= b < 256) init /\ 0 <= l < 128.

(** The number the bytes of a fixed-width item stand for, least
    significant byte first. *)
Definition le_value (bs : list Z) : Z :=
  fold_right (fun b acc => b + 256 * acc) 0 bs.

(** The columns a reader gets back from deltas: every delta is added to
    the column before it ([uint64_t] addition), the first one to
    [prev]. *)
Fixpoint DeltaDecode (prev : Z) (ds : list Z) : list Z :=
  match ds with
  | [] => []
  | d :: ds' => wrap64 (prev + d) :: DeltaDecode (wrap64 (prev + d)) ds'
  end.

End CodecSpec.


(** ** Notions used to state the statistics of a partition *)

Module StatsSpec.
Import Spm Drle DrleSpec.

(** The first differences of a sequence of columns ([uint64_t]
    subtraction): one item less than the sequence. *)
Definition first_differences (xs : list Z) : list Z :=
  zip_with (fun a b => wrap64 (b - a)) xs (drop 1 xs).

(** Run-length encoding: every item joins the run that follows it when
    that run has its value, and starts a run of its own otherwise. *)
Fixpoint rle (l : list Z) : list RLE :=
  match l with
  | [] => []
  | x :: l' =>
      match rle l' with
      | r :: rs =>
          if val r =? x then {| freq := freq r + 1; val := x |} :: rs
          else {| freq := 1; val := x |} :: r :: rs
      | [] => [{| freq := 1; val := x |}]
      end
  end.

(** The delta-RLE of the glossary of the spec: "run-length encoding
    applied to the first-differences of a sorted integer sequence". *)
Definition delta_rle (xs : list Z) : list RLE := rle (first_differences xs).

(** The deltas a vector of columns is counted by: its first column,
    which is its distance from the column 0, and then its first
    differences. *)
Definition column_deltas (xs : list Z) : list Z :=
  match xs with
  | [] => []
  | x0 :: _ => x0 :: first_differences xs
  end.

(** The runs of a partition: those of the vectors of consecutive plain
    elements of its rows, in order. *)
Definition spm_runs {V} (p : SPM V) : list RLE :=
  flat_map (fun row => flat_map (fun xs => rle (column_deltas xs))
                         (segments [] row))
    (rows p).

End StatsSpec.


(** ** What the planner takes *)

Module PlannerSpec.
Import Spm Drle.

Section Rows.
Context {V : Type}.

(** A row the encoder takes: its columns are [uint64_t] values and its
    length fits the [long] that counts a run. *)
Definition encodable_row (row : list (SpmRowElem V)) : Prop :=
  Forall (fun e => is_u64 (x_of e)) row /\ Z.of_nat (length row) < 2 ^ 63.

Definition encodable_spm (p : SPM V) : Prop := Forall encodable_row (rows p).

(** The limits under which the planner returns: [min_limit] is at least
    1, and [max_limit], a [uint64_t] when it is aligned, is at least 1 and
    holds a block of two lines of every block order that is not
    ignored. *)
Definition open_limits (m : DRLE_Manager V) : Prop :=
  1 <= min_limit m
  /\ 1 <= max_limit m < 2 ^ 64
  /\ forall t, t ∉ xforms_ignore m -> 2 * isBlockType t <= max_limit m.

End Rows.

End PlannerSpec.

(** * Properties *)

Section VarintFacts.
Import Varint.

Lemma da_put_ul_small da val :
  0 <= val < 128 -> da_put_ul da val = Some (da ++ [val]).
Proof.
  intros Hv. unfold da_put_ul. cbn [da_put_ul_loop].
  change (Z.shiftl 1 LONGUC_SHIFT) with 128.
  destruct (Z.ltb_spec val 128) as [_|]; [|lia].
  change (128 - 1) with (Z.ones 7). rewrite Z.land_ones by lia.
  rewrite Z.mod_small by lia. reflexivity.
Qed.

(** The value read by the loop does not depend on the bytes it reads,
    only on how many there are. *)
Lemma uc_get_ul_loop_blind ptr1 : forall ptr2 _uc shift _val,
  length ptr1 = length ptr2 ->
  fst <$> uc_get_ul_loop ptr1 _uc shift _val
  = fst <$> uc_get_ul_loop ptr2 _uc shift _val.
Proof.
  induction ptr1 as [|b1 ptr1 IH]; intros [|b2 ptr2] _uc shift _val Hlen;
    cbn [length] in Hlen; try discriminate; [reflexivity|].
  cbn [uc_get_ul_loop]. destruct (64 <=? shift); [reflexivity|].
  destruct (127 <? _uc); [|reflexivity].
  apply IH. congruence.
Qed.

(** After a first byte above 127 the value read is the same whatever the
    bytes that follow are. *)
Lemma uc_get_ul_blind _uc0 b0 ptr1 ptr2 :
  127 < b0 -> length ptr1 = length ptr2 ->
  fst <$> uc_get_ul _uc0 (b0 :: ptr1) = fst <$> uc_get_ul _uc0 (b0 :: ptr2).
Proof.
  intros Hb Hlen. unfold uc_get_ul; cbn [u8_get].
  destruct (Z.ltb_spec 127 b0) as [_|]; [|lia].
  by apply uc_get_ul_loop_blind.
Qed.

Lemma da_put_ul_128 : da_put_ul [] 128 = Some [128; 1].
Proof. reflexivity. Qed.

Lemma da_put_ul_256 : da_put_ul [] 256 = Some [128; 2].
Proof. reflexivity. Qed.

(** A value below 128 is written as one byte and read back. *)
Lemma uc_get_ul_da_put_ul_small _uc0 val :
  0 <= val < 128 ->
  da_put_ul [] val = Some [val] /\ uc_get_ul _uc0 [val] = Some (val, []).
Proof.
  intros Hv. split; [by apply (da_put_ul_small [])|].
  unfold uc_get_ul; cbn [u8_get].
  destruct (Z.ltb_spec 127 val); [lia | reflexivity].
Qed.

(** ** C2 *)

(** C2, varint round trip.  [uc_get_ul] does not read back what
    [da_put_ul] wrote: whatever [_uc] holds when the macro starts, the
    bytes written for 128 and the bytes written for 256 cannot both be
    read back as the value written.  (The macro assigns the byte it reads
    to [uc] and accumulates [_uc].) *)
Theorem uc_get_ul_da_put_ul_128_256 (_uc0 : Z) :
  da_put_ul [] 128 = Some [128; 1]
  /\ da_put_ul [] 256 = Some [128; 2]
  /\ ~ (uc_get_ul _uc0 [128; 1] = Some (128, [])
        /\ uc_get_ul _uc0 [128; 2] = Some (256, [])).
Proof.
  split; [reflexivity|]. split; [reflexivity|].
  intros [H1 H2].
  assert (Hb : fst <$> uc_get_ul _uc0 [128; 1] = fst <$> uc_get_ul _uc0 [128; 2])
    by (apply uc_get_ul_blind; [lia | reflexivity]).
  rewrite H1, H2 in Hb. discriminate.
Qed.

End VarintFacts.

(** ** Facts on the result monad *)

Lemma bind_Ok {A B} (m : result A) (k : A -> result B) (b : B) :
  m ≫= k = Ok b -> exists a, m = Ok a /\ k a = Ok b.
Proof. destruct m as [a|f]; cbn; [eauto | discriminate]. Qed.

Lemma assert_Ok b f : assert b f = Ok tt -> b = true.
Proof. destruct b; [reflexivity | discriminate]. Qed.

Lemma assert_Ok' b f u : assert b f = Ok u -> b = true.
Proof. destruct b; [reflexivity | discriminate]. Qed.

Lemma of_option_Ok {A} (o : option A) f a : of_option o f = Ok a -> o = Some a.
Proof. destruct o; cbn; congruence. Qed.

(** Decompose a hypothesis [x ← m; k = Ok b]. *)
Ltac bind_inv H :=
  let a := fresh "a" in
  let Ha := fresh "Hstep" in
  apply bind_Ok in H; destruct H as (a & Ha & H).

Lemma foldM_app {A B} (f : A -> B -> result A) l1 l2 a :
  Drle.foldM f (l1 ++ l2) a = Drle.foldM f l1 a ≫= Drle.foldM f l2.
Proof.
  revert a; induction l1 as [|b l1 IH]; intros a; cbn; [reflexivity|].
  destruct (f a b) as [a'|]; cbn; [apply IH | reflexivity].
Qed.

(** An invariant of the steps of a monadic fold is an invariant of the
    fold. *)
Lemma foldM_inv {A B} (P : A -> Prop) (f : A -> B -> result A) l :
  (forall a b a', P a -> f a b = Ok a' -> P a') ->
  forall a a', P a -> Drle.foldM f l a = Ok a' -> P a'.
Proof.
  intros Hf. induction l as [|b l IH]; intros a a' Ha H; cbn in H.
  - congruence.
  - bind_inv H. eauto.
Qed.

(** Reduce the projections of the updated managers, and nothing else. *)
Ltac csx_simpl :=
  cbn [Csx.spm_ Csx.patterns Csx.flag_avail_ Csx.ctl_da_ Csx.values_ Csx.values_idx_ Csx.last_col_
       Csx.new_row_ Csx.empty_rows_ Csx.row_jmps_ Csx.units
       Csx.set_patterns Csx.set_ctl Csx.set_values Csx.set_last_col Csx.set_row_state Csx.log_unit
       Csx.reset_units Csx.poke Csx.alloc_head fst snd] in *.


(** ** The assembler of csx.cc: what one unit adds *)

Section CsxUnits.
Import Spm Ctl Delta Csx CsxSpec Varint.
Context {V : Type}.
Implicit Types m : CsxManager V.

Lemma da_put_ul_loop_app n : forall da val da',
  da_put_ul_loop n da val = Some da' -> exists bs, da' = da ++ bs.
Proof.
  induction n as [|n IH]; intros da val da' H; cbn [da_put_ul_loop] in H.
  - discriminate.
  - destruct (val <? Z.shiftl 1 LONGUC_SHIFT).
    + injection H as <-. eauto.
    + apply IH in H as [bs ->]. rewrite <- app_assoc. eauto.
Qed.

Lemma put_ul_spec m val m' :
  put_ul m val = Ok m' -> exists bs, m' = set_ctl m (ctl_da_ m ++ bs).
Proof.
  unfold put_ul. intros H. bind_inv H. apply of_option_Ok in Hstep.
  apply da_put_ul_loop_app in Hstep as [bs ->]. injection H as <-. eauto.
Qed.

Lemma GetFlag_spec m id n ret m' :
  GetFlag m id n = Ok (ret, m') -> exists p fa, m' = set_patterns m p fa.
Proof.
  unfold GetFlag. destruct (patterns m !! id) as [pi|].
  - intros [= <- <-]. eauto.
  - intros H. bind_inv H. injection H as <- <-. cbn. eauto.
Qed.

(** [UpdateNewRow] rewrites the flags byte it is given and appends. *)
Lemma UpdateNewRow_spec m flags m' :
  (flags < length (ctl_da_ m))%nat ->
  UpdateNewRow m flags = Ok m' ->
  exists b bs nr er rj,
    m' = set_row_state (set_ctl m (<[flags := b]> (ctl_da_ m) ++ bs)) nr er rj.
Proof.
  intros Hlt. unfold UpdateNewRow.
  destruct (new_row_ m) eqn:Hnr; cbn [negb].
  2:{ intros [= <-]. exists (peek m flags), [], (new_row_ m), (empty_rows_ m), (row_jmps_ m).
      unfold peek. destruct (lookup_lt_is_Some_2 _ _ Hlt) as [b Hb].
      rewrite Hb; cbn. rewrite list_insert_id by done. rewrite app_nil_r.
      by destruct m. }
  csx_simpl.
  destruct (negb (empty_rows_ m =? 0)).
  - intros H. bind_inv H. apply put_ul_spec in Hstep as [bs ->].
    injection H as <-. csx_simpl. rewrite list_insert_insert_eq. eauto 10.
  - intros [= <-]. eexists _, [], _, _, _. csx_simpl. rewrite app_nil_r. reflexivity.
Qed.

Lemma insert_head_app (c : list Z) f s tail b :
  <[length c := b]> (c ++ f :: s :: tail) = c ++ b :: s :: tail.
Proof.
  rewrite insert_app_r_alt by lia. by rewrite Nat.sub_diag.
Qed.

Lemma insert_size_app (c : list Z) f s tail b :
  <[S (length c) := b]> (c ++ f :: s :: tail) = c ++ f :: b :: tail.
Proof.
  rewrite insert_app_r_alt by lia.
  by replace (S (length c) - length c)%nat with 1%nat by lia.
Qed.

Lemma length_DeltaEncode xs : forall prev,
  length (DeltaEncode xs prev) = length xs.
Proof. induction xs as [|x xs IH]; intros prev; cbn; [done | by rewrite IH]. Qed.

Lemma wrap8_small z : 0 <= z <= 255 -> wrap8 z = z.
Proof. intros. unfold wrap8. apply Z.mod_small. lia. Qed.

Lemma AddXs_spec m xs m' :
  AddXs m xs = Ok m' ->
  unit_step m m' (Z.of_nat (length xs)) (values_idx_ m - length xs)
  /\ (0 < length xs)%nat.
Proof.
  unfold AddXs. intros H.
  bind_inv H. rename a into last_col.
  cbn [alloc_head] in H.
  bind_inv H. destruct a as [ret m1].
  apply GetFlag_spec in Hstep0 as (p & fa & ->).
  bind_inv H. apply assert_Ok' in Hstep0.
  apply andb_prop in Hstep0 as [Hpos Hmax].
  apply Z.ltb_lt in Hpos. apply Z.leb_le in Hmax. unfold CTL_SIZE_MAX in Hmax.
  bind_inv H. rename a0 into m2.
  apply UpdateNewRow_spec in Hstep0 as (b & bs & nr & er & rj & ->).
  2:{ csx_simpl. rewrite !length_insert, length_app; cbn [length]. lia. }
  csx_simpl. rewrite insert_head_app, insert_size_app, insert_head_app in H.
  bind_inv H. bind_inv H. rename a1 into m3.
  apply put_ul_spec in Hstep1 as [bs2 ->]. csx_simpl.
  rewrite wrap8_small in H by lia.
  rewrite length_DeltaEncode in *.
  split; [|lia].
  destruct (1 <? Z.of_nat (length xs)).
  - destruct (getDeltaSize _); try discriminate;
      injection H as <-; cbn;
      eexists b, _; (split; [|done]);
      rewrite <- !app_assoc; cbn; reflexivity.
  - injection H as <-. cbn. eexists b, _. split; [|done].
    rewrite <- !app_assoc; cbn; reflexivity.
Qed.

Lemma AddPattern_spec m x p m' :
  0 <= getSize p ->
  AddPattern m x p 0 = Ok m' ->
  unit_step m m' (getSize p) (values_idx_ m).
Proof.
  intros Hsz. unfold AddPattern. intros H.
  cbn [alloc_head] in H.
  bind_inv H. destruct a as [ret m1].
  apply GetFlag_spec in Hstep as (pm & fa & ->).
  change (negb (0 =? 0)) with false in H. cbv iota in H.
  rewrite Z.add_0_r in H.
  bind_inv H. apply assert_Ok' in Hstep. apply Z.leb_le in Hstep.
  unfold CTL_SIZE_MAX in Hstep.
  bind_inv H. rename a0 into m2.
  apply UpdateNewRow_spec in Hstep0 as (b & bs & nr & er & rj & ->).
  2:{ csx_simpl. rewrite !length_insert, length_app; cbn [length]. lia. }
  csx_simpl. rewrite insert_head_app, insert_size_app, insert_head_app in H.
  bind_inv H. apply put_ul_spec in Hstep0 as [bs2 ->]. csx_simpl.
  injection H as <-. rewrite wrap8_small by lia.
  exists b, (bs ++ bs2). csx_simpl. split; [|done].
  rewrite <- !app_assoc; cbn; reflexivity.
Qed.

Lemma put_value_spec m v m' :
  put_value m v = Ok m' ->
  (values_idx_ m < length (values_ m))%nat
  /\ m' = set_values m (<[values_idx_ m := v]> (values_ m)) (S (values_idx_ m)).
Proof.
  unfold put_value. intros H. bind_inv H. apply assert_Ok' in Hstep.
  apply Nat.ltb_lt in Hstep. injection H as <-. done.
Qed.

Lemma take_S_insert (l : list V) i v :
  (i < length l)%nat -> take (S i) (<[i := v]> l) = take i l ++ [v].
Proof.
  intros Hi. erewrite take_S_r by (by apply list_lookup_insert_eq).
  by rewrite take_insert_ge by lia.
Qed.

(** Copying [n] values writes them after the values written so far. *)
Lemma put_values_spec n : forall m vals i m',
  (values_idx_ m <= length (values_ m))%nat ->
  put_values n m vals i = Ok m' ->
  exists vs,
    m' = set_values m vs (values_idx_ m + n)
    /\ length vs = length (values_ m)
    /\ (values_idx_ m + n <= length (values_ m))%nat
    /\ take (values_idx_ m + n) vs
       = take (values_idx_ m) (values_ m) ++ take n (drop i vals).
Proof.
  induction n as [|n IH]; intros m vals i m' Hidx H; cbn [put_values] in H.
  - injection H as <-. exists (values_ m). rewrite !Nat.add_0_r, take_0, app_nil_r.
    split; [by destruct m|]. done.
  - bind_inv H. apply of_option_Ok in Hstep. rename a into v.
    bind_inv H. apply put_value_spec in Hstep0 as [Hlt ->].
    apply IH in H as (vs & -> & Hlen & Hle & Htake).
    2:{ csx_simpl. rewrite length_insert. lia. }
    csx_simpl.
    rewrite length_insert in Hlen, Hle.
    exists vs. replace (values_idx_ m + S n)%nat with (S (values_idx_ m) + n)%nat by lia.
    split; [done|]. split; [done|]. split; [done|].
    rewrite Htake, take_S_insert by done.
    rewrite <- app_assoc. f_equal.
    rewrite (drop_S _ _ _ Hstep). reflexivity.
Qed.

End CsxUnits.

(** ** The assembler of csx.cc: the invariant of the row loop *)

Section CsxInvariant.
Import Spm Ctl Delta Csx CsxSpec Varint.
Context {V : Type}.
Implicit Types m : CsxManager V.

Lemma sumZ_app l1 l2 : sumZ (l1 ++ l2) = sumZ l1 + sumZ l2.
Proof.
  unfold sumZ. induction l1 as [|x l1 IH]; cbn; [done | rewrite IH; lia].
Qed.

Lemma psums_snoc l : forall acc x,
  psums acc (l ++ [x]) = psums acc l ++ [acc + sumZ l].
Proof.
  induction l as [|y l IH]; intros acc x; cbn [psums app].
  - unfold sumZ; cbn. by rewrite Z.add_0_r.
  - rewrite IH. unfold sumZ; cbn. do 3 f_equal. lia.
Qed.

(** The size bytes of the units of the history are not touched by what
    is appended to the buffer. *)
Lemma unit_sizes_app (ctl bs : list Z) us :
  Forall (fun u => (S u.1 < length ctl)%nat) us ->
  unit_sizes (ctl ++ bs) us = unit_sizes ctl us.
Proof.
  intros Hb. unfold unit_sizes. apply map_ext_Forall.
  eapply Forall_impl; [exact Hb|]. intros u Hu. cbn in Hu.
  unfold unit_size. by rewrite lookup_app_l.
Qed.

Lemma unit_step_sizes m m' size vstart :
  Forall (fun u => (S u.1 < length (ctl_da_ m))%nat) (units m) ->
  unit_step m m' size vstart ->
  unit_sizes (ctl_da_ m') (units m')
  = unit_sizes (ctl_da_ m) (units m) ++ [size]
  /\ Forall (fun u => (S u.1 < length (ctl_da_ m'))%nat) (units m').
Proof.
  intros Hb (f & tail & Hctl & Hun & _). rewrite Hctl, Hun. split.
  - unfold unit_sizes at 1. rewrite map_app. fold (unit_sizes (ctl_da_ m ++ [f; size] ++ tail) (units m)).
    rewrite unit_sizes_app by done. f_equal. cbn. unfold unit_size. cbn [fst].
    rewrite lookup_app_r by lia.
    by replace (S (length (ctl_da_ m)) - length (ctl_da_ m))%nat with 1%nat by lia.
  - apply Forall_app. split.
    + eapply Forall_impl; [exact Hb|]. intros u Hu. cbn in *.
      rewrite length_app. lia.
    + constructor; [|constructor]. cbn. rewrite length_app. cbn. lia.
Qed.

Lemma inv_unit_step N W pd m m' size vstart :
  csx_inv N W pd m ->
  unit_step m m' size vstart ->
  0 <= size ->
  Z.of_nat vstart = Z.of_nat (values_idx_ m) - pd ->
  csx_inv N W (pd - size) m'.
Proof.
  intros (Hlen & Hle & Htk & Hb & Hpos & Hsum & Hst) Hstep Hsize Hvs.
  destruct (unit_step_sizes _ _ _ _ Hb Hstep) as [Hsz Hb'].
  destruct Hstep as (f & tail & Hctl & Hun & Hv & Hi & _).
  unfold csx_inv. rewrite Hv, Hi, Hsz, sumZ_app.
  change (sumZ [size]) with (size + 0).
  repeat split; try done; try lia.
  rewrite Hun, map_app, Hst, psums_snoc. cbn [map snd]. f_equal. f_equal. lia.
Qed.

Lemma inv_set_values N W pd m vs n new :
  csx_inv N W pd m ->
  length vs = length (values_ m) ->
  (values_idx_ m + n <= length (values_ m))%nat ->
  take (values_idx_ m + n) vs = take (values_idx_ m) (values_ m) ++ new ->
  csx_inv N (W ++ new) (pd + Z.of_nat n) (set_values m vs (values_idx_ m + n)).
Proof.
  intros (Hlen & Hle & Htk & Hb & Hpos & Hsum & Hst) Hl Hn Hnew.
  unfold csx_inv. csx_simpl. rewrite Hnew, Htk. repeat split; try done; lia.
Qed.

Lemma inv_frame N W pd m m' :
  csx_inv N W pd m ->
  ctl_da_ m' = ctl_da_ m -> units m' = units m ->
  values_ m' = values_ m -> values_idx_ m' = values_idx_ m ->
  csx_inv N W pd m'.
Proof. unfold csx_inv. by intros H -> -> -> ->. Qed.

Lemma inv_AddXs N W m xs m' :
  csx_inv N W (Z.of_nat (length xs)) m ->
  AddXs m xs = Ok m' ->
  csx_inv N W 0 m' /\ spm_ m' = spm_ m.
Proof.
  intros Hinv H. apply AddXs_spec in H as [Hstep Hpos]. split.
  - replace 0 with (Z.of_nat (length xs) - Z.of_nat (length xs)) by lia.
    eapply inv_unit_step; [done..|lia|].
    destruct Hinv as (_ & _ & _ & _ & Hnn & Hsum & _). lia.
  - by destruct Hstep as (? & ? & ? & ? & ? & ? & ?).
Qed.

Lemma PreparePat_spec N W m xs jmp m' :
  csx_inv N W (Z.of_nat (length xs)) m ->
  PreparePat m xs = Ok (jmp, m') ->
  jmp = 0 /\ csx_inv N W 0 m' /\ spm_ m' = spm_ m.
Proof.
  intros Hinv. unfold PreparePat. destruct xs as [|x xs].
  - intros [= <- <-]. done.
  - intros H. bind_inv H. injection H as <- <-.
    split; [done|]. by eapply inv_AddXs.
Qed.

(** One element of a row. *)
Lemma inv_DoRow_elem N W m xs e m' xs' :
  sized_elem e ->
  csx_inv N W (Z.of_nat (length xs)) m ->
  DoRow_elem (m, xs) e = Ok (m', xs') ->
  csx_inv N (W ++ elem_vals e) (Z.of_nat (length xs')) m'
  /\ spm_ m' = spm_ m.
Proof.
  intros Hsz Hinv H. destruct e as [x v | x p vals]; cbn [DoRow_elem] in H.
  - bind_inv H. bind_inv H. destruct a0 as [m1 xs1].
    assert (csx_inv N W (Z.of_nat (length xs1)) m1 /\ spm_ m1 = spm_ m
            /\ (xs1 = [] \/ xs1 = xs)) as (Hinv1 & Hspm1 & Hxs1).
    { destruct (Z.of_nat (length xs) =? CTL_SIZE_MAX).
      - bind_inv Hstep0. injection Hstep0 as <- <-.
        destruct (inv_AddXs _ _ _ _ _ Hinv Hstep1). auto.
      - injection Hstep0 as <- <-. auto. }
    bind_inv H. injection H as <- <-.
    apply put_value_spec in Hstep1 as [Hlt ->]. csx_simpl.
    split; [|done].
    rewrite length_app, Nat2Z.inj_add. cbn [length elem_vals].
    replace (S (values_idx_ m1)) with (values_idx_ m1 + 1)%nat by lia.
    apply inv_set_values; try done.
    + by rewrite length_insert.
    + lia.
    + replace (values_idx_ m1 + 1)%nat with (S (values_idx_ m1)) by lia.
      by apply take_S_insert.
  - cbn in Hsz.
    bind_inv H. destruct a as [jmp m1].
    destruct (PreparePat_spec _ _ _ _ _ _ Hinv Hstep) as (-> & Hinv1 & Hspm1).
    bind_inv H. bind_inv H. rename a0 into m2.
    bind_inv H. rename a0 into m3. injection H as <- <-.
    apply AddPattern_spec in Hstep1; [|done].
    assert (Hinv2 : csx_inv N W (0 - getSize p) m2).
    { eapply inv_unit_step; [done..|lia]. }
    assert (Hspm2 : spm_ m2 = spm_ m1)
      by (by destruct Hstep1 as (? & ? & ? & ? & ? & ? & ?)).
    apply put_values_spec in Hstep2 as (vs & -> & Hlen & Hle & Htk).
    2:{ destruct Hinv2 as (-> & ? & _). done. }
    csx_simpl. split; [|congruence].
    rewrite drop_0 in Htk. cbn [length elem_vals].
    replace (Z.of_nat 0) with (0 - getSize p + Z.of_nat (Z.to_nat (getSize p))) by lia.
    by apply inv_set_values.
Qed.

Lemma inv_DoRow_loop N row : forall W m xs m' xs',
  Forall sized_elem row ->
  csx_inv N W (Z.of_nat (length xs)) m ->
  Drle.foldM DoRow_elem row (m, xs) = Ok (m', xs') ->
  csx_inv N (W ++ row_vals row) (Z.of_nat (length xs')) m'
  /\ spm_ m' = spm_ m.
Proof.
  induction row as [|e row IH]; intros W m xs m' xs' Hsz Hinv H;
    cbn [Drle.foldM] in H.
  - injection H as <- <-. unfold row_vals; cbn. by rewrite app_nil_r.
  - bind_inv H. destruct a as [m1 xs1].
    apply Forall_cons in Hsz as [Hse Hsz].
    destruct (inv_DoRow_elem _ _ _ _ _ _ _ Hse Hinv Hstep) as [Hinv1 Hspm1].
    destruct (IH _ _ _ _ _ Hsz Hinv1 H) as [Hinv2 Hspm2].
    split; [|congruence].
    unfold row_vals in *. cbn [flat_map]. by rewrite app_assoc.
Qed.

Lemma inv_DoRow N W m row m' :
  Forall sized_elem row ->
  csx_inv N W 0 m ->
  DoRow m row = Ok m' ->
  csx_inv N (W ++ row_vals row) 0 m' /\ spm_ m' = spm_ m.
Proof.
  intros Hsz Hinv. unfold DoRow. intros H. bind_inv H. destruct a as [m1 xs1].
  apply inv_DoRow_loop with (N := N) (W := W) in Hstep as [Hinv1 Hspm1];
    [|done|].
  2:{ eapply inv_frame; [exact Hinv|done..]. }
  csx_simpl. destruct xs1 as [|x xs1].
  - injection H as <-. done.
  - destruct (inv_AddXs _ _ _ _ _ Hinv1 H). split; [done | congruence].
Qed.

Lemma inv_MakeCsx_row N W m row m' :
  Forall sized_elem row ->
  csx_inv N W 0 m ->
  MakeCsx_row m row = Ok m' ->
  csx_inv N (W ++ row_vals row) 0 m' /\ spm_ m' = spm_ m.
Proof.
  intros Hsz Hinv. unfold MakeCsx_row. destruct row as [|e row].
  - unfold row_vals; cbn [flat_map]. rewrite app_nil_r.
    destruct (negb (new_row_ m)); intros [= <-]; (split; [|done]);
      (eapply inv_frame; [exact Hinv|done..]).
  - intros H. bind_inv H. injection H as <-.
    destruct (inv_DoRow _ _ _ _ _ Hsz Hinv Hstep) as [Hinv1 Hspm1].
    split; [|done]. eapply inv_frame; [exact Hinv1|done..].
Qed.

Lemma inv_MakeCsx_rows N rws : forall W m m',
  Forall (Forall sized_elem) rws ->
  csx_inv N W 0 m ->
  Drle.foldM MakeCsx_row rws m = Ok m' ->
  csx_inv N (W ++ flat_map row_vals rws) 0 m' /\ spm_ m' = spm_ m.
Proof.
  induction rws as [|row rws IH]; intros W m m' Hsz Hinv H;
    cbn [Drle.foldM] in H.
  - injection H as <-. cbn. by rewrite app_nil_r.
  - bind_inv H. apply Forall_cons in Hsz as [Hr Hsz].
    destruct (inv_MakeCsx_row _ _ _ _ _ Hr Hinv Hstep) as [Hinv1 Hspm1].
    destruct (IH _ _ _ Hsz Hinv1 H) as [Hinv2 Hspm2].
    split; [|congruence]. cbn [flat_map]. by rewrite app_assoc.
Qed.

(** ** C1 *)

(** C1, size conservation of [MakeCsx] (csx.cc).  For a partition whose
    patterns have no negative size, when [MakeCsx] completes: the size
    bytes of the units written to the ctl stream add up to the partition's
    nonzero count; the first value of every unit sits in the values array
    right after the values of the units before it, so that every unit
    takes exactly [size] entries, in order; the values array holds the
    values of the elements in row order and has [nnz] entries, that is
    [values_idx_] has reached [nnz]. *)
Theorem MakeCsx_size_conservation (junk : nat -> V) m csx m' :
  sized_spm (spm_ m) ->
  MakeCsx junk m = Ok (csx, m') ->
  sumZ (unit_sizes (ctl csx) (units m')) = nnz csx
  /\ map (fun u => Z.of_nat u.2) (units m')
     = psums 0 (unit_sizes (ctl csx) (units m'))
  /\ values csx = spm_vals (spm_ m)
  /\ Z.of_nat (length (values csx)) = nnz csx.
Proof.
  intros Hsz. unfold MakeCsx. intros H. bind_inv H. rename a into m1.
  bind_inv H. apply assert_Ok' in Hstep0. apply Z.eqb_eq in Hstep0.
  injection H as <- <-. cbn [ctl values nnz]. csx_simpl.
  set (N := Z.to_nat (nr_nzeros_ (spm_ m))) in *.
  apply inv_MakeCsx_rows with (N := N) (W := []) in Hstep as [Hinv Hspm];
    [|done|].
  2:{ unfold csx_inv. csx_simpl. rewrite length_map, length_seq.
      repeat split; try done. lia. }
  csx_simpl. rewrite Hspm in *.
  destruct Hinv as (Hlen & Hle & Htk & Hb & Hnn & Hsum & Hst).
  assert (Hidx : values_idx_ m1 = N) by (unfold N; lia).
  rewrite Hidx in *. rewrite <- Hlen, firstn_all in Htk.
  repeat split.
  - lia.
  - done.
  - by rewrite Htk.
  - lia.
Qed.

End CsxInvariant.

(** ** The width of the deltas of a unit *)

Section DeltaWidth.
Import Spm Ctl Delta Csx CsxSpec Varint.
Context {V : Type}.
Implicit Types m : CsxManager V.

(** [GetDeltaSize] returns the smallest of the widths 1, 2, 4 and 8 whose
    range holds the value. *)
Lemma GetDeltaSize_smallest_fit val :
  0 <= val < 2 ^ 64 ->
  In (GetDeltaSize val) [1; 2; 4; 8]
  /\ val < 2 ^ (8 * GetDeltaSize val)
  /\ (forall w, In w [1; 2; 4; 8] -> val < 2 ^ (8 * w) -> GetDeltaSize val <= w).
Proof.
  intros Hv. unfold GetDeltaSize, wrap8, wrap16, wrap32.
  destruct (Z.eqb_spec (val mod 2 ^ 8) val) as [E8|E8].
  { assert (val < 2 ^ 8) by (pose proof (Z.mod_pos_bound val (2 ^ 8)); lia).
    split; [cbn; auto|]. split; [done|].
    intros w Hw _. cbn in Hw. lia. }
  assert (2 ^ 8 <= val).
  { destruct (Z.lt_ge_cases val (2 ^ 8)); [|done].
    rewrite Z.mod_small in E8 by lia. done. }
  destruct (Z.eqb_spec (val mod 2 ^ 16) val) as [E16|E16].
  { assert (val < 2 ^ 16) by (pose proof (Z.mod_pos_bound val (2 ^ 16)); lia).
    split; [cbn; auto|]. split; [done|].
    intros w Hw Hfit. cbn in Hw.
    destruct Hw as [<-|[<-|[<-|[<-|[]]]]]; cbn in Hfit; lia. }
  assert (2 ^ 16 <= val).
  { destruct (Z.lt_ge_cases val (2 ^ 16)); [|done].
    rewrite Z.mod_small in E16 by lia. done. }
  destruct (Z.eqb_spec (val mod 2 ^ 32) val) as [E32|E32].
  { assert (val < 2 ^ 32) by (pose proof (Z.mod_pos_bound val (2 ^ 32)); lia).
    split; [cbn; auto|]. split; [done|].
    intros w Hw Hfit. cbn in Hw.
    destruct Hw as [<-|[<-|[<-|[<-|[]]]]]; cbn in Hfit; lia. }
  assert (2 ^ 32 <= val).
  { destruct (Z.lt_ge_cases val (2 ^ 32)); [|done].
    rewrite Z.mod_small in E32 by lia. done. }
  split; [cbn; auto|]. split; [cbn; lia|].
  intros w Hw Hfit. cbn in Hw.
  destruct Hw as [<-|[<-|[<-|[<-|[]]]]]; cbn in Hfit; lia.
Qed.

Lemma getDeltaSize_bytes val :
  0 <= val < 2 ^ 64 ->
  DeltaSize_getBytes (getDeltaSize val) = GetDeltaSize val.
Proof.
  intros Hv. destruct (GetDeltaSize_smallest_fit val Hv) as (Hin & _).
  unfold getDeltaSize. cbn in Hin.
  destruct Hin as [<-|[<-|[<-|[<-|[]]]]]; reflexivity.
Qed.

Lemma getDeltaSize_U64 val :
  2 ^ 32 <= val < 2 ^ 64 -> getDeltaSize val = DELTA_U64.
Proof.
  intros Hv. unfold getDeltaSize, GetDeltaSize, wrap8, wrap16, wrap32.
  pose proof (Z.mod_pos_bound val (2 ^ 8)).
  pose proof (Z.mod_pos_bound val (2 ^ 16)).
  pose proof (Z.mod_pos_bound val (2 ^ 32)).
  destruct (Z.eqb_spec (val mod 2 ^ 8) val); [lia|].
  destruct (Z.eqb_spec (val mod 2 ^ 16) val); [lia|].
  destruct (Z.eqb_spec (val mod 2 ^ 32) val); [lia|].
  reflexivity.
Qed.

(** [AddXs] does not return for a vector whose deltas after the first
    need the 8-byte width: it reaches [default: assert(false)]. *)
Lemma AddXs_no_U64 m xs m' :
  (1 < length xs)%nat ->
  2 ^ 32 <= max_element (drop 1 (DeltaEncode xs (last_col_ m))) < 2 ^ 64 ->
  AddXs m xs <> Ok m'.
Proof.
  intros Hlen Hmax H. unfold AddXs in H.
  bind_inv H. cbn [alloc_head] in H. bind_inv H. destruct a0 as [ret m1].
  bind_inv H. bind_inv H. bind_inv H. bind_inv H.
  destruct (Z.ltb_spec 1 (Z.of_nat (length xs))) as [_|]; [|lia].
  csx_simpl. rewrite (getDeltaSize_U64 _ Hmax) in H. discriminate.
Qed.

(** ** C5 *)

(** C5, delta width.  [GetDeltaSize] is the smallest fit among 1, 2, 4
    and 8 bytes; but a unit whose largest delta after the leading column
    jump needs the 8-byte width is not emitted by [AddXs] of csx.cc: for
    the columns 1 and 2^32 + 1, a delta of 2^32, [AddXs] does not return,
    whatever the manager. *)
Theorem AddXs_delta_u64_not_emitted m :
  GetDeltaSize (2 ^ 32) = 8
  /\ drop 1 (DeltaEncode [1; 2 ^ 32 + 1] (last_col_ m)) = [2 ^ 32]
  /\ forall m', AddXs m [1; 2 ^ 32 + 1] <> Ok m'.
Proof.
  split; [reflexivity|]. split; [reflexivity|].
  intros m'. apply AddXs_no_U64; [cbn; lia|].
  cbn [DeltaEncode drop max_element fold_right].
  change (wrap64 (2 ^ 32 + 1 - 1)) with (2 ^ 32). lia.
Qed.

End DeltaWidth.

(** ** The flags of the patterns *)

Section CsxFlags.
Import Spm Ctl Delta Csx CsxSpec Varint.
Context {V : Type}.
Implicit Types m : Csx.CsxManager V.

Lemma wrap8_nonneg z : 0 <= wrap8 z.
Proof. unfold wrap8. pose proof (Z.mod_pos_bound z (2 ^ 8)). lia. Qed.

Lemma flags_ok_new (spm : SPM V) : flags_ok (CsxManager_new spm).
Proof. split; [done|]. intros id pi H. cbn in H. by rewrite lookup_empty in H. Qed.

(** [GetFlag] of csx.cc: the flag returned is at most [CTL_PATTERNS_MAX]
    and can be equal to it; the call fails only at its assertion, when
    the pattern is new and the next flag is above [CTL_PATTERNS_MAX]. *)
Lemma Csx_GetFlag_spec m id n :
  flags_ok m ->
  match GetFlag m id n with
  | Ok (ret, m') =>
      0 <= ret <= CTL_PATTERNS_MAX /\ flags_ok m'
      /\ (patterns m !! id = None -> ret = flag_avail_ m)
      /\ (forall pi, patterns m !! id = Some pi -> ret = flag pi)
  | Fail f =>
      f = TooManyPatterns /\ patterns m !! id = None
      /\ CTL_PATTERNS_MAX < flag_avail_ m
  end.
Proof.
  intros [Hfa Hfl]. unfold GetFlag.
  destruct (patterns m !! id) as [pi|] eqn:Hid.
  - destruct (Hfl _ _ Hid) as [H0 H1]. split; [done|]. split.
    + split; [done|]. csx_simpl. intros id' pi' H.
      destruct (decide (id = id')) as [<-|Hne].
      * rewrite lookup_insert_eq in H. injection H as <-. done.
      * rewrite lookup_insert_ne in H by done. eauto.
    + split; [done|]. by intros ? [= <-].
  - csx_simpl. destruct (Z.leb_spec (flag_avail_ m) CTL_PATTERNS_MAX) as [Hle|Hgt].
    + cbn. split; [done|]. split.
      * split; [apply wrap8_nonneg|]. csx_simpl. intros id' pi' H.
        destruct (decide (id = id')) as [<-|Hne].
        -- rewrite lookup_insert_eq in H. injection H as <-. done.
        -- rewrite lookup_insert_ne in H by done. eauto.
      * done.
    + cbn. done.
Qed.

End CsxFlags.

(** Reduce the projections of the updated managers of CsxManager.hpp. *)
Ltac csxm_simpl :=
  cbn [CsxManager.spm_ CsxManager.patterns CsxManager.flag_avail_
       CsxManager.row_jmps_ CsxManager.full_column_indices_
       CsxManager.values_ CsxManager.rows_info_ CsxManager.span_
       CsxManager.values_idx_ CsxManager.ctl_bld_ CsxManager.last_col_
       CsxManager.new_row_ CsxManager.empty_rows_ CsxManager.curr_row_
       CsxManager.set_patterns CsxManager.set_ctl CsxManager.set_values
       CsxManager.set_rows_info CsxManager.set_span CsxManager.set_last_col
       CsxManager.set_row_state CsxManager.set_curr_row
       CsxManager.SetFullColumnIndices CsxManager.CsxManager_new
       fst snd] in *.

Section CsxManagerFlags.
Import Spm Ctl Delta CsxManager CsxManagerSpec Varint.
Context {V : Type}.
Implicit Types m : CsxManager.CsxManager V.

Lemma flags_ok_new' (spm : SPM V) u : flags_ok (CsxManager_new spm u).
Proof. split; [done|]. intros id pi H. cbn in H. by rewrite lookup_empty in H. Qed.

(** [GetFlag] of CsxManager.hpp. *)
Lemma CsxManager_GetFlag_spec m id n :
  flags_ok m ->
  match GetFlag m id n with
  | Ok (ret, m') =>
      0 <= ret <= CTL_PATTERNS_MAX /\ flags_ok m'
      /\ (patterns m !! id = None -> ret = flag_avail_ m)
      /\ (forall pi, patterns m !! id = Some pi -> ret = flag pi)
  | Fail f =>
      f = TooManyPatterns /\ patterns m !! id = None
      /\ CTL_PATTERNS_MAX < flag_avail_ m
  end.
Proof.
  intros [Hfa Hfl]. unfold GetFlag.
  destruct (patterns m !! id) as [pi|] eqn:Hid.
  - destruct (Hfl _ _ Hid) as [H0 H1]. split; [done|]. split.
    + split; [done|]. intros id' pi' H. csxm_simpl.
      destruct (decide (id = id')) as [<-|Hne].
      * rewrite lookup_insert_eq in H. injection H as <-. done.
      * rewrite lookup_insert_ne in H by done. eauto.
    + split; [done|]. by intros ? [= <-].
  - csxm_simpl.
    destruct (Z.leb_spec (flag_avail_ m) CTL_PATTERNS_MAX) as [Hle|Hgt].
    + cbn. split; [done|]. split.
      * split; [apply wrap8_nonneg|]. intros id' pi' H. csxm_simpl.
        destruct (decide (id = id')) as [<-|Hne].
        -- rewrite lookup_insert_eq in H. injection H as <-. done.
        -- rewrite lookup_insert_ne in H by done. eauto.
      * done.
    + cbn. done.
Qed.

End CsxManagerFlags.

(** ** C8 *)

Section FlagCap.
Import Spm Ctl.
Context {V : Type}.

Lemma Csx_AddPattern_too_large (spm : SPM V) x p :
  CTL_SIZE_MAX < getSize p ->
  Csx.AddPattern (Csx.CsxManager_new spm) x p 0 = Fail UnitTooLarge.
Proof.
  intros Hp. unfold Csx.AddPattern. cbn [Csx.alloc_head].
  unfold Csx.GetFlag. csx_simpl. cbn [Csx.CsxManager_new Csx.patterns Csx.flag_avail_].
  rewrite lookup_empty. cbn.
  rewrite Z.add_0_r.
  destruct (Z.leb_spec (getSize p) CTL_SIZE_MAX); [lia | reflexivity].
Qed.

Lemma CsxManager_AddPattern_too_large w (spm : SPM V) u x p :
  CTL_SIZE_MAX < getSize p ->
  CsxManager.AddPattern w (CsxManager.CsxManager_new spm u) x p
  = Fail UnitTooLarge.
Proof.
  intros Hp. unfold CsxManager.AddPattern.
  destruct (CsxManager.UpdateNewRow _) as [[nr rowjmp] m'].
  destruct (Z.leb_spec (getSize p) CTL_SIZE_MAX); [lia | reflexivity].
Qed.

Lemma wrap8_succ_flag z : 0 <= z <= CTL_PATTERNS_MAX -> wrap8 (z + 1) = z + 1.
Proof.
  unfold CTL_PATTERNS_MAX, wrap8. intros H. apply Z.mod_small.
  change (2 ^ 8) with 256. lia.
Qed.

(** C8 as amended.  In csx.cc and in CsxManager.hpp, a flag that
    [GetFlag] assigns or returns is at most [CTL_PATTERNS_MAX], and the
    call does exactly this: for an id it knows it returns the flag kept
    for the id and adds [nnz] to the id's counter; for a new id it hands
    out [flag_avail_], records it and moves [flag_avail_] up by one, as
    long as [flag_avail_] is at most [CTL_PATTERNS_MAX]; for a new id
    with [flag_avail_] above [CTL_PATTERNS_MAX] it fails at its assertion,
    and in no other case.  That assertion is not the only one of the
    assembler: a pattern of more than [CTL_SIZE_MAX] elements stops
    [AddPattern] at the assertion on the unit size. *)
Theorem GetFlag_at_most_CTL_PATTERNS_MAX
    (m1 : Csx.CsxManager V) (m2 : CsxManager.CsxManager V) (id n : Z) :
  CsxSpec.flags_ok m1 ->
  CsxManagerSpec.flags_ok m2 ->
  match Csx.GetFlag m1 id n with
  | Ok (ret, m') =>
      0 <= ret <= CTL_PATTERNS_MAX /\ CsxSpec.flags_ok m'
  | Fail f =>
      f = TooManyPatterns /\ Csx.patterns m1 !! id = None
      /\ CTL_PATTERNS_MAX < Csx.flag_avail_ m1
  end
  /\ match Csx.patterns m1 !! id with
     | Some pi =>
         Csx.GetFlag m1 id n
         = Ok (Csx.flag pi,
               Csx.set_patterns m1
                 (<[id := {| Csx.flag := Csx.flag pi;
                             Csx.nr := wrap64 (Csx.nr pi + n) |}]>
                    (Csx.patterns m1))
                 (Csx.flag_avail_ m1))
     | None =>
         if Csx.flag_avail_ m1 <=? CTL_PATTERNS_MAX
         then Csx.GetFlag m1 id n
              = Ok (Csx.flag_avail_ m1,
                    Csx.set_patterns m1
                      (<[id := {| Csx.flag := Csx.flag_avail_ m1;
                                  Csx.nr := wrap64 n |}]>
                         (Csx.patterns m1))
                      (Csx.flag_avail_ m1 + 1))
         else Csx.GetFlag m1 id n = Fail TooManyPatterns
     end
  /\ match CsxManager.GetFlag m2 id n with
     | Ok (ret, m') =>
         0 <= ret <= CTL_PATTERNS_MAX /\ CsxManagerSpec.flags_ok m'
     | Fail f =>
         f = TooManyPatterns /\ CsxManager.patterns m2 !! id = None
         /\ CTL_PATTERNS_MAX < CsxManager.flag_avail_ m2
     end
  /\ match CsxManager.patterns m2 !! id with
     | Some pi =>
         CsxManager.GetFlag m2 id n
         = Ok (CsxManager.flag pi,
               CsxManager.set_patterns m2
                 (<[id := {| CsxManager.flag := CsxManager.flag pi;
                             CsxManager.npatterns :=
                               wrap64 (CsxManager.npatterns pi + 1);
                             CsxManager.nr := wrap64 (CsxManager.nr pi + n) |}]>
                    (CsxManager.patterns m2))
                 (CsxManager.flag_avail_ m2))
     | None =>
         if CsxManager.flag_avail_ m2 <=? CTL_PATTERNS_MAX
         then CsxManager.GetFlag m2 id n
              = Ok (CsxManager.flag_avail_ m2,
                    CsxManager.set_patterns m2
                      (<[id := {| CsxManager.flag := CsxManager.flag_avail_ m2;
                                  CsxManager.npatterns := 1;
                                  CsxManager.nr := wrap64 n |}]>
                         (CsxManager.patterns m2))
                      (CsxManager.flag_avail_ m2 + 1))
         else CsxManager.GetFlag m2 id n = Fail TooManyPatterns
     end
  /\ (forall (spm : SPM V) x p, CTL_SIZE_MAX < getSize p ->
        Csx.AddPattern (Csx.CsxManager_new spm) x p 0 = Fail UnitTooLarge)
  /\ (forall w (spm : SPM V) u x p, CTL_SIZE_MAX < getSize p ->
        CsxManager.AddPattern w (CsxManager.CsxManager_new spm u) x p
        = Fail UnitTooLarge).
Proof.
  intros H1 H2. split; [|split; [|split; [|split; [|split]]]].
  - pose proof (Csx_GetFlag_spec m1 id n H1) as H.
    destruct (Csx.GetFlag m1 id n) as [[ret m']|f]; [|done].
    by destruct H as (? & ? & _).
  - unfold Csx.GetFlag. destruct (Csx.patterns m1 !! id) as [pi|]; [reflexivity|].
    cbn [Csx.set_patterns Csx.flag_avail_ Csx.patterns].
    destruct (Z.leb_spec (Csx.flag_avail_ m1) CTL_PATTERNS_MAX) as [Hle|Hgt];
      [|reflexivity].
    cbn [assert mbind result_bind]. destruct H1 as [H0 _].
    rewrite wrap8_succ_flag by lia. reflexivity.
  - pose proof (CsxManager_GetFlag_spec m2 id n H2) as H.
    destruct (CsxManager.GetFlag m2 id n) as [[ret m']|f]; [|done].
    by destruct H as (? & ? & _).
  - unfold CsxManager.GetFlag.
    destruct (CsxManager.patterns m2 !! id) as [pi|]; [reflexivity|].
    cbn [CsxManager.set_patterns CsxManager.flag_avail_ CsxManager.patterns].
    destruct (Z.leb_spec (CsxManager.flag_avail_ m2) CTL_PATTERNS_MAX)
      as [Hle|Hgt]; [|reflexivity].
    cbn [assert mbind result_bind]. destruct H2 as [H0 _].
    rewrite wrap8_succ_flag by lia. reflexivity.
  - apply Csx_AddPattern_too_large.
  - apply CsxManager_AddPattern_too_large.
Qed.

End FlagCap.

(** C8 as stated does not hold: after 63 patterns the next new pattern
    is given the flag 63, which is [CTL_PATTERNS_MAX] and not below it;
    and [MakeCsx] stops at another assertion for a pattern of 256
    elements. *)
Lemma GetFlag_returns_CTL_PATTERNS_MAX :
  exists m ret m',
    Examples.Csx_GetFlag_ids Examples.ids63
      (Csx.CsxManager_new Examples.spm_mixed) = Ok m
    /\ Csx.GetFlag m 63 1 = Ok (ret, m')
    /\ ret = 63
    /\ ~ ret < Ctl.CTL_PATTERNS_MAX
    /\ Csx.MakeCsx Examples.junk (Csx.CsxManager_new Examples.spm_big_pattern)
       = Fail UnitTooLarge.
Proof.
  eexists _, _, _.
  split; [vm_compute; reflexivity|].
  split; [vm_compute; reflexivity|].
  split; [reflexivity|].
  split; [intros H; vm_compute in H; discriminate|].
  vm_compute; reflexivity.
Qed.

(** ** The row jump of a unit header *)

Section RowJump.
Import Spm Ctl Varint CsxSpec.

Lemma flag_bit7 ret : 0 <= ret <= CTL_PATTERNS_MAX -> Z.testbit ret 7 = false.
Proof.
  intros [H0 H1]. unfold CTL_PATTERNS_MAX in H1.
  destruct (Z.eq_dec ret 0) as [->|Hne]; [reflexivity|].
  apply Z.bits_above_log2; [done|].
  assert (Z.log2 ret <= Z.log2 63) by (apply Z.log2_le_mono; lia).
  change (Z.log2 63) with 5 in *. lia.
Qed.

Lemma set_bit_NR_bit7 b : Z.testbit (set_bit b CTL_NR_BIT) 7 = Z.testbit b 7.
Proof.
  unfold set_bit. rewrite Z.lor_spec.
  change (Z.testbit (Z.shiftl 1 CTL_NR_BIT) 7) with false.
  by rewrite orb_false_r.
Qed.

Lemma set_bit_RJMP_bit7 b : Z.testbit (set_bit b CTL_RJMP_BIT) 7 = true.
Proof.
  unfold set_bit. rewrite Z.lor_spec.
  change (Z.testbit (Z.shiftl 1 CTL_RJMP_BIT) 7) with true.
  by rewrite orb_true_r.
Qed.

(** What [da_put_ul] appends does not depend on the buffer. *)
Lemma da_put_ul_loop_prefix n : forall da val,
  da_put_ul_loop n da val = (da ++.) <$> da_put_ul_loop n [] val.
Proof.
  induction n as [|n IH]; intros da val; cbn [da_put_ul_loop]; [done|].
  destruct (val <? Z.shiftl 1 LONGUC_SHIFT); [done|].
  rewrite IH. rewrite (IH ([] ++ _)).
  destruct (da_put_ul_loop n [] (Z.shiftr val LONGUC_SHIFT)) as [bs|]; cbn; [|done].
  by rewrite <- app_assoc.
Qed.

Lemma da_put_ul_prefix da val da' :
  da_put_ul da val = Some da' ->
  exists bs, da_put_ul [] val = Some bs /\ da' = da ++ bs.
Proof.
  unfold da_put_ul. rewrite da_put_ul_loop_prefix.
  destruct (da_put_ul_loop 10 [] val) as [bs|]; cbn; [|done].
  intros [= <-]. eauto.
Qed.

Lemma wrap64_small z : 0 <= z < 2 ^ 64 -> wrap64 z = z.
Proof. intros. unfold wrap64. by apply Z.mod_small. Qed.

End RowJump.

Section CsxRowJump.
Import Spm Ctl Delta Csx CsxSpec Varint.
Context {V : Type}.
Implicit Types m : Csx.CsxManager V.

Lemma put_ul_prefix m val m' :
  put_ul m val = Ok m' ->
  exists bs, da_put_ul [] val = Some bs /\ m' = set_ctl m (ctl_da_ m ++ bs).
Proof.
  unfold put_ul. intros H. bind_inv H. apply of_option_Ok in Hstep.
  apply da_put_ul_prefix in Hstep as (bs & Hbs & ->). injection H as <-. eauto.
Qed.

(** [UpdateNewRow] of csx.cc on a flags byte whose bit 7 is clear. *)
Lemma Csx_UpdateNewRow_rjmp m flags b m' :
  ctl_da_ m !! flags = Some b ->
  Z.testbit b 7 = false ->
  row_ok m ->
  UpdateNewRow m flags = Ok m' ->
  exists b' bs,
    m' = set_row_state (set_ctl m (<[flags := b']> (ctl_da_ m) ++ bs))
           false 0 (new_row_ m && negb (empty_rows_ m =? 0) || row_jmps_ m)
    /\ (Z.testbit b' 7 = true <-> empty_rows_ m <> 0)
    /\ (empty_rows_ m <> 0 -> da_put_ul [] (empty_rows_ m + 1) = Some bs)
    /\ (empty_rows_ m = 0 -> bs = []).
Proof.
  intros Hb Hbit [Hnr Her]. unfold UpdateNewRow.
  assert (Hpk : peek m flags = b) by (unfold peek; by rewrite Hb).
  assert (Hlt : (flags < length (ctl_da_ m))%nat) by (by eapply lookup_lt_Some).
  destruct (new_row_ m) eqn:Enr; cbn [negb andb orb].
  - csx_simpl.
    destruct (Z.eqb_spec (empty_rows_ m) 0) as [E0|E0]; cbn [negb].
    + intros [= <-]. exists (set_bit b CTL_NR_BIT), [].
      rewrite Hpk, app_nil_r, E0. unfold poke. split; [done|].
      rewrite set_bit_NR_bit7, Hbit. split; [split; [done|congruence]|].
      split; [congruence | done].
    + intros H. bind_inv H. apply put_ul_prefix in Hstep as (bs & Hbs & ->).
      injection H as <-. csx_simpl. unfold peek in *. csx_simpl.
      rewrite list_lookup_insert_eq by done. cbn [default].
      rewrite list_insert_insert_eq.
      rewrite wrap64_small in Hbs by lia.
      rewrite Hb. cbn [default].
      exists (set_bit (set_bit b CTL_NR_BIT) CTL_RJMP_BIT), bs.
      split; [done|]. rewrite set_bit_RJMP_bit7.
      split; [done|]. split; [done|]. congruence.
  - intros [= <-]. specialize (Hnr eq_refl). exists b, [].
    rewrite list_insert_id, app_nil_r by done. rewrite Hnr, Hbit.
    split; [destruct m; cbn in *; by subst|].
    split; [split; [done|congruence]|]. split; [congruence | done].
Qed.

Lemma head_DeltaEncode xs prev x0 :
  head (DeltaEncode xs prev) = Some x0 ->
  x0 = wrap64 (hd 0 xs - prev).
Proof. destruct xs; cbn; congruence. Qed.

(** The header bytes, once the flag and the size are stored and
    [UpdateNewRow] and the column jump are done; [tail] is what the call
    appends after them. *)
Lemma Csx_header_rjmp m1 c ret size ucol m2 m3 tail :
  ctl_da_ m1 = c ++ [ret; size] ->
  0 <= ret <= CTL_PATTERNS_MAX ->
  row_ok m1 ->
  UpdateNewRow m1 (length c) = Ok m2 ->
  put_ul m2 ucol = Ok m3 ->
  exists cj,
    da_put_ul [] ucol = Some cj
    /\ rjmp_header c (ctl_da_ m3 ++ tail) (empty_rows_ m1) cj
    /\ empty_rows_ m3 = 0 /\ new_row_ m3 = false
    /\ patterns m3 = patterns m1 /\ flag_avail_ m3 = flag_avail_ m1
    /\ last_col_ m2 = last_col_ m1.
Proof.
  intros Hctl1 Hret Hrow H2 H3.
  eapply Csx_UpdateNewRow_rjmp with (b := ret) in H2
    as (b' & bs & -> & Hbit & Hne & He).
  2:{ rewrite Hctl1, lookup_app_r by lia. by rewrite Nat.sub_diag. }
  2:{ by apply flag_bit7. }
  2:{ exact Hrow. }
  apply put_ul_prefix in H3 as (cj & Hcj & ->). csx_simpl.
  rewrite Hctl1, insert_head_app.
  exists cj. split; [done|]. split; [|done].
  rewrite <- !app_assoc. cbn [app]. split.
  - unfold unit_rjmp.
    rewrite lookup_app_r by lia. rewrite Nat.sub_diag. cbn [lookup default].
    exact Hbit.
  - exists bs, tail. split; [|split; assumption].
    by rewrite drop_app_add' by done.
Qed.

Lemma flags_ok_frame m m' :
  flags_ok m -> patterns m' = patterns m -> flag_avail_ m' = flag_avail_ m ->
  flags_ok m'.
Proof. unfold flags_ok. by intros H -> ->. Qed.

Lemma row_ok_frame m m' :
  row_ok m -> new_row_ m' = new_row_ m -> empty_rows_ m' = empty_rows_ m ->
  row_ok m'.
Proof. unfold row_ok. by intros H -> ->. Qed.

(** The header of a unit of plain elements. *)
Lemma Csx_AddXs_rjmp m xs m' :
  flags_ok m -> row_ok m ->
  AddXs m xs = Ok m' ->
  exists cj,
    da_put_ul [] (wrap64 (hd 0 xs - last_col_ m)) = Some cj
    /\ rjmp_header (ctl_da_ m) (ctl_da_ m') (empty_rows_ m) cj
    /\ empty_rows_ m' = 0 /\ new_row_ m' = false /\ flags_ok m'.
Proof.
  intros Hfl Hrow. unfold AddXs. intros H.
  bind_inv H. rename a into last_col.
  cbn [alloc_head] in H.
  bind_inv H. destruct a as [ret m1].
  match type of Hstep0 with GetFlag ?m0 ?i ?n = _ =>
    pose proof (Csx_GetFlag_spec m0 i n) as Hg;
    pose proof (GetFlag_spec m0 i n _ _ Hstep0) as (pm & fa & ->)
  end.
  rewrite Hstep0 in Hg. destruct Hg as (Hret & Hfl1 & _).
  { eapply flags_ok_frame; [exact Hfl|done..]. }
  bind_inv H. bind_inv H. rename a0 into m2.
  bind_inv H. rename a0 into x0. bind_inv H. rename a0 into m3.
  apply of_option_Ok, head_DeltaEncode in Hstep3. subst x0.
  match type of Hstep2 with UpdateNewRow ?mm _ = _ => set (m1 := mm) in * end.
  assert (Hc1 : ctl_da_ m1 = ctl_da_ m ++ [ret; wrap8 (Z.of_nat (length xs))]).
  { unfold m1. csx_simpl. by rewrite insert_head_app, insert_size_app. }
  assert (Hrow1 : row_ok m1) by (eapply row_ok_frame; [exact Hrow|done..]).
  assert (Hfl3 : flags_ok m3 /\ True) .
  { split; [|done].
    destruct (Csx_header_rjmp m1 _ _ _ _ m2 m3 [] Hc1 Hret Hrow1 Hstep2 Hstep4)
      as (_ & _ & _ & _ & _ & Hp & Hfa & _).
    eapply flags_ok_frame; [exact Hfl1|done..]. }
  destruct Hfl3 as [Hfl3 _].
  assert (Hh : forall tail, exists cj,
             da_put_ul [] (wrap64 (hd 0 xs - last_col_ m)) = Some cj
             /\ rjmp_header (ctl_da_ m) (ctl_da_ m3 ++ tail) (empty_rows_ m) cj
             /\ empty_rows_ m3 = 0 /\ new_row_ m3 = false).
  { intros tail.
    destruct (Csx_header_rjmp m1 _ _ _ _ m2 m3 tail Hc1 Hret Hrow1 Hstep2 Hstep4)
      as (cj & Hcj & Hhdr & Her & Hnr & _).
    exists cj. done. }
  destruct (1 <? Z.of_nat (length xs)).
  - destruct (getDeltaSize _); try discriminate;
      injection H as <-; csx_simpl; rewrite <- app_assoc;
      match goal with |- context [ctl_da_ m3 ++ ?t] =>
        destruct (Hh t) as (cj & Hcj & Hhdr & Her & Hnr) end;
      exists cj; done.
  - injection H as <-. destruct (Hh []) as (cj & Hcj & Hhdr & Her & Hnr).
    rewrite app_nil_r in Hhdr. exists cj. done.
Qed.

(** The header of a pattern unit. *)
Lemma Csx_AddPattern_rjmp m x p m' :
  flags_ok m -> row_ok m ->
  AddPattern m x p 0 = Ok m' ->
  exists cj,
    da_put_ul [] (wrap64 (x - last_col_ m)) = Some cj
    /\ rjmp_header (ctl_da_ m) (ctl_da_ m') (empty_rows_ m) cj
    /\ empty_rows_ m' = 0 /\ new_row_ m' = false /\ flags_ok m'.
Proof.
  intros Hfl Hrow. unfold AddPattern. intros H.
  cbn [alloc_head] in H.
  bind_inv H. destruct a as [ret m1].
  match type of Hstep with GetFlag ?m0 ?i ?n = _ =>
    pose proof (Csx_GetFlag_spec m0 i n) as Hg;
    pose proof (GetFlag_spec m0 i n _ _ Hstep) as (pm & fa & ->)
  end.
  rewrite Hstep in Hg. destruct Hg as (Hret & Hfl1 & _).
  { eapply flags_ok_frame; [exact Hfl|done..]. }
  change (negb (0 =? 0)) with false in H. cbv iota in H.
  bind_inv H. bind_inv H. rename a0 into m2.
  bind_inv H. rename a0 into m3. injection H as <-.
  match type of Hstep1 with UpdateNewRow ?mm _ = _ => set (m1 := mm) in * end.
  assert (Hc1 : ctl_da_ m1 = ctl_da_ m ++ [ret; wrap8 (getSize p + 0)]).
  { unfold m1. csx_simpl. by rewrite insert_head_app, insert_size_app. }
  assert (Hrow1 : row_ok m1) by (eapply row_ok_frame; [exact Hrow|done..]).
  destruct (Csx_header_rjmp m1 _ _ _ _ m2 m3 [] Hc1 Hret Hrow1 Hstep1 Hstep2)
    as (cj & Hcj & Hhdr & Her & Hnr & Hp & Hfa & Hlc).
  rewrite app_nil_r in Hhdr. rewrite Hlc in Hcj.
  exists cj. csx_simpl. split; [exact Hcj|]. split; [exact Hhdr|].
  split; [done|]. split; [done|].
  eapply flags_ok_frame; [exact Hfl1|done..].
Qed.

End CsxRowJump.

Section CsxManagerRowJump.
Import Spm Ctl Delta CtlBuilder CsxManager CsxManagerSpec Varint.
Context {V : Type}.
Variable sizeof_IndexType : Z.
Implicit Types m : CsxManager.CsxManager V.

(** [UpdateNewRow] of CsxManager.hpp: the row jump it returns. *)
Lemma CsxManager_UpdateNewRow_spec m nr rowjmp m' :
  row_ok m ->
  UpdateNewRow m = ((nr, rowjmp), m') ->
  (rowjmp <> 0 <-> empty_rows_ m <> 0)
  /\ (empty_rows_ m <> 0 -> rowjmp = empty_rows_ m + 1)
  /\ m' = set_row_state m false 0
            (new_row_ m && negb (empty_rows_ m =? 0) || row_jmps_ m).
Proof.
  intros [Hnr Her]. unfold UpdateNewRow.
  destruct (new_row_ m) eqn:Enr; cbn [andb orb].
  - csxm_simpl. destruct (Z.eqb_spec (empty_rows_ m) 0) as [E0|E0]; cbn [negb].
    + intros [= <- <- <-]. rewrite E0. split; [done|]. split; [done|]. done.
    + intros [= <- <- <-]. rewrite wrap64_small by lia.
      split; [split; [done|lia]|]. done.
  - intros [= <- <- <-]. rewrite (Hnr eq_refl). split; [done|]. split; [done|].
    destruct m; cbn in *. rewrite Enr, (Hnr eq_refl). reflexivity.
Qed.

(** [AppendCtlHead] on a flag within the six bits. *)
Lemma AppendCtlHead_rjmp ctl nr rowjmp flag size ucol full ctl' er tail :
  0 <= flag <= CTL_PATTERNS_MAX ->
  (rowjmp <> 0 <-> er <> 0) ->
  (er <> 0 -> rowjmp = er + 1) ->
  AppendCtlHead ctl nr rowjmp flag size ucol sizeof_IndexType full = Ok ctl' ->
  exists cj pos,
    colref_at sizeof_IndexType full pos ucol = Some cj
    /\ CsxSpec.rjmp_header ctl (ctl' ++ tail) er cj.
Proof.
  intros Hflag Hiff Hval. unfold AppendCtlHead. intros H.
  bind_inv H. rename a into ctl1.
  assert (Hb7 : Z.testbit
            (Z.lor (Z.lor flag (if nr then Z.shiftl 1 CTL_NR_BIT else 0))
               (if negb (rowjmp =? 0) then Z.shiftl 1 CTL_RJMP_BIT else 0)) 7
          = negb (rowjmp =? 0)).
  { rewrite !Z.lor_spec, (flag_bit7 _ Hflag).
    destruct nr, (rowjmp =? 0); reflexivity. }
  set (flags := Z.lor _ _) in *.
  assert (Hrj : exists rj, ctl1 = ctl ++ [flags; wrap8 size] ++ rj
                /\ (er <> 0 -> da_put_ul [] (er + 1) = Some rj)
                /\ (er = 0 -> rj = [])).
  { destruct (Z.eqb_spec rowjmp 0) as [E0|E0]; cbn [negb] in Hstep.
    - injection Hstep as <-. exists []. rewrite app_nil_r.
      split; [done|]. split; [|done]. intros Hne. by apply Hiff in Hne.
    - unfold AppendVariableInt in Hstep. apply of_option_Ok in Hstep.
      apply da_put_ul_prefix in Hstep as (rj & Hrj & ->).
      exists rj. rewrite <- app_assoc. split; [done|].
      assert (er <> 0) by (by apply Hiff).
      split; [|done]. intros _. by rewrite <- Hval. }
  destruct Hrj as (rj & -> & Hne & He).
  assert (Hcol : exists cj pos, colref_at sizeof_IndexType full pos ucol = Some cj
                 /\ ctl' = (ctl ++ [flags; wrap8 size] ++ rj) ++ cj).
  { destruct full.
    - injection H as <-. unfold AppendFixedInt. eexists _, _. split; reflexivity.
    - unfold AppendVariableInt in H. apply of_option_Ok in H.
      apply da_put_ul_prefix in H as (cj & Hcj & ->).
      exists cj, 0%nat. done. }
  destruct Hcol as (cj & pos & Hcj & ->).
  exists cj, pos. split; [exact Hcj|].
  rewrite <- !app_assoc. cbn [app]. split.
  - unfold CsxSpec.unit_rjmp. rewrite lookup_app_r by lia. rewrite Nat.sub_diag.
    change (Z.testbit flags 7 = true <-> er <> 0). rewrite Hb7.
    destruct (Z.eqb_spec rowjmp 0) as [E0|E0]; cbn [negb].
    + split; [done|]. intros Hne'. by apply Hiff in Hne'.
    + split; [|done]. intros _. by apply Hiff.
  - exists rj, tail. split; [|split; assumption].
    by rewrite drop_app_add' by done.
Qed.

Lemma flagsM_ok_frame m m' :
  flags_ok m -> patterns m' = patterns m -> flag_avail_ m' = flag_avail_ m ->
  flags_ok m'.
Proof. unfold flags_ok. by intros H -> ->. Qed.

Lemma GetFlagM_frame m id n ret m' :
  GetFlag m id n = Ok (ret, m') -> exists p fa, m' = set_patterns m p fa.
Proof.
  unfold GetFlag. destruct (patterns m !! id) as [pi|].
  - intros [= <- <-]. eauto.
  - intros H. bind_inv H. injection H as <- <-. cbn. eauto.
Qed.

(** The header of a pattern unit of CsxManager.hpp. *)
Lemma CsxManager_AddPattern_rjmp m x p m' :
  flags_ok m -> row_ok m ->
  AddPattern sizeof_IndexType m x p = Ok m' ->
  exists cj pos,
    colref_at sizeof_IndexType (full_column_indices_ m) pos
      (if full_column_indices_ m then wrapI sizeof_IndexType (x - 1)
       else wrapI sizeof_IndexType (x - last_col_ m)) = Some cj
    /\ CsxSpec.rjmp_header (ctl_bld_ m) (ctl_bld_ m') (empty_rows_ m) cj
    /\ empty_rows_ m' = 0 /\ new_row_ m' = false /\ flags_ok m'.
Proof.
  intros Hfl Hrow. unfold AddPattern.
  destruct (UpdateNewRow m) as [[nr rowjmp] m1] eqn:Hun.
  destruct (CsxManager_UpdateNewRow_spec _ _ _ _ Hrow Hun) as (Hiff & Hval & ->).
  csxm_simpl. intros H. bind_inv H. bind_inv H. destruct a0 as [ret m2].
  match type of Hstep0 with GetFlag ?m0 ?i ?n = _ =>
    pose proof (CsxManager_GetFlag_spec m0 i n) as Hg;
    pose proof (GetFlagM_frame m0 i n _ _ Hstep0) as (pm & fa & ->)
  end.
  rewrite Hstep0 in Hg. destruct Hg as (Hret & Hfl1 & _).
  { eapply flagsM_ok_frame; [exact Hfl|done..]. }
  bind_inv H. rename a0 into ctl'. injection H as <-. csxm_simpl.
  destruct (AppendCtlHead_rjmp _ _ _ _ _ _ _ _ (empty_rows_ m) [] Hret Hiff Hval Hstep1)
    as (cj & pos & Hcj & Hhdr).
  rewrite app_nil_r in Hhdr.
  exists cj, pos. split; [exact Hcj|]. split; [exact Hhdr|].
  split; [done|]. split; [done|].
  eapply flagsM_ok_frame; [exact Hfl1|done..].
Qed.

Lemma fold_AppendFixedInt_app l w : forall ctl,
  exists tail,
    fold_left (fun ctl c => AppendFixedInt ctl c w) l ctl = ctl ++ tail.
Proof.
  induction l as [|c l IH]; intros ctl; cbn [fold_left].
  - exists []. by rewrite app_nil_r.
  - destruct (IH (AppendFixedInt ctl c w)) as [tail ->].
    unfold AppendFixedInt. rewrite <- !app_assoc. eauto.
Qed.

(** The header of a unit of plain elements of CsxManager.hpp. *)
Lemma CsxManager_AddCols_rjmp m cols m' :
  flags_ok m -> row_ok m ->
  AddCols sizeof_IndexType m cols = Ok m' ->
  exists cj pos,
    colref_at sizeof_IndexType (full_column_indices_ m) pos
      (if full_column_indices_ m then wrapI sizeof_IndexType (hd 0 cols - 1)
       else wrapI sizeof_IndexType (wrap64 (hd 0 cols - last_col_ m)))
    = Some cj
    /\ CsxSpec.rjmp_header (ctl_bld_ m) (ctl_bld_ m') (empty_rows_ m) cj
    /\ empty_rows_ m' = 0 /\ new_row_ m' = false /\ flags_ok m'.
Proof.
  intros Hfl Hrow. unfold AddCols. intros H.
  bind_inv H. rename a into last_col. bind_inv H. rename a into col_start.
  destruct (UpdateNewRow _) as [[nr rowjmp] m1] eqn:Hun.
  apply CsxManager_UpdateNewRow_spec in Hun as (Hiff & Hval & ->);
    [|by eapply (proj1 (conj Hrow I))].
  csxm_simpl.
  bind_inv H. rename a into cols0. bind_inv H. bind_inv H.
  destruct a0 as [ret m2].
  match type of Hstep3 with GetFlag ?m0 ?i ?n = _ =>
    pose proof (CsxManager_GetFlag_spec m0 i n) as Hg;
    pose proof (GetFlagM_frame m0 i n _ _ Hstep3) as (pm & fa & ->)
  end.
  rewrite Hstep3 in Hg. destruct Hg as (Hret & Hfl1 & _).
  { eapply flagsM_ok_frame; [exact Hfl|done..]. }
  bind_inv H. rename a0 into ctl'. injection H as <-. csxm_simpl.
  match goal with |- context [fold_left ?f ?l ctl'] =>
    destruct (fold_AppendFixedInt_app l
                (GetDeltaSize
                   (if 1 <? Z.of_nat (length cols)
                    then Csx.max_element
                           (drop 1 (map (wrapI sizeof_IndexType)
                                      (Csx.DeltaEncode cols (last_col_ m))))
                    else 0)) ctl') as [tail Htail]
  end.
  rewrite Htail.
  destruct (AppendCtlHead_rjmp _ _ _ _ _ _ _ _ (empty_rows_ m) tail Hret Hiff Hval Hstep4)
    as (cj & pos & Hcj & Hhdr).
  exists cj, pos.
  assert (Hc0 : col_start = hd 0 cols)
    by (apply of_option_Ok in Hstep0; destruct cols; cbn in *; congruence).
  assert (Hc1 : cols0 = wrapI sizeof_IndexType (wrap64 (hd 0 cols - last_col_ m))).
  { apply of_option_Ok in Hstep1. destruct cols; cbn in *; congruence. }
  subst col_start cols0.
  split; [exact Hcj|]. split; [exact Hhdr|].
  split; [done|]. split; [done|].
  eapply flagsM_ok_frame; [exact Hfl1|done..].
Qed.

End CsxManagerRowJump.

(** ** The counter of empty rows over the rows of [MakeCsx] *)

Section CsxRows.
Import Spm Ctl Delta Csx CsxSpec Varint.
Context {V : Type}.
Implicit Types m : Csx.CsxManager V.

Lemma Csx_put_value_rows m v m' :
  put_value m v = Ok m' ->
  new_row_ m' = new_row_ m /\ empty_rows_ m' = empty_rows_ m
  /\ patterns m' = patterns m /\ flag_avail_ m' = flag_avail_ m.
Proof. intros H. apply put_value_spec in H as [_ ->]. done. Qed.

Lemma Csx_put_values_rows n vals : forall m i m',
  put_values n m vals i = Ok m' ->
  new_row_ m' = new_row_ m /\ empty_rows_ m' = empty_rows_ m
  /\ patterns m' = patterns m /\ flag_avail_ m' = flag_avail_ m.
Proof.
  induction n as [|n IH]; intros m i m' H; cbn [put_values] in H.
  - by injection H as <-.
  - bind_inv H. bind_inv H. rename a0 into m1.
    apply Csx_put_value_rows in Hstep0 as (? & ? & ? & ?).
    apply IH in H as (? & ? & ? & ?). repeat split; congruence.
Qed.

(** No empty row is counted and the row has a unit. *)
Lemma row_ok_unit m : empty_rows_ m = 0 -> new_row_ m = false -> row_ok m.
Proof. intros H1 H2. split; [done|]. rewrite H1. lia. Qed.

Lemma Csx_DoRow_elem_rows m xs e m' xs' :
  flags_ok m -> row_ok m ->
  DoRow_elem (m, xs) e = Ok (m', xs') ->
  flags_ok m' /\ row_ok m' /\ (xs' <> [] \/ new_row_ m' = false).
Proof.
  intros Hf Hr H. unfold DoRow_elem in H. destruct e as [x v|x p vals].
  - bind_inv H. bind_inv H. destruct a0 as [m1 xs1].
    bind_inv H. injection H as <- <-.
    apply Csx_put_value_rows in Hstep1 as (Hn & He & Hp & Hfa).
    assert (flags_ok m1 /\ row_ok m1) as [Hf1 Hr1].
    { destruct (_ =? CTL_SIZE_MAX).
      - bind_inv Hstep0. injection Hstep0 as <- <-.
        destruct (Csx_AddXs_rjmp _ _ _ Hf Hr Hstep1) as (cj & _ & _ & ? & ? & ?).
        split; [done|]. by apply row_ok_unit.
      - by injection Hstep0 as <- <-. }
    split; [by eapply flags_ok_frame|]. split; [by eapply row_ok_frame|].
    left. by destruct xs1.
  - bind_inv H. destruct a as [jmp m1].
    assert (jmp = 0 /\ flags_ok m1 /\ row_ok m1) as (-> & Hf1 & Hr1).
    { unfold PreparePat in Hstep. destruct xs.
      - by injection Hstep as <- <-.
      - bind_inv Hstep. injection Hstep as <- <-.
        destruct (Csx_AddXs_rjmp _ _ _ Hf Hr Hstep0) as (cj & _ & _ & ? & ? & ?).
        split; [done|]. split; [done|]. by apply row_ok_unit. }
    clear Hstep. cbn [length Nat.eqb assert] in H.
    bind_inv H. clear Hstep. bind_inv H. rename a0 into m2.
    destruct (Csx_AddPattern_rjmp _ _ _ _ Hf1 Hr1 Hstep)
      as (cj & _ & _ & He2 & Hn2 & Hf2).
    clear Hstep. bind_inv H. rename a0 into m3. injection H as <- <-.
    apply Csx_put_values_rows in Hstep as (Hn & He & Hp & Hfa).
    split; [by eapply flags_ok_frame|].
    split; [apply row_ok_unit; congruence|]. right. congruence.
Qed.

Lemma Csx_DoRow_fold_rows row : forall m xs m' xs',
  flags_ok m -> row_ok m -> (xs <> [] \/ new_row_ m = false) ->
  Drle.foldM DoRow_elem row (m, xs) = Ok (m', xs') ->
  flags_ok m' /\ row_ok m' /\ (xs' <> [] \/ new_row_ m' = false).
Proof.
  induction row as [|e row IH]; intros m xs m' xs' Hf Hr Hu H;
    cbn [Drle.foldM] in H.
  - by injection H as <- <-.
  - bind_inv H. destruct a as [m1 xs1].
    destruct (Csx_DoRow_elem_rows _ _ _ _ _ Hf Hr Hstep) as (? & ? & ?).
    eauto.
Qed.

(** A row that is not empty gets a unit: [DoRow] leaves no empty row
    counted. *)
Lemma Csx_DoRow_rows m row m' :
  flags_ok m -> row_ok m -> row <> [] ->
  DoRow m row = Ok m' ->
  flags_ok m' /\ new_row_ m' = false /\ empty_rows_ m' = 0.
Proof.
  intros Hf Hr Hrow H. unfold DoRow in H. bind_inv H. destruct a as [m1 xs1].
  destruct row as [|e row]; [done|]. cbn [Drle.foldM] in Hstep.
  bind_inv Hstep. destruct a as [m0 xs0].
  assert (Hf' : flags_ok (set_last_col m 1)) by (by eapply flags_ok_frame).
  assert (Hr' : row_ok (set_last_col m 1)) by (by eapply row_ok_frame).
  destruct (Csx_DoRow_elem_rows _ _ _ _ _ Hf' Hr' Hstep0) as (Hf0 & Hr0 & Hu0).
  destruct (Csx_DoRow_fold_rows _ _ _ _ _ Hf0 Hr0 Hu0 Hstep) as (Hf1 & Hr1 & Hu1).
  destruct xs1 as [|x xs1].
  - injection H as <-. destruct Hu1 as [|Hn]; [done|].
    split; [done|]. split; [done|]. by apply Hr1.
  - destruct (Csx_AddXs_rjmp _ _ _ Hf1 Hr1 H) as (cj & _ & _ & ? & ? & ?).
    done.
Qed.

(** The counter of empty rows over one row of [MakeCsx]: an empty row
    is counted, except the first row when it is empty; a row that is not
    empty leaves the counter at zero. *)
Lemma Csx_MakeCsx_row_counter m row m' :
  flags_ok m -> row_ok m ->
  MakeCsx_row m row = Ok m' ->
  new_row_ m' = true
  /\ empty_rows_ m'
     = match row with
       | [] => if new_row_ m then wrap64 (empty_rows_ m + 1) else empty_rows_ m
       | _ :: _ => 0
       end
  /\ flags_ok m'.
Proof.
  intros Hf Hr H. unfold MakeCsx_row in H. destruct row as [|e row].
  - destruct (new_row_ m) eqn:En; cbn [negb] in H; injection H as <-;
      (split; [done|]; split; [done|];
       eapply flags_ok_frame; [exact Hf | reflexivity | reflexivity]).
  - bind_inv H. injection H as <-.
    assert (Hne : e :: row <> []) by done.
    destruct (Csx_DoRow_rows _ _ _ Hf Hr Hne Hstep) as (? & ? & ?).
    split; [done|]. split; [done|].
    eapply flags_ok_frame; [eassumption | reflexivity | reflexivity].
Qed.

End CsxRows.

Section CsxManagerRows.
Import Spm Ctl Delta CtlBuilder CsxManager CsxManagerSpec Varint.
Context {V : Type}.
Variable sizeof_IndexType : Z.
Implicit Types m : CsxManager.CsxManager V.

Lemma same_rows_state_ok m m' :
  same_rows_state m m' -> flags_ok m -> row_ok m -> flags_ok m' /\ row_ok m'.
Proof.
  intros (Hn & He & Hp & Hfa) Hf Hr. split.
  - by eapply flagsM_ok_frame.
  - unfold row_ok in *. by rewrite Hn, He.
Qed.

Lemma CsxManager_put_value_rows m v m' :
  put_value m v = Ok m' -> same_rows_state m m'.
Proof.
  unfold put_value. intros H. bind_inv H. injection H as <-. by repeat split.
Qed.

Lemma CsxManager_put_values_rows n vals : forall m i m',
  put_values n m vals i = Ok m' -> same_rows_state m m'.
Proof.
  induction n as [|n IH]; intros m i m' H; cbn [put_values] in H.
  - injection H as <-. by repeat split.
  - bind_inv H. bind_inv H. rename a0 into m1.
    apply CsxManager_put_value_rows in Hstep0 as (? & ? & ? & ?).
    apply IH in H as (? & ? & ? & ?). repeat split; congruence.
Qed.

Lemma rowM_ok_unit m : empty_rows_ m = 0 -> new_row_ m = false -> row_ok m.
Proof. intros H1 H2. split; [done|]. rewrite H1. lia. Qed.

Lemma CsxManager_UpdateRowSpan_rows m p :
  same_rows_state m (UpdateRowSpan m p).
Proof.
  unfold UpdateRowSpan. destruct (GetInstantiation p) as [t delta].
  destruct (span_ m <? _); by repeat split.
Qed.

Lemma CsxManager_DoRow_elem_rows m cols e m' cols' :
  flags_ok m -> row_ok m ->
  DoRow_elem sizeof_IndexType (m, cols) e = Ok (m', cols') ->
  flags_ok m' /\ row_ok m' /\ (cols' <> [] \/ new_row_ m' = false).
Proof.
  intros Hf Hr H. unfold DoRow_elem in H. destruct e as [x v|x p vals].
  - bind_inv H. clear Hstep. bind_inv H. destruct a0 as [m1 cols1].
    assert (flags_ok m1 /\ row_ok m1) as [Hf1 Hr1].
    { destruct (_ =? CTL_SIZE_MAX).
      - bind_inv Hstep. injection Hstep as <- <-.
        destruct (CsxManager_AddCols_rjmp _ _ _ _ Hf Hr Hstep0)
          as (cj & pos & _ & _ & ? & ? & ?).
        split; [done|]. by apply rowM_ok_unit.
      - by injection Hstep as <- <-. }
    clear Hstep. bind_inv H. injection H as <- <-.
    apply CsxManager_put_value_rows in Hstep.
    destruct (same_rows_state_ok _ _ Hstep Hf1 Hr1). split; [done|].
    split; [done|]. left. by destruct cols1.
  - destruct (same_rows_state_ok _ _ (CsxManager_UpdateRowSpan_rows m p) Hf Hr)
      as [Hf0 Hr0].
    bind_inv H. rename a into m1.
    assert (flags_ok m1 /\ row_ok m1) as (Hf1 & Hr1).
    { unfold PreparePat in Hstep. destruct cols.
      - by injection Hstep as <-.
      - destruct (CsxManager_AddCols_rjmp _ _ _ _ Hf0 Hr0 Hstep)
          as (cj & pos & _ & _ & ? & ? & ?).
        split; [done|]. by apply rowM_ok_unit. }
    clear Hstep. cbn [length Nat.eqb assert] in H.
    bind_inv H. clear Hstep. bind_inv H. rename a0 into m2.
    destruct (CsxManager_AddPattern_rjmp _ _ _ _ _ Hf1 Hr1 Hstep)
      as (cj & pos & _ & _ & He2 & Hn2 & Hf2).
    clear Hstep. bind_inv H. rename a0 into m3. injection H as <- <-.
    apply CsxManager_put_values_rows in Hstep.
    destruct (same_rows_state_ok _ _ Hstep Hf2 (rowM_ok_unit _ He2 Hn2)).
    split; [done|]. split; [done|]. right.
    destruct Hstep as (-> & _). done.
Qed.

Lemma CsxManager_DoRow_fold_rows row : forall m cols m' cols',
  flags_ok m -> row_ok m -> (cols <> [] \/ new_row_ m = false) ->
  Drle.foldM (DoRow_elem sizeof_IndexType) row (m, cols) = Ok (m', cols') ->
  flags_ok m' /\ row_ok m' /\ (cols' <> [] \/ new_row_ m' = false).
Proof.
  induction row as [|e row IH]; intros m cols m' cols' Hf Hr Hu H;
    cbn [Drle.foldM] in H.
  - by injection H as <- <-.
  - bind_inv H. destruct a as [m1 cols1].
    destruct (CsxManager_DoRow_elem_rows _ _ _ _ _ Hf Hr Hstep) as (? & ? & ?).
    eauto.
Qed.

(** The loop of [DoRow] and the unit of the columns it leaves. *)
Lemma CsxManager_DoRow_loop_rows m row m' :
  flags_ok m -> row_ok m -> (row <> [] \/ new_row_ m = false) ->
  ('(m, cols) ← Drle.foldM (DoRow_elem sizeof_IndexType) row (m, []);
   match cols with
   | [] => Ok m
   | _ => AddCols sizeof_IndexType m cols
   end) = Ok m' ->
  flags_ok m' /\ new_row_ m' = false /\ empty_rows_ m' = 0.
Proof.
  intros Hf Hr Hrow H. bind_inv H. destruct a as [m1 cols1].
  assert (flags_ok m1 /\ row_ok m1 /\ (cols1 <> [] \/ new_row_ m1 = false))
    as (Hf1 & Hr1 & Hu1).
  { destruct row as [|e row].
    - injection Hstep as <- <-. destruct Hrow as [|Hn]; [done|]. auto.
    - cbn [Drle.foldM] in Hstep. bind_inv Hstep. destruct a as [m0 cols0].
      destruct (CsxManager_DoRow_elem_rows _ _ _ _ _ Hf Hr Hstep0)
        as (Hf0 & Hr0 & Hu0).
      by apply (CsxManager_DoRow_fold_rows _ _ _ _ _ Hf0 Hr0 Hu0 Hstep). }
  destruct cols1 as [|c cols1].
  - injection H as <-. destruct Hu1 as [|Hn]; [done|].
    split; [done|]. split; [done|]. by apply Hr1.
  - destruct (CsxManager_AddCols_rjmp _ _ _ _ Hf1 Hr1 H)
      as (cj & pos & _ & _ & ? & ? & ?).
    done.
Qed.


Lemma sym_split_app (row_start : Z) (row : list (SpmRowElem V)) :
  (sym_split row_start row).1 ++ (sym_split row_start row).2 = row.
Proof.
  induction row as [|e row IH]; cbn [sym_split]; [done|].
  destruct (x_of e <? row_start + 1); [|done].
  destruct (sym_split row_start row) as [a b]. cbn in *. by rewrite IH.
Qed.

Lemma CsxManager_DoRow_rows m row m' :
  flags_ok m -> row_ok m -> row <> [] ->
  DoRow sizeof_IndexType m row = Ok m' ->
  flags_ok m' /\ new_row_ m' = false /\ empty_rows_ m' = 0.
Proof.
  intros Hf Hr Hrow H. unfold DoRow in H.
  apply CsxManager_DoRow_loop_rows in H; [done| | |by left].
  - eapply flagsM_ok_frame; [exact Hf | reflexivity | reflexivity].
  - exact Hr.
Qed.

Lemma CsxManager_DoSymRow_rows m row m' :
  flags_ok m -> row_ok m -> row <> [] ->
  DoSymRow sizeof_IndexType m row = Ok m' ->
  flags_ok m' /\ new_row_ m' = false /\ empty_rows_ m' = 0.
Proof.
  intros Hf Hr Hrow H. unfold DoSymRow in H.
  pose proof (sym_split_app (row_start_ (spm_ (set_last_col (set_span m 0) 1)))
                row) as Happ.
  destruct (sym_split _ row) as [row1 row2]. cbn [fst snd] in Happ.
  set (m0 := set_last_col (set_span m 0) 1) in *.
  assert (Hf0 : flags_ok m0)
    by (eapply flagsM_ok_frame; [exact Hf | reflexivity | reflexivity]).
  assert (Hr0 : row_ok m0) by exact Hr.
  apply bind_Ok in H as ([ma colsa] & Ha & H).
  apply bind_Ok in H as (m1 & Hflush & H).
  assert (flags_ok m1 /\ row_ok m1 /\ (row1 <> [] -> new_row_ m1 = false))
    as (Hf1 & Hr1 & Hn1).
  { destruct row1 as [|e row1].
    - injection Ha as <- <-. injection Hflush as <-. done.
    - destruct (CsxManager_DoRow_loop_rows m0 (e :: row1) m1 Hf0 Hr0)
        as (? & ? & ?); [by left| |].
      + by rewrite Ha.
      + split; [done|]. split; [by apply rowM_ok_unit | done]. }
  apply (CsxManager_DoRow_loop_rows m1 row2 m' Hf1 Hr1); [|exact H].
  destruct row1; [left; by subst row | right; by apply Hn1].
Qed.

(** The counter of empty rows over one row of [MakeCsx]: an empty row
    is counted, except the first row when it is empty; a row that is not
    empty leaves the counter at zero. *)
Lemma CsxManager_MakeCsx_row_counter symmetric m i row m' i' :
  flags_ok m -> row_ok m ->
  MakeCsx_row sizeof_IndexType symmetric (m, i) row = Ok (m', i') ->
  new_row_ m' = true
  /\ empty_rows_ m'
     = match row with
       | [] => if new_row_ m then wrap64 (empty_rows_ m + 1) else empty_rows_ m
       | _ :: _ => 0
       end
  /\ flags_ok m'.
Proof.
  intros Hf Hr H. unfold MakeCsx_row in H. bind_inv H. clear Hstep.
  assert (Hnext : forall ma : CsxManager.CsxManager V,
            same_rows_state ma
              (if symmetric then ma
               else set_curr_row ma (wrap64 (curr_row_ ma + 1)))).
  { intros ma. destruct symmetric; by repeat split. }
  assert (Hput : forall (ma : CsxManager.CsxManager V) j ri mb,
            put_row_info ma j ri = Ok mb -> same_rows_state ma mb).
  { intros ma j ri mb Hp. unfold put_row_info in Hp. bind_inv Hp.
    injection Hp as <-. by repeat split. }
  destruct row as [|e row].
  - bind_inv H. destruct a0 as [m1 rowptr]. bind_inv H. rename a0 into m2.
    injection H as <- <-.
    destruct (Hnext m2) as (Hn3 & He3 & Hp3 & Hfa3).
    destruct (Hput _ _ _ _ Hstep0) as (Hn2 & He2 & Hp2 & Hfa2).
    rewrite Hn3, He3, Hn2, He2.
    assert (new_row_ m1 = true
            /\ empty_rows_ m1 = (if new_row_ m
                                 then wrap64 (empty_rows_ m + 1)
                                 else empty_rows_ m)
            /\ patterns m1 = patterns m /\ flag_avail_ m1 = flag_avail_ m)
      as (? & ? & ? & ?).
    { destruct (new_row_ m) eqn:En; cbn [negb] in Hstep.
      - bind_inv Hstep. bind_inv Hstep. by injection Hstep as <- <-.
      - by injection Hstep as <- <-. }
    split; [done|]. split; [done|].
    eapply flagsM_ok_frame; [exact Hf | congruence | congruence].
  - bind_inv H. rename a0 into m1. bind_inv H. rename a0 into m2.
    injection H as <- <-.
    assert (flags_ok m1 /\ new_row_ m1 = false /\ empty_rows_ m1 = 0)
      as (Hf1 & Hn1 & He1).
    { assert (Hne : e :: row <> []) by done.
      destruct symmetric;
        [by eapply CsxManager_DoSymRow_rows | by eapply CsxManager_DoRow_rows]. }
    destruct (Hput _ _ _ _ Hstep0) as (Hn2 & He2 & Hp2 & Hfa2).
    clear Hnext Hput.
    destruct symmetric; csxm_simpl.
    all: split; [done|]; split; [congruence|].
    all: eapply flagsM_ok_frame; [exact Hf1 | cbn; congruence | cbn; congruence].
Qed.

End CsxManagerRows.

(** ** C9 *)

Section CsxRun.
Import Spm Ctl Delta Csx CsxSpec Varint.
Context {V : Type}.
Implicit Types m : Csx.CsxManager V.

Lemma rjmp_header_app c ext er cj tail :
  (2 <= length ext)%nat ->
  rjmp_header c (c ++ ext) er cj -> rjmp_header c ((c ++ ext) ++ tail) er cj.
Proof.
  intros Hlen [Hbit (rj & rest & Hd & H1 & H2)]. split.
  - unfold unit_rjmp in *. rewrite lookup_app_l; [exact Hbit|].
    rewrite length_app. lia.
  - exists rj, (rest ++ tail). split; [|by split].
    rewrite drop_app_le by (rewrite length_app; lia).
    rewrite Hd, <- !app_assoc. reflexivity.
Qed.

(** The first unit of a row stays what it is when another unit
    follows. *)
Lemma head_step c0 er0 (c c' : list Z) (er : Z) :
  (c = c0 /\ er = er0
   \/ exists cj ext, rjmp_header c0 (c0 ++ ext) er0 cj /\ c = c0 ++ ext
                     /\ (2 <= length ext)%nat) ->
  (exists cj, rjmp_header c c' er cj) ->
  (exists ext, c' = c ++ ext /\ (2 <= length ext)%nat) ->
  exists cj ext, rjmp_header c0 (c0 ++ ext) er0 cj /\ c' = c0 ++ ext
                 /\ (2 <= length ext)%nat.
Proof.
  intros [[-> ->]|(cj0 & ext0 & Hh & -> & Hl0)] [cj Hcj] (ext & -> & Hl).
  - exists cj, ext. done.
  - exists cj0, (ext0 ++ ext). split; [|split].
    + rewrite app_assoc. by apply rjmp_header_app.
    + by rewrite app_assoc.
    + rewrite length_app. lia.
Qed.

Lemma Csx_AddXs_app m xs m' :
  AddXs m xs = Ok m' ->
  exists ext, ctl_da_ m' = ctl_da_ m ++ ext /\ (2 <= length ext)%nat.
Proof.
  intros H. destruct (AddXs_spec _ _ _ H) as [(f & tail & Hc & _) _].
  exists ([f; Z.of_nat (length xs)] ++ tail). split; [exact Hc|].
  rewrite length_app. cbn [length]. lia.
Qed.

Lemma Csx_AddPattern_app m x p m' :
  AddPattern m x p 0 = Ok m' ->
  exists ext, ctl_da_ m' = ctl_da_ m ++ ext /\ (2 <= length ext)%nat.
Proof.
  unfold AddPattern. intros H. cbn [alloc_head] in H.
  bind_inv H. destruct a as [ret m1].
  apply GetFlag_spec in Hstep as (pm & fa & ->).
  change (negb (0 =? 0)) with false in H. cbv iota in H.
  bind_inv H. clear Hstep. bind_inv H. rename a0 into m2.
  apply UpdateNewRow_spec in Hstep as (b & bs & nr & er & rj & ->).
  2:{ csx_simpl. rewrite !length_insert, length_app; cbn [length]. lia. }
  csx_simpl. rewrite insert_head_app, insert_size_app, insert_head_app in H.
  bind_inv H. apply put_ul_spec in Hstep as [bs2 ->]. csx_simpl.
  injection H as <-. csx_simpl.
  eexists. rewrite <- !app_assoc. split; [reflexivity|].
  rewrite !length_app. cbn [length]. lia.
Qed.

Lemma Csx_put_value_ctl m v m' :
  put_value m v = Ok m' -> ctl_da_ m' = ctl_da_ m.
Proof. intros H. apply put_value_spec in H as [_ ->]. done. Qed.

Lemma Csx_put_values_ctl n vals : forall m i m',
  put_values n m vals i = Ok m' -> ctl_da_ m' = ctl_da_ m.
Proof.
  induction n as [|n IH]; intros m i m' H; cbn [put_values] in H.
  - by injection H as <-.
  - bind_inv H. bind_inv H. rename a0 into m1.
    apply Csx_put_value_ctl in Hstep0. apply IH in H. congruence.
Qed.

Lemma Csx_DoRow_elem_head c0 er0 m xs e m' xs' :
  flags_ok m -> row_ok m ->
  (ctl_da_ m = c0 /\ empty_rows_ m = er0
   \/ exists cj ext, rjmp_header c0 (c0 ++ ext) er0 cj
                     /\ ctl_da_ m = c0 ++ ext /\ (2 <= length ext)%nat) ->
  DoRow_elem (m, xs) e = Ok (m', xs') ->
  (ctl_da_ m' = c0 /\ empty_rows_ m' = er0 /\ xs' <> [])
  \/ exists cj ext, rjmp_header c0 (c0 ++ ext) er0 cj
                    /\ ctl_da_ m' = c0 ++ ext /\ (2 <= length ext)%nat.
Proof.
  intros Hf Hr Hinv H. unfold DoRow_elem in H. destruct e as [x v|x p vals].
  - bind_inv H. clear Hstep. bind_inv H. destruct a0 as [m1 xs1].
    bind_inv H. injection H as <- <-.
    pose proof (Csx_put_value_ctl _ _ _ Hstep0) as Hc.
    apply Csx_put_value_rows in Hstep0 as (_ & He & _).
    destruct (_ =? CTL_SIZE_MAX).
    + bind_inv Hstep. injection Hstep as <- <-. right.
      rewrite Hc.
      destruct (Csx_AddXs_rjmp _ _ _ Hf Hr Hstep0) as (cj & _ & Hh & _).
      eapply head_step; [exact Hinv | eauto | by eapply Csx_AddXs_app].
    + injection Hstep as <- <-. rewrite Hc, He.
      destruct Hinv as [[? ?]|?]; [left | by right].
      split; [done|]. split; [done|]. by destruct xs.
  - right. bind_inv H. destruct a as [jmp m1].
    assert (jmp = 0 /\ flags_ok m1 /\ row_ok m1
            /\ (ctl_da_ m1 = c0 /\ empty_rows_ m1 = er0
                \/ exists cj ext, rjmp_header c0 (c0 ++ ext) er0 cj
                     /\ ctl_da_ m1 = c0 ++ ext /\ (2 <= length ext)%nat))
      as (-> & Hf1 & Hr1 & Hinv1).
    { unfold PreparePat in Hstep. destruct xs.
      - by injection Hstep as <- <-.
      - bind_inv Hstep. injection Hstep as <- <-.
        destruct (Csx_AddXs_rjmp _ _ _ Hf Hr Hstep0)
          as (cj & _ & Hh & ? & ? & ?).
        split; [done|]. split; [done|]. split; [by apply row_ok_unit|].
        right. eapply head_step; [exact Hinv | eauto | by eapply Csx_AddXs_app]. }
    clear Hstep. cbn [length Nat.eqb assert] in H.
    bind_inv H. clear Hstep. bind_inv H. rename a0 into m2.
    bind_inv H. rename a0 into m3. injection H as <- <-.
    apply Csx_put_values_ctl in Hstep0. rewrite Hstep0.
    destruct (Csx_AddPattern_rjmp _ _ _ _ Hf1 Hr1 Hstep) as (cj & _ & Hh & _).
    eapply head_step; [exact Hinv1 | eauto | by eapply Csx_AddPattern_app].
Qed.

Lemma Csx_DoRow_fold_head c0 er0 row : forall m xs m' xs',
  flags_ok m -> row_ok m ->
  (ctl_da_ m = c0 /\ empty_rows_ m = er0 /\ xs <> []
   \/ exists cj ext, rjmp_header c0 (c0 ++ ext) er0 cj
                     /\ ctl_da_ m = c0 ++ ext /\ (2 <= length ext)%nat) ->
  Drle.foldM DoRow_elem row (m, xs) = Ok (m', xs') ->
  flags_ok m' /\ row_ok m'
  /\ (ctl_da_ m' = c0 /\ empty_rows_ m' = er0 /\ xs' <> []
      \/ exists cj ext, rjmp_header c0 (c0 ++ ext) er0 cj
                        /\ ctl_da_ m' = c0 ++ ext /\ (2 <= length ext)%nat).
Proof.
  induction row as [|e row IH]; intros m xs m' xs' Hf Hr Hinv H;
    cbn [Drle.foldM] in H.
  - by injection H as <- <-.
  - bind_inv H. destruct a as [m1 xs1].
    destruct (Csx_DoRow_elem_rows _ _ _ _ _ Hf Hr Hstep) as (Hf1 & Hr1 & _).
    eapply (IH m1 xs1); [done | done | | exact H].
    eapply Csx_DoRow_elem_head; [exact Hf | exact Hr | | exact Hstep].
    destruct Hinv as [(? & ? & _)|?]; [by left | by right].
Qed.

(** The first unit of a row that is not empty: its header is the one of
    the counter of empty rows at the start of the row. *)
Lemma Csx_DoRow_head m row m' :
  flags_ok m -> row_ok m -> row <> [] ->
  DoRow m row = Ok m' ->
  exists cj ext, rjmp_header (ctl_da_ m) (ctl_da_ m ++ ext) (empty_rows_ m) cj
                 /\ ctl_da_ m' = ctl_da_ m ++ ext /\ (2 <= length ext)%nat.
Proof.
  intros Hf Hr Hrow H. unfold DoRow in H. bind_inv H. destruct a as [m1 xs1].
  destruct row as [|e row]; [done|]. cbn [Drle.foldM] in Hstep.
  bind_inv Hstep. destruct a as [m0 xs0].
  assert (Hf' : flags_ok (set_last_col m 1)) by (by eapply flags_ok_frame).
  assert (Hr' : row_ok (set_last_col m 1)) by (by eapply row_ok_frame).
  destruct (Csx_DoRow_elem_rows _ _ _ _ _ Hf' Hr' Hstep0) as (Hf0 & Hr0 & _).
  pose proof (Csx_DoRow_elem_head (ctl_da_ m) (empty_rows_ m) _ _ _ _ _
                Hf' Hr' ltac:(by left) Hstep0) as Hinv0.
  destruct (Csx_DoRow_fold_head _ _ _ _ _ _ _ Hf0 Hr0 Hinv0 Hstep)
    as (Hf1 & Hr1 & Hinv1).
  destruct xs1 as [|x xs1].
  - injection H as <-. destruct Hinv1 as [(_ & _ & ?)|?]; done.
  - destruct (Csx_AddXs_rjmp _ _ _ Hf1 Hr1 H) as (cj & _ & Hh & _).
    eapply head_step; [ | eauto | by eapply Csx_AddXs_app].
    destruct Hinv1 as [(? & ? & _)|?]; [by left | by right].
Qed.

Lemma Csx_DoRow_elem_app m xs e m' xs' :
  DoRow_elem (m, xs) e = Ok (m', xs') ->
  exists ext, ctl_da_ m' = ctl_da_ m ++ ext.
Proof.
  intros H. unfold DoRow_elem in H. destruct e as [x v|x p vals].
  - bind_inv H. clear Hstep. bind_inv H. destruct a0 as [m1 xs1].
    bind_inv H. injection H as <- <-.
    apply Csx_put_value_ctl in Hstep0. rewrite Hstep0.
    destruct (_ =? CTL_SIZE_MAX).
    + bind_inv Hstep. injection Hstep as <- <-.
      destruct (Csx_AddXs_app _ _ _ Hstep1) as (ext & ? & _). eauto.
    + injection Hstep as <- <-. exists []. by rewrite app_nil_r.
  - bind_inv H. destruct a as [jmp m1].
    assert (jmp = 0 /\ exists ext, ctl_da_ m1 = ctl_da_ m ++ ext)
      as (-> & ext1 & Hc1).
    { unfold PreparePat in Hstep. destruct xs.
      - injection Hstep as <- <-. split; [done|]. exists [].
        by rewrite app_nil_r.
      - bind_inv Hstep. injection Hstep as <- <-.
        destruct (Csx_AddXs_app _ _ _ Hstep0) as (ext & ? & _). eauto. }
    clear Hstep. cbn [length Nat.eqb assert] in H.
    bind_inv H. clear Hstep. bind_inv H. rename a0 into m2.
    bind_inv H. rename a0 into m3. injection H as <- <-.
    apply Csx_put_values_ctl in Hstep0. rewrite Hstep0.
    destruct (Csx_AddPattern_app _ _ _ _ Hstep) as (ext2 & -> & _).
    exists (ext1 ++ ext2). by rewrite Hc1, app_assoc.
Qed.

Lemma Csx_DoRow_fold_app row : forall m xs m' xs',
  Drle.foldM DoRow_elem row (m, xs) = Ok (m', xs') ->
  ctl_da_ m `prefix_of` ctl_da_ m'.
Proof.
  induction row as [|e row IH]; intros m xs m' xs' H; cbn [Drle.foldM] in H.
  - by injection H as <- <-.
  - bind_inv H. destruct a as [m1 xs1].
    destruct (Csx_DoRow_elem_app _ _ _ _ _ Hstep) as (ext & Hc).
    etrans; [|by eapply IH]. rewrite Hc. by apply prefix_app_r.
Qed.

Lemma Csx_MakeCsx_row_app m row m' :
  MakeCsx_row m row = Ok m' -> ctl_da_ m `prefix_of` ctl_da_ m'.
Proof.
  intros H. unfold MakeCsx_row in H. destruct row as [|e row].
  - destruct (negb (new_row_ m)); injection H as <-; done.
  - bind_inv H. injection H as <-. csx_simpl.
    unfold DoRow in Hstep. bind_inv Hstep. destruct a0 as [m1 xs1].
    apply Csx_DoRow_fold_app in Hstep0. csx_simpl.
    destruct xs1.
    + by injection Hstep as <-.
    + destruct (Csx_AddXs_app _ _ _ Hstep) as (ext & -> & _).
      etrans; [exact Hstep0|]. by apply prefix_app_r.
Qed.

Lemma Csx_rows_app rws : forall m m',
  Drle.foldM MakeCsx_row rws m = Ok m' -> ctl_da_ m `prefix_of` ctl_da_ m'.
Proof.
  induction rws as [|row rws IH]; intros m m' H; cbn [Drle.foldM] in H.
  - by injection H as <-.
  - bind_inv H. etrans; [by eapply Csx_MakeCsx_row_app | by eapply IH].
Qed.

(** The counter of empty rows stays below the number of rows done. *)
Lemma Csx_rows_counter rws : forall m m' (n : Z),
  flags_ok m -> (new_row_ m = false -> empty_rows_ m = 0) ->
  0 <= empty_rows_ m <= n ->
  n + Z.of_nat (length rws) < 2 ^ 64 - 1 ->
  Drle.foldM MakeCsx_row rws m = Ok m' ->
  flags_ok m' /\ (new_row_ m' = false -> empty_rows_ m' = 0)
  /\ 0 <= empty_rows_ m' <= n + Z.of_nat (length rws)
  /\ (rws <> [] -> new_row_ m' = true)
  /\ (forall rws' r, rws = rws' ++ [r] -> r <> [] -> empty_rows_ m' = 0).
Proof.
  induction rws as [|row rws IH]; intros m m' n Hf Hn He Hlen H;
    cbn [Drle.foldM] in H.
  - injection H as <-. cbn [length]. split; [done|]. split; [done|].
    split; [lia|]. split; [done|]. intros [|] ? ?; discriminate.
  - bind_inv H. rename a into m1. cbn [length] in Hlen |- *.
    assert (Hr : row_ok m) by (split; [done | lia]).
    destruct (Csx_MakeCsx_row_counter _ _ _ Hf Hr Hstep) as (Hn1 & He1 & Hf1).
    assert (He1' : 0 <= empty_rows_ m1 <= n + 1).
    { rewrite He1. destruct row; [|lia]. destruct (new_row_ m); [|lia].
      rewrite wrap64_small by lia. lia. }
    destruct (IH m1 m' (n + 1) Hf1 ltac:(congruence) He1' ltac:(lia) H)
      as (Hf' & Hn' & He' & Hnr' & Hlast).
    split; [done|]. split; [done|]. split; [lia|]. split.
    + intros _. destruct rws as [|r rws].
      * cbn [Drle.foldM] in H. by injection H as <-.
      * by apply Hnr'.
    + intros rws' r Heq Hr0. destruct rws' as [|r' rws'].
      * cbn [app] in Heq. injection Heq as -> ->.
        cbn [Drle.foldM] in H. injection H as <-. rewrite He1.
        by destruct r.
      * cbn [app] in Heq. injection Heq as -> ->. by eapply Hlast.
Qed.

(** Empty rows write nothing and are counted, except an empty first
    row. *)
Lemma Csx_empty_rows k : forall m m',
  empty_rows_ m + Z.of_nat k < 2 ^ 64 ->
  0 <= empty_rows_ m ->
  Drle.foldM MakeCsx_row (replicate k []) m = Ok m' ->
  ctl_da_ m' = ctl_da_ m /\ patterns m' = patterns m
  /\ flag_avail_ m' = flag_avail_ m
  /\ new_row_ m' = (new_row_ m || negb (k =? 0)%nat)
  /\ empty_rows_ m'
     = empty_rows_ m + (if new_row_ m then Z.of_nat k else Z.of_nat (k - 1)).
Proof.
  induction k as [|k IH]; intros m m' Hb H0 H; cbn [replicate Drle.foldM] in H.
  - injection H as <-. rewrite orb_false_r.
    repeat (split; [done|]). destruct (new_row_ m); cbn; lia.
  - bind_inv H. rename a into m1. cbn [MakeCsx_row] in Hstep.
    destruct (new_row_ m) eqn:En; cbn [negb] in Hstep; injection Hstep as <-.
    + apply IH in H; csx_simpl.
      * destruct H as (-> & -> & -> & -> & ->).
        cbn [orb]. repeat (split; [done|]).
        rewrite wrap64_small by lia. lia.
      * rewrite wrap64_small by lia. lia.
      * rewrite wrap64_small by lia. lia.
    + apply IH in H; csx_simpl; [|lia|lia].
      destruct H as (-> & -> & -> & -> & ->).
      cbn [orb]. repeat (split; [done|]).
      replace (S k - 1)%nat with k by lia. lia.
Qed.

(** The run of [MakeCsx] of csx.cc: the first unit of a row that is not
    empty and follows [k] empty rows. *)
Lemma Csx_MakeCsx_row_jump (junk : nat -> V) m csx m' pre k row post :
  flags_ok m -> empty_rows_ m = 0 ->
  rows (spm_ m) = pre ++ replicate k [] ++ row :: post ->
  row <> [] ->
  (pre = [] \/ exists pre' r, pre = pre' ++ [r] /\ r <> []) ->
  Z.of_nat (length (rows (spm_ m))) < 2 ^ 64 - 1 ->
  MakeCsx junk m = Ok (csx, m') ->
  exists mA cj,
    Drle.foldM MakeCsx_row (pre ++ replicate k [])
      (set_row_state
         (reset_units
            (set_ctl
               (set_values m
                  (map junk (seq 0 (Z.to_nat (nr_nzeros_ (spm_ m))))) 0) []))
         false (empty_rows_ m) (row_jmps_ m)) = Ok mA
    /\ ctl_da_ mA `prefix_of` ctl csx
    /\ rjmp_header (ctl_da_ mA) (ctl csx)
         (if decide (pre = []) then Z.of_nat (k - 1) else Z.of_nat k) cj.
Proof.
  intros Hf He0 Hrows Hrow Hpre Hlen H. unfold MakeCsx in H.
  bind_inv H. rename a into mE. bind_inv H. clear a Hstep0.
  injection H as <- _. cbn [ctl].
  csx_simpl.
  match type of Hstep with Drle.foldM _ _ ?mm = _ => set (m0 := mm) in * end.
  rewrite Hrows in Hstep, Hlen. rewrite !length_app, length_replicate in Hlen.
  cbn [length] in Hlen.
  rewrite app_assoc, foldM_app in Hstep. bind_inv Hstep. rename a into mA.
  cbn [Drle.foldM] in Hstep. bind_inv Hstep. rename a into mR.
  exists mA. rewrite Hstep0.
  rewrite foldM_app in Hstep0. bind_inv Hstep0. rename a into mP.
  assert (Hf0 : flags_ok m0) by (by eapply flags_ok_frame).
  destruct (Csx_rows_counter pre m0 mP 0 Hf0 ltac:(done)
              ltac:(unfold m0; csx_simpl; lia) ltac:(lia) Hstep2)
    as (HfP & HnP & HeP & HnrP & HlastP).
  assert (HeP0 : empty_rows_ mP = 0).
  { destruct Hpre as [->|(pre' & r & -> & Hr)]; [|by eapply HlastP].
    cbn [Drle.foldM] in Hstep2. injection Hstep2 as <-. done. }
  destruct (Csx_empty_rows k mP mA ltac:(lia) ltac:(lia) Hstep0)
    as (HcA & HpA & HfaA & HnA & HeA).
  assert (HfA : flags_ok mA) by (by eapply flags_ok_frame).
  assert (HeA' : empty_rows_ mA
                 = if decide (pre = []) then Z.of_nat (k - 1) else Z.of_nat k).
  { rewrite HeA, HeP0. destruct (decide (pre = [])) as [->|Hne].
    - cbn [Drle.foldM] in Hstep2. injection Hstep2 as <-. done.
    - by rewrite HnrP. }
  assert (HrA : row_ok mA).
  { split; [|rewrite HeA'; destruct (decide _); lia].
    intros Hn. rewrite HnA in Hn. apply orb_false_iff in Hn as [Hn1 Hn2].
    apply negb_false_iff, Nat.eqb_eq in Hn2. subst k.
    rewrite HeA, HeP0, Hn1. done. }
  unfold MakeCsx_row in Hstep1. destruct row as [|e row]; [done|].
  bind_inv Hstep1. rename a into mD. injection Hstep1 as <-.
  destruct (Csx_DoRow_head _ _ _ HfA HrA Hrow Hstep3)
    as (cj & ext & Hh & HcD & Hl).
  apply Csx_rows_app in Hstep as [tail Htail]. csx_simpl.
  exists cj. rewrite Htail, HcD. split; [reflexivity|]. split.
  - rewrite <- app_assoc. by apply prefix_app_r.
  - rewrite <- HeA'. by apply rjmp_header_app.
Qed.

End CsxRun.

Section CsxManagerRun.
Import Spm Ctl Delta CtlBuilder CsxManager CsxManagerSpec Varint.
Context {V : Type}.
Variable sizeof_IndexType : Z.
Implicit Types m : CsxManager.CsxManager V.

Lemma AppendCtlHead_app ctl nr rowjmp flag size ucol w full ctl' :
  AppendCtlHead ctl nr rowjmp flag size ucol w full = Ok ctl' ->
  exists ext, ctl' = ctl ++ ext /\ (2 <= length ext)%nat.
Proof.
  unfold AppendCtlHead. intros H. bind_inv H. rename a into ctl1.
  assert (exists rj, ctl1 = (ctl ++ [Z.lor
            (Z.lor flag (if nr then Z.shiftl 1 CTL_NR_BIT else 0))
            (if negb (rowjmp =? 0) then Z.shiftl 1 CTL_RJMP_BIT else 0);
            wrap8 size]) ++ rj) as [rj ->].
  { destruct (negb (rowjmp =? 0)).
    - unfold AppendVariableInt in Hstep. apply of_option_Ok in Hstep.
      apply da_put_ul_prefix in Hstep as (rj & _ & ->). eauto.
    - injection Hstep as <-. exists []. by rewrite app_nil_r. }
  assert (exists cj, ctl' = ((ctl ++ [Z.lor
            (Z.lor flag (if nr then Z.shiftl 1 CTL_NR_BIT else 0))
            (if negb (rowjmp =? 0) then Z.shiftl 1 CTL_RJMP_BIT else 0);
            wrap8 size]) ++ rj) ++ cj) as [cj ->].
  { destruct full.
    - injection H as <-. unfold AppendFixedInt. eauto.
    - unfold AppendVariableInt in H. apply of_option_Ok in H.
      apply da_put_ul_prefix in H as (cj & _ & ->). eauto. }
  eexists. rewrite <- !app_assoc. split; [reflexivity|].
  rewrite !length_app. cbn [length]. lia.
Qed.

Lemma CsxManager_UpdateNewRow_ctl m :
  ctl_bld_ (UpdateNewRow m).2 = ctl_bld_ m
  /\ full_column_indices_ (UpdateNewRow m).2 = full_column_indices_ m.
Proof.
  unfold UpdateNewRow. destruct (new_row_ m); [|done].
  destruct (negb _); done.
Qed.

Lemma CsxManager_AddCols_app m cols m' :
  AddCols sizeof_IndexType m cols = Ok m' ->
  exists ext, ctl_bld_ m' = ctl_bld_ m ++ ext /\ (2 <= length ext)%nat.
Proof.
  unfold AddCols. intros H.
  bind_inv H. rename a into last_col. bind_inv H. rename a into col_start.
  pose proof (CsxManager_UpdateNewRow_ctl (set_last_col m last_col)) as [Hc _].
  destruct (UpdateNewRow _) as [[nr rowjmp] m1]. cbn [snd] in Hc.
  bind_inv H. rename a into cols0. bind_inv H. bind_inv H.
  destruct a0 as [ret m2].
  apply GetFlagM_frame in Hstep3 as (pm & fa & ->).
  bind_inv H. rename a0 into ctl'. injection H as <-. csxm_simpl.
  apply AppendCtlHead_app in Hstep3 as (ext & -> & Hl).
  match goal with |- context [fold_left ?f ?l ?c] =>
    match f with
    | (fun ctl c => AppendFixedInt ctl c ?w) =>
        destruct (fold_AppendFixedInt_app l w c) as [tail Htail]
    end
  end.
  rewrite Htail, Hc. exists (ext ++ tail). rewrite app_assoc.
  split; [reflexivity|]. rewrite length_app. lia.
Qed.

Lemma CsxManager_AddPattern_app m x p m' :
  AddPattern sizeof_IndexType m x p = Ok m' ->
  exists ext, ctl_bld_ m' = ctl_bld_ m ++ ext /\ (2 <= length ext)%nat.
Proof.
  unfold AddPattern. intros H.
  pose proof (CsxManager_UpdateNewRow_ctl m) as [Hc _].
  destruct (UpdateNewRow m) as [[nr rowjmp] m1]. cbn [snd] in Hc.
  bind_inv H. bind_inv H. destruct a0 as [ret m2].
  apply GetFlagM_frame in Hstep0 as (pm & fa & ->).
  bind_inv H. rename a0 into ctl'. injection H as <-. csxm_simpl.
  apply AppendCtlHead_app in Hstep0 as (ext & -> & Hl).
  rewrite Hc. eauto.
Qed.

Lemma CsxManager_put_value_ctl m v m' :
  put_value m v = Ok m' -> ctl_bld_ m' = ctl_bld_ m.
Proof.
  unfold put_value. intros H. bind_inv H. by injection H as <-.
Qed.

Lemma CsxManager_put_values_ctl n vals : forall m i m',
  put_values n m vals i = Ok m' -> ctl_bld_ m' = ctl_bld_ m.
Proof.
  induction n as [|n IH]; intros m i m' H; cbn [put_values] in H.
  - by injection H as <-.
  - bind_inv H. bind_inv H. rename a0 into m1.
    apply CsxManager_put_value_ctl in Hstep0. apply IH in H. congruence.
Qed.

Lemma CsxManager_UpdateRowSpan_ctl m p :
  ctl_bld_ (UpdateRowSpan m p) = ctl_bld_ m.
Proof.
  unfold UpdateRowSpan. destruct (GetInstantiation p) as [t delta].
  by destruct (span_ m <? _).
Qed.

Lemma CsxManager_DoRow_elem_head c0 er0 m cols e m' cols' :
  flags_ok m -> row_ok m ->
  (ctl_bld_ m = c0 /\ empty_rows_ m = er0
   \/ exists cj ext, CsxSpec.rjmp_header c0 (c0 ++ ext) er0 cj
                     /\ ctl_bld_ m = c0 ++ ext /\ (2 <= length ext)%nat) ->
  DoRow_elem sizeof_IndexType (m, cols) e = Ok (m', cols') ->
  (ctl_bld_ m' = c0 /\ empty_rows_ m' = er0 /\ cols' <> [])
  \/ exists cj ext, CsxSpec.rjmp_header c0 (c0 ++ ext) er0 cj
                    /\ ctl_bld_ m' = c0 ++ ext /\ (2 <= length ext)%nat.
Proof.
  intros Hf Hr Hinv H. unfold DoRow_elem in H. destruct e as [x v|x p vals].
  - bind_inv H. clear Hstep. bind_inv H. destruct a0 as [m1 cols1].
    bind_inv H. injection H as <- <-.
    pose proof (CsxManager_put_value_ctl _ _ _ Hstep0) as Hc.
    apply CsxManager_put_value_rows in Hstep0 as (_ & He & _).
    destruct (_ =? CTL_SIZE_MAX).
    + bind_inv Hstep. injection Hstep as <- <-. right. rewrite Hc.
      destruct (CsxManager_AddCols_rjmp _ _ _ _ Hf Hr Hstep0)
        as (cj & pos & _ & Hh & _).
      eapply head_step; [exact Hinv | eauto | by eapply CsxManager_AddCols_app].
    + injection Hstep as <- <-. rewrite Hc, He.
      destruct Hinv as [[? ?]|?]; [left | by right].
      split; [done|]. split; [done|]. by destruct cols.
  - right.
    destruct (same_rows_state_ok _ _ (CsxManager_UpdateRowSpan_rows m p) Hf Hr)
      as [Hf0 Hr0].
    assert (Hinv0 : ctl_bld_ (UpdateRowSpan m p) = c0
                    /\ empty_rows_ (UpdateRowSpan m p) = er0
              \/ exists cj ext, CsxSpec.rjmp_header c0 (c0 ++ ext) er0 cj
                   /\ ctl_bld_ (UpdateRowSpan m p) = c0 ++ ext
                   /\ (2 <= length ext)%nat).
    { rewrite CsxManager_UpdateRowSpan_ctl.
      destruct (CsxManager_UpdateRowSpan_rows m p) as (_ & -> & _). exact Hinv. }
    bind_inv H. rename a into m1.
    assert (flags_ok m1 /\ row_ok m1
            /\ (ctl_bld_ m1 = c0 /\ empty_rows_ m1 = er0
                \/ exists cj ext, CsxSpec.rjmp_header c0 (c0 ++ ext) er0 cj
                     /\ ctl_bld_ m1 = c0 ++ ext /\ (2 <= length ext)%nat))
      as (Hf1 & Hr1 & Hinv1).
    { unfold PreparePat in Hstep. destruct cols.
      - by injection Hstep as <-.
      - destruct (CsxManager_AddCols_rjmp _ _ _ _ Hf0 Hr0 Hstep)
          as (cj & pos & _ & Hh & ? & ? & ?).
        split; [done|]. split; [by apply rowM_ok_unit|].
        right. eapply head_step;
          [exact Hinv0 | eauto | by eapply CsxManager_AddCols_app]. }
    clear Hstep. cbn [length Nat.eqb assert] in H.
    bind_inv H. clear Hstep. bind_inv H. rename a0 into m2.
    bind_inv H. rename a0 into m3. injection H as <- <-.
    apply CsxManager_put_values_ctl in Hstep0. rewrite Hstep0.
    destruct (CsxManager_AddPattern_rjmp _ _ _ _ _ Hf1 Hr1 Hstep)
      as (cj & pos & _ & Hh & _).
    eapply head_step; [exact Hinv1 | eauto | by eapply CsxManager_AddPattern_app].
Qed.

Lemma CsxManager_DoRow_fold_head c0 er0 row : forall m cols m' cols',
  flags_ok m -> row_ok m ->
  (ctl_bld_ m = c0 /\ empty_rows_ m = er0 /\ cols <> []
   \/ exists cj ext, CsxSpec.rjmp_header c0 (c0 ++ ext) er0 cj
                     /\ ctl_bld_ m = c0 ++ ext /\ (2 <= length ext)%nat) ->
  Drle.foldM (DoRow_elem sizeof_IndexType) row (m, cols) = Ok (m', cols') ->
  flags_ok m' /\ row_ok m'
  /\ (ctl_bld_ m' = c0 /\ empty_rows_ m' = er0 /\ cols' <> []
      \/ exists cj ext, CsxSpec.rjmp_header c0 (c0 ++ ext) er0 cj
                        /\ ctl_bld_ m' = c0 ++ ext /\ (2 <= length ext)%nat).
Proof.
  induction row as [|e row IH]; intros m cols m' cols' Hf Hr Hinv H;
    cbn [Drle.foldM] in H.
  - by injection H as <- <-.
  - bind_inv H. destruct a as [m1 cols1].
    destruct (CsxManager_DoRow_elem_rows _ _ _ _ _ _ Hf Hr Hstep)
      as (Hf1 & Hr1 & _).
    eapply (IH m1 cols1); [done | done | | exact H].
    eapply CsxManager_DoRow_elem_head; [exact Hf | exact Hr | | exact Hstep].
    destruct Hinv as [(? & ? & _)|?]; [by left | by right].
Qed.

(** The loop of [DoRow] and the unit of the columns it leaves: the
    first unit, when the loop starts before any unit of the row, or after
    one. *)
Lemma CsxManager_DoRow_loop_head c0 er0 m row m' :
  flags_ok m -> row_ok m ->
  (ctl_bld_ m = c0 /\ empty_rows_ m = er0 /\ row <> []
   \/ exists cj ext, CsxSpec.rjmp_header c0 (c0 ++ ext) er0 cj
                     /\ ctl_bld_ m = c0 ++ ext /\ (2 <= length ext)%nat) ->
  ('(m, cols) ← Drle.foldM (DoRow_elem sizeof_IndexType) row (m, []);
   match cols with
   | [] => Ok m
   | _ => AddCols sizeof_IndexType m cols
   end) = Ok m' ->
  exists cj ext, CsxSpec.rjmp_header c0 (c0 ++ ext) er0 cj
                 /\ ctl_bld_ m' = c0 ++ ext /\ (2 <= length ext)%nat.
Proof.
  intros Hf Hr Hinv H. bind_inv H. destruct a as [m1 cols1].
  assert (flags_ok m1 /\ row_ok m1
          /\ (ctl_bld_ m1 = c0 /\ empty_rows_ m1 = er0 /\ cols1 <> []
              \/ exists cj ext, CsxSpec.rjmp_header c0 (c0 ++ ext) er0 cj
                   /\ ctl_bld_ m1 = c0 ++ ext /\ (2 <= length ext)%nat))
    as (Hf1 & Hr1 & Hinv1).
  { destruct row as [|e row].
    - injection Hstep as <- <-. split; [done|]. split; [done|].
      destruct Hinv as [(_ & _ & ?)|?]; [done | by right].
    - cbn [Drle.foldM] in Hstep. bind_inv Hstep. destruct a as [ma colsa].
      destruct (CsxManager_DoRow_elem_rows _ _ _ _ _ _ Hf Hr Hstep0)
        as (Hfa & Hra & _).
      eapply (CsxManager_DoRow_fold_head c0 er0 row ma colsa);
        [done | done | | exact Hstep].
      eapply CsxManager_DoRow_elem_head; [exact Hf | exact Hr | | exact Hstep0].
      destruct Hinv as [(? & ? & _)|?]; [by left | by right]. }
  destruct cols1 as [|c cols1].
  - injection H as <-. destruct Hinv1 as [(_ & _ & ?)|?]; done.
  - destruct (CsxManager_AddCols_rjmp _ _ _ _ Hf1 Hr1 H)
      as (cj & pos & _ & Hh & _).
    eapply head_step; [ | eauto | by eapply CsxManager_AddCols_app].
    destruct Hinv1 as [(? & ? & _)|?]; [by left | by right].
Qed.

Lemma CsxManager_row_head (symmetric : bool) m (row : list (SpmRowElem V)) m' :
  flags_ok m -> row_ok m -> row <> [] ->
  (if symmetric then DoSymRow sizeof_IndexType m row
   else DoRow sizeof_IndexType m row) = Ok m' ->
  exists cj ext,
    CsxSpec.rjmp_header (ctl_bld_ m) (ctl_bld_ m ++ ext) (empty_rows_ m) cj
    /\ ctl_bld_ m' = ctl_bld_ m ++ ext /\ (2 <= length ext)%nat.
Proof.
  intros Hf Hr Hrow H.
  set (m0 := set_last_col (set_span m 0) 1).
  assert (Hf0 : flags_ok m0)
    by (eapply flagsM_ok_frame; [exact Hf | reflexivity | reflexivity]).
  assert (Hr0 : row_ok m0) by exact Hr.
  destruct symmetric.
  - unfold DoSymRow in H. fold m0 in H.
    pose proof (sym_split_app (row_start_ (spm_ m0)) row) as Happ.
    destruct (sym_split _ row) as [row1 row2]. cbn [fst snd] in Happ.
    apply bind_Ok in H as ([ma colsa] & Ha & H).
    apply bind_Ok in H as (m1 & Hflush & H).
    destruct row1 as [|e row1].
    + injection Ha as <- <-. injection Hflush as <-.
      cbn [app] in Happ. subst row2.
      apply (CsxManager_DoRow_loop_head _ _ m0 row m' Hf0 Hr0); [|exact H].
      by left.
    + assert (Hloop : ('(m, cols) ← Drle.foldM (DoRow_elem sizeof_IndexType)
                                      (e :: row1) (m0, []);
                       match cols with
                       | [] => Ok m
                       | _ => AddCols sizeof_IndexType m cols
                       end) = Ok m1) by (by rewrite Ha).
      destruct (CsxManager_DoRow_loop_rows _ m0 (e :: row1) m1 Hf0 Hr0
                  ltac:(by left) Hloop) as (Hf1 & Hn1 & He1).
      pose proof (CsxManager_DoRow_loop_head (ctl_bld_ m) (empty_rows_ m)
                    m0 (e :: row1) m1 Hf0 Hr0 ltac:(by left) Hloop) as Hd.
      apply (CsxManager_DoRow_loop_head _ _ m1 row2 m' Hf1
               (rowM_ok_unit _ He1 Hn1)); [|exact H].
      by right.
  - unfold DoRow in H. fold m0 in H.
    apply (CsxManager_DoRow_loop_head _ _ m0 row m' Hf0 Hr0); [|exact H].
    by left.
Qed.

Lemma CsxManager_DoRow_elem_app m cols e m' cols' :
  DoRow_elem sizeof_IndexType (m, cols) e = Ok (m', cols') ->
  ctl_bld_ m `prefix_of` ctl_bld_ m'.
Proof.
  intros H. unfold DoRow_elem in H. destruct e as [x v|x p vals].
  - bind_inv H. clear Hstep. bind_inv H. destruct a0 as [m1 cols1].
    bind_inv H. injection H as <- <-.
    apply CsxManager_put_value_ctl in Hstep0. rewrite Hstep0.
    destruct (_ =? CTL_SIZE_MAX).
    + bind_inv Hstep. injection Hstep as <- <-.
      destruct (CsxManager_AddCols_app _ _ _ Hstep1) as (ext & -> & _).
      by apply prefix_app_r.
    + by injection Hstep as <- <-.
  - bind_inv H. rename a into m1.
    assert (Hp1 : ctl_bld_ m `prefix_of` ctl_bld_ m1).
    { rewrite <- (CsxManager_UpdateRowSpan_ctl m p).
      unfold PreparePat in Hstep. destruct cols.
      - by injection Hstep as <-.
      - destruct (CsxManager_AddCols_app _ _ _ Hstep) as (ext & -> & _).
        by apply prefix_app_r. }
    clear Hstep. cbn [length Nat.eqb assert] in H.
    bind_inv H. clear Hstep. bind_inv H. rename a0 into m2.
    bind_inv H. rename a0 into m3. injection H as <- <-.
    apply CsxManager_put_values_ctl in Hstep0. rewrite Hstep0.
    destruct (CsxManager_AddPattern_app _ _ _ _ Hstep) as (ext2 & -> & _).
    etrans; [exact Hp1|]. by apply prefix_app_r.
Qed.

Lemma CsxManager_DoRow_loop_app m row m' :
  ('(m, cols) ← Drle.foldM (DoRow_elem sizeof_IndexType) row (m, []);
   match cols with
   | [] => Ok m
   | _ => AddCols sizeof_IndexType m cols
   end) = Ok m' ->
  ctl_bld_ m `prefix_of` ctl_bld_ m'.
Proof.
  intros H. bind_inv H. destruct a as [m1 cols1].
  assert (Hp : ctl_bld_ m `prefix_of` ctl_bld_ m1).
  { revert Hstep. generalize (@nil Z) at 1. revert m.
    induction row as [|e row IH]; intros m cols0 H0; cbn [Drle.foldM] in H0.
    - by injection H0 as <- <-.
    - bind_inv H0. destruct a as [m2 cols2].
      etrans; [by eapply CsxManager_DoRow_elem_app | by eapply IH]. }
  destruct cols1.
  - by injection H as <-.
  - destruct (CsxManager_AddCols_app _ _ _ H) as (ext & -> & _).
    etrans; [exact Hp|]. by apply prefix_app_r.
Qed.

Lemma CsxManager_MakeCsx_row_app symmetric m i row m' i' :
  MakeCsx_row sizeof_IndexType symmetric (m, i) row = Ok (m', i') ->
  ctl_bld_ m `prefix_of` ctl_bld_ m'.
Proof.
  intros H. unfold MakeCsx_row in H. bind_inv H. clear Hstep.
  assert (Hput : forall (ma : CsxManager.CsxManager V) j ri mb,
            put_row_info ma j ri = Ok mb -> ctl_bld_ mb = ctl_bld_ ma).
  { intros ma j ri mb Hp. unfold put_row_info in Hp. bind_inv Hp.
    by injection Hp as <-. }
  destruct row as [|e row].
  - bind_inv H. destruct a0 as [m1 rowptr]. bind_inv H. rename a0 into m2.
    injection H as <- <-. cbv beta.
    etrans; [|destruct symmetric; csxm_simpl; reflexivity].
    rewrite (Hput _ _ _ _ Hstep0).
    destruct (negb (new_row_ m)).
    + by injection Hstep as <- <-.
    + bind_inv Hstep. bind_inv Hstep. by injection Hstep as <- <-.
  - bind_inv H. rename a0 into m1. bind_inv H. rename a0 into m2.
    injection H as <- <-. cbv beta.
    etrans; [|destruct symmetric; csxm_simpl; reflexivity].
    csxm_simpl. rewrite (Hput _ _ _ _ Hstep0).
    destruct symmetric.
    + unfold DoSymRow in Hstep.
      destruct (sym_split _ (e :: row)) as [row1 row2].
      apply bind_Ok in Hstep as ([ma colsa] & Ha & Hstep).
      apply bind_Ok in Hstep as (mb & Hflush & Hstep).
      apply CsxManager_DoRow_loop_app in Hstep.
      assert (Hloop : ('(m, cols) ← Drle.foldM (DoRow_elem sizeof_IndexType)
                                      row1 (set_last_col (set_span m 0) 1, []);
                       match cols with
                       | [] => Ok m
                       | _ => AddCols sizeof_IndexType m cols
                       end) = Ok mb) by (by rewrite Ha).
      apply CsxManager_DoRow_loop_app in Hloop. csxm_simpl.
      by etrans.
    + unfold DoRow in Hstep. by apply CsxManager_DoRow_loop_app in Hstep.
Qed.

Lemma CsxManager_rows_app symmetric rws : forall m i m' i',
  Drle.foldM (MakeCsx_row sizeof_IndexType symmetric) rws (m, i) = Ok (m', i') ->
  ctl_bld_ m `prefix_of` ctl_bld_ m'.
Proof.
  induction rws as [|row rws IH]; intros m i m' i' H; cbn [Drle.foldM] in H.
  - by injection H as <- <-.
  - bind_inv H. destruct a as [m1 i1].
    etrans; [by eapply CsxManager_MakeCsx_row_app | by eapply IH].
Qed.

Lemma CsxManager_MakeCsx_tail_ctl n : forall m i m',
  MakeCsx_tail n m i = Ok m' -> ctl_bld_ m' = ctl_bld_ m.
Proof.
  induction n as [|n IH]; intros m i m' H; cbn [MakeCsx_tail] in H.
  - by injection H as <-.
  - bind_inv H. clear Hstep. bind_inv H. bind_inv H. rename a1 into m1.
    apply IH in H. rewrite H. unfold put_row_info in Hstep0.
    bind_inv Hstep0. by injection Hstep0 as <-.
Qed.

Lemma CsxManager_rows_counter symmetric rws : forall m i m' i' (n : Z),
  flags_ok m -> (new_row_ m = false -> empty_rows_ m = 0) ->
  0 <= empty_rows_ m <= n ->
  n + Z.of_nat (length rws) < 2 ^ 64 - 1 ->
  Drle.foldM (MakeCsx_row sizeof_IndexType symmetric) rws (m, i) = Ok (m', i') ->
  flags_ok m' /\ (new_row_ m' = false -> empty_rows_ m' = 0)
  /\ 0 <= empty_rows_ m' <= n + Z.of_nat (length rws)
  /\ (rws <> [] -> new_row_ m' = true)
  /\ (forall rws' r, rws = rws' ++ [r] -> r <> [] -> empty_rows_ m' = 0).
Proof.
  induction rws as [|row rws IH]; intros m i m' i' n Hf Hn He Hlen H;
    cbn [Drle.foldM] in H.
  - injection H as <- <-. cbn [length]. split; [done|]. split; [done|].
    split; [lia|]. split; [done|]. intros [|] ? ?; discriminate.
  - bind_inv H. destruct a as [m1 i1]. cbn [length] in Hlen |- *.
    assert (Hr : row_ok m) by (split; [done | lia]).
    destruct (CsxManager_MakeCsx_row_counter _ _ _ _ _ _ _ Hf Hr Hstep)
      as (Hn1 & He1 & Hf1).
    assert (He1' : 0 <= empty_rows_ m1 <= n + 1).
    { rewrite He1. destruct row; [|lia]. destruct (new_row_ m); [|lia].
      rewrite wrap64_small by lia. lia. }
    destruct (IH m1 i1 m' i' (n + 1) Hf1 ltac:(congruence) He1' ltac:(lia) H)
      as (Hf' & Hn' & He' & Hnr' & Hlast).
    split; [done|]. split; [done|]. split; [lia|]. split.
    + intros _. destruct rws as [|r rws].
      * cbn [Drle.foldM] in H. by injection H as <- <-.
      * by apply Hnr'.
    + intros rws' r Heq Hr0. destruct rws' as [|r' rws'].
      * cbn [app] in Heq. injection Heq as -> ->.
        cbn [Drle.foldM] in H. injection H as <- <-. rewrite He1.
        by destruct r.
      * cbn [app] in Heq. injection Heq as -> ->. by eapply Hlast.
Qed.

Lemma CsxManager_empty_rows symmetric k : forall m i m' i',
  empty_rows_ m + Z.of_nat k < 2 ^ 64 ->
  0 <= empty_rows_ m ->
  Drle.foldM (MakeCsx_row sizeof_IndexType symmetric) (replicate k []) (m, i)
  = Ok (m', i') ->
  ctl_bld_ m' = ctl_bld_ m /\ patterns m' = patterns m
  /\ flag_avail_ m' = flag_avail_ m
  /\ new_row_ m' = (new_row_ m || negb (k =? 0)%nat)
  /\ empty_rows_ m'
     = empty_rows_ m + (if new_row_ m then Z.of_nat k else Z.of_nat (k - 1)).
Proof.
  induction k as [|k IH]; intros m i m' i' Hb H0 H;
    cbn [replicate Drle.foldM] in H.
  - injection H as <- <-. rewrite orb_false_r.
    repeat (split; [done|]). destruct (new_row_ m); cbn; lia.
  - bind_inv H. destruct a as [m1 i1].
    assert (ctl_bld_ m1 = ctl_bld_ m /\ patterns m1 = patterns m
            /\ flag_avail_ m1 = flag_avail_ m /\ new_row_ m1 = true
            /\ empty_rows_ m1 = (if new_row_ m then wrap64 (empty_rows_ m + 1)
                                 else empty_rows_ m))
      as (Hc1 & Hp1 & Hfa1 & Hn1 & He1).
    { unfold MakeCsx_row in Hstep. bind_inv Hstep. clear Hstep0.
      bind_inv Hstep. destruct a0 as [m2 rowptr]. bind_inv Hstep.
      rename a0 into m3. injection Hstep as <- <-.
      unfold put_row_info in Hstep1. bind_inv Hstep1. injection Hstep1 as <-.
      assert (ctl_bld_ m2 = ctl_bld_ m /\ patterns m2 = patterns m
              /\ flag_avail_ m2 = flag_avail_ m /\ new_row_ m2 = true
              /\ empty_rows_ m2 = (if new_row_ m
                                   then wrap64 (empty_rows_ m + 1)
                                   else empty_rows_ m)) as Hm2.
      { destruct (new_row_ m) eqn:En; cbn [negb] in Hstep0.
        - bind_inv Hstep0. bind_inv Hstep0. by injection Hstep0 as <- <-.
        - by injection Hstep0 as <- <-. }
      destruct symmetric; csxm_simpl; exact Hm2. }
    apply IH in H.
    + destruct H as (-> & -> & -> & -> & ->).
      rewrite Hc1, Hp1, Hfa1, Hn1, He1. cbn [orb].
      rewrite orb_true_r. repeat (split; [done|]).
      destruct (new_row_ m).
      * rewrite wrap64_small by lia. lia.
      * replace (S k - 1)%nat with k by lia. lia.
    + rewrite He1. destruct (new_row_ m); [rewrite wrap64_small by lia|]; lia.
    + rewrite He1. destruct (new_row_ m); [rewrite wrap64_small by lia|]; lia.
Qed.

(** The run of [MakeCsx] of CsxManager.hpp: the first unit of a row
    that is not empty and follows [k] empty rows. *)
Lemma CsxManager_MakeCsx_row_jump (junk : nat -> V)
    (junk_info : nat -> row_info_t) m (symmetric : bool) csx m'
    pre k (row : list (SpmRowElem V)) post :
  flags_ok m -> empty_rows_ m = 0 ->
  rows (spm_ m) = pre ++ replicate k [] ++ row :: post ->
  row <> [] ->
  (pre = [] \/ exists pre' r, pre = pre' ++ [r] /\ r <> []) ->
  Z.of_nat (length (rows (spm_ m))) < 2 ^ 64 - 1 ->
  MakeCsx sizeof_IndexType junk junk_info m symmetric = Ok (csx, m') ->
  exists mA iA cj,
    Drle.foldM (MakeCsx_row sizeof_IndexType symmetric)
      (pre ++ replicate k [])
      (let mm :=
         set_row_state
           (set_rows_info
              (set_values m
                 (map junk (seq 0 (Z.to_nat (nr_nzeros_ (spm_ m))))) 0)
              (map junk_info (seq 0 (Z.to_nat (nr_rows_ (spm_ m))))))
           false (empty_rows_ m) (row_jmps_ m) in
       if symmetric then mm else set_curr_row mm 0, 0%nat) = Ok (mA, iA)
    /\ ctl_bld_ mA `prefix_of` ctl csx
    /\ CsxSpec.rjmp_header (ctl_bld_ mA) (ctl csx)
         (if decide (pre = []) then Z.of_nat (k - 1) else Z.of_nat k) cj.
Proof.
  intros Hf He0 Hrows Hrow Hpre Hlen H. unfold MakeCsx in H.
  bind_inv H. destruct a as [mE iE]. bind_inv H. rename a into mT.
  bind_inv H. clear a Hstep1. injection H as <- _. cbn [ctl].
  rewrite (CsxManager_MakeCsx_tail_ctl _ _ _ _ Hstep0). clear Hstep0.
  match type of Hstep with Drle.foldM _ _ (?mm, _) = _ =>
    set (m0 := mm) in *
  end.
  assert (Hr0 : rows (spm_ m0) = rows (spm_ m))
    by (unfold m0; destruct symmetric; reflexivity).
  rewrite Hr0 in Hstep. clear Hr0.
  assert (Hm0 : ctl_bld_ m0 = ctl_bld_ m /\ empty_rows_ m0 = 0
                /\ new_row_ m0 = false /\ patterns m0 = patterns m
                /\ flag_avail_ m0 = flag_avail_ m).
  { unfold m0. destruct symmetric; csxm_simpl; done. }
  destruct Hm0 as (Hc0 & He00 & Hn0 & Hp0 & Hfa0).
  rewrite Hrows in Hstep, Hlen. rewrite !length_app, length_replicate in Hlen.
  cbn [length] in Hlen.
  rewrite app_assoc, foldM_app in Hstep. bind_inv Hstep. destruct a as [mA iA].
  cbn [Drle.foldM] in Hstep. bind_inv Hstep. destruct a as [mR iR].
  exists mA, iA.
  assert (Hfold : Drle.foldM (MakeCsx_row sizeof_IndexType symmetric)
                    (pre ++ replicate k []) (m0, 0%nat) = Ok (mA, iA))
    by exact Hstep0.
  rewrite foldM_app in Hstep0. bind_inv Hstep0. destruct a as [mP iP].
  assert (Hf0 : flags_ok m0) by (by eapply flagsM_ok_frame).
  destruct (CsxManager_rows_counter symmetric pre m0 0%nat mP iP 0 Hf0
              ltac:(done) ltac:(lia) ltac:(lia) Hstep2)
    as (HfP & HnP & HeP & HnrP & HlastP).
  assert (HeP0 : empty_rows_ mP = 0).
  { destruct Hpre as [->|(pre' & r & -> & Hr)]; [|by eapply HlastP].
    cbn [Drle.foldM] in Hstep2. injection Hstep2 as <- <-. done. }
  destruct (CsxManager_empty_rows symmetric k mP iP mA iA
              ltac:(lia) ltac:(lia) Hstep0)
    as (HcA & HpA & HfaA & HnA & HeA).
  assert (HfA : flags_ok mA) by (by eapply flagsM_ok_frame).
  assert (HeA' : empty_rows_ mA
                 = if decide (pre = []) then Z.of_nat (k - 1) else Z.of_nat k).
  { rewrite HeA, HeP0. destruct (decide (pre = [])) as [->|Hne].
    - cbn [Drle.foldM] in Hstep2. injection Hstep2 as <- <-.
      by rewrite Hn0.
    - by rewrite HnrP. }
  assert (HrA : row_ok mA).
  { split; [|rewrite HeA'; destruct (decide _); lia].
    intros Hn. rewrite HnA in Hn. apply orb_false_iff in Hn as [Hn1 Hn2].
    apply negb_false_iff, Nat.eqb_eq in Hn2. subst k.
    rewrite HeA, HeP0, Hn1. done. }
  pose proof (CsxManager_rows_app _ _ _ _ _ _ Hstep) as [tail Htail].
  assert (exists cj ext,
            CsxSpec.rjmp_header (ctl_bld_ mA) (ctl_bld_ mA ++ ext)
              (empty_rows_ mA) cj
            /\ ctl_bld_ mR = ctl_bld_ mA ++ ext /\ (2 <= length ext)%nat)
    as (cj & ext & Hh & HcR & Hl).
  { unfold MakeCsx_row in Hstep1. bind_inv Hstep1. clear a Hstep3.
    destruct row as [|e row]; [done|].
    bind_inv Hstep1. rename a into mD. bind_inv Hstep1. rename a into mI.
    injection Hstep1 as <- _.
    destruct (CsxManager_row_head symmetric _ _ _ HfA HrA Hrow Hstep3)
      as (cj & ext & Hh & HcD & Hl).
    exists cj, ext. split; [exact Hh|]. split; [|exact Hl].
    unfold put_row_info in Hstep4. bind_inv Hstep4. injection Hstep4 as <-.
    cbv beta. destruct symmetric; csxm_simpl; exact HcD. }
  exists cj. split; [exact Hfold|].
  rewrite Htail, HcR. split.
  - rewrite <- app_assoc. by apply prefix_app_r.
  - rewrite <- HeA'. by apply rjmp_header_app.
Qed.

End CsxManagerRun.

Section RowJumpHeader.
Import Spm Varint.
Context {V : Type}.

(** C9 as amended, the row jump of a unit header.  For the four calls
    that emit a unit ([AddXs] and [AddPattern] of csx.cc, [AddCols] and
    [AddPattern] of CsxManager.hpp), in a state of the assembler (no empty
    row counted while the row has a unit, flags within six bits): the
    [CTL_RJMP] bit of the header is set if and only if the counter of
    empty rows is not zero; the two header bytes are then followed by the
    varint of [empty_rows + 1], and otherwise directly by the column
    reference; the counter is zero after the call.  Over one row of
    [MakeCsx] every empty row adds one to the counter, except the first
    row of the partition, which sets the new-row mark instead; the
    counter is zero after a row that is not empty.  Over a run of
    [MakeCsx], of csx.cc and of CsxManager.hpp, from a manager that has
    counted no empty row: the first unit of a row that is not empty and
    comes after [k] empty rows, themselves after the start of the
    partition or after a row that is not empty, has the header of the
    rows counted, [k] of them after a row that is not empty and [k - 1]
    at the start of the partition; it stays so in the stream [MakeCsx]
    returns. *)
Theorem unit_header_row_jump
    (m1 : Csx.CsxManager V) (m2 : CsxManager.CsxManager V)
    (sizeof_IndexType : Z) (xs : list Z) (x : Z) (p : Pattern) :
  CsxSpec.flags_ok m1 -> CsxSpec.row_ok m1 ->
  CsxManagerSpec.flags_ok m2 -> CsxManagerSpec.row_ok m2 ->
  (forall m', Csx.AddXs m1 xs = Ok m' ->
     exists cj,
       da_put_ul [] (wrap64 (hd 0 xs - Csx.last_col_ m1)) = Some cj
       /\ CsxSpec.rjmp_header (Csx.ctl_da_ m1) (Csx.ctl_da_ m')
            (Csx.empty_rows_ m1) cj
       /\ Csx.empty_rows_ m' = 0)
  /\ (forall m', Csx.AddPattern m1 x p 0 = Ok m' ->
     exists cj,
       da_put_ul [] (wrap64 (x - Csx.last_col_ m1)) = Some cj
       /\ CsxSpec.rjmp_header (Csx.ctl_da_ m1) (Csx.ctl_da_ m')
            (Csx.empty_rows_ m1) cj
       /\ Csx.empty_rows_ m' = 0)
  /\ (forall m', CsxManager.AddCols sizeof_IndexType m2 xs = Ok m' ->
     exists cj pos,
       CsxManagerSpec.colref_at sizeof_IndexType (CsxManager.full_column_indices_ m2) pos
         (if CsxManager.full_column_indices_ m2
          then CsxManager.wrapI sizeof_IndexType (hd 0 xs - 1)
          else CsxManager.wrapI sizeof_IndexType
                 (wrap64 (hd 0 xs - CsxManager.last_col_ m2)))
       = Some cj
       /\ CsxSpec.rjmp_header (CsxManager.ctl_bld_ m2) (CsxManager.ctl_bld_ m')
            (CsxManager.empty_rows_ m2) cj
       /\ CsxManager.empty_rows_ m' = 0)
  /\ (forall m', CsxManager.AddPattern sizeof_IndexType m2 x p = Ok m' ->
     exists cj pos,
       CsxManagerSpec.colref_at sizeof_IndexType (CsxManager.full_column_indices_ m2) pos
         (if CsxManager.full_column_indices_ m2
          then CsxManager.wrapI sizeof_IndexType (x - 1)
          else CsxManager.wrapI sizeof_IndexType
                 (x - CsxManager.last_col_ m2))
       = Some cj
       /\ CsxSpec.rjmp_header (CsxManager.ctl_bld_ m2) (CsxManager.ctl_bld_ m')
            (CsxManager.empty_rows_ m2) cj
       /\ CsxManager.empty_rows_ m' = 0)
  /\ (forall row m', Csx.MakeCsx_row m1 row = Ok m' ->
     Csx.new_row_ m' = true
     /\ Csx.empty_rows_ m'
        = match row with
          | [] => if Csx.new_row_ m1 then wrap64 (Csx.empty_rows_ m1 + 1)
                  else Csx.empty_rows_ m1
          | _ :: _ => 0
          end)
  /\ (forall symmetric i row m' i',
     CsxManager.MakeCsx_row sizeof_IndexType symmetric (m2, i) row
     = Ok (m', i') ->
     CsxManager.new_row_ m' = true
     /\ CsxManager.empty_rows_ m'
        = match row with
          | [] => if CsxManager.new_row_ m2
                  then wrap64 (CsxManager.empty_rows_ m2 + 1)
                  else CsxManager.empty_rows_ m2
          | _ :: _ => 0
          end)
  /\ (forall (junk : nat -> V) csx m' pre k row post,
     Csx.empty_rows_ m1 = 0 ->
     rows (Csx.spm_ m1) = pre ++ replicate k [] ++ row :: post ->
     row <> [] ->
     (pre = [] \/ exists pre' r, pre = pre' ++ [r] /\ r <> []) ->
     Z.of_nat (length (rows (Csx.spm_ m1))) < 2 ^ 64 - 1 ->
     Csx.MakeCsx junk m1 = Ok (csx, m') ->
     exists mA cj,
       Drle.foldM Csx.MakeCsx_row (pre ++ replicate k [])
         (Csx.set_row_state
            (Csx.reset_units
               (Csx.set_ctl
                  (Csx.set_values m1
                     (map junk
                        (seq 0 (Z.to_nat (nr_nzeros_ (Csx.spm_ m1))))) 0)
                  []))
            false (Csx.empty_rows_ m1) (Csx.row_jmps_ m1)) = Ok mA
       /\ Csx.ctl_da_ mA `prefix_of` Csx.ctl csx
       /\ CsxSpec.rjmp_header (Csx.ctl_da_ mA) (Csx.ctl csx)
            (CsxSpec.counted_empty_rows pre k) cj)
  /\ (forall (junk : nat -> V) junk_info symmetric csx m' pre k row post,
     CsxManager.empty_rows_ m2 = 0 ->
     rows (CsxManager.spm_ m2) = pre ++ replicate k [] ++ row :: post ->
     row <> [] ->
     (pre = [] \/ exists pre' r, pre = pre' ++ [r] /\ r <> []) ->
     Z.of_nat (length (rows (CsxManager.spm_ m2))) < 2 ^ 64 - 1 ->
     CsxManager.MakeCsx sizeof_IndexType junk junk_info m2 symmetric
     = Ok (csx, m') ->
     exists mA iA cj,
       Drle.foldM (CsxManager.MakeCsx_row sizeof_IndexType symmetric)
         (pre ++ replicate k [])
         (let mm :=
            CsxManager.set_row_state
              (CsxManager.set_rows_info
                 (CsxManager.set_values m2
                    (map junk
                       (seq 0 (Z.to_nat (nr_nzeros_ (CsxManager.spm_ m2)))))
                    0)
                 (map junk_info
                    (seq 0 (Z.to_nat (nr_rows_ (CsxManager.spm_ m2))))))
              false (CsxManager.empty_rows_ m2) (CsxManager.row_jmps_ m2) in
          if symmetric then mm else CsxManager.set_curr_row mm 0, 0%nat)
       = Ok (mA, iA)
       /\ CsxManager.ctl_bld_ mA `prefix_of` CsxManager.ctl csx
       /\ CsxSpec.rjmp_header (CsxManager.ctl_bld_ mA) (CsxManager.ctl csx)
            (CsxSpec.counted_empty_rows pre k) cj).
Proof.
  intros Hf1 Hr1 Hf2 Hr2.
  assert (Hcnt : forall (pre : list (list (SpmRowElem V))) k,
            (if decide (pre = []) then Z.of_nat (k - 1) else Z.of_nat k)
            = CsxSpec.counted_empty_rows pre k).
  { intros pre k. destruct pre; [|reflexivity].
    by destruct (decide _). }
  split; [|split; [|split; [|split; [|split; [|split; [|split]]]]]].
  - intros m' H.
    destruct (Csx_AddXs_rjmp _ _ _ Hf1 Hr1 H) as (cj & ? & ? & ? & _). eauto.
  - intros m' H.
    destruct (Csx_AddPattern_rjmp _ _ _ _ Hf1 Hr1 H) as (cj & ? & ? & ? & _).
    eauto.
  - intros m' H.
    destruct (CsxManager_AddCols_rjmp _ _ _ _ Hf2 Hr2 H)
      as (cj & pos & ? & ? & ? & _). eauto.
  - intros m' H.
    destruct (CsxManager_AddPattern_rjmp _ _ _ _ _ Hf2 Hr2 H)
      as (cj & pos & ? & ? & ? & _). eauto.
  - intros row m' H.
    destruct (Csx_MakeCsx_row_counter _ _ _ Hf1 Hr1 H) as (? & ? & _). done.
  - intros symmetric i row m' i' H.
    destruct (CsxManager_MakeCsx_row_counter _ _ _ _ _ _ _ Hf2 Hr2 H)
      as (? & ? & _). done.
  - intros junk csx m' pre k row post He Hrows Hrow Hpre Hlen H.
    destruct (Csx_MakeCsx_row_jump junk m1 csx m' pre k row post
                Hf1 He Hrows Hrow Hpre Hlen H) as (mA & cj & ? & ? & Hh).
    rewrite Hcnt in Hh. eauto.
  - intros junk junk_info symmetric csx m' pre k row post He Hrows Hrow Hpre
      Hlen H.
    destruct (CsxManager_MakeCsx_row_jump sizeof_IndexType junk junk_info m2
                symmetric csx m' pre k row post Hf2 He Hrows Hrow Hpre Hlen H)
      as (mA & iA & cj & ? & ? & Hh).
    rewrite Hcnt in Hh. exists mA, iA, cj. done.
Qed.

End RowJumpHeader.

(** C9 as the spec words it does not hold: a partition of two rows, the
    first of them empty.  The one unit is that of the second row; an
    empty row was crossed before it, and its header has the new-row mark
    (64) and neither the [CTL_RJMP] bit nor a row-jump varint: the two
    header bytes are followed by the column jump.  Both assemblers. *)
Lemma MakeCsx_empty_first_row_no_row_jump :
  (exists csx m',
     Csx.MakeCsx Examples.junk (Csx.CsxManager_new Examples.spm_leading_empty)
     = Ok (csx, m')
     /\ Csx.ctl csx = [64; 1; 1]
     /\ CsxSpec.unit_rjmp (Csx.ctl csx) 0 = false)
  /\ (exists csx m',
        CsxManager.MakeCsx 4 Examples.junk Examples.junk_info
          (CsxManager.CsxManager_new Examples.spm_leading_empty Examples.uninit)
          false = Ok (csx, m')
        /\ CsxManager.ctl csx = [64; 1; 1]
        /\ CsxSpec.unit_rjmp (CsxManager.ctl csx) 0 = false
        /\ CsxManager.row_jumps csx = false).
Proof.
  split; eexists _, _; (split; [vm_compute; reflexivity|]);
    repeat split; reflexivity.
Qed.


(** ** Delta run-length encoding *)

Section DeltaRLE.
Import Spm Drle DrleSpec.

Lemma RLEncode_loop_expand input : forall rle,
  0 <= freq rle ->
  expand (RLEncode_loop rle input)
  = replicate (Z.to_nat (freq rle)) (val rle) ++ input.
Proof.
  induction input as [|curr input IH]; intros rle Hf; cbn [RLEncode_loop].
  - unfold expand; cbn. by rewrite app_nil_r.
  - destruct (Z.eqb_spec (val rle) curr) as [<-|Hne].
    + rewrite IH by (cbn; lia). cbn [freq val].
      replace (Z.to_nat (freq rle + 1)) with (S (Z.to_nat (freq rle))) by lia.
      rewrite replicate_S_end, <- app_assoc. reflexivity.
    + unfold expand in *. cbn [flat_map]. rewrite IH by (cbn; lia).
      reflexivity.
Qed.

(** The runs of [RLEncode] stand for the input. *)
Lemma RLEncode_expand input : expand (RLEncode input) = input.
Proof.
  destruct input as [|x0 input]; [reflexivity|].
  unfold RLEncode. rewrite RLEncode_loop_expand by (cbn; lia). reflexivity.
Qed.

Lemma RLEncode_loop_head input : forall rle,
  exists f rest, RLEncode_loop rle input = {| freq := f; val := val rle |} :: rest
                 /\ freq rle <= f.
Proof.
  induction input as [|curr input IH]; intros rle; cbn [RLEncode_loop].
  - exists (freq rle), []. by destruct rle.
  - destruct (Z.eqb_spec (val rle) curr) as [<-|Hne].
    + destruct (IH {| freq := freq rle + 1; val := val rle |})
        as (f & rest & -> & Hf). cbn in *. exists f, rest. split; [done | lia].
    + exists (freq rle), (RLEncode_loop {| freq := 1; val := curr |} input).
      by destruct rle.
Qed.

Lemma RLEncode_loop_maximal input : forall rle,
  maximal (RLEncode_loop rle input).
Proof.
  induction input as [|curr input IH]; intros rle; cbn [RLEncode_loop].
  - cbn. done.
  - destruct (Z.eqb_spec (val rle) curr) as [<-|Hne]; [apply IH|].
    cbn [maximal]. split; [|apply IH].
    destruct (RLEncode_loop_head input {| freq := 1; val := curr |})
      as (f & rest & -> & _). done.
Qed.

(** The runs of [RLEncode] are maximal: neighbours differ in value. *)
Lemma RLEncode_maximal input : maximal (RLEncode input).
Proof. destruct input; [done|]. apply RLEncode_loop_maximal. Qed.

Lemma RLEncode_loop_freq input : forall rle,
  1 <= freq rle -> Forall (fun r => 1 <= freq r) (RLEncode_loop rle input).
Proof.
  induction input as [|curr input IH]; intros rle Hf; cbn [RLEncode_loop].
  - by constructor.
  - destruct (val rle =? curr).
    + apply IH. cbn. lia.
    + constructor; [done|]. apply IH. cbn. lia.
Qed.

(** Every run of [RLEncode] has at least one item. *)
Lemma RLEncode_freq input : Forall (fun r => 1 <= freq r) (RLEncode input).
Proof.
  destruct input; [constructor|]. apply RLEncode_loop_freq. cbn. lia.
Qed.

End DeltaRLE.

(** ** The statistics pass *)

Section Stats.
Import Spm Drle DrleSpec.
Context {V : Type}.

Lemma stats_at_add stats k n v :
  stats_at (stats_add stats k n) v
  = if decide (k = v)
    then {| nnz := nnz (stats_at stats k) + n;
            npatterns := npatterns (stats_at stats k) + 1 |}
    else stats_at stats v.
Proof.
  unfold stats_add, stats_at at 1. destruct (decide (k = v)) as [->|Hne].
  - by rewrite lookup_insert_eq.
  - by rewrite lookup_insert_ne.
Qed.

Lemma runs_nnz_cons min_limit v r rles :
  runs_nnz min_limit v (r :: rles)
  = (if counts min_limit v r then freq r else 0) + runs_nnz min_limit v rles.
Proof.
  unfold runs_nnz. rewrite filter_cons.
  destruct (decide (counts min_limit v r = true)) as [E|E].
  - rewrite E. reflexivity.
  - apply not_true_is_false in E. rewrite E. cbn. reflexivity.
Qed.

Lemma runs_npatterns_cons min_limit v r rles :
  runs_npatterns min_limit v (r :: rles)
  = (if counts min_limit v r then 1 else 0) + runs_npatterns min_limit v rles.
Proof.
  unfold runs_npatterns. rewrite filter_cons.
  destruct (decide (counts min_limit v r = true)) as [E|E].
  - rewrite E. cbn [length]. lia.
  - apply not_true_is_false in E. rewrite E. lia.
Qed.

Lemma runs_nnz_app min_limit v l1 l2 :
  runs_nnz min_limit v (l1 ++ l2)
  = runs_nnz min_limit v l1 + runs_nnz min_limit v l2.
Proof.
  induction l1 as [|r l1 IH]; [reflexivity|].
  cbn [app]. rewrite !runs_nnz_cons, IH. lia.
Qed.

Lemma runs_npatterns_app min_limit v l1 l2 :
  runs_npatterns min_limit v (l1 ++ l2)
  = runs_npatterns min_limit v l1 + runs_npatterns min_limit v l2.
Proof.
  induction l1 as [|r l1 IH]; [reflexivity|].
  cbn [app]. rewrite !runs_npatterns_cons, IH. lia.
Qed.

Lemma runs_npatterns_nonneg min_limit v rles :
  0 <= runs_npatterns min_limit v rles.
Proof. unfold runs_npatterns. lia. Qed.

(** What the runs of one vector add to the table. *)
Lemma updateStats_rle_fold min_limit rles : forall stats v,
  let stats' := fold_left (updateStats_rle min_limit) rles stats in
  nnz (stats_at stats' v)
  = nnz (stats_at stats v) + runs_nnz min_limit v rles
  /\ npatterns (stats_at stats' v)
     = npatterns (stats_at stats v) + runs_npatterns min_limit v rles
  /\ (stats' !! v = None
      <-> stats !! v = None /\ runs_npatterns min_limit v rles = 0).
Proof.
  induction rles as [|r rles IH]; intros stats v; cbn [fold_left].
  - unfold runs_nnz, runs_npatterns; cbn. rewrite !Z.add_0_r. tauto.
  - destruct (IH (updateStats_rle min_limit stats r) v) as (IHn & IHp & IHd).
    cbv zeta. rewrite IHn, IHp, IHd, runs_nnz_cons, runs_npatterns_cons.
    pose proof (runs_npatterns_nonneg min_limit v rles) as Hnn.
    unfold updateStats_rle, counts.
    destruct (Z.leb_spec min_limit (freq r)) as [Hle|Hlt].
    + rewrite stats_at_add. unfold stats_add.
      destruct (decide (val r = v)) as [->|Hne].
      * rewrite Z.eqb_refl. cbn [andb nnz npatterns].
        rewrite lookup_insert_eq.
        split; [lia|]. split; [lia|]. split; intros [? ?]; (done || lia).
      * destruct (Z.eqb_spec (val r) v); [done|]. cbn [andb].
        rewrite lookup_insert_ne by done.
        split; [lia|]. split; [lia|]. rewrite Z.add_0_l. tauto.
    + rewrite andb_false_r.
      split; [lia|]. split; [lia|]. rewrite Z.add_0_l. tauto.
Qed.

Lemma updateStats_nonblock t min_limit xs stats :
  isBlockType t = 0 ->
  updateStats t min_limit xs stats
  = ([], fold_left (updateStats_rle min_limit) (RLEncode (DeltaEncode xs)) stats).
Proof.
  intros Ht. unfold updateStats. rewrite Ht. cbn [Z.eqb negb].
  destruct xs; reflexivity.
Qed.

Lemma generateStats_elems t min_limit (row : list (SpmRowElem V)) :
  forall xs stats,
  isBlockType t = 0 ->
  generateStats_row t min_limit (xs, stats) row
  = ([], fold_left (updateStats_rle min_limit)
           (flat_map (fun xs => RLEncode (DeltaEncode xs)) (segments xs row))
           stats).
Proof.
  unfold generateStats_row.
  induction row as [|e row IH]; intros xs stats Ht; cbn [fold_left segments].
  - rewrite updateStats_nonblock by done. cbn [flat_map]. by rewrite app_nil_r.
  - destruct e as [x v | x p vals]; cbn [generateStats_elem].
    + by apply IH.
    + rewrite updateStats_nonblock by done. rewrite IH by done.
      cbn [flat_map]. by rewrite fold_left_app.
Qed.

End Stats.

(** ** The encoder of a run, against the words of the spec *)

Section DoEncode.
Import Spm Drle DrleSpec.
Context {V : Type}.
Implicit Types st : @enc_state V.

Lemma wrap64_add_l a b : wrap64 (wrap64 a + b) = wrap64 (a + b).
Proof. unfold wrap64. by rewrite Zplus_mod_idemp_l. Qed.

Lemma copy_vals_Ok (vs : list V) vi n :
  0 <= n -> (vi + Z.to_nat n <= length vs)%nat ->
  copy_vals vs vi n = Ok (take (Z.to_nat n) (drop vi vs)).
Proof.
  intros Hn Hle. unfold copy_vals.
  rewrite length_take, length_drop.
  destruct (Nat.eqb_spec (Z.to_nat n `min` (length vs - vi)) (Z.to_nat n));
    [done | lia].
Qed.

Lemma st_eta st :
  {| st_col := st_col st; st_vi := st_vi st; st_newrow := st_newrow st |} = st.
Proof. by destruct st. Qed.

(** The [while] loop of [doEncode] emits what the spec's loop emits. *)
Lemma doEncode_while_spec rounds t min_limit max_limit (vs : list V) val :
  forall freq st,
  1 <= min_limit -> 1 <= max_limit ->
  (Z.to_nat freq < rounds)%nat ->
  (st_vi st + Z.to_nat freq <= length vs)%nat ->
  exists l freq' col',
    spec_patterns rounds t min_limit max_limit val freq (st_col st)
      (drop (st_vi st) vs)
    = (l, (freq', col', drop (st_vi st + Z.to_nat (freq - freq')) vs))
    /\ doEncode_while rounds t min_limit max_limit vs val freq st
       = Ok (freq', {| st_col := col';
                       st_vi := st_vi st + Z.to_nat (freq - freq');
                       st_newrow := st_newrow st ++ l |})
    /\ freq' < min_limit /\ freq' <= freq /\ (0 <= freq -> 0 <= freq').
Proof.
  induction rounds as [|rounds IH]; intros freq st Hmin Hmax Hr Hvs; [lia|].
  cbn [spec_patterns doEncode_while].
  destruct (Z.ltb_spec freq min_limit) as [Hlt|Hge].
  - exists [], freq, (st_col st).
    rewrite Z.sub_diag, Nat.add_0_r, app_nil_r, st_eta. repeat split; done || lia.
  - set (f := Z.min max_limit freq).
    assert (Hf : 1 <= f <= freq) by lia.
    destruct (Z.leb_spec 0 f) as [_|]; [|lia]. cbn [assert mbind result_bind].
    rewrite copy_vals_Ok by lia. cbn [mbind result_bind].
    rewrite wrap64_add_l, drop_drop.
    replace (st_col st + val + val * (f - 1)) with (st_col st + val * f) by lia.
    match goal with |- context [doEncode_while rounds _ _ _ _ _ _ ?s] =>
      destruct (IH (freq - f) s Hmin Hmax) as (l & freq' & col' & Hs & Hw & Hlt' & Hle' & Hnn);
        [lia | cbn [st_vi]; lia |]
    end.
    cbn [st_col st_vi st_newrow] in Hs, Hw.
    replace (st_vi st + Z.to_nat f + Z.to_nat (freq - f - freq'))%nat
      with (st_vi st + Z.to_nat (freq - freq'))%nat in Hs, Hw by lia.
    rewrite Hs, Hw.
    eexists _, freq', col'. rewrite <- app_assoc. cbn [app].
    repeat split; done || lia.
Qed.

(** The loop of the individual elements, likewise. *)
Lemma doEncode_plain_spec n (vs : list V) val : forall st,
  (st_vi st + n <= length vs)%nat ->
  exists l col',
    spec_plain n val (st_col st) (drop (st_vi st) vs)
    = (l, (col', drop (st_vi st + n) vs))
    /\ doEncode_plain n vs val st
       = Ok {| st_col := col'; st_vi := st_vi st + n;
               st_newrow := st_newrow st ++ l |}.
Proof.
  induction n as [|n IH]; intros st Hvs.
  - exists [], (st_col st). cbn [doEncode_plain].
    rewrite Nat.add_0_r, app_nil_r, st_eta.
    split; [|done]. cbn [spec_plain]. by destruct (drop (st_vi st) vs).
  - cbn [doEncode_plain]. unfold push_plain. cbn [st_vi st_col st_newrow].
    destruct (lookup_lt_is_Some_2 vs (st_vi st)) as [v Hv]; [lia|].
    rewrite Hv. cbn [of_option mbind result_bind].
    match goal with |- context [doEncode_plain n _ _ ?s] =>
      destruct (IH s) as (l & col' & Hs & Hp); [cbn [st_vi]; lia|]
    end.
    cbn [st_col st_vi st_newrow] in Hs, Hp.
    rewrite (drop_S _ _ _ Hv). cbn [spec_plain].
    replace (S (st_vi st) + n)%nat with (st_vi st + S n)%nat in Hs, Hp by lia.
    rewrite Hs, Hp. eexists _, col'. rewrite <- app_assoc. cbn [app]. done.
Qed.

Lemma doEncode_rle_spec t min_limit max_limit deltas (vs : list V) st rle out :
  1 <= min_limit -> 1 <= max_limit -> 0 <= freq rle ->
  (st_vi st + Z.to_nat (freq rle) <= length vs)%nat ->
  exists l col',
    spec_run t min_limit max_limit deltas
      (out, (st_col st, drop (st_vi st) vs)) rle
    = (out ++ l, (col', drop (st_vi st + Z.to_nat (freq rle)) vs))
    /\ doEncode_rle t min_limit max_limit deltas vs st rle
       = Ok {| st_col := col'; st_vi := st_vi st + Z.to_nat (freq rle);
               st_newrow := st_newrow st ++ l |}.
Proof.
  intros Hmin Hmax Hf Hvs. unfold spec_run, doEncode_rle.
  destruct (decide (val rle ∈ deltas)) as [Hin|Hin].
  - destruct (doEncode_while_spec (S (Z.to_nat (freq rle))) t min_limit
                max_limit vs (val rle) (freq rle) st Hmin Hmax)
      as (l & freq' & col' & Hs & Hw & Hlt & Hle & Hnn); [lia | lia |].
    rewrite Hs, Hw. cbn [mbind result_bind].
    match goal with |- context [doEncode_plain _ _ _ ?s] =>
      destruct (doEncode_plain_spec (Z.to_nat freq') vs (val rle) s)
        as (l2 & col2 & Hs2 & Hp2); [cbn [st_vi]; lia|]
    end.
    cbn [st_col st_vi st_newrow] in Hs2, Hp2.
    replace (st_vi st + Z.to_nat (freq rle - freq') + Z.to_nat freq')%nat
      with (st_vi st + Z.to_nat (freq rle))%nat in Hs2, Hp2 by lia.
    rewrite Hs2, Hp2. exists (l ++ l2), col2. by rewrite <- app_assoc.
  - cbn [mbind result_bind].
    destruct (doEncode_plain_spec (Z.to_nat (freq rle)) vs (val rle) st)
      as (l2 & col2 & Hs2 & Hp2); [lia|].
    rewrite Hs2, Hp2. exists l2, col2. done.
Qed.

Lemma total_freq_cons r rles :
  total_freq (r :: rles) = (Z.to_nat (freq r) + total_freq rles)%nat.
Proof.
  unfold total_freq, expand. cbn [flat_map].
  by rewrite length_app, length_replicate.
Qed.

Lemma doEncode_fold_spec t min_limit max_limit deltas (vs : list V) rles :
  forall st out,
  1 <= min_limit -> 1 <= max_limit ->
  Forall (fun r => 1 <= freq r) rles ->
  (st_vi st + total_freq rles <= length vs)%nat ->
  exists l col',
    fold_left (spec_run t min_limit max_limit deltas) rles
      (out, (st_col st, drop (st_vi st) vs))
    = (out ++ l, (col', drop (st_vi st + total_freq rles) vs))
    /\ foldM (doEncode_rle t min_limit max_limit deltas vs) rles st
       = Ok {| st_col := col'; st_vi := st_vi st + total_freq rles;
               st_newrow := st_newrow st ++ l |}.
Proof.
  induction rles as [|r rles IH]; intros st out Hmin Hmax Hfr Hvs.
  - exists [], (st_col st). cbn [fold_left foldM].
    unfold total_freq; cbn. rewrite Nat.add_0_r, !app_nil_r, st_eta. done.
  - apply Forall_cons in Hfr as [Hr Hfr]. rewrite total_freq_cons in *.
    cbn [fold_left foldM].
    destruct (doEncode_rle_spec t min_limit max_limit deltas vs st r out
                Hmin Hmax) as (l1 & col1 & Hs1 & He1); [lia | lia |].
    rewrite Hs1, He1. cbn [mbind result_bind].
    match goal with |- context [foldM _ rles ?s] =>
      destruct (IH s (out ++ l1) Hmin Hmax Hfr) as (l2 & col2 & Hs2 & He2);
        [cbn [st_vi]; lia|]
    end.
    cbn [st_col st_vi st_newrow] in Hs2, He2.
    rewrite <- Nat.add_assoc in Hs2, He2.
    rewrite Hs2, He2. exists (l1 ++ l2), col2. by rewrite !app_assoc.
Qed.

Lemma length_DeltaEncode_loop input : forall prev,
  length (DeltaEncode_loop prev input) = length input.
Proof.
  induction input as [|c input IH]; intros prev; cbn; [done | by rewrite IH].
Qed.

Lemma length_Drle_DeltaEncode input : length (DeltaEncode input) = length input.
Proof. destruct input; cbn; [done | by rewrite length_DeltaEncode_loop]. Qed.

Lemma total_freq_RLEncode xs :
  total_freq (RLEncode (DeltaEncode xs)) = length xs.
Proof.
  unfold total_freq. by rewrite RLEncode_expand, length_Drle_DeltaEncode.
Qed.

(** ** C4 *)


End DoEncode.

(** ** Calls that return or stop *)

Section Halts.
Import Spm Drle DrleSpec.
Context {V : Type}.

Lemma halts_Ok {A} (a : A) : halts (Ok a).
Proof. exact I. Qed.

Lemma halts_bind {A B} (m : result A) (k : A -> result B) :
  halts m -> (forall a, m = Ok a -> halts (k a)) -> halts (m ≫= k).
Proof. destruct m as [a|f]; cbn; [eauto | by destruct f]. Qed.

Lemma halts_assert b f : f <> NoReturn -> halts (assert b f).
Proof. destruct b; cbn; [done | by destruct f]. Qed.

Lemma halts_of_option {A} (o : option A) f :
  f <> NoReturn -> halts (of_option o f).
Proof. destruct o; cbn; [done | by destruct f]. Qed.

Lemma halts_foldM {A B} (f : A -> B -> result A) l :
  (forall a b, halts (f a b)) -> forall a, halts (foldM f l a).
Proof.
  intros Hf. induction l as [|b l IH]; intros a; cbn [foldM]; [done|].
  apply halts_bind; [apply Hf | intros; apply IH].
Qed.

Lemma halts_mapM {A B} (f : A -> result B) l :
  (forall a, halts (f a)) -> halts (mapM f l).
Proof.
  intros Hf. induction l as [|a l IH]; cbn [mapM]; [done|].
  apply halts_bind; [apply Hf|]. intros b _.
  apply halts_bind; [apply IH | done].
Qed.

Lemma halts_copy_vals (vs : list V) vi n : halts (copy_vals vs vi n).
Proof. unfold copy_vals. by destruct (_ =? _)%nat. Qed.

Lemma halts_push_plain (vs : list V) x st : halts (push_plain vs x st).
Proof.
  unfold push_plain. apply halts_bind; [by apply halts_of_option | done].
Qed.

Lemma halts_doEncode_plain n (vs : list V) val : forall st,
  halts (doEncode_plain n vs val st).
Proof.
  induction n as [|n IH]; intros st; cbn [doEncode_plain]; [done|].
  apply halts_bind; [apply halts_push_plain | intros; apply IH].
Qed.

(** With limits of at least 1 every round of the [while] loop takes at
    least one item of the run: [freq + 1] rounds are enough. *)
Lemma halts_doEncode_while rounds t min_limit max_limit (vs : list V) val :
  forall freq st,
  1 <= min_limit -> 1 <= max_limit ->
  (Z.to_nat freq < rounds)%nat ->
  halts (doEncode_while rounds t min_limit max_limit vs val freq st).
Proof.
  induction rounds as [|rounds IH]; intros freq st Hmin Hmax Hr; [lia|].
  cbn [doEncode_while]. destruct (Z.ltb_spec freq min_limit); [done|].
  apply halts_bind; [by apply halts_assert|]. intros _ _.
  apply halts_bind; [apply halts_copy_vals|]. intros vals _.
  apply IH; lia.
Qed.

Lemma halts_doEncode_rle t min_limit max_limit deltas (vs : list V) st rle :
  1 <= min_limit -> 1 <= max_limit ->
  halts (doEncode_rle t min_limit max_limit deltas vs st rle).
Proof.
  intros Hmin Hmax. unfold doEncode_rle.
  apply halts_bind.
  - destruct (decide _); [|done]. apply halts_doEncode_while; lia.
  - intros [f st1] _. apply halts_doEncode_plain.
Qed.

Lemma halts_push_plain_run n (vs : list V) x0 : forall i st,
  halts (push_plain_run n vs x0 i st).
Proof.
  induction n as [|n IH]; intros i st; cbn [push_plain_run]; [done|].
  apply halts_bind; [apply halts_push_plain | intros; apply IH].
Qed.

Lemma halts_push_strided n (vs : list V) c v : forall i st,
  halts (push_strided n vs c v i st).
Proof.
  induction n as [|n IH]; intros i st; cbn [push_strided]; [done|].
  apply halts_bind; [apply halts_push_plain | intros; apply IH].
Qed.

Lemma halts_push_blocks n t ba (vs : list V) x0 neb : forall i st,
  halts (push_blocks n t ba vs x0 neb i st).
Proof.
  induction n as [|n IH]; intros i st; cbn [push_blocks]; [done|].
  apply halts_bind; [apply halts_copy_vals | intros; apply IH].
Qed.

Lemma halts_pop_back (st : @enc_state V) : halts (pop_back st).
Proof. unfold pop_back. destruct (st_vi st), (st_newrow st); done. Qed.

Lemma halts_doEncodeBlock_rle t max_limit deltas ba (vs : list V) st rle :
  halts (doEncodeBlock_rle t max_limit deltas ba vs st rle).
Proof.
  unfold doEncodeBlock_rle.
  destruct (if wrap64 (st_col st + val rle) =? 1 then _ else _) as [sf ne].
  apply halts_bind; [|done].
  destruct (_ && _ && _); [|apply halts_push_strided].
  apply halts_bind.
  { destruct (negb _); [|done].
    apply halts_bind; [apply halts_pop_back | done]. }
  intros [rs st1] _.
  apply halts_bind; [apply halts_push_plain_run|]. intros st2 _.
  apply halts_bind; [by apply halts_assert|]. intros _ _.
  destruct (_ =? 0).
  - apply halts_bind; [apply halts_push_blocks|]. intros.
    apply halts_push_plain_run.
  - apply halts_bind; [apply halts_push_blocks|]. intros.
    apply halts_push_plain_run.
Qed.

(** [doEncode] halts when the limits are at least 1. *)
Lemma halts_doEncode (m : DRLE_Manager V) xs vs newrow :
  1 <= min_limit m -> 1 <= max_limit m ->
  halts (doEncode m xs vs newrow).
Proof.
  intros Hmin Hmax. unfold doEncode, doEncodeBlock.
  destruct (negb _).
  - apply halts_bind.
    + apply halts_foldM. intros. apply halts_doEncodeBlock_rle.
    + intros st _. apply halts_bind; [by apply halts_assert | done].
  - apply halts_bind.
    + apply halts_foldM. intros. by apply halts_doEncode_rle.
    + intros st _. apply halts_bind; [by apply halts_assert | done].
Qed.

Lemma halts_EncodeRow (m : DRLE_Manager V) row newrow :
  1 <= min_limit m -> 1 <= max_limit m ->
  halts (EncodeRow m row newrow).
Proof.
  intros Hmin Hmax. unfold EncodeRow. apply halts_bind.
  - apply halts_foldM. intros [[xs vs] nr] e. unfold EncodeRow_elem.
    destruct e; [done|]. apply halts_bind; [|done].
    destruct xs; [done|]. by apply halts_doEncode.
  - intros [[xs vs] nr] _. destruct xs; [done|]. by apply halts_doEncode.
Qed.

End Halts.

(** ** The planner *)

Section Planner.
Import Spm Drle DrleSpec.
Context {V : Type}.
Variable Transform : SpmIterOrder -> SPM V -> SPM V.
Implicit Types m : DRLE_Manager V.

Lemma genAllStats_type_frame m t :
  let m' := genAllStats_type Transform m t in
  xforms_ignore m' = xforms_ignore m
  /\ min_limit m' = min_limit m /\ max_limit m' = max_limit m
  /\ below_min_perc m' = below_min_perc m
  /\ (forall t', is_Some (stats m' !! t') ->
        is_Some (stats m !! t') \/ (t' = t /\ t ∉ xforms_ignore m)).
Proof.
  cbv zeta. unfold genAllStats_type.
  destruct (decide (t ∈ xforms_ignore m)) as [Hin|Hin].
  { repeat split; auto. }
  destruct (decide (dom _ = ∅)); cbn [xforms_ignore min_limit max_limit
    below_min_perc stats set_spm set_stats set_DeltasToEncode];
    (repeat split; try done; intros t' Hs;
     destruct (decide (t = t')) as [<-|Hne]; [by auto|];
     rewrite lookup_insert_ne in Hs by done; by auto).
Qed.

Lemma genAllStats_fold_frame ts : forall m,
  let m' := fold_left (genAllStats_type Transform) ts m in
  xforms_ignore m' = xforms_ignore m
  /\ min_limit m' = min_limit m /\ max_limit m' = max_limit m
  /\ below_min_perc m' = below_min_perc m
  /\ (forall t', is_Some (stats m' !! t') ->
        is_Some (stats m !! t') \/ (t' ∈ ts /\ t' ∉ xforms_ignore m)).
Proof.
  induction ts as [|t ts IH]; intros m; cbn [fold_left].
  - repeat split; auto.
  - destruct (IH (genAllStats_type Transform m t)) as (Hi & Hmin & Hmax & Hb & Hs).
    destruct (genAllStats_type_frame m t) as (Hi1 & Hmin1 & Hmax1 & Hb1 & Hs1).
    cbv zeta in *. rewrite Hi, Hmin, Hmax, Hb.
    repeat split; try done. intros t' Ht'.
    destruct (Hs t' Ht') as [H1|[H1 H2]].
    + destruct (Hs1 t' H1) as [H3|[-> H3]]; [by left|].
      right. split; [by left | done].
    + right. split; [by right | congruence].
Qed.

(** [genAllStats] leaves the configuration and the ignore set as they
    are, and keeps statistics only for types it did not ignore. *)
Lemma genAllStats_frame m :
  let m' := genAllStats Transform m in
  xforms_ignore m' = xforms_ignore m
  /\ min_limit m' = min_limit m /\ max_limit m' = max_limit m
  /\ (forall t, is_Some (stats m' !! t) -> t ∈ candidates m).
Proof.
  unfold genAllStats.
  destruct (genAllStats_fold_frame (drop 1 SpmTypes) (set_stats m ∅))
    as (Hi & Hmin & Hmax & _ & Hs).
  cbv zeta in *. repeat split; try done.
  intros t Ht. destruct (Hs t Ht) as [H|[H1 H2]].
  - cbn in H. rewrite lookup_empty in H. by destruct H.
  - unfold candidates. apply list_elem_of_filter. done.
Qed.

Lemma chooseType_fold m ts : forall ret max_out r,
  0 <= max_out ->
  fold_left (chooseType_step m) ts (ret, max_out) = r ->
  (r.1 = ret /\ r.2 = max_out
   \/ (is_Some (stats m !! r.1) /\ r.1 ∈ ts /\ max_out < r.2
       /\ r.2 = getTypeScore m r.1))
  /\ max_out <= r.2
  /\ (forall t, t ∈ ts -> getTypeScore m t <= r.2).
Proof.
  induction ts as [|t ts IH]; intros ret max_out r H0 Hr; cbn [fold_left] in Hr.
  - subst r. cbn [fst snd]. split; [by left|]. split; [lia|].
    intros t Ht. by apply elem_of_nil in Ht.
  - assert (Hstep : exists ret1 out1,
              chooseType_step m (ret, max_out) t = (ret1, out1)
              /\ max_out <= out1 /\ getTypeScore m t <= out1
              /\ (ret1 = ret /\ out1 = max_out
                  \/ ret1 = t /\ is_Some (stats m !! t) /\ max_out < out1
                     /\ out1 = getTypeScore m t)).
    { unfold chooseType_step.
      destruct (stats m !! t) as [sp|] eqn:Hst.
      - destruct (Z.ltb_spec max_out (getTypeScore m t)) as [Hlt|Hge].
        + eexists _, _. split; [done|]. split; [lia|]. split; [lia|].
          right. split; [done|]. split; [done|]. done.
        + eexists _, _. split; [done|]. split; [lia|]. split; [lia|].
          by left.
      - eexists _, _. split; [done|]. split; [lia|]. split.
        + unfold getTypeScore. rewrite Hst. lia.
        + by left. }
    destruct Hstep as (ret1 & out1 & Hs & Hle1 & Hsc & Hcase).
    rewrite Hs in Hr.
    destruct (IH ret1 out1 r ltac:(lia) Hr) as (Hc & Hle & Hall).
    split; [|split].
    + destruct Hc as [[H1 H2]|(H1 & H2 & H3 & H4)].
      * destruct Hcase as [[-> ->]|(-> & Hi & Hlt & Hv)].
        -- by left.
        -- right. rewrite H1, H2. split; [done|]. split; [by left|]. done.
      * right. split; [done|]. split; [by right|]. split; [lia | done].
    + lia.
    + intros t' [->|Ht']%elem_of_cons; [lia | by apply Hall].
Qed.

Lemma getTypeScore_nonneg m t : 0 <= getTypeScore m t.
Proof.
  unfold getTypeScore. destruct (stats m !! t); [|lia].
  unfold wrap64. pose proof (Z.mod_pos_bound
    (map_fold (fun _ v acc => acc + nnz v) 0 g
     - map_fold (fun _ v acc => acc + npatterns v) 0 g) (2 ^ 64)). lia.
Qed.

Lemma elem_of_SpmTypes t : t ∈ SpmTypes.
Proof. destruct t; apply (bool_decide_unpack _); by vm_compute. Qed.

(** [chooseType] returns a type that has statistics and a positive
    score, or [NONE]; it returns [NONE] when no type has a positive
    score. *)
Lemma chooseType_spec m :
  (chooseType m = NONE \/
   (is_Some (stats m !! chooseType m) /\ 0 < getTypeScore m (chooseType m)))
  /\ ((forall t, getTypeScore m t = 0) -> chooseType m = NONE)
  /\ (stats m !! NONE = None -> chooseType m = NONE ->
      forall t, getTypeScore m t = 0).
Proof.
  unfold chooseType.
  destruct (chooseType_fold m SpmTypes NONE 0 _ ltac:(lia) eq_refl)
    as ([[H1 H2]|(H1 & H2 & H3 & H4)] & Hle & Hall).
  - split; [by left|]. split; [done|]. intros _ _ t.
    pose proof (Hall t (elem_of_SpmTypes t)). pose proof (getTypeScore_nonneg m t).
    lia.
  - split; [right; split; [done | lia]|]. split.
    + intros H0. rewrite H0 in H4. lia.
    + intros Hn Hc. rewrite Hc, Hn in H1. by destruct H1.
Qed.

(** [Encode] of a type other than [NONE] adds the type to the ignore
    set and keeps the limits. *)
Lemma Encode_frame m t m' :
  t <> NONE ->
  Encode Transform m t = Ok m' ->
  xforms_ignore m' = {[t]} ∪ xforms_ignore m
  /\ min_limit m' = min_limit m /\ max_limit m' = max_limit m.
Proof.
  intros Ht. unfold Encode.
  destruct (decide (t = NONE)); [done|].
  destruct (decide (t = NONE)); [done|].
  intros H. bind_inv H. injection H as <-. done.
Qed.

Lemma halts_Encode m t :
  1 <= min_limit m -> 1 <= max_limit m ->
  halts (Encode Transform m t).
Proof.
  intros Hmin Hmax. unfold Encode.
  destruct (decide ((if decide (t = NONE) then chooseType m else t) = NONE));
    [done|].
  apply halts_bind; [|done].
  apply halts_mapM. intros row. by apply halts_EncodeRow.
Qed.

Lemma NoDup_SpmTypes : NoDup SpmTypes.
Proof.
  apply (bool_decide_unpack _). by vm_compute.
Qed.

Lemma candidates_NoDup m : NoDup (candidates m).
Proof.
  unfold candidates. apply NoDup_filter.
  pose proof NoDup_SpmTypes as H. unfold SpmTypes in *.
  by apply NoDup_cons_1_2 in H.
Qed.

Lemma filter_length_le_impl {A} (P Q : A -> Prop)
    `{forall x, Decision (P x)} `{forall x, Decision (Q x)} (l : list A) :
  (forall x, P x -> Q x) ->
  (length (filter P l) <= length (filter Q l))%nat.
Proof.
  intros HPQ. induction l as [|a l IH]; [done|]. rewrite !filter_cons.
  destruct (decide (P a)) as [HP|HP], (decide (Q a)) as [HQ|HQ];
    cbn [length]; try lia.
  by destruct HQ; apply HPQ.
Qed.

Lemma filter_length_lt_impl {A} (P Q : A -> Prop)
    `{forall x, Decision (P x)} `{forall x, Decision (Q x)} (l : list A) a :
  (forall x, P x -> Q x) -> a ∈ l -> Q a -> ~ P a ->
  (length (filter P l) < length (filter Q l))%nat.
Proof.
  intros HPQ Hin HQa HPa. induction l as [|b l IH];
    [by apply elem_of_nil in Hin|].
  rewrite !filter_cons. apply elem_of_cons in Hin as [<-|Hin].
  - destruct (decide (P a)); [done|]. destruct (decide (Q a)); [|done].
    cbn [length]. pose proof (filter_length_le_impl P Q l HPQ). lia.
  - specialize (IH Hin).
    destruct (decide (P b)) as [HP|HP], (decide (Q b)) as [HQ|HQ];
      cbn [length]; try lia.
    by destruct HQ; apply HPQ.
Qed.

(** A type added to the ignore set is one candidate less. *)
Lemma candidates_ignore m m' t :
  xforms_ignore m' = {[t]} ∪ xforms_ignore m ->
  t ∈ candidates m ->
  (length (candidates m') < length (candidates m))%nat
  /\ (forall t', t' ∈ candidates m' -> t' ∈ candidates m /\ t' <> t).
Proof.
  intros Hi Ht. unfold candidates in *. rewrite Hi.
  apply list_elem_of_filter in Ht as [Hni Hin].
  split.
  - apply filter_length_lt_impl with (a := t); try done.
    + intros x Hx Hx'. apply Hx. apply elem_of_union. by right.
    + intros Hx. apply Hx. apply elem_of_union. left. by apply elem_of_singleton.
  - intros t' Ht'. apply list_elem_of_filter in Ht' as [H1 H2].
    split.
    + apply list_elem_of_filter. split; [|done].
      intros Hx. apply H1. apply elem_of_union. by right.
    + intros ->. apply H1. apply elem_of_union. left. by apply elem_of_singleton.
Qed.

Lemma candidates_genAllStats m : candidates (genAllStats Transform m) = candidates m.
Proof.
  unfold candidates. by destruct (genAllStats_frame m) as (-> & _).
Qed.

Lemma candidates_not_NONE m t : t ∈ candidates m -> t <> NONE /\ t ∉ xforms_ignore m.
Proof.
  unfold candidates. intros [H1 H2]%list_elem_of_filter. split; [|done].
  intros ->. revert H2. apply (bool_decide_unpack _). by vm_compute.
Qed.

Lemma candidates_length m : (length (candidates m) < XFORM_MAX)%nat.
Proof.
  unfold candidates.
  pose proof (length_filter (fun t => t ∉ xforms_ignore m) (drop 1 SpmTypes)) as H.
  change (length (drop 1 SpmTypes)) with 23%nat in H.
  change XFORM_MAX with 24%nat. lia.
Qed.

(** The planner loop: with more rounds than candidate types it halts,
    and what it encodes are distinct candidate types. *)
Lemma EncodeAll_loop_spec rounds : forall m log,
  1 <= min_limit m -> 1 <= max_limit m ->
  (length (candidates m) < rounds)%nat ->
  halts (EncodeAll_loop Transform rounds m log)
  /\ forall m' log',
       EncodeAll_loop Transform rounds m log = Ok (m', log') ->
       exists l, log' = log ++ l /\ NoDup l
                 /\ (forall t, t ∈ l -> t ∈ candidates m)
                 /\ (forall t, getTypeScore m' t = 0).
Proof.
  induction rounds as [|rounds IH]; intros m log Hmin Hmax Hr; [lia|].
  cbn [EncodeAll_loop].
  destruct (genAllStats_frame m) as (Hi & Hmin1 & Hmax1 & Hst).
  cbv zeta in Hi, Hmin1, Hmax1, Hst.
  remember (genAllStats Transform m) as m1 eqn:Em1. clear Em1.
  destruct (chooseType_spec m1) as (Hc & _ & Hzero).
  destruct (decide (chooseType m1 = NONE)) as [Hn|Hn].
  - split; [exact I|]. intros m' log' [= <- <-]. exists [].
    rewrite app_nil_r. split; [done|]. split; [constructor|].
    split; [intros t Ht; by apply elem_of_nil in Ht|].
    apply Hzero; [|done].
    destruct (stats m1 !! NONE) eqn:E; [|done].
    assert (NONE ∈ candidates m) as Hx by (apply Hst; by rewrite E).
    by apply candidates_not_NONE in Hx as [? _].
  - destruct Hc as [Hc|[Hsome Hpos]]; [done|].
    assert (Hcand : chooseType m1 ∈ candidates m) by (by apply Hst).
    assert (Hstep : forall m2, Encode Transform m1 (chooseType m1) = Ok m2 ->
              1 <= min_limit m2 /\ 1 <= max_limit m2
              /\ (length (candidates m2) < rounds)%nat
              /\ (forall t', t' ∈ candidates m2 ->
                    t' ∈ candidates m /\ t' <> chooseType m1)).
    { intros m2 He. apply Encode_frame in He as (Hi2 & Hmin2 & Hmax2); [|done].
      rewrite Hi in Hi2.
      destruct (candidates_ignore m m2 _ Hi2 Hcand) as [Hlt Hsub].
      repeat split; try lia; by apply Hsub. }
    split.
    + apply halts_bind; [apply halts_Encode; lia|].
      intros m2 He. destruct (Hstep m2 He) as (? & ? & ? & _).
      by apply IH.
    + intros m' log' H. bind_inv H. rename a into m2.
      destruct (Hstep m2 Hstep0) as (Hmin2 & Hmax2 & Hlt & Hsub).
      destruct (IH m2 (log ++ [chooseType m1]) Hmin2 Hmax2 Hlt) as [_ IH2].
      destruct (IH2 _ _ H) as (l & -> & Hnd & Hin & Hz).
      exists (chooseType m1 :: l). rewrite <- app_assoc. split; [done|].
      split; [|split; [|done]].
      * constructor; [|done]. intros Hx. apply Hin, Hsub in Hx. by destruct Hx.
      * intros t [->|Ht]%elem_of_cons; [done|]. by apply Hin, Hsub in Ht as [? _].
Qed.

(** More rounds than candidate types make no difference. *)
Lemma EncodeAll_loop_rounds r1 : forall r2 m log,
  (length (candidates m) < r1)%nat -> (length (candidates m) < r2)%nat ->
  EncodeAll_loop Transform r1 m log = EncodeAll_loop Transform r2 m log.
Proof.
  induction r1 as [|r1 IH]; intros [|r2] m log H1 H2; try lia.
  cbn [EncodeAll_loop].
  destruct (genAllStats_frame m) as (Hi & _ & _ & Hst).
  cbv zeta in Hi, Hst.
  remember (genAllStats Transform m) as m1 eqn:Em1. clear Em1.
  destruct (decide (chooseType m1 = NONE)) as [Hn|Hn]; [reflexivity|].
  destruct (Encode Transform m1 (chooseType m1)) as [m2|f] eqn:He; [|done].
  cbn [mbind result_bind].
  destruct (chooseType_spec m1) as ([Hc|[Hsome _]] & _); [done|].
  apply Encode_frame in He as (Hi2 & _); [|done]. rewrite Hi in Hi2.
  destruct (candidates_ignore m m2 _ Hi2 (Hst _ Hsome)) as [Hlt _].
  apply IH; lia.
Qed.

(** With limits of at least 1, whatever the matrix, the ignore set, the
    threshold test and the transformation: the [for (;;)] loop of
    [EncodeAll] returns or stops at a fault of the encoder; any number of
    rounds above the number of iteration orders gives the same result;
    when it returns, the types it encoded are pairwise distinct, none is
    [NONE] or was in the ignore set, so there are fewer than [XFORM_MAX]
    of them, and it left the loop because no type has a positive
    score. *)
Lemma EncodeAll_returns_or_faults (m : DRLE_Manager V) :
  1 <= min_limit m -> 1 <= max_limit m ->
  halts (EncodeAll Transform m)
  /\ (forall rounds, (XFORM_MAX <= rounds)%nat ->
        EncodeAll_loop Transform rounds m [] = EncodeAll Transform m)
  /\ (forall m' log,
        EncodeAll Transform m = Ok (m', log) ->
        NoDup log
        /\ (forall t, t ∈ log -> t <> NONE /\ t ∉ xforms_ignore m)
        /\ (length log < XFORM_MAX)%nat
        /\ (forall t, getTypeScore m' t = 0)).
Proof.
  intros Hmin Hmax. pose proof (candidates_length m) as Hlen.
  unfold EncodeAll.
  destruct (EncodeAll_loop_spec (S XFORM_MAX) m [] Hmin Hmax ltac:(lia))
    as [Hh Hok].
  split; [done|]. split.
  - intros rounds Hr. apply EncodeAll_loop_rounds; lia.
  - intros m' log H. destruct (Hok _ _ H) as (l & -> & Hnd & Hin & Hz).
    cbn [app]. split; [done|]. split; [|split; [|done]].
    + intros t Ht. by apply candidates_not_NONE, Hin.
    + assert (length l <= length (candidates m))%nat; [|lia].
      apply submseteq_length, NoDup_submseteq; [done|].
      intros t Ht. by apply Hin.
Qed.

End Planner.

(** With [min_limit = 0] the [while] loop of [doEncode] never leaves a
    run it has used up: no number of rounds is enough. *)
Lemma doEncode_while_min_limit_0 {V} rounds t max_limit (vs : list V) v : forall st,
  0 <= max_limit -> (Drle.st_vi st <= length vs)%nat ->
  Drle.doEncode_while rounds t 0 max_limit vs v 0 st = Fail NoReturn.
Proof.
  induction rounds as [|rounds IH]; intros st Hmax Hvi; [done|].
  cbn [Drle.doEncode_while].
  replace (0 <? 0) with false by done.
  replace (Z.min max_limit 0) with 0 by lia.
  cbn [assert Z.leb Z.compare mbind result_bind].
  unfold Drle.copy_vals. cbn [Z.to_nat take length Nat.eqb mbind result_bind].
  rewrite Z.sub_0_r. apply IH; [done|]. cbn [Drle.st_vi]. lia.
Qed.


(** ** Encoding and decoding a plain partition *)

Section Roundtrip.
Import Spm Drle DrleSpec.
Context {V : Type}.
Implicit Types st : @enc_state V.

Lemma getNextX_step p x : getNextX p x = wrap64 (x + step_of p).
Proof. by destruct p. Qed.

Lemma doDecode_loop_spec n p (vals : list V) : forall i x newrow,
  (i + n <= length vals)%nat ->
  doDecode_loop n p vals i x newrow
  = Ok (newrow ++ plain_run x (step_of p) (take n (drop i vals))).
Proof.
  induction n as [|n IH]; intros i x newrow Hl; cbn [doDecode_loop].
  - by rewrite take_0, app_nil_r.
  - destruct (lookup_lt_is_Some_2 vals i) as [v Hv]; [lia|].
    rewrite Hv. cbn [of_option mbind result_bind].
    rewrite IH by lia. rewrite (drop_S _ _ _ Hv). cbn [take plain_run].
    by rewrite getNextX_step, <- app_assoc.
Qed.

Lemma DecodeRow_spec (m : DRLE_Manager V) row : forall newrow,
  Forall (wf_elem (type (spm m))) row ->
  DecodeRow m row newrow = Ok (newrow ++ decode_row (type (spm m)) row).
Proof.
  unfold DecodeRow, decode_row.
  induction row as [|e row IH]; intros newrow Hwf; cbn [foldM flat_map].
  - by rewrite app_nil_r.
  - apply Forall_cons in Hwf as [He Hwf].
    assert (DecodeRow_elem m newrow e
            = Ok (newrow ++ decode_elem (type (spm m)) e)) as ->.
    { destruct e as [x v|x p vals]; cbn [DecodeRow_elem decode_elem]; [done|].
      destruct (decide (type_of p = type (spm m))) as [Ht|Ht]; [|done].
      unfold doDecode. rewrite doDecode_loop_spec by (cbn in He; cbn; auto).
      by rewrite drop_0. }
    cbn [mbind result_bind]. rewrite IH by done. by rewrite <- app_assoc.
Qed.

Lemma wrap64_add_r a b : wrap64 (a + wrap64 b) = wrap64 (a + b).
Proof. unfold wrap64. by rewrite Zplus_mod_idemp_r. Qed.

Lemma wrap64_u64 x : 0 <= x < 2 ^ 64 -> wrap64 x = x.
Proof. intros. unfold wrap64. by apply Z.mod_small. Qed.

Ltac wrap64_norm :=
  rewrite <- ?Z.add_assoc;
  repeat (progress rewrite ?wrap64_add_l, ?wrap64_add_r;
          rewrite <- ?Z.add_assoc).

Lemma plain_run_wrap x step (vals : list V) :
  plain_run (wrap64 x) step vals
  = match vals with
    | [] => []
    | v :: vals' => Elem (wrap64 x) v :: plain_run (wrap64 (x + step)) step vals'
    end.
Proof. destruct vals; cbn [plain_run]; [done|]. by rewrite wrap64_add_l. Qed.

Lemma plain_run_app step (a : list V) : forall x b,
  plain_run (wrap64 x) step (a ++ b)
  = plain_run (wrap64 x) step a
    ++ plain_run (wrap64 (x + step * Z.of_nat (length a))) step b.
Proof.
  induction a as [|v a IH]; intros x b.
  - cbn [app plain_run length]. by rewrite Z.mul_0_r, Z.add_0_r.
  - cbn [app plain_run length]. rewrite wrap64_add_l, IH. cbn [app].
    by replace (x + step + step * Z.of_nat (length a))
      with (x + step * Z.of_nat (S (length a))) by lia.
Qed.

Lemma decode_row_app t (a b : list (SpmRowElem V)) :
  decode_row t (a ++ b) = decode_row t a ++ decode_row t b.
Proof. unfold decode_row. by rewrite flat_map_app. Qed.

Lemma decode_row_cons_plain t x v (l : list (SpmRowElem V)) :
  decode_row t (Elem x v :: l) = Elem x v :: decode_row t l.
Proof. reflexivity. Qed.

Lemma decode_row_plain_run t x step (vals : list V) :
  decode_row t (plain_run x step vals) = plain_run x step vals.
Proof.
  revert x. induction vals as [|v vals IH]; intros x; [done|].
  cbn [plain_run]. unfold decode_row in *. cbn [flat_map decode_elem app].
  by rewrite IH.
Qed.

Lemma wf_plain_run t x step (vals : list V) :
  Forall (wf_elem t) (plain_run x step vals).
Proof.
  revert x. induction vals as [|v vals IH]; intros x; cbn [plain_run];
    constructor; [exact I | apply IH].
Qed.

Lemma doEncode_while_decode rounds t min_limit max_limit (vs : list V) val :
  forall freq st,
  1 <= min_limit -> 1 <= max_limit ->
  (Z.to_nat freq < rounds)%nat ->
  (st_vi st + Z.to_nat freq <= length vs)%nat ->
  exists freq' st',
    doEncode_while rounds t min_limit max_limit vs val freq st
    = Ok (freq', st')
    /\ freq' <= freq /\ (0 <= freq -> 0 <= freq')
    /\ wrap64 (st_col st') = wrap64 (st_col st + val * (freq - freq'))
    /\ st_vi st' = (st_vi st + Z.to_nat (freq - freq'))%nat
    /\ appended t st st'
         (plain_run (wrap64 (st_col st + val)) val
            (take (Z.to_nat (freq - freq')) (drop (st_vi st) vs))).
Proof.
  induction rounds as [|rounds IH]; intros freq st Hmin Hmax Hr Hvs; [lia|].
  cbn [doEncode_while].
  destruct (Z.ltb_spec freq min_limit) as [Hlt|Hge].
  - exists freq, st. rewrite Z.sub_diag, Z.mul_0_r, Z.add_0_r, Nat.add_0_r.
    cbn [Z.to_nat take plain_run].
    repeat split; try done; try lia.
    exists []. by rewrite app_nil_r.
  - set (f := Z.min max_limit freq).
    assert (Hf : 1 <= f <= freq) by lia.
    destruct (Z.leb_spec 0 f) as [_|]; [|lia]. cbn [assert mbind result_bind].
    rewrite copy_vals_Ok by lia. cbn [mbind result_bind].
    match goal with |- context [doEncode_while rounds _ _ _ _ _ _ ?s] =>
      destruct (IH (freq - f) s Hmin Hmax)
        as (freq' & st' & Hw & Hle & Hnn & Hcol & Hvi & l & Hl & Hwf & Hd);
        [lia | cbn [st_vi]; lia |]
    end.
    cbn [st_col st_vi st_newrow] in Hcol, Hvi, Hl, Hd.
    exists freq', st'. rewrite Hw. repeat split; try done; try lia.
    + rewrite Hcol. wrap64_norm. apply (f_equal wrap64). ring.
    + eexists. split; [by rewrite Hl, <- app_assoc|].
      split.
      { constructor; [|done]. cbn. intros _.
        rewrite length_take, length_drop. lia. }
      rewrite decode_row_app, Hd. unfold decode_row at 1.
      cbn [flat_map decode_elem type_of getSize step_of].
      destruct (decide (t = t)); [|done]. rewrite app_nil_r.
      rewrite take_take, Nat.min_id.
      replace (Z.to_nat (freq - freq')) with
        (Z.to_nat f + Z.to_nat (freq - f - freq'))%nat by lia.
      rewrite <- take_take_drop, plain_run_app, drop_drop.
      rewrite length_take, length_drop. do 2 f_equal.
      replace (Z.of_nat (Z.to_nat f `min` (length vs - st_vi st))) with f by lia.
      wrap64_norm. apply (f_equal wrap64). lia.
Qed.

Lemma doEncode_plain_decode t n (vs : list V) val : forall st,
  (st_vi st + n <= length vs)%nat ->
  exists st',
    doEncode_plain n vs val st = Ok st'
    /\ wrap64 (st_col st') = wrap64 (st_col st + val * Z.of_nat n)
    /\ st_vi st' = (st_vi st + n)%nat
    /\ appended t st st'
         (plain_run (wrap64 (st_col st + val)) val
            (take n (drop (st_vi st) vs))).
Proof.
  induction n as [|n IH]; intros st Hvs.
  - exists st. cbn [doEncode_plain take plain_run].
    rewrite Z.mul_0_r, Z.add_0_r, Nat.add_0_r. repeat split; try done.
    exists []. by rewrite app_nil_r.
  - cbn [doEncode_plain]. unfold push_plain. cbn [st_vi st_col st_newrow].
    destruct (lookup_lt_is_Some_2 vs (st_vi st)) as [v Hv]; [lia|].
    rewrite Hv. cbn [of_option mbind result_bind].
    match goal with |- context [doEncode_plain n _ _ ?s] =>
      destruct (IH s) as (st' & Hp & Hcol & Hvi & l & Hl & Hwf & Hd);
        [cbn [st_vi]; lia|]
    end.
    cbn [st_col st_vi st_newrow] in Hcol, Hvi, Hl, Hd.
    exists st'. rewrite Hp. repeat split; try done; try lia.
    + rewrite Hcol. wrap64_norm. apply (f_equal wrap64). lia.
    + eexists. split; [by rewrite Hl, <- app_assoc|].
      split; [by constructor|].
      rewrite decode_row_app, Hd. rewrite (drop_S _ _ _ Hv).
      cbn [take plain_run]. wrap64_norm. reflexivity.
Qed.

Lemma appended_trans t st1 st2 st3 d1 d2 :
  appended t st1 st2 d1 -> appended t st2 st3 d2 ->
  appended t st1 st3 (d1 ++ d2).
Proof.
  intros (l1 & H1 & Hw1 & Hd1) (l2 & H2 & Hw2 & Hd2).
  exists (l1 ++ l2). rewrite H2, H1, <- app_assoc.
  split; [done|]. split; [by apply Forall_app|].
  by rewrite decode_row_app, Hd1, Hd2.
Qed.

Lemma plain_run_split x step n m (vals : list V) :
  (n <= length vals)%nat ->
  plain_run (wrap64 x) step (take n vals)
  ++ plain_run (wrap64 (x + step * Z.of_nat n)) step (take m (drop n vals))
  = plain_run (wrap64 x) step (take (n + m) vals).
Proof.
  intros Hn. rewrite <- take_take_drop, plain_run_app, length_take.
  by replace (n `min` length vals)%nat with n by lia.
Qed.

Lemma doEncode_rle_decode t min_limit max_limit deltas (vs : list V) st rle :
  1 <= min_limit -> 1 <= max_limit -> 0 <= freq rle ->
  (st_vi st + Z.to_nat (freq rle) <= length vs)%nat ->
  exists st',
    doEncode_rle t min_limit max_limit deltas vs st rle = Ok st'
    /\ wrap64 (st_col st') = wrap64 (st_col st + val rle * freq rle)
    /\ st_vi st' = (st_vi st + Z.to_nat (freq rle))%nat
    /\ appended t st st'
         (plain_run (wrap64 (st_col st + val rle)) (val rle)
            (take (Z.to_nat (freq rle)) (drop (st_vi st) vs))).
Proof.
  intros Hmin Hmax Hf Hvs. unfold doEncode_rle.
  destruct (decide (val rle ∈ deltas)) as [Hin|Hin].
  - destruct (doEncode_while_decode (S (Z.to_nat (freq rle))) t min_limit
                max_limit vs (val rle) (freq rle) st Hmin Hmax)
      as (freq' & st1 & Hw & Hle & Hnn & Hcol & Hvi & Ha); [lia | lia |].
    rewrite Hw. cbn [mbind result_bind].
    destruct (doEncode_plain_decode t (Z.to_nat freq') vs (val rle) st1)
      as (st2 & Hp & Hcol2 & Hvi2 & Ha2); [lia|].
    exists st2. rewrite Hp. repeat split; try done; try lia.
    + rewrite Hcol2. rewrite <- wrap64_add_l, Hcol. wrap64_norm.
      rewrite Z2Nat.id by lia. apply (f_equal wrap64). ring.
    + pose proof (appended_trans _ _ _ _ _ _ Ha Ha2) as Ha3.
      replace (wrap64 (st_col st1 + val rle)) with
        (wrap64 (st_col st + val rle
                 + val rle * Z.of_nat (Z.to_nat (freq rle - freq')))) in Ha3.
      2:{ rewrite <- (wrap64_add_l (st_col st1)), Hcol. wrap64_norm.
          rewrite Z2Nat.id by lia. apply (f_equal wrap64). ring. }
      rewrite Hvi, <- drop_drop, plain_run_split in Ha3
        by (rewrite length_drop; lia).
      by replace (Z.to_nat (freq rle - freq') + Z.to_nat freq')%nat
        with (Z.to_nat (freq rle)) in Ha3 by lia.
  - cbn [mbind result_bind].
    destruct (doEncode_plain_decode t (Z.to_nat (freq rle)) vs (val rle) st)
      as (st2 & Hp & Hcol2 & Hvi2 & Ha2); [lia|].
    exists st2. rewrite Hp. repeat split; try done.
    rewrite Hcol2. by rewrite Z2Nat.id by lia.
Qed.

(** Block orders. *)

Lemma push_plain_run_decode t n (vs : list V) x0 : forall i st,
  (st_vi st + n <= length vs)%nat ->
  exists st',
    push_plain_run n vs x0 i st = Ok st'
    /\ st_col st' = st_col st
    /\ st_vi st' = (st_vi st + n)%nat
    /\ appended t st st'
         (plain_run (wrap64 (x0 + i)) 1 (take n (drop (st_vi st) vs))).
Proof.
  induction n as [|n IH]; intros i st Hvs.
  - exists st. cbn [push_plain_run take plain_run].
    rewrite Nat.add_0_r. repeat split; try done.
    exists []. by rewrite app_nil_r.
  - cbn [push_plain_run]. unfold push_plain.
    destruct (lookup_lt_is_Some_2 vs (st_vi st)) as [v Hv]; [lia|].
    rewrite Hv. cbn [of_option mbind result_bind].
    match goal with |- context [push_plain_run n _ _ _ ?s] =>
      destruct (IH (i + 1) s) as (st' & Hp & Hcol & Hvi & l & Hl & Hwf & Hd);
        [cbn [st_vi]; lia|]
    end.
    cbn [st_col st_vi st_newrow] in Hcol, Hvi, Hl, Hd.
    exists st'. rewrite Hp. repeat split; try done; try lia.
    eexists. split; [by rewrite Hl, <- app_assoc|].
    split; [by constructor|].
    rewrite decode_row_app, Hd. rewrite (drop_S _ _ _ Hv).
    cbn [take plain_run]. wrap64_norm. reflexivity.
Qed.

Lemma push_strided_decode t n (vs : list V) col0 val : forall i st,
  (st_vi st + n <= length vs)%nat ->
  exists st',
    push_strided n vs col0 val i st = Ok st'
    /\ st_col st' = st_col st
    /\ st_vi st' = (st_vi st + n)%nat
    /\ appended t st st'
         (plain_run (wrap64 (col0 + i * val)) val (take n (drop (st_vi st) vs)))
    /\ ((0 < n)%nat ->
        exists nr v, st_newrow st'
                     = nr ++ [Elem (wrap64 (col0 + (i + Z.of_nat n - 1) * val)) v]
                     /\ vs !! (st_vi st + n - 1)%nat = Some v).
Proof.
  induction n as [|n IH]; intros i st Hvs.
  - exists st. cbn [push_strided take plain_run].
    rewrite Nat.add_0_r. repeat split; try done; [|lia].
    exists []. by rewrite app_nil_r.
  - cbn [push_strided]. unfold push_plain.
    destruct (lookup_lt_is_Some_2 vs (st_vi st)) as [v Hv]; [lia|].
    rewrite Hv. cbn [of_option mbind result_bind].
    match goal with |- context [push_strided n _ _ _ _ ?s] =>
      destruct (IH (i + 1) s)
        as (st' & Hp & Hcol & Hvi & (l & Hl & Hwf & Hd) & Hlast);
        [cbn [st_vi]; lia|]
    end.
    cbn [st_col st_vi st_newrow] in Hcol, Hvi, Hl, Hd, Hlast.
    exists st'. rewrite Hp. repeat split; try done; try lia.
    + eexists. split; [by rewrite Hl, <- app_assoc|].
      split; [by constructor|].
      rewrite decode_row_app, Hd. rewrite (drop_S _ _ _ Hv).
      cbn [take plain_run]. wrap64_norm.
      by replace (col0 + (i * val + val)) with (col0 + (i + 1) * val) by ring.
    + intros _. destruct n as [|n].
      * cbn [push_strided] in Hp. injection Hp as <-. cbn [st_newrow].
        exists (st_newrow st), v. split.
        { by replace (i + Z.of_nat 1 - 1) with i by lia. }
        by replace (st_vi st + 1 - 1)%nat with (st_vi st) by lia.
      * destruct Hlast as (nr & v' & Hnr & Hv'); [lia|].
        exists nr, v'. split.
        { rewrite Hnr.
          by replace (i + 1 + Z.of_nat (S n) - 1)
            with (i + Z.of_nat (S (S n)) - 1) by lia. }
        by replace (st_vi st + S (S n) - 1)%nat with (S (st_vi st) + S n - 1)%nat
          by lia.
Qed.

Lemma push_blocks_decode n t k (vs : list V) x0 neb : forall i st,
  0 <= neb ->
  (st_vi st + n * Z.to_nat neb <= length vs)%nat ->
  exists st',
    push_blocks n t k vs x0 neb i st = Ok st'
    /\ st_col st' = st_col st
    /\ st_vi st' = (st_vi st + n * Z.to_nat neb)%nat
    /\ appended t st st'
         (plain_run (wrap64 (x0 + i * neb)) 1
            (take (n * Z.to_nat neb) (drop (st_vi st) vs))).
Proof.
  induction n as [|n IH]; intros i st Hneb Hvs.
  - exists st. cbn [push_blocks take plain_run Nat.mul].
    rewrite Nat.add_0_r. repeat split; try done.
    exists []. by rewrite app_nil_r.
  - cbn [push_blocks]. rewrite copy_vals_Ok by lia.
    cbn [mbind result_bind].
    match goal with |- context [push_blocks n _ _ _ _ _ _ ?s] =>
      destruct (IH (i + 1) s Hneb)
        as (st' & Hp & Hcol & Hvi & l & Hl & Hwf & Hd);
        [cbn [st_vi]; lia|]
    end.
    cbn [st_col st_vi st_newrow] in Hcol, Hvi, Hl, Hd.
    exists st'. rewrite Hp. repeat split; try done; try lia.
    eexists. split; [by rewrite Hl, <- app_assoc|].
    split.
    { constructor; [|done]. cbn. intros _.
      rewrite length_take, length_drop. lia. }
    rewrite decode_row_app, Hd. unfold decode_row at 1.
    cbn [flat_map decode_elem type_of getSize step_of].
    destruct (decide (t = t)); [|done]. rewrite app_nil_r.
    rewrite take_take, Nat.min_id.
    replace (S n * Z.to_nat neb)%nat with (Z.to_nat neb + n * Z.to_nat neb)%nat
      by lia.
    rewrite <- drop_drop, <- plain_run_split by (rewrite length_drop; lia).
    do 2 f_equal. rewrite Z2Nat.id by lia. apply (f_equal wrap64). ring.
Qed.

Lemma appended_eq t st st' d d' : d = d' -> appended t st st' d -> appended t st st' d'.
Proof. by intros ->. Qed.

(** The part of [doEncodeBlock] that follows the test for a new block:
    the elements skipped at the front, the blocks, the remaining
    elements. *)
Lemma doEncodeBlock_blocks t k max_limit (vs : list V) rle_start sf nr_elem
    skip_back st1 :
  1 <= k -> 2 * k <= max_limit < 2 ^ 64 ->
  0 <= sf -> 2 * k <= nr_elem -> 0 <= skip_back ->
  sf + nr_elem + skip_back < 2 ^ 64 ->
  (st_vi st1 + Z.to_nat (sf + nr_elem + skip_back) <= length vs)%nat ->
  exists st2,
    (st ← push_plain_run (Z.to_nat sf) vs rle_start 0 st1;
     let max_limit := wrap64 (Z.quot max_limit (2 * k) * (2 * k)) in
     _ ← assert (negb (max_limit =? 0)) DivByZero;
     let nr_blocks := nr_elem / max_limit in
     let nr_elem_block := Z.min max_limit nr_elem in
     let '(nr_blocks, skip_back) :=
       if nr_blocks =? 0 then (1, skip_back)
       else (nr_blocks,
             wrap64 (skip_back + (nr_elem - nr_elem_block * nr_blocks))) in
     st ← push_blocks (Z.to_nat nr_blocks) t k vs
            (rle_start + sf) nr_elem_block 0 st;
     push_plain_run (Z.to_nat skip_back) vs
       (rle_start + sf + nr_elem_block * nr_blocks) 0 st) = Ok st2
    /\ st_col st2 = st_col st1
    /\ st_vi st2 = (st_vi st1 + Z.to_nat (sf + nr_elem + skip_back))%nat
    /\ appended t st1 st2
         (plain_run (wrap64 rle_start) 1
            (take (Z.to_nat (sf + nr_elem + skip_back)) (drop (st_vi st1) vs))).
Proof.
  intros Hk Hmax Hsf Hne Hsb Hlt Hvs.
  destruct (push_plain_run_decode t (Z.to_nat sf) vs rle_start 0 st1)
    as (sta & Ha & Hcola & Hvia & Haa); [lia|].
  rewrite Ha. cbn [mbind result_bind]. cbv zeta.
  set (M := Z.quot max_limit (2 * k) * (2 * k)).
  assert (HM : 2 * k <= M <= max_limit /\ wrap64 M = M).
  { unfold M. rewrite Z.quot_div_nonneg by lia.
    pose proof (Z.mul_div_le max_limit (2 * k) ltac:(lia)).
    assert (1 <= max_limit / (2 * k)) by (apply Z.div_le_lower_bound; lia).
    split; [nia|]. apply wrap64_u64. nia. }
  destruct HM as [HM ->].
  destruct (Z.eqb_spec M 0) as [|_]; [lia|]. cbn [negb assert mbind result_bind].
  assert (exists nb neb sb',
    (if nr_elem / M =? 0 then (1, skip_back)
     else (nr_elem / M,
           wrap64 (skip_back + (nr_elem - Z.min M nr_elem * (nr_elem / M)))))
    = (nb, sb')
    /\ neb = Z.min M nr_elem /\ 0 <= neb /\ 0 <= sb' /\ 0 <= nb
    /\ nb * neb + sb' = nr_elem + skip_back
    /\ Z.min M nr_elem * (if nr_elem / M =? 0 then 1 else nr_elem / M)
       = neb * nb) as (nb & neb & sb' & Hif & Hneb & ? & ? & ? & Hsum & Hmul).
  { destruct (Z.eqb_spec (nr_elem / M) 0) as [Hz|Hnz].
    - exists 1, nr_elem, skip_back.
      apply Z.div_small_iff in Hz; [|lia].
      repeat split; lia.
    - assert (1 <= nr_elem / M).
      { pose proof (Z.div_pos nr_elem M ltac:(lia) ltac:(lia)). lia. }
      assert (M <= nr_elem).
      { destruct (Z.le_gt_cases M nr_elem); [done|].
        rewrite Z.div_small in Hnz by lia. done. }
      exists (nr_elem / M), M.
      pose proof (Z.mul_div_le nr_elem M ltac:(lia)).
      assert (0 <= M * (nr_elem / M)) by nia.
      eexists. split; [reflexivity|].
      replace (Z.min M nr_elem) with M by lia.
      rewrite wrap64_u64 by lia.
      repeat split; lia. }
  rewrite Hif.
  destruct (push_blocks_decode (Z.to_nat nb) t k vs (rle_start + sf) neb 0 sta)
    as (stb & Hb & Hcolb & Hvib & Hab); [lia | nia |].
  rewrite <- Hneb, Hb. cbn [mbind result_bind].
  destruct (push_plain_run_decode t (Z.to_nat sb') vs
              (rle_start + sf + neb * nb) 0 stb)
    as (stc & Hc & Hcolc & Hvic & Hac); [nia|].
  rewrite Hc. exists stc. split; [done|]. split; [congruence|].
  split; [nia|].
  pose proof (appended_trans _ _ _ _ _ _ (appended_trans _ _ _ _ _ _ Haa Hab) Hac)
    as Hall.
  revert Hall. apply appended_eq.
  rewrite Hvib, Hvia, Z.mul_0_l, !Z.add_0_r.
  rewrite <- !drop_drop.
  replace (wrap64 (rle_start + sf))
    with (wrap64 (rle_start + 1 * Z.of_nat (Z.to_nat sf)))
    by (apply (f_equal wrap64); lia).
  rewrite plain_run_split by (rewrite length_drop; lia).
  replace (wrap64 (rle_start + sf + neb * nb))
    with (wrap64 (rle_start
                  + 1 * Z.of_nat (Z.to_nat sf + Z.to_nat nb * Z.to_nat neb)))
    by (apply (f_equal wrap64); nia).
  rewrite (drop_drop (drop (st_vi st1) vs)).
  rewrite plain_run_split by (rewrite length_drop; nia).
  f_equal. f_equal. nia.
Qed.

Lemma appended_viewed t st st' d : appended t st st' d -> viewed t st st' d.
Proof.
  intros (l & Hl & Hwf & Hd). split.
  - by rewrite Hl, decode_row_app, Hd.
  - intros H. rewrite Hl. by apply Forall_app.
Qed.

Lemma viewed_trans t st1 st2 st3 d1 d2 :
  viewed t st1 st2 d1 -> viewed t st2 st3 d2 -> viewed t st1 st3 (d1 ++ d2).
Proof.
  intros [H1 W1] [H2 W2]. split; [|auto].
  by rewrite H2, H1, <- app_assoc.
Qed.

Lemma wrap64_sub_l a b : wrap64 (wrap64 a - b) = wrap64 (a - b).
Proof. unfold wrap64. by rewrite Zminus_mod_idemp_l. Qed.

Lemma wrap64_idemp x : wrap64 (wrap64 x) = wrap64 x.
Proof. unfold wrap64. by rewrite Z.mod_mod. Qed.

Lemma doEncodeBlock_strided t (vs : list V) st rle :
  1 <= freq rle ->
  (st_vi st + Z.to_nat (freq rle) <= length vs)%nat ->
  exists st',
    (st' ← push_strided (Z.to_nat (freq rle)) vs
             (wrap64 (st_col st + val rle)) (val rle) 0
             {| st_col := wrap64 (st_col st + val rle); st_vi := st_vi st;
                st_newrow := st_newrow st |};
     Ok {| st_col := wrap64 (wrap64 (st_col st + val rle)
                             + val rle * (freq rle - 1));
           st_vi := st_vi st'; st_newrow := st_newrow st' |}) = Ok st'
    /\ wrap64 (st_col st') = wrap64 (st_col st + val rle * freq rle)
    /\ st_vi st' = (st_vi st + Z.to_nat (freq rle))%nat
    /\ viewed t st st'
         (plain_run (wrap64 (st_col st + val rle)) (val rle)
            (take (Z.to_nat (freq rle)) (drop (st_vi st) vs)))
    /\ last_plain vs st'.
Proof.
  intros Hf Hvs.
  match goal with |- context [push_strided _ _ _ _ _ ?s] =>
    destruct (push_strided_decode t (Z.to_nat (freq rle)) vs
                (wrap64 (st_col st + val rle)) (val rle) 0 s)
      as (st1 & Hp & Hcol & Hvi & Ha & Hlast); [cbn [st_vi]; lia|]
  end.
  cbn [st_col st_vi st_newrow] in Hcol, Hvi, Ha, Hlast.
  rewrite Hp. cbn [mbind result_bind]. eexists. split; [reflexivity|].
  cbn [st_col st_vi st_newrow].
  split; [|split; [done|split]].
  - rewrite wrap64_idemp. wrap64_norm. apply (f_equal wrap64). ring.
  - apply appended_viewed in Ha. destruct Ha as [Hd Hw]. split; [|done].
    cbn [st_newrow] in *. rewrite Hd. rewrite Z.mul_0_l, Z.add_0_r.
    by rewrite wrap64_idemp.
  - destruct Hlast as (nr & v & Hnr & Hv); [lia|].
    exists nr, v, (st_vi st + Z.to_nat (freq rle) - 1)%nat.
    cbn [st_col st_vi st_newrow]. split; [|split; [lia|done]].
    rewrite Hnr. rewrite wrap64_idemp. do 3 f_equal.
    rewrite Z2Nat.id by lia. wrap64_norm. apply (f_equal wrap64). ring.
Qed.

Lemma doEncodeBlock_rle_decode t max_limit deltas k (vs : list V) st rle :
  1 <= k -> 2 * k <= max_limit < 2 ^ 64 ->
  1 <= freq rle < 2 ^ 63 ->
  (st_vi st + Z.to_nat (freq rle) <= length vs)%nat ->
  (val rle = 1 -> wrap64 (st_col st + 1) <> 1 -> last_plain vs st) ->
  exists st',
    doEncodeBlock_rle t max_limit deltas k vs st rle = Ok st'
    /\ wrap64 (st_col st') = wrap64 (st_col st + val rle * freq rle)
    /\ st_vi st' = (st_vi st + Z.to_nat (freq rle))%nat
    /\ viewed t st st'
         (plain_run (wrap64 (st_col st + val rle)) (val rle)
            (take (Z.to_nat (freq rle)) (drop (st_vi st) vs)))
    /\ (val rle <> 1 -> last_plain vs st').
Proof.
  intros Hk Hmax Hf Hvs Hlast. unfold doEncodeBlock_rle.
  set (col1 := wrap64 (st_col st + val rle)).
  destruct (Z.eqb_spec col1 1) as [Hc1|Hc1].
  - cbv beta iota zeta.
    replace (if 0 <? freq rle then freq rle - 0 else 0) with (freq rle)
      by (destruct (Z.ltb_spec 0 (freq rle)); lia).
    set (sb := freq rle mod k).
    set (ne := if sb <? freq rle then freq rle - sb else 0).
    destruct ((val rle =? 1) && bool_decide (ne / k ∈ deltas) && (2 * k <=? ne))
      eqn:Hcond.
    + apply andb_prop in Hcond as [Hcond Hne].
      apply andb_prop in Hcond as [Hv _].
      apply Z.eqb_eq in Hv. apply Z.leb_le in Hne.
      assert (Hsb : 0 <= sb < k) by (apply Z.mod_pos_bound; lia).
      assert (Hne' : ne = freq rle - sb).
      { unfold ne in *. destruct (Z.ltb_spec sb (freq rle)); lia. }
      cbn [negb mbind result_bind].
      destruct (doEncodeBlock_blocks t k max_limit vs col1 0 ne sb
                  {| st_col := col1; st_vi := st_vi st;
                     st_newrow := st_newrow st |})
        as (st2 & H2 & Hcol2 & Hvi2 & Ha2); try lia.
      { cbn [st_vi]. lia. }
      cbn [st_col st_vi st_newrow] in Hcol2, Hvi2, Ha2.
      match goal with |- exists st', (?m ≫= ?k) = Ok st' /\ _ =>
        replace m with (Ok st2) by (symmetry; exact H2)
      end.
      cbn [mbind result_bind]. eexists. split; [reflexivity|].
      cbn [st_col st_vi st_newrow].
      replace (0 + ne + sb) with (freq rle) in * by lia.
      split; [|split; [done|split; [|done]]].
      * rewrite wrap64_idemp. unfold col1. wrap64_norm.
        apply (f_equal wrap64). ring.
      * apply appended_viewed in Ha2. destruct Ha2 as [Hd Hw].
        unfold viewed. cbn [st_newrow] in *. split; [|done].
        rewrite Hd, Hv. unfold col1. by rewrite wrap64_idemp, Hv.
    + destruct (doEncodeBlock_strided t vs st rle) as (st' & H & ?); [lia|lia|].
      fold col1 in H. rewrite H. exists st'. split; [done|]. tauto.
  - cbv beta iota zeta.
    set (sf := if negb (wrap64 (col1 - 2) mod k =? 0)
               then k - wrap64 (col1 - 2) mod k
               else wrap64 (col1 - 2) mod k).
    assert (Hsf : 0 <= sf < k).
    { pose proof (Z.mod_pos_bound (wrap64 (col1 - 2)) k ltac:(lia)).
      unfold sf. destruct (Z.eqb_spec (wrap64 (col1 - 2) mod k) 0);
        cbn [negb]; lia. }
    rewrite (wrap64_u64 (freq rle + 1)) by lia.
    set (ne1 := if sf <? freq rle + 1 then freq rle + 1 - sf else 0).
    set (sb := ne1 mod k).
    set (ne := if sb <? ne1 then ne1 - sb else 0).
    destruct ((val rle =? 1) && bool_decide (ne / k ∈ deltas) && (2 * k <=? ne))
      eqn:Hcond.
    + apply andb_prop in Hcond as [Hcond Hne].
      apply andb_prop in Hcond as [Hv _].
      apply Z.eqb_eq in Hv. apply Z.leb_le in Hne.
      assert (Hsb : 0 <= sb < k) by (apply Z.mod_pos_bound; lia).
      assert (Hne' : ne = ne1 - sb).
      { unfold ne in *. destruct (Z.ltb_spec sb ne1); lia. }
      assert (Hne1 : ne1 = freq rle + 1 - sf).
      { unfold ne1 in *. destruct (Z.ltb_spec sf (freq rle + 1)); lia. }
      destruct Hlast as (nr & v & i & Hnr & Hi & Hvi); [done| |].
      { unfold col1 in Hc1. by rewrite Hv in Hc1. }
      assert (Hpop : pop_back {| st_col := col1; st_vi := st_vi st;
                                 st_newrow := st_newrow st |}
                     = Ok {| st_col := col1; st_vi := i; st_newrow := nr |}).
      { unfold pop_back. cbn [st_vi st_newrow st_col]. rewrite Hi, Hnr.
        destruct nr as [|e0 nr']; [done|].
        change ((e0 :: nr') ++ [Elem (wrap64 (st_col st)) v])
          with (e0 :: (nr' ++ [Elem (wrap64 (st_col st)) v])) at 1.
        cbv beta iota. by rewrite removelast_last. }
      cbn [negb]. rewrite Hpop. cbn [mbind result_bind].
      destruct (doEncodeBlock_blocks t k max_limit vs (wrap64 (col1 - 1)) sf
                  ne sb {| st_col := col1; st_vi := i; st_newrow := nr |})
        as (st2 & H2 & Hcol2 & Hvi2 & Ha2); try lia.
      { cbn [st_vi]. lia. }
      cbn [st_col st_vi st_newrow] in Hcol2, Hvi2, Ha2.
      match goal with |- exists st', (?m ≫= ?k) = Ok st' /\ _ =>
        replace m with (Ok st2) by (symmetry; exact H2)
      end.
      cbn [mbind result_bind]. eexists. split; [reflexivity|].
      cbn [st_col st_vi st_newrow].
      replace (sf + ne + sb) with (freq rle + 1) in * by lia.
      split; [|split; [lia|split; [|done]]].
      * rewrite wrap64_idemp. unfold col1. wrap64_norm.
        apply (f_equal wrap64). ring.
      * apply appended_viewed in Ha2. destruct Ha2 as [Hd Hw].
        unfold viewed. cbn [st_newrow] in *. split.
        2:{ rewrite Hnr. intros [? _]%Forall_app. auto. }
        rewrite Hd, Hnr, decode_row_app, <- app_assoc. f_equal.
        replace (Z.to_nat (freq rle + 1)) with (S (Z.to_nat (freq rle))) by lia.
        rewrite (drop_S _ _ _ Hvi). cbn [take plain_run].
        rewrite decode_row_cons_plain. cbn [decode_row flat_map app].
        rewrite Hi. unfold col1. rewrite Hv, !wrap64_idemp.
        rewrite !wrap64_sub_l.
        replace (st_col st + 1 - 1) with (st_col st) by lia.
        by rewrite wrap64_add_l.
    + destruct (doEncodeBlock_strided t vs st rle) as (st' & H & ?); [lia|lia|].
      fold col1 in H. rewrite H. exists st'. split; [done|]. tauto.
Qed.

(** All the runs of a row. *)

Lemma plain_deltas_wrap col ds (vals : list V) :
  plain_deltas (wrap64 col) ds vals = plain_deltas col ds vals.
Proof.
  destruct ds as [|d ds], vals as [|v vals]; cbn [plain_deltas]; try done.
  by rewrite wrap64_add_l.
Qed.

Lemma plain_deltas_replicate n val ds : forall col (vals : list V),
  (n <= length vals)%nat ->
  plain_deltas col (replicate n val ++ ds) vals
  = plain_run (wrap64 (col + val)) val (take n vals)
    ++ plain_deltas (wrap64 (col + val * Z.of_nat n)) ds (drop n vals).
Proof.
  induction n as [|n IH]; intros col vals Hn.
  - cbn [replicate app take plain_run drop].
    by rewrite Z.mul_0_r, Z.add_0_r, plain_deltas_wrap.
  - destruct vals as [|v vals]; [cbn in Hn; lia|].
    cbn [replicate app take plain_run drop plain_deltas].
    rewrite IH by (cbn in Hn; lia). rewrite !wrap64_add_l.
    by replace (col + val + val * Z.of_nat n) with (col + val * Z.of_nat (S n))
      by lia.
Qed.

Lemma plain_deltas_DeltaEncode_loop xs : forall prev (vs : list V),
  Forall is_u64 xs -> length xs = length vs ->
  plain_deltas prev (DeltaEncode_loop prev xs) vs = zip_with Elem xs vs.
Proof.
  induction xs as [|x xs IH]; intros prev vs Hu Hl; [done|].
  destruct vs as [|v vs]; [done|]. apply Forall_cons in Hu as [Hx Hu].
  cbn [DeltaEncode_loop plain_deltas zip_with].
  rewrite wrap64_add_r.
  replace (prev + (x - prev)) with x by lia.
  rewrite (wrap64_u64 x) by done. f_equal. apply IH; [done|]. by injection Hl.
Qed.

Lemma plain_deltas_DeltaEncode xs (vs : list V) :
  Forall is_u64 xs -> length xs = length vs ->
  plain_deltas 0 (DeltaEncode xs) vs = zip_with Elem xs vs.
Proof.
  intros Hu Hl. destruct xs as [|x xs]; [done|].
  destruct vs as [|v vs]; [done|]. apply Forall_cons in Hu as [Hx Hu].
  cbn [DeltaEncode plain_deltas zip_with]. rewrite Z.add_0_l.
  rewrite (wrap64_u64 x) by done. f_equal.
  apply plain_deltas_DeltaEncode_loop; [done|]. by injection Hl.
Qed.

Lemma viewed_eq t st st' d d' : d = d' -> viewed t st st' d -> viewed t st st' d'.
Proof. by intros ->. Qed.

Lemma viewed_col t st st' st'' d :
  st_newrow st'' = st_newrow st -> viewed t st st' d -> viewed t st'' st' d.
Proof. unfold viewed. by intros ->. Qed.

Lemma doEncode_fold_decode t min_limit max_limit deltas (vs : list V) rles :
  forall st,
  1 <= min_limit -> 1 <= max_limit ->
  Forall (fun r => 1 <= freq r) rles ->
  (st_vi st + total_freq rles <= length vs)%nat ->
  exists st',
    foldM (doEncode_rle t min_limit max_limit deltas vs) rles st = Ok st'
    /\ st_vi st' = (st_vi st + total_freq rles)%nat
    /\ viewed t st st'
         (plain_deltas (st_col st) (expand rles)
            (take (total_freq rles) (drop (st_vi st) vs))).
Proof.
  induction rles as [|r rles IH]; intros st Hmin Hmax Hfr Hvs.
  - exists st. cbn [foldM]. unfold total_freq, expand. cbn.
    rewrite Nat.add_0_r. repeat split; try done. by rewrite app_nil_r.
  - apply Forall_cons in Hfr as [Hr Hfr]. rewrite total_freq_cons in *.
    cbn [foldM].
    destruct (doEncode_rle_decode t min_limit max_limit deltas vs st r
                Hmin Hmax) as (st1 & He & Hcol & Hvi & Ha); [lia | lia |].
    rewrite He. cbn [mbind result_bind].
    destruct (IH st1 Hmin Hmax Hfr) as (st2 & Hf & Hvi2 & Hv2); [lia|].
    exists st2. split; [done|]. split; [lia|].
    pose proof (viewed_trans _ _ _ _ _ _ (appended_viewed _ _ _ _ Ha) Hv2) as Hv.
    revert Hv. apply viewed_eq.
    unfold expand. cbn [flat_map]. fold (expand rles).
    rewrite plain_deltas_replicate
      by (rewrite length_take, length_drop; lia).
    rewrite take_take, Z2Nat.id by lia.
    replace (Z.to_nat (freq r) `min` (Z.to_nat (freq r) + total_freq rles))%nat
      with (Z.to_nat (freq r)) by lia.
    f_equal. rewrite <- (plain_deltas_wrap (st_col st1)), Hcol, plain_deltas_wrap.
    rewrite plain_deltas_wrap. f_equal.
    by rewrite Hvi, <- drop_drop, take_drop_commute.
Qed.

Lemma doEncodeBlock_fold_decode t max_limit deltas k (vs : list V) rles :
  forall st,
  1 <= k -> 2 * k <= max_limit < 2 ^ 64 ->
  Forall (fun r => 1 <= freq r < 2 ^ 63) rles ->
  maximal rles ->
  (st_vi st + total_freq rles <= length vs)%nat ->
  match rles with
  | r :: _ => val r = 1 -> wrap64 (st_col st + 1) <> 1 -> last_plain vs st
  | [] => True
  end ->
  exists st',
    foldM (doEncodeBlock_rle t max_limit deltas k vs) rles st = Ok st'
    /\ st_vi st' = (st_vi st + total_freq rles)%nat
    /\ viewed t st st'
         (plain_deltas (st_col st) (expand rles)
            (take (total_freq rles) (drop (st_vi st) vs))).
Proof.
  induction rles as [|r rles IH]; intros st Hk Hmax Hfr Hm Hvs Hlast.
  - exists st. cbn [foldM]. unfold total_freq, expand. cbn.
    rewrite Nat.add_0_r. repeat split; try done. by rewrite app_nil_r.
  - apply Forall_cons in Hfr as [Hr Hfr]. rewrite total_freq_cons in *.
    cbn [foldM]. cbn [maximal] in Hm. destruct Hm as [Hne Hm].
    destruct (doEncodeBlock_rle_decode t max_limit deltas k vs st r Hk Hmax Hr)
      as (st1 & He & Hcol & Hvi & Ha & Hl1); [lia | done |].
    rewrite He. cbn [mbind result_bind].
    destruct (IH st1 Hk Hmax Hfr Hm) as (st2 & Hf & Hvi2 & Hv2); [lia| |].
    { destruct rles as [|r' rles']; [done|]. intros Hv' _. apply Hl1. congruence. }
    exists st2. split; [done|]. split; [lia|].
    pose proof (viewed_trans _ _ _ _ _ _ Ha Hv2) as Hv.
    revert Hv. apply viewed_eq.
    unfold expand. cbn [flat_map]. fold (expand rles).
    rewrite plain_deltas_replicate
      by (rewrite length_take, length_drop; lia).
    rewrite take_take, Z2Nat.id by lia.
    replace (Z.to_nat (freq r) `min` (Z.to_nat (freq r) + total_freq rles))%nat
      with (Z.to_nat (freq r)) by lia.
    f_equal. rewrite <- (plain_deltas_wrap (st_col st1)), Hcol, plain_deltas_wrap.
    rewrite plain_deltas_wrap. f_equal.
    by rewrite Hvi, <- drop_drop, take_drop_commute.
Qed.

Lemma freq_le_total rles :
  Forall (fun r => 1 <= freq r) rles ->
  Forall (fun r => 1 <= freq r <= Z.of_nat (total_freq rles)) rles.
Proof.
  induction rles as [|r rles IH]; intros H; [constructor|].
  apply Forall_cons in H as [Hr H]. rewrite total_freq_cons.
  constructor; [lia|]. eapply Forall_impl; [apply IH, H|].
  cbn. intros; lia.
Qed.

Lemma isBlockType_range t : 0 <= isBlockType t <= 8.
Proof. destruct t; cbn; lia. Qed.

(** [doEncode] on the columns [xs] and values [vs] gathered from plain
    elements: [DecodeRow] sees these elements after the row so far. *)
Lemma doEncode_decode (m : DRLE_Manager V) xs vs newrow :
  limits_ok m ->
  Forall is_u64 xs -> length xs = length vs ->
  Z.of_nat (length xs) < 2 ^ 63 ->
  exists newrow',
    doEncode m xs vs newrow = Ok newrow'
    /\ decode_row (type (spm m)) newrow'
       = decode_row (type (spm m)) newrow ++ zip_with Elem xs vs
    /\ (Forall (wf_elem (type (spm m))) newrow ->
        Forall (wf_elem (type (spm m))) newrow').
Proof.
  intros (Hmin & Hmax & Hblk) Hu Hlen Hlt. unfold doEncode, doEncodeBlock.
  pose proof (RLEncode_freq (DeltaEncode xs)) as Hfr.
  pose proof (total_freq_RLEncode xs) as Htot.
  pose proof (isBlockType_range (type (spm m))) as Hk.
  destruct (Z.eqb_spec (isBlockType (type (spm m))) 0) as [Hz|Hnz]; cbn [negb].
  - destruct (doEncode_fold_decode (type (spm m)) (min_limit m) (max_limit m)
                (deltas_set m (type (spm m))) vs (RLEncode (DeltaEncode xs))
                {| st_col := 0; st_vi := 0; st_newrow := newrow |})
      as (st' & Hf & Hvi & Hd & Hw); try done; try lia.
    { cbn [st_vi]. lia. }
    cbn [st_col st_vi st_newrow] in Hvi, Hd, Hw.
    rewrite Hf. cbn [mbind result_bind].
    rewrite Hvi, Htot, Hlen, Nat.eqb_refl. cbn [assert mbind result_bind].
    eexists. split; [reflexivity|]. split; [|done].
    rewrite Hd, RLEncode_expand, Htot, drop_0, Hlen, firstn_all.
    by rewrite plain_deltas_DeltaEncode.
  - destruct (doEncodeBlock_fold_decode (type (spm m)) (max_limit m)
                (deltas_set m (type (spm m))) (isBlockType (type (spm m)))
                vs (RLEncode (DeltaEncode xs))
                {| st_col := 0; st_vi := 0; st_newrow := newrow |})
      as (st' & Hf & Hvi & Hd & Hw); try done; try lia.
    { eapply Forall_impl; [apply freq_le_total, Hfr|]. cbn. intros; lia. }
    { apply RLEncode_maximal. }
    { cbn [st_vi]. lia. }
    { destruct (RLEncode (DeltaEncode xs)); [done|]. cbn [st_col].
      intros _ Hc. by destruct Hc. }
    cbn [st_col st_vi st_newrow] in Hvi, Hd, Hw.
    rewrite Hf. cbn [mbind result_bind].
    rewrite Hvi, Htot, Hlen, Nat.eqb_refl. cbn [assert mbind result_bind].
    eexists. split; [reflexivity|]. split; [|done].
    rewrite Hd, RLEncode_expand, Htot, drop_0, Hlen, firstn_all.
    by rewrite plain_deltas_DeltaEncode.
Qed.

Lemma EncodeRow_gather (m : DRLE_Manager V) row : forall xs vs newrow,
  Forall (fun e => is_plain e = true /\ is_u64 (x_of e)) row ->
  exists xs' vs',
    foldM (EncodeRow_elem m) row (xs, vs, newrow)
    = Ok (xs ++ xs', vs ++ vs', newrow)
    /\ Forall is_u64 xs' /\ length xs' = length row
    /\ length vs' = length row
    /\ zip_with Elem xs' vs' = row.
Proof.
  induction row as [|e row IH]; intros xs vs newrow Hp.
  - exists [], []. cbn [foldM]. by rewrite !app_nil_r.
  - apply Forall_cons in Hp as [[He Hx] Hp].
    destruct e as [x v|]; [|done]. cbn [foldM EncodeRow_elem mbind result_bind].
    destruct (IH (xs ++ [x]) (vs ++ [v]) newrow Hp)
      as (xs' & vs' & Hf & Hu & Hlx & Hlv & Hz).
    exists (x :: xs'), (v :: vs'). rewrite Hf, <- !app_assoc. cbn [app].
    repeat split; try done.
    + by constructor.
    + cbn. by rewrite Hlx.
    + cbn. by rewrite Hlv.
    + cbn. by rewrite Hz.
Qed.

(** [EncodeRow], then [DecodeRow] by a manager whose matrix has the same
    order, on a plain row. *)
Lemma EncodeRow_DecodeRow (m : DRLE_Manager V) row :
  limits_ok m -> plain_row row ->
  exists row',
    EncodeRow m row [] = Ok row'
    /\ forall m' : DRLE_Manager V,
         type (spm m') = type (spm m) -> DecodeRow m' row' [] = Ok row.
Proof.
  intros Hlim [Hp Hlen]. unfold EncodeRow.
  destruct (EncodeRow_gather m row [] [] [] Hp)
    as (xs & vs & Hf & Hu & Hlx & Hlv & Hz).
  rewrite Hf. cbn [app mbind result_bind].
  destruct xs as [|x xs].
  - destruct row; [|done]. exists []. done.
  - destruct (doEncode_decode m (x :: xs) vs [] Hlim Hu) as (row' & He & Hd & Hw);
      [congruence | lia |].
    exists row'. split; [done|]. intros m' Ht.
    rewrite DecodeRow_spec by (rewrite Ht; apply Hw; constructor).
    by rewrite Ht, Hd, Hz.
Qed.

Lemma mapM_EncodeRow_DecodeRow (m : DRLE_Manager V) rws :
  limits_ok m -> Forall plain_row rws ->
  exists rws',
    mapM (fun row => EncodeRow m row []) rws = Ok rws'
    /\ forall m' : DRLE_Manager V,
         type (spm m') = type (spm m) ->
         mapM (fun row => DecodeRow m' row []) rws' = Ok rws.
Proof.
  intros Hlim Hp. induction Hp as [|row rws Hrow Hp IH].
  - by exists [].
  - destruct (EncodeRow_DecodeRow m row Hlim Hrow) as (row' & He & Hd).
    destruct IH as (rws' & Hes & Hds).
    exists (row' :: rws'). cbn [mapM].
    rewrite He, Hes. split; [done|]. intros m' Ht.
    by rewrite (Hd m' Ht), (Hds m' Ht).
Qed.

End Roundtrip.

Section EncodeDecode.
Import Spm Drle DrleSpec.
Context {V : Type}.

Lemma Builder_Finalize_rows (p : SPM V) : Builder_Finalize p (rows p) = p.
Proof. by destruct p. Qed.

Lemma Builder_Finalize_twice (p : SPM V) r1 r2 :
  Builder_Finalize (Builder_Finalize p r1) r2 = Builder_Finalize p r2.
Proof. reflexivity. Qed.

(** [SPM::Transform] is not among the sources.  What is assumed of it:
    the partition it returns is in the order asked for; transforming to
    an order and back to the order the partition was in gives the
    partition again; plain partitions stay plain. *)
Variable Transform : SpmIterOrder -> SPM V -> SPM V.
Hypothesis Transform_type : forall t p, type (Transform t p) = t.
Hypothesis Transform_inverse :
  forall t p, Transform (type p) (Transform t p) = p.
Hypothesis Transform_plain :
  forall t p, plain_spm p -> plain_spm (Transform t p).

(** ** C3 *)

End EncodeDecode.

(** ** Two runs of the pipeline *)

Lemma rel_bind {A B} (R : A -> A -> Prop) (S : B -> B -> Prop)
    (m1 m2 : result A) (k1 k2 : A -> result B) :
  rel_result R m1 m2 ->
  (forall a1 a2, R a1 a2 -> rel_result S (k1 a1) (k2 a2)) ->
  rel_result S (m1 ≫= k1) (m2 ≫= k2).
Proof. destruct m1, m2; cbn; try done. auto. Qed.

Lemma rel_refl {A} (r : result A) : rel_result eq r r.
Proof. by destruct r. Qed.

Lemma rel_foldM {A B} (R : A -> A -> Prop) (f1 f2 : A -> B -> result A) l :
  (forall a1 a2 b, R a1 a2 -> rel_result R (f1 a1 b) (f2 a2 b)) ->
  forall a1 a2, R a1 a2 -> rel_result R (Drle.foldM f1 l a1) (Drle.foldM f2 l a2).
Proof.
  intros Hf. induction l as [|b l IH]; intros a1 a2 HR; cbn [Drle.foldM]; [done|].
  eapply rel_bind; [by apply Hf | apply IH].
Qed.

Ltac sw_solve :=
  unfold rel_result, CsxManagerSpec.same_written, CsxManagerSpec.same_core in *;
  csxm_simpl;
  intuition (try congruence).

Section Determinism.
Import Spm Ctl Delta CtlBuilder CsxManager CsxManagerSpec.
Context {V : Type}.
Variable sizeof_IndexType : Z.
Variable spm0 : SPM V.
Variables Lv Lr : nat.
Implicit Types m : CsxManager V.

Lemma rel_GetFlag sp i m1 m2 id n :
  same_written spm0 Lv Lr sp i m1 m2 ->
  rel_result (fun a1 a2 => a1.1 = a2.1 /\ same_written spm0 Lv Lr sp i a1.2 a2.2)
    (GetFlag m1 id n) (GetFlag m2 id n).
Proof.
  intros H. unfold GetFlag.
  assert (patterns m1 = patterns m2) as <- by sw_solve.
  assert (flag_avail_ m1 = flag_avail_ m2) as <- by sw_solve.
  destruct (patterns m1 !! id) as [pi|].
  - cbn. split; [done|]. sw_solve.
  - csxm_simpl. destruct (flag_avail_ m1 <=? CTL_PATTERNS_MAX); cbn; [|done].
    split; [done|]. sw_solve.
Qed.

Lemma rel_UpdateNewRow sp i m1 m2 :
  same_written spm0 Lv Lr sp i m1 m2 ->
  (UpdateNewRow m1).1 = (UpdateNewRow m2).1
  /\ same_written spm0 Lv Lr sp i (UpdateNewRow m1).2 (UpdateNewRow m2).2.
Proof.
  intros H. unfold UpdateNewRow.
  assert (new_row_ m1 = new_row_ m2) as <- by sw_solve.
  assert (empty_rows_ m1 = empty_rows_ m2) as <- by sw_solve.
  destruct (new_row_ m1); [|cbn; split; [done|sw_solve]].
  csxm_simpl. destruct (negb (empty_rows_ m1 =? 0)); cbn; (split; [done|sw_solve]).
Qed.


Lemma rel_AddCols sp i m1 m2 cols :
  same_written spm0 Lv Lr sp i m1 m2 ->
  rel_result (same_written spm0 Lv Lr sp i)
    (AddCols sizeof_IndexType m1 cols) (AddCols sizeof_IndexType m2 cols).
Proof.
  intros H. unfold AddCols.
  destruct (of_option (last cols) OutOfBounds) as [lc|]; cbn [mbind result_bind];
    [|done].
  destruct (of_option (head cols) OutOfBounds) as [cs|]; cbn [mbind result_bind];
    [|done].
  assert (last_col_ m1 = last_col_ m2) as <- by sw_solve.
  destruct (rel_UpdateNewRow sp i (set_last_col m1 lc) (set_last_col m2 lc))
    as [Hfst Hsw]; [sw_solve|].
  destruct (UpdateNewRow (set_last_col m1 lc)) as [[nr1 rj1] m1'].
  destruct (UpdateNewRow (set_last_col m2 lc)) as [[nr2 rj2] m2'].
  cbn [fst snd] in Hfst, Hsw. injection Hfst as <- <-.
  destruct (of_option (head _) OutOfBounds) as [c0|]; cbn [mbind result_bind];
    [|done].
  destruct (assert _ UnitTooLarge); cbn [mbind result_bind]; [|done].
  eapply rel_bind; [by apply rel_GetFlag|].
  intros [f1 m1''] [f2 m2''] [Hf Hsw']. cbn [fst snd] in Hf, Hsw'. subst f2.
  assert (ctl_bld_ m1'' = ctl_bld_ m2'') as <- by sw_solve.
  assert (full_column_indices_ m1'' = full_column_indices_ m2'') as <-
    by sw_solve.
  assert (full_column_indices_ m1' = full_column_indices_ m2') as <-
    by sw_solve.
  destruct (AppendCtlHead _ _ _ _ _ _ _ _) as [ctl|]; cbn [mbind result_bind];
    [|done].
  sw_solve.
Qed.

Lemma rel_AddPattern sp i m1 m2 x p :
  same_written spm0 Lv Lr sp i m1 m2 ->
  rel_result (same_written spm0 Lv Lr sp i)
    (AddPattern sizeof_IndexType m1 x p) (AddPattern sizeof_IndexType m2 x p).
Proof.
  intros H. unfold AddPattern.
  destruct (rel_UpdateNewRow sp i m1 m2 H) as [Hfst Hsw].
  destruct (UpdateNewRow m1) as [[nr1 rj1] m1'].
  destruct (UpdateNewRow m2) as [[nr2 rj2] m2'].
  cbn [fst snd] in Hfst, Hsw. injection Hfst as <- <-.
  destruct (assert _ UnitTooLarge); cbn [mbind result_bind]; [|done].
  eapply rel_bind; [by apply rel_GetFlag|].
  intros [f1 m1''] [f2 m2''] [Hf Hsw']. cbn [fst snd] in Hf, Hsw'. subst f2.
  assert (ctl_bld_ m1'' = ctl_bld_ m2'') as <- by sw_solve.
  assert (full_column_indices_ m1'' = full_column_indices_ m2'') as <-
    by sw_solve.
  assert (full_column_indices_ m1' = full_column_indices_ m2') as <-
    by sw_solve.
  assert (last_col_ m1' = last_col_ m2') as <- by sw_solve.
  destruct (AppendCtlHead _ _ _ _ _ _ _ _) as [ctl|]; cbn [mbind result_bind];
    [|done].
  sw_solve.
Qed.

Lemma rel_PreparePat sp i m1 m2 cols :
  same_written spm0 Lv Lr sp i m1 m2 ->
  rel_result (same_written spm0 Lv Lr sp i)
    (PreparePat sizeof_IndexType m1 cols) (PreparePat sizeof_IndexType m2 cols).
Proof.
  intros H. unfold PreparePat. destruct cols; [done|]. by apply rel_AddCols.
Qed.

Lemma rel_UpdateRowSpan i m1 m2 p :
  same_written spm0 Lv Lr true i m1 m2 ->
  same_written spm0 Lv Lr true i (UpdateRowSpan m1 p) (UpdateRowSpan m2 p).
Proof.
  intros H. unfold UpdateRowSpan.
  destruct (GetInstantiation p) as [t delta].
  assert (span_ m1 = span_ m2) as <- by sw_solve.
  destruct (span_ m1 <? _); [sw_solve | done].
Qed.

Lemma take_S_insert_eq {A} (l1 l2 : list A) n a :
  length l1 = length l2 -> take n l1 = take n l2 ->
  take (S n) (<[n := a]> l1) = take (S n) (<[n := a]> l2).
Proof.
  intros Hl Ht.
  destruct (decide (n < length l1)%nat) as [Hlt|Hge].
  - rewrite !take_S_insert by lia. by rewrite Ht.
  - rewrite !list_insert_ge by lia.
    rewrite !take_ge by lia. rewrite !take_ge in Ht by lia. done.
Qed.

Lemma rel_put_value sp i m1 m2 v :
  same_written spm0 Lv Lr sp i m1 m2 ->
  rel_result (same_written spm0 Lv Lr sp i) (put_value m1 v) (put_value m2 v).
Proof.
  intros H. unfold put_value.
  assert (values_idx_ m1 = values_idx_ m2) as Hidx by sw_solve.
  assert (length (values_ m1) = length (values_ m2)) as Hlen by sw_solve.
  rewrite <- Hidx, <- Hlen.
  destruct (assert _ OutOfBounds); cbn [mbind result_bind]; [|done].
  unfold rel_result, same_written, same_core in *. csxm_simpl.
  rewrite !length_insert.
  intuition (try congruence).
  apply take_S_insert_eq; congruence.
Qed.

Lemma rel_put_values sp i vals n : forall m1 m2 j,
  same_written spm0 Lv Lr sp i m1 m2 ->
  rel_result (same_written spm0 Lv Lr sp i)
    (put_values n m1 vals j) (put_values n m2 vals j).
Proof.
  induction n as [|n IH]; intros m1 m2 j H; cbn [put_values]; [done|].
  destruct (of_option (vals !! j) OutOfBounds); cbn [mbind result_bind]; [|done].
  eapply rel_bind; [by apply rel_put_value|]. intros. by apply IH.
Qed.


Lemma rel_DoRow_elem i a1 a2 e :
  same_cols spm0 Lv Lr i a1 a2 ->
  rel_result (same_cols spm0 Lv Lr i)
    (DoRow_elem sizeof_IndexType a1 e) (DoRow_elem sizeof_IndexType a2 e).
Proof.
  destruct a1 as [m1 cols], a2 as [m2 cols2]. intros [Hc H].
  cbn [fst snd] in Hc, H. subst cols2. unfold DoRow_elem.
  destruct e as [x v|x p vals].
  - destruct (assert _ UnitTooLarge); cbn [mbind result_bind]; [|done].
    eapply rel_bind with (R := same_cols spm0 Lv Lr i).
    { destruct (_ =? CTL_SIZE_MAX); [|by split].
      eapply rel_bind; [by apply rel_AddCols|]. intros. by split. }
    intros [m1' c1] [m2' c2] [Hc' H']. cbn [fst snd] in Hc', H'. subst c2.
    eapply rel_bind; [by apply rel_put_value|]. intros. by split.
  - eapply rel_bind; [by apply rel_PreparePat, rel_UpdateRowSpan|].
    intros m1' m2' H'. cbn [length Nat.eqb assert mbind result_bind].
    eapply rel_bind; [by apply rel_AddPattern|]. intros m1'' m2'' H''.
    eapply rel_bind; [by apply rel_put_values|]. intros. by split.
Qed.

Lemma rel_DoRow sp i m1 m2 row :
  same_written spm0 Lv Lr sp i m1 m2 ->
  rel_result (same_written spm0 Lv Lr true i)
    (DoRow sizeof_IndexType m1 row) (DoRow sizeof_IndexType m2 row).
Proof.
  intros H. unfold DoRow.
  eapply rel_bind with (R := same_cols spm0 Lv Lr i).
  { apply rel_foldM; [intros; by apply rel_DoRow_elem|]. split; [done|].
    sw_solve. }
  intros [m1' c1] [m2' c2] [Hc' H']. cbn [fst snd] in Hc', H'. subst c2.
  destruct c1; [done|]. by apply rel_AddCols.
Qed.

Lemma rel_DoSymRow sp i m1 m2 row :
  same_written spm0 Lv Lr sp i m1 m2 ->
  rel_result (same_written spm0 Lv Lr true i)
    (DoSymRow sizeof_IndexType m1 row) (DoSymRow sizeof_IndexType m2 row).
Proof.
  intros H. unfold DoSymRow. csxm_simpl.
  assert (spm_ m1 = spm_ m2) as <- by sw_solve.
  destruct (sym_split _ row) as [row1 row2].
  eapply rel_bind with (R := same_cols spm0 Lv Lr i).
  { apply rel_foldM; [intros; by apply rel_DoRow_elem|]. split; [done|].
    sw_solve. }
  intros [m1' c1] [m2' c2] [Hc' H']. cbn [fst snd] in Hc', H'. subst c2.
  eapply rel_bind with (R := same_written spm0 Lv Lr true i).
  { destruct c1; [done|]. by apply rel_AddCols. }
  intros m1'' m2'' H''.
  eapply rel_bind with (R := same_cols spm0 Lv Lr i).
  { apply rel_foldM; [intros; by apply rel_DoRow_elem|]. by split. }
  intros [m1a c1a] [m2a c2a] [Hca Ha]. cbn [fst snd] in Hca, Ha. subst c2a.
  destruct c1a; [done|]. by apply rel_AddCols.
Qed.

Lemma rel_put_row_info sp i m1 m2 ri :
  same_written spm0 Lv Lr sp i m1 m2 ->
  rel_result (same_written spm0 Lv Lr sp (S i))
    (put_row_info m1 i ri) (put_row_info m2 i ri).
Proof.
  intros H. unfold put_row_info.
  assert (length (rows_info_ m1) = length (rows_info_ m2)) as Hlen by sw_solve.
  rewrite <- Hlen.
  destruct (assert _ OutOfBounds); cbn [mbind result_bind]; [|done].
  unfold rel_result, same_written, same_core in *. csxm_simpl.
  rewrite !length_insert.
  intuition (try congruence).
  apply take_S_insert_eq; congruence.
Qed.

Lemma rel_get_row_info sp i j m1 m2 :
  same_written spm0 Lv Lr sp i m1 m2 -> (j < i)%nat ->
  get_row_info m1 j = get_row_info m2 j.
Proof.
  intros H Hj. unfold get_row_info.
  assert (take i (rows_info_ m1) = take i (rows_info_ m2)) as Ht by sw_solve.
  by rewrite <- (lookup_take_lt (rows_info_ m1) i j),
             <- (lookup_take_lt (rows_info_ m2) i j), Ht by done.
Qed.

Lemma same_written_sp sp i m1 m2 :
  same_written spm0 Lv Lr sp i m1 m2 -> same_written spm0 Lv Lr false i m1 m2.
Proof. sw_solve. Qed.

Lemma rel_MakeCsx_row symmetric a1 a2 row :
  same_rows spm0 Lv Lr a1 a2 ->
  rel_result (same_rows spm0 Lv Lr)
    (MakeCsx_row sizeof_IndexType symmetric a1 row)
    (MakeCsx_row sizeof_IndexType symmetric a2 row).
Proof.
  destruct a1 as [m1 i], a2 as [m2 i2]. intros [Hi H].
  cbn [fst snd] in Hi, H. subst i2. unfold MakeCsx_row.
  assert (length (rows_info_ m1) = length (rows_info_ m2)) as Hlen by sw_solve.
  rewrite <- Hlen.
  destruct (assert (i <? length (rows_info_ m1))%nat OutOfBounds);
    cbn [mbind result_bind]; [|done].
  assert (Hnext : forall m1' m2',
            same_written spm0 Lv Lr false (S i) m1' m2' ->
            same_rows spm0 Lv Lr
              (if symmetric then m1'
               else set_curr_row m1' (wrap64 (curr_row_ m1' + 1)), S i)
              (if symmetric then m2'
               else set_curr_row m2' (wrap64 (curr_row_ m2' + 1)), S i)).
  { intros m1' m2' H'. split; [done|]. cbn [fst snd].
    destruct symmetric; [done|]. sw_solve. }
  destruct row as [|e row].
  - assert (new_row_ m1 = new_row_ m2) as <- by sw_solve.
    eapply rel_bind with
      (R := fun a1 a2 => a1.2 = a2.2 /\ same_written spm0 Lv Lr false i a1.1 a2.1).
    { destruct (new_row_ m1); cbn [negb].
      - csxm_simpl.
        destruct (Nat.ltb_spec 0 i) as [Hpos|]; cbn [assert mbind result_bind];
          [|done].
        rewrite (rel_get_row_info false i (i - 1)
                   (set_row_state m1 true (wrap64 (empty_rows_ m1 + 1))
                      (row_jmps_ m1))
                   (set_row_state m2 true (wrap64 (empty_rows_ m2 + 1))
                      (row_jmps_ m2))); [|sw_solve|lia].
        destruct (get_row_info _ _); cbn [mbind result_bind]; [|done].
        split; [done|]. sw_solve.
      - split; [done|]. sw_solve. }
    intros [m1' r1] [m2' r2] [Hr H']. cbn [fst snd] in Hr, H'. subst r2.
    eapply rel_bind; [by apply rel_put_row_info|]. intros m1'' m2'' H''.
    by apply Hnext.
  - assert (ctl_bld_ m1 = ctl_bld_ m2) as <- by sw_solve.
    assert (values_idx_ m1 = values_idx_ m2) as <- by sw_solve.
    eapply rel_bind with (R := same_written spm0 Lv Lr true i).
    { destruct symmetric; [by eapply rel_DoSymRow | by eapply rel_DoRow]. }
    intros m1' m2' H'.
    assert (span_ m1' = span_ m2') as <- by sw_solve.
    eapply rel_bind; [by apply rel_put_row_info, same_written_sp with true|].
    intros m1'' m2'' H''. apply Hnext. sw_solve.
Qed.

Lemma rel_MakeCsx_tail n : forall i m1 m2,
  same_written spm0 Lv Lr false i m1 m2 ->
  rel_result (same_written spm0 Lv Lr false (i + n))
    (MakeCsx_tail n m1 i) (MakeCsx_tail n m2 i).
Proof.
  induction n as [|n IH]; intros i m1 m2 H; cbn [MakeCsx_tail].
  - by rewrite Nat.add_0_r.
  - destruct (Nat.ltb_spec 0 i) as [Hpos|]; cbn [assert mbind result_bind];
      [|done].
    rewrite (rel_get_row_info false i (i - 1) m1 m2 H) by lia.
    destruct (get_row_info _ _); cbn [mbind result_bind]; [|done].
    eapply rel_bind; [by apply rel_put_row_info|]. intros m1' m2' H'.
    replace (i + S n)%nat with (S i + n)%nat by lia. by apply IH.
Qed.


End Determinism.

Section DeterminismMakeCsx.
Import Spm Ctl Delta CtlBuilder CsxManager CsxManagerSpec.
Context {V : Type}.
Variable sizeof_IndexType : Z.
Implicit Types m : CsxManager V.

(** [MakeCsx] returns the same matrix whatever the arrays it allocates
    hold and whatever the members it assigns before it reads them
    hold. *)
Lemma rel_MakeCsx junk1 junk_info1 junk2 junk_info2 m1 m2 symmetric :
  spm_ m1 = spm_ m2 -> patterns m1 = patterns m2 ->
  flag_avail_ m1 = flag_avail_ m2 -> row_jmps_ m1 = row_jmps_ m2 ->
  full_column_indices_ m1 = full_column_indices_ m2 ->
  ctl_bld_ m1 = ctl_bld_ m2 -> last_col_ m1 = last_col_ m2 ->
  empty_rows_ m1 = empty_rows_ m2 ->
  rel_result (fun r1 r2 => r1.1 = r2.1)
    (MakeCsx sizeof_IndexType junk1 junk_info1 m1 symmetric)
    (MakeCsx sizeof_IndexType junk2 junk_info2 m2 symmetric).
Proof.
  intros Hspm Hpat Hfa Hrj Hfull Hctl Hlc Her. unfold MakeCsx.
  destruct symmetric; cbv zeta.
  all: cbn [spm_ set_values set_rows_info set_row_state set_curr_row].
  all: rewrite <- !Hspm.
  all: set (Lv := Z.to_nat (nr_nzeros_ (spm_ m1))).
  all: set (Lr := Z.to_nat (nr_rows_ (spm_ m1))).
  all: match goal with
       | |- rel_result _ (Drle.foldM _ _ (?a, _) ≫= _)
                         (Drle.foldM _ _ (?b, _) ≫= _) =>
           assert (H0 : same_written (spm_ m1) Lv Lr false 0 a b)
             by (unfold same_written, same_core;
                 cbn [spm_ patterns flag_avail_ row_jmps_ full_column_indices_
                      values_ rows_info_ span_ values_idx_ ctl_bld_ last_col_
                      new_row_ empty_rows_ curr_row_
                      set_values set_rows_info set_row_state set_curr_row];
                 rewrite ?length_map, ?length_seq;
                 intuition (try congruence))
       end.
  all: eapply rel_bind with (R := same_rows (spm_ m1) Lv Lr);
    [apply rel_foldM; [intros; by apply rel_MakeCsx_row | by split]|].
  all: intros [ma i] [mb i2] [Hi H]; cbn [fst snd] in Hi, H; subst i2.
  all: assert (spm_ ma = spm_ m1) as Hsa by sw_solve.
  all: assert (spm_ mb = spm_ m1) as Hsb by sw_solve.
  all: rewrite Hsa, Hsb; fold Lr.
  all: eapply rel_bind; [by apply (rel_MakeCsx_tail (spm_ m1) Lv Lr)|].
  all: intros ma' mb' H'.
  all: assert (spm_ ma' = spm_ m1) as Hsa' by sw_solve.
  all: assert (spm_ mb' = spm_ m1) as Hsb' by sw_solve.
  all: assert (values_idx_ ma' = values_idx_ mb') as Hidx by sw_solve.
  all: rewrite Hsa', Hsb', <- Hidx.
  all: destruct (Z.eqb_spec (Z.of_nat (values_idx_ ma')) (nr_nzeros_ (spm_ m1)))
         as [Hnnz|]; cbn [assert mbind result_bind rel_result fst]; [|done].
  all: assert (values_ ma' = values_ mb') as Hv.
  1,3: unfold same_written in H'; destruct H' as (_ & _ & _ & Hl1 & Hl2 & Ht & _);
       rewrite !take_ge in Ht by (unfold Lv in *; lia); exact Ht.
  all: assert (rows_info_ ma' = rows_info_ mb') as Hr.
  1,3: unfold same_written in H';
       destruct H' as (_ & _ & _ & _ & _ & _ & Hl1 & Hl2 & Ht);
       rewrite !take_ge in Ht by (unfold Lr in *; lia); exact Ht.
  all: unfold AddMappings.
  all: assert (patterns ma' = patterns mb') as <- by sw_solve.
  all: assert (row_jmps_ ma' = row_jmps_ mb') as <- by sw_solve.
  all: assert (ctl_bld_ ma' = ctl_bld_ mb') as <- by sw_solve.
  all: by rewrite Hv, Hr.
Qed.

End DeterminismMakeCsx.

Section DeterminismPipeline.
Import Spm Pipeline.
Context {V : Type}.

(** ** C10 *)

(** C10, determinism.  Two runs of the pipeline, the planner loop followed
    by [MakeCsx], on the same partition with the same configuration
    ([min_limit], [max_limit], the test against [min_perc], the ignore
    set, [full_column_indices]) give the same outcome: the same failure,
    or the same matrix, with the same [ctl] bytes and the same [values]
    array.  The runs may differ in what the arrays that [MakeCsx]
    allocates hold ([junk], [junk_info]) and in what the members that the
    constructor leaves unassigned hold ([uninit]); nothing else in a run
    is left open by the sources. *)
Theorem pipeline_deterministic (Transform : SpmIterOrder -> SPM V -> SPM V)
    (sizeof_IndexType : Z) (m : Drle.DRLE_Manager V)
    (full_column_indices symmetric : bool)
    (junk1 junk2 : nat -> V) (junk_info1 junk_info2 : nat -> CsxManager.row_info_t)
    (uninit1 uninit2 : CsxManager.CsxManager V) :
  pipeline Transform sizeof_IndexType junk1 junk_info1 uninit1 m
    full_column_indices symmetric
  = pipeline Transform sizeof_IndexType junk2 junk_info2 uninit2 m
      full_column_indices symmetric.
Proof.
  unfold pipeline.
  destruct (Drle.EncodeAll Transform m) as [[m' log]|f]; [|reflexivity].
  cbn [mbind result_bind]. cbv zeta.
  pose proof (rel_MakeCsx sizeof_IndexType junk1 junk_info1 junk2 junk_info2
                (CsxManager.SetFullColumnIndices
                   (CsxManager.CsxManager_new (Drle.spm m') uninit1)
                   full_column_indices)
                (CsxManager.SetFullColumnIndices
                   (CsxManager.CsxManager_new (Drle.spm m') uninit2)
                   full_column_indices)
                symmetric) as H.
  repeat (specialize (H eq_refl)).
  destruct (CsxManager.MakeCsx _ junk1 _ _ _) as [[csx1 ma]|f1],
           (CsxManager.MakeCsx _ junk2 _ _ _) as [[csx2 mb]|f2];
    cbn in H; try done.
  - cbn [mbind result_bind]. by subst.
  - cbn [mbind result_bind]. by subst.
Qed.

End DeterminismPipeline.

(** ** The planner returns *)

Section EncoderShape.
Import Spm Drle DrleSpec PlannerSpec.
Context {V : Type}.
Implicit Types st : @enc_state V.

(** What a loop of the encoder does to the row being built: the columns
    stay [uint64_t] values, and every element added takes at least one
    value. *)
Lemma enc_shape_refl st :
  (Forall (fun e => is_u64 (x_of e)) (st_newrow st) ->
   Forall (fun e => is_u64 (x_of e)) (st_newrow st))
  /\ (length (st_newrow st) + st_vi st <= length (st_newrow st) + st_vi st)%nat.
Proof. split; [done | lia]. Qed.

Lemma wrap64_is_u64 z : is_u64 (wrap64 z).
Proof. unfold is_u64, wrap64. apply Z.mod_pos_bound. reflexivity. Qed.

Lemma push_plain_shape (vs : list V) x st st' :
  push_plain vs (wrap64 x) st = Ok st' ->
  (Forall (fun e => is_u64 (x_of e)) (st_newrow st) ->
   Forall (fun e => is_u64 (x_of e)) (st_newrow st'))
  /\ (length (st_newrow st') + st_vi st <= length (st_newrow st) + st_vi st')%nat
  /\ st_col st' = st_col st.
Proof.
  unfold push_plain. intros H. bind_inv H. injection H as <-.
  cbn [st_newrow st_vi st_col]. split; [|split; [|done]].
  - intros Hf. apply Forall_app. split; [done|].
    constructor; [apply wrap64_is_u64 | constructor].
  - rewrite length_app. cbn [length]. lia.
Qed.

Lemma doEncode_while_shape rounds t min_limit max_limit (vs : list V) val :
  forall freq st f' st',
  1 <= min_limit -> 1 <= max_limit ->
  doEncode_while rounds t min_limit max_limit vs val freq st = Ok (f', st') ->
  (Forall (fun e => is_u64 (x_of e)) (st_newrow st) ->
   Forall (fun e => is_u64 (x_of e)) (st_newrow st'))
  /\ (length (st_newrow st') + st_vi st <= length (st_newrow st) + st_vi st')%nat.
Proof.
  induction rounds as [|rounds IH]; intros freq st f' st' Hmin Hmax H;
    cbn [doEncode_while] in H;
    destruct (Z.ltb_spec freq min_limit) as [Hlt|Hge];
    try (injection H as <- <-; apply enc_shape_refl); [discriminate|].
  bind_inv H. clear a Hstep. bind_inv H. rename a into vals.
  apply IH in H as [H1 H2]; [|done|done]. cbn [st_newrow st_vi] in H1, H2.
  split.
  - intros Hf. apply H1, Forall_app. split; [done|].
    constructor; [apply wrap64_is_u64 | constructor].
  - rewrite length_app in H2. cbn [length] in H2. lia.
Qed.

Lemma doEncode_plain_shape n (vs : list V) val : forall st st',
  doEncode_plain n vs val st = Ok st' ->
  (Forall (fun e => is_u64 (x_of e)) (st_newrow st) ->
   Forall (fun e => is_u64 (x_of e)) (st_newrow st'))
  /\ (length (st_newrow st') + st_vi st <= length (st_newrow st) + st_vi st')%nat.
Proof.
  induction n as [|n IH]; intros st st' H; cbn [doEncode_plain] in H.
  - injection H as <-. apply enc_shape_refl.
  - bind_inv H. rename a into st1.
    apply push_plain_shape in Hstep as (A1 & A2 & _).
    cbn [st_newrow st_vi] in A1, A2.
    apply IH in H as [B1 B2]. split; [tauto | lia].
Qed.

Lemma doEncode_rle_shape t min_limit max_limit deltas (vs : list V) st rle st' :
  1 <= min_limit -> 1 <= max_limit ->
  doEncode_rle t min_limit max_limit deltas vs st rle = Ok st' ->
  (Forall (fun e => is_u64 (x_of e)) (st_newrow st) ->
   Forall (fun e => is_u64 (x_of e)) (st_newrow st'))
  /\ (length (st_newrow st') + st_vi st <= length (st_newrow st) + st_vi st')%nat.
Proof.
  intros Hmin Hmax H. unfold doEncode_rle in H. bind_inv H.
  destruct a as [f1 st1]. apply doEncode_plain_shape in H as [B1 B2].
  destruct (decide _).
  - apply doEncode_while_shape in Hstep as [A1 A2]; [|done|done].
    split; [tauto | lia].
  - injection Hstep as <- <-. done.
Qed.

Lemma enc_fold_shape (f : enc_state -> RLE -> result enc_state) rles :
  (forall st rle st', f st rle = Ok st' ->
     (Forall (fun e => is_u64 (x_of e)) (st_newrow st) ->
      Forall (fun e => is_u64 (x_of e)) (st_newrow st'))
     /\ (length (st_newrow st') + st_vi st
         <= length (st_newrow st) + st_vi st')%nat) ->
  forall st st', foldM f rles st = Ok st' ->
  (Forall (fun e => is_u64 (x_of e)) (st_newrow st) ->
   Forall (fun e => is_u64 (x_of e)) (st_newrow st'))
  /\ (length (st_newrow st') + st_vi st <= length (st_newrow st) + st_vi st')%nat.
Proof.
  intros Hf. induction rles as [|r rles IH]; intros st st' H; cbn [foldM] in H.
  - injection H as <-. apply enc_shape_refl.
  - bind_inv H. rename a into st1. apply Hf in Hstep as [A1 A2].
    apply IH in H as [B1 B2]. split; [tauto | lia].
Qed.

Lemma push_plain_run_shape n (vs : list V) x0 : forall i st st',
  push_plain_run n vs x0 i st = Ok st' ->
  (Forall (fun e => is_u64 (x_of e)) (st_newrow st) ->
   Forall (fun e => is_u64 (x_of e)) (st_newrow st'))
  /\ (length (st_newrow st') + st_vi st <= length (st_newrow st) + st_vi st')%nat.
Proof.
  induction n as [|n IH]; intros i st st' H; cbn [push_plain_run] in H.
  - injection H as <-. apply enc_shape_refl.
  - bind_inv H. rename a into st1.
    apply push_plain_shape in Hstep as (A1 & A2 & _).
    apply IH in H as [B1 B2]. split; [tauto | lia].
Qed.

Lemma push_strided_shape n (vs : list V) c v : forall i st st',
  push_strided n vs c v i st = Ok st' ->
  (Forall (fun e => is_u64 (x_of e)) (st_newrow st) ->
   Forall (fun e => is_u64 (x_of e)) (st_newrow st'))
  /\ (length (st_newrow st') + st_vi st <= length (st_newrow st) + st_vi st')%nat.
Proof.
  induction n as [|n IH]; intros i st st' H; cbn [push_strided] in H.
  - injection H as <-. apply enc_shape_refl.
  - bind_inv H. rename a into st1.
    apply push_plain_shape in Hstep as (A1 & A2 & _).
    apply IH in H as [B1 B2]. split; [tauto | lia].
Qed.

Lemma push_blocks_shape n t ba (vs : list V) x0 neb : forall i st st',
  1 <= neb ->
  push_blocks n t ba vs x0 neb i st = Ok st' ->
  (Forall (fun e => is_u64 (x_of e)) (st_newrow st) ->
   Forall (fun e => is_u64 (x_of e)) (st_newrow st'))
  /\ (length (st_newrow st') + st_vi st <= length (st_newrow st) + st_vi st')%nat.
Proof.
  induction n as [|n IH]; intros i st st' Hneb H; cbn [push_blocks] in H.
  - injection H as <-. apply enc_shape_refl.
  - bind_inv H. rename a into vals.
    apply IH in H as [B1 B2]; [|done]. cbn [st_newrow st_vi] in B1, B2.
    split.
    + intros Hf. apply B1, Forall_app. split; [done|].
      constructor; [apply wrap64_is_u64 | constructor].
    + rewrite length_app in B2. cbn [length] in B2. lia.
Qed.

Lemma Forall_removelast {A} (P : A -> Prop) (l : list A) :
  Forall P l -> Forall P (removelast l).
Proof.
  induction 1 as [|x l Hx Hl IH]; [constructor|].
  destruct l as [|y l]; [constructor|].
  change (removelast (x :: y :: l)) with (x :: removelast (y :: l)).
  by constructor.
Qed.

Lemma pop_back_shape st st' :
  pop_back st = Ok st' ->
  (Forall (fun e => is_u64 (x_of e)) (st_newrow st) ->
   Forall (fun e => is_u64 (x_of e)) (st_newrow st'))
  /\ (length (st_newrow st') + st_vi st <= length (st_newrow st) + st_vi st')%nat.
Proof.
  unfold pop_back. destruct (st_vi st) as [|vi] eqn:Evi; [discriminate|].
  destruct (st_newrow st) as [|e l] eqn:El; [discriminate|].
  intros H. injection H as <-. cbn [st_newrow st_vi]. split.
  - intros Hf. exact (Forall_removelast _ (e :: l) Hf).
  - assert (Hl : length (removelast (e :: l)) = length l).
    { clear. revert e. induction l as [|e' l IH]; intros e; [reflexivity|].
      change (removelast (e :: e' :: l)) with (e :: removelast (e' :: l)).
      cbn [length]. by rewrite IH. }
    change (length (removelast (e :: l)) + S vi <= length (e :: l) + vi)%nat.
    rewrite Hl. cbn [length]. lia.
Qed.

Lemma doEncodeBlock_rle_shape t max_limit deltas ba (vs : list V) st rle st' :
  1 <= ba ->
  doEncodeBlock_rle t max_limit deltas ba vs st rle = Ok st' ->
  (Forall (fun e => is_u64 (x_of e)) (st_newrow st) ->
   Forall (fun e => is_u64 (x_of e)) (st_newrow st'))
  /\ (length (st_newrow st') + st_vi st <= length (st_newrow st) + st_vi st')%nat.
Proof.
  intros Hba H. unfold doEncodeBlock_rle in H.
  destruct (if wrap64 (st_col st + val rle) =? 1 then _ else _) as [sf ne].
  bind_inv H. rename a into st2. injection H as <-. cbn [st_newrow st_vi].
  match type of Hstep with context [push_strided _ _ _ _ _ ?s] =>
    set (st0 := s) in Hstep
  end.
  change (st_newrow st) with (st_newrow st0).
  change (st_vi st) with (st_vi st0).
  destruct (_ && _ && _) eqn:Ec; [|by eapply push_strided_shape].
  apply andb_true_iff in Ec as [_ Hne2]. apply Z.leb_le in Hne2.
  bind_inv Hstep. destruct a as [rs st1].
  assert (Hs1 : (Forall (fun e => is_u64 (x_of e)) (st_newrow st0) ->
                 Forall (fun e => is_u64 (x_of e)) (st_newrow st1))
                /\ (length (st_newrow st1) + st_vi st0
                    <= length (st_newrow st0) + st_vi st1)%nat).
  { destruct (negb _).
    - bind_inv Hstep0. injection Hstep0 as _ <-. by apply pop_back_shape.
    - injection Hstep0 as _ <-. apply enc_shape_refl. }
  clear Hstep0. bind_inv Hstep. rename a into st3.
  apply push_plain_run_shape in Hstep0 as [A1 A2].
  bind_inv Hstep. apply assert_Ok' in Hstep0.
  apply negb_true_iff, Z.eqb_neq in Hstep0.
  match type of Hstep0 with ?ml <> 0 =>
    assert (Hml : 1 <= ml)
      by (pose proof (wrap64_is_u64
                        (Z.quot max_limit (2 * ba) * (2 * ba))) as [? _]; lia)
  end.
  assert (Hfin : (Forall (fun e => is_u64 (x_of e)) (st_newrow st3) ->
                  Forall (fun e => is_u64 (x_of e)) (st_newrow st2))
                 /\ (length (st_newrow st2) + st_vi st3
                     <= length (st_newrow st3) + st_vi st2)%nat).
  { destruct (_ =? 0); bind_inv Hstep; rename a into st4;
      apply push_plain_run_shape in Hstep as [C1 C2];
      apply push_blocks_shape in Hstep1 as [B1 B2]; try (split; [tauto | lia]);
      apply Z.min_glb; lia. }
  destruct Hs1 as [S1 S2]. destruct Hfin as [F1 F2]. split; [tauto | lia].
Qed.

Lemma doEncode_shape (m : DRLE_Manager V) xs vs newrow newrow' :
  1 <= min_limit m -> 1 <= max_limit m ->
  doEncode m xs vs newrow = Ok newrow' ->
  (Forall (fun e => is_u64 (x_of e)) newrow ->
   Forall (fun e => is_u64 (x_of e)) newrow')
  /\ (length newrow' <= length newrow + length vs)%nat.
Proof.
  intros Hmin Hmax H. unfold doEncode, doEncodeBlock in H.
  destruct (Z.eqb_spec (isBlockType (type (spm m))) 0) as [E|E];
    cbn [negb] in H; bind_inv H; rename a into st; bind_inv H;
    injection H as <-; apply assert_Ok', Nat.eqb_eq in Hstep0.
  - apply (enc_fold_shape _ _
             (fun st rle st' =>
                doEncode_rle_shape _ _ _ _ _ st rle st' Hmin Hmax))
      in Hstep as [A1 A2].
    cbn [st_newrow st_vi] in A1, A2. split; [done | lia].
  - pose proof (isBlockType_range (type (spm m))) as Hr.
    assert (Hba : 1 <= isBlockType (type (spm m))) by lia.
    apply (enc_fold_shape _ _
             (fun st rle st' =>
                doEncodeBlock_rle_shape _ _ _ _ _ st rle st' Hba))
      in Hstep as [A1 A2].
    cbn [st_newrow st_vi] in A1, A2. split; [done | lia].
Qed.

(** The loop of [EncodeRow] on a row the encoder takes: it returns, and
    the row built and the columns gathered are again such a row. *)
Lemma EncodeRow_fold_ok (m : DRLE_Manager V) row : forall xs vs newrow,
  limits_ok m ->
  Forall (fun e => is_u64 (x_of e)) row ->
  Forall is_u64 xs -> length xs = length vs ->
  Z.of_nat (length xs + length row) < 2 ^ 63 ->
  Forall (fun e => is_u64 (x_of e)) newrow ->
  exists xs' vs' newrow',
    foldM (EncodeRow_elem m) row (xs, vs, newrow) = Ok (xs', vs', newrow')
    /\ Forall is_u64 xs' /\ length xs' = length vs'
    /\ Forall (fun e => is_u64 (x_of e)) newrow'
    /\ (length newrow' + length xs'
        <= length newrow + length xs + length row)%nat.
Proof.
  induction row as [|e row IH]; intros xs vs newrow Hlim Hrow Hxs Hl Hb Hnr.
  - exists xs, vs, newrow. cbn [foldM length]. repeat split; try done. lia.
  - apply Forall_cons in Hrow as [He Hrow]. cbn [length] in Hb.
    cbn [foldM]. destruct e as [x v|x p vals].
    + cbn [EncodeRow_elem mbind result_bind].
      destruct (IH (xs ++ [x]) (vs ++ [v]) newrow Hlim Hrow)
        as (xs' & vs' & nr' & Hf & ? & ? & ? & Hlen).
      * apply Forall_app. split; [done|]. constructor; [exact He | constructor].
      * rewrite !length_app. cbn [length]. lia.
      * rewrite length_app. cbn [length]. lia.
      * done.
      * exists xs', vs', nr'. rewrite Hf. repeat split; try done.
        rewrite length_app in Hlen. cbn [length] in *. lia.
    + assert (exists nr1, (match xs with
                           | [] => Ok newrow
                           | _ => doEncode m xs vs newrow
                           end) = Ok nr1
                /\ Forall (fun e => is_u64 (x_of e)) nr1
                /\ (length nr1 <= length newrow + length xs)%nat)
        as (nr1 & Hnr1 & Hf1 & Hl1).
      { destruct xs as [|x0 xs].
        - exists newrow. repeat split; try done. lia.
        - destruct (doEncode_decode m (x0 :: xs) vs newrow Hlim Hxs Hl)
            as (nr1 & Hd & _); [lia|].
          destruct Hlim as (Hmin & [Hmax _] & _).
          destruct (doEncode_shape _ _ _ _ _ Hmin Hmax Hd) as [A1 A2].
          exists nr1. split; [done|]. split; [by apply A1 | lia]. }
      cbn [EncodeRow_elem]. rewrite Hnr1. cbn [mbind result_bind].
      destruct (IH [] [] (nr1 ++ [PatElem x p vals]) Hlim Hrow)
        as (xs' & vs' & nr' & Hf & ? & ? & ? & Hlen).
      * constructor.
      * done.
      * cbn [length]. lia.
      * apply Forall_app. split; [done|]. constructor; [exact He | constructor].
      * exists xs', vs', nr'. rewrite Hf. repeat split; try done.
        rewrite length_app in Hlen. cbn [length] in *. lia.
Qed.

Lemma EncodeRow_ok (m : DRLE_Manager V) row :
  limits_ok m -> encodable_row row ->
  exists row', EncodeRow m row [] = Ok row' /\ encodable_row row'.
Proof.
  intros Hlim [Hrow Hlen]. unfold EncodeRow.
  destruct (EncodeRow_fold_ok m row [] [] [] Hlim Hrow)
    as (xs & vs & nr & Hf & Hxs & Hl & Hnr & Hb);
    [constructor | done | cbn [length]; lia | constructor |].
  rewrite Hf. cbn [mbind result_bind]. cbn [length] in Hb.
  destruct xs as [|x0 xs].
  - exists nr. split; [done|]. split; [done | lia].
  - destruct (doEncode_decode m (x0 :: xs) vs nr Hlim Hxs Hl)
      as (nr1 & Hd & _); [lia|].
    destruct Hlim as (Hmin & [Hmax _] & _).
    destruct (doEncode_shape _ _ _ _ _ Hmin Hmax Hd) as [A1 A2].
    exists nr1. split; [done|]. split; [by apply A1 | lia].
Qed.

End EncoderShape.

Section PlannerReturns.
Import Spm Drle DrleSpec PlannerSpec.
Context {V : Type}.

(** [SPM::Transform] is not among the sources.  What is assumed of it:
    the partition it returns is in the order asked for, and its rows are
    rows the encoder takes when the rows it was given are. *)
Variable Transform : SpmIterOrder -> SPM V -> SPM V.
Hypothesis Transform_type : forall t p, type (Transform t p) = t.
Hypothesis Transform_encodable :
  forall t p, encodable_spm p -> encodable_spm (Transform t p).
Implicit Types m : DRLE_Manager V.

Lemma mapM_EncodeRow_ok m rws :
  limits_ok m -> Forall encodable_row rws ->
  exists rws', mapM (fun row => EncodeRow m row []) rws = Ok rws'
               /\ Forall encodable_row rws'.
Proof.
  intros Hlim. induction 1 as [|row rws Hrow _ (rws' & Hm & Hf)].
  - exists []. split; [reflexivity | constructor].
  - destruct (EncodeRow_ok m row Hlim Hrow) as (row' & He & Hr').
    exists (row' :: rws'). cbn [mapM]. rewrite He. cbn [mbind result_bind].
    rewrite Hm. split; [reflexivity | by constructor].
Qed.

Lemma Encode_ok m t :
  t <> NONE ->
  1 <= min_limit m -> 1 <= max_limit m < 2 ^ 64 ->
  2 * isBlockType t <= max_limit m ->
  encodable_spm (spm m) ->
  exists m', Encode Transform m t = Ok m' /\ encodable_spm (spm m').
Proof.
  intros Ht Hmin Hmax Hblk Hspm. unfold Encode.
  destruct (decide (t = NONE)); [done|].
  destruct (decide (t = NONE)); [done|].
  set (m1 := set_spm m (Transform t (spm m))).
  assert (Hlim : limits_ok m1).
  { split; [done|]. split; [done|]. unfold m1. cbn [spm set_spm max_limit].
    by rewrite Transform_type. }
  destruct (mapM_EncodeRow_ok m1 (rows (spm m1)) Hlim) as (rws' & Hm & Hf).
  { apply (Transform_encodable t (spm m) Hspm). }
  rewrite Hm. cbn [mbind result_bind]. eexists. split; [reflexivity|].
  cbn [spm addIgnore set_spm]. apply Transform_encodable. exact Hf.
Qed.

Lemma genAllStats_type_encodable m t :
  encodable_spm (spm m) ->
  encodable_spm (spm (genAllStats_type Transform m t)).
Proof.
  intros H. unfold genAllStats_type. destruct (decide _); [done|].
  destruct (decide _); cbn [spm set_spm set_stats set_DeltasToEncode];
    by do 2 apply Transform_encodable.
Qed.

Lemma genAllStats_encodable m :
  encodable_spm (spm m) -> encodable_spm (spm (genAllStats Transform m)).
Proof.
  intros H. unfold genAllStats.
  assert (H0 : encodable_spm (spm (set_stats m ∅))) by exact H.
  revert H0. generalize (set_stats m ∅). generalize (drop 1 SpmTypes).
  intros ts. induction ts as [|t ts IH]; intros m0 H0; [done|].
  cbn [fold_left]. by apply IH, genAllStats_type_encodable.
Qed.

Lemma EncodeAll_loop_ok rounds : forall m log,
  open_limits m -> encodable_spm (spm m) ->
  (length (candidates m) < rounds)%nat ->
  exists m' l,
    EncodeAll_loop Transform rounds m log = Ok (m', log ++ l)
    /\ NoDup l
    /\ (forall t, t ∈ l -> t ∈ candidates m)
    /\ (forall t, getTypeScore m' t = 0)
    /\ xforms_ignore m' = list_to_set l ∪ xforms_ignore m.
Proof.
  induction rounds as [|rounds IH]; intros m log Hlim Hspm Hr; [lia|].
  cbn [EncodeAll_loop].
  destruct (genAllStats_frame Transform m) as (Hi & Hmin1 & Hmax1 & Hst).
  cbv zeta in Hi, Hmin1, Hmax1, Hst.
  pose proof (genAllStats_encodable m Hspm) as Hspm1.
  remember (genAllStats Transform m) as m1 eqn:Em1. clear Em1.
  destruct Hlim as (Hmin & Hmax & Hblk).
  destruct (chooseType_spec m1) as (Hc & _ & Hzero).
  destruct (decide (chooseType m1 = NONE)) as [Hn|Hn].
  - exists m1, []. rewrite app_nil_r. split; [done|]. split; [constructor|].
    split; [intros t Ht; by apply elem_of_nil in Ht|]. split.
    + apply Hzero; [|done].
      destruct (stats m1 !! NONE) eqn:E; [|done].
      assert (NONE ∈ candidates m) as Hx by (apply Hst; by rewrite E).
      by apply candidates_not_NONE in Hx as [? _].
    + rewrite Hi. cbn [list_to_set]. by rewrite (left_id_L ∅ (∪)).
  - destruct Hc as [Hc|[Hsome Hpos]]; [done|].
    assert (Hcand : chooseType m1 ∈ candidates m) by (by apply Hst).
    pose proof (candidates_not_NONE _ _ Hcand) as [_ Hopen].
    destruct (Encode_ok m1 (chooseType m1) Hn ltac:(lia) ltac:(lia))
      as (m2 & He & Hspm2); [rewrite Hmax1; by apply Hblk | done |].
    rewrite He. cbn [mbind result_bind].
    destruct (Encode_frame Transform _ _ _ Hn He) as (Hi2 & Hmin2 & Hmax2).
    rewrite Hi in Hi2.
    destruct (candidates_ignore m m2 _ Hi2 Hcand) as [Hlt Hsub].
    destruct (IH m2 (log ++ [chooseType m1])) as (m' & l & HE & Hnd & Hin & Hz & Hig).
    { split; [lia|]. split; [lia|]. intros t Ht. rewrite Hmax2, Hmax1.
      apply Hblk. rewrite Hi2 in Ht. by apply not_elem_of_union in Ht as [_ ?]. }
    { done. }
    { lia. }
    exists m', (chooseType m1 :: l). rewrite HE, <- app_assoc.
    split; [done|]. split; [|split; [|split; [done|]]].
    + constructor; [|done]. intros Hx. apply Hin, Hsub in Hx. by destruct Hx.
    + intros t [->|Ht]%elem_of_cons; [done|]. by apply Hin, Hsub in Ht as [? _].
    + rewrite Hig, Hi2. cbn [list_to_set].
      rewrite (comm_L (∪) {[chooseType m1]} (list_to_set l)).
      by rewrite (assoc_L (∪)).
Qed.

(** ** C7 *)


End PlannerReturns.

(** *** Limits under which the planner does not return *)

Lemma result_match_Ok {A} (r : result A) (P : A -> Prop) :
  match r with Ok a => P a | Fail _ => False end ->
  exists a, r = Ok a /\ P a.
Proof. destruct r as [a|f]; [by exists a | done]. Qed.

(** With [max_limit = 0] the [while] loop of [doEncode] takes nothing
    of the run in a round: no number of rounds is enough. *)
Lemma doEncode_while_max_limit_0 {V} rounds t min_limit (vs : list V) v f :
  forall st,
  1 <= min_limit <= f -> (Drle.st_vi st <= length vs)%nat ->
  Drle.doEncode_while rounds t min_limit 0 vs v f st = Fail NoReturn.
Proof.
  induction rounds as [|rounds IH]; intros st Hf Hvi; cbn [Drle.doEncode_while];
    (destruct (Z.ltb_spec f min_limit) as [?|_]; [lia|]); [done|].
  replace (Z.min 0 f) with 0 by lia.
  cbn [assert Z.leb Z.compare mbind result_bind].
  unfold Drle.copy_vals. cbn [Z.to_nat take length Nat.eqb mbind result_bind].
  rewrite Z.sub_0_r. apply IH; [done|]. cbn [Drle.st_vi]. lia.
Qed.

(** The partition [spm_run] with [min_limit = 1], [max_limit = 0] and
    every order but [HORIZONTAL] ignored: the planner chooses
    [HORIZONTAL], and [Encode] does not return, because the [while] loop
    of [doEncode] makes patterns of no element and the run of five stays
    as long as it is. *)
Lemma EncodeAll_max_limit_0_no_return :
  Drle.chooseType
    (Drle.genAllStats Examples.Transform_retag
       (Examples.drle_manager Examples.spm_run 1 0 Examples.all_but_horizontal))
  = Spm.HORIZONTAL
  /\ (forall rounds,
        Drle.EncodeAll_loop Examples.Transform_retag rounds
          (Examples.drle_manager Examples.spm_run 1 0 Examples.all_but_horizontal) []
        = Fail NoReturn)
  /\ (forall rounds,
        Drle.doEncode_while rounds Spm.HORIZONTAL 1 0 [10; 20; 30; 40; 50]
          1 5 {| Drle.st_col := 0; Drle.st_vi := 0; Drle.st_newrow := [] |}
        = Fail NoReturn).
Proof.
  set (m := Examples.drle_manager Examples.spm_run 1 0 Examples.all_but_horizontal).
  assert (Hc : Drle.chooseType (Drle.genAllStats Examples.Transform_retag m)
               = Spm.HORIZONTAL) by (vm_compute; reflexivity).
  split; [exact Hc|]. split.
  - intros [|rounds]; [reflexivity|].
    cbn [Drle.EncodeAll_loop]. rewrite Hc.
    destruct (decide (Spm.HORIZONTAL = Spm.NONE)) as [?|_]; [done|].
    assert (He : Drle.Encode Examples.Transform_retag
                   (Drle.genAllStats Examples.Transform_retag m) Spm.HORIZONTAL
                 = Fail NoReturn) by (vm_compute; reflexivity).
    by rewrite He.
  - intros rounds. apply doEncode_while_max_limit_0; [lia | cbn; lia].
Qed.

(** The partition [spm_run_from_2] with [min_limit = 1], [max_limit = 3]
    and every order but [BLOCK_R2] ignored: the planner chooses
    [BLOCK_R2]; [max_limit], aligned to two lines of two, is 0, and
    [doEncodeBlock] divides by it.  With [max_limit = 4] the planner
    returns. *)
Lemma EncodeAll_block_max_limit_3_division_by_zero :
  Drle.chooseType
    (Drle.genAllStats Examples.Transform_retag
       (Examples.drle_manager Examples.spm_run_from_2 1 3
          (Examples.all_but Spm.BLOCK_R2)))
  = Spm.BLOCK_R2
  /\ (forall rounds,
        Drle.EncodeAll_loop Examples.Transform_retag (S rounds)
          (Examples.drle_manager Examples.spm_run_from_2 1 3
             (Examples.all_but Spm.BLOCK_R2)) []
        = Fail DivByZero)
  /\ (exists m',
        Drle.EncodeAll Examples.Transform_retag
          (Examples.drle_manager Examples.spm_run_from_2 1 4
             (Examples.all_but Spm.BLOCK_R2))
        = Ok (m', [Spm.BLOCK_R2])
        /\ Spm.rows (Drle.spm m')
           = [ [Spm.Elem 2 10;
                Spm.PatElem 3 (Spm.BlockRLE 4 2 Spm.BLOCK_R2) [20; 30; 40; 50]] ]).
Proof.
  set (m := Examples.drle_manager Examples.spm_run_from_2 1 3
              (Examples.all_but Spm.BLOCK_R2)).
  assert (Hc : Drle.chooseType (Drle.genAllStats Examples.Transform_retag m)
               = Spm.BLOCK_R2) by (vm_compute; reflexivity).
  split; [exact Hc|]. split.
  - intros rounds. cbn [Drle.EncodeAll_loop]. rewrite Hc.
    destruct (decide (Spm.BLOCK_R2 = Spm.NONE)) as [?|_]; [done|].
    assert (He : Drle.Encode Examples.Transform_retag
                   (Drle.genAllStats Examples.Transform_retag m) Spm.BLOCK_R2
                 = Fail DivByZero) by (vm_compute; reflexivity).
    by rewrite He.
  - set (P := fun a : Drle.DRLE_Manager Z * list Spm.SpmIterOrder =>
                a.2 = [Spm.BLOCK_R2]
                /\ Spm.rows (Drle.spm a.1)
                   = [ [Spm.Elem 2 10;
                        Spm.PatElem 3 (Spm.BlockRLE 4 2 Spm.BLOCK_R2)
                          [20; 30; 40; 50]] ]).
    pose (r := Drle.EncodeAll Examples.Transform_retag
                 (Examples.drle_manager Examples.spm_run_from_2 1 4
                    (Examples.all_but Spm.BLOCK_R2))).
    assert (H : match r with Ok a => P a | Fail _ => False end)
      by (vm_compute; split; reflexivity).
    destruct (result_match_Ok r P H) as ([m' log] & HE & Hl & Hr).
    cbn [fst snd] in Hl, Hr. subst log. exists m'. split; [exact HE | exact Hr].
Qed.

Lemma Transform_retag_encodable t (p : Spm.SPM Z) :
  PlannerSpec.encodable_spm p ->
  PlannerSpec.encodable_spm (Examples.Transform_retag t p).
Proof. intros H. exact H. Qed.

(** ** The theorems at concrete partitions and managers *)

(** C1 at the partition [spm_mixed]: [MakeCsx] returns, the sizes of its
    units add up to the 7 nonzeros and the values are those of the
    partition in order. *)
Lemma MakeCsx_size_conservation_witness :
  CsxSpec.sized_spm (Csx.spm_ (Csx.CsxManager_new Examples.spm_mixed))
  /\ exists csx m',
       Csx.MakeCsx Examples.junk (Csx.CsxManager_new Examples.spm_mixed)
       = Ok (csx, m')
       /\ CsxSpec.sumZ (CsxSpec.unit_sizes (Csx.ctl csx) (Csx.units m')) = 7
       /\ Csx.values csx = [10; 11; 1; 2; 3; 7; 8].
Proof.
  assert (Hs : CsxSpec.sized_spm
                 (Csx.spm_ (Csx.CsxManager_new Examples.spm_mixed))).
  { repeat constructor. vm_compute. discriminate. }
  split; [exact Hs|].
  destruct (Csx.MakeCsx Examples.junk (Csx.CsxManager_new Examples.spm_mixed))
    as [[csx m']|f] eqn:E; [|vm_compute in E; discriminate].
  exists csx, m'. split; [reflexivity|].
  destruct (MakeCsx_size_conservation Examples.junk _ csx m' Hs E)
    as (Hsum & _ & Hv & Hn).
  split.
  - rewrite Hsum. vm_compute in E. injection E as <- _. reflexivity.
  - rewrite Hv. reflexivity.
Defined.




(** C8 at the managers that have handed out the flags 0 to 63: a new
    pattern id would get the flag 64, and [GetFlag] stops at its
    assertion in both assemblers; the pattern id 63 is known, and
    [GetFlag] returns its flag 63, which is [CTL_PATTERNS_MAX]. *)
Lemma GetFlag_at_most_CTL_PATTERNS_MAX_witness :
  CsxSpec.flags_ok Examples.csx_full
  /\ CsxManagerSpec.flags_ok Examples.csxm_full
  /\ Csx.flag_avail_ Examples.csx_full = 64
  /\ Csx.patterns Examples.csx_full !! 64 = None
  /\ Csx.GetFlag Examples.csx_full 64 1 = Fail TooManyPatterns
  /\ CsxManager.GetFlag Examples.csxm_full 64 1 = Fail TooManyPatterns
  /\ (exists m', Csx.GetFlag Examples.csx_full 63 1 = Ok (63, m')).
Proof.
  assert (H1 : CsxSpec.flags_ok Examples.csx_full).
  { split; [vm_compute; discriminate|].
    apply (proj1 (map_Forall_lookup
                    (fun _ pi => 0 <= Csx.flag pi <= Ctl.CTL_PATTERNS_MAX) _)).
    refine (bool_decide_unpack _ _). vm_compute. exact I. }
  assert (H2 : CsxManagerSpec.flags_ok Examples.csxm_full).
  { split; [vm_compute; discriminate|].
    apply (proj1 (map_Forall_lookup
                    (fun _ pi => 0 <= CsxManager.flag pi <= Ctl.CTL_PATTERNS_MAX)
                    _)).
    refine (bool_decide_unpack _ _). vm_compute. exact I. }
  split; [exact H1|]. split; [exact H2|].
  split; [vm_compute; reflexivity|]. split; [vm_compute; reflexivity|].
  destruct (GetFlag_at_most_CTL_PATTERNS_MAX Examples.csx_full Examples.csxm_full 64 1 H1 H2)
    as (_ & Ha & _ & Hb & _).
  assert (E1 : Csx.patterns Examples.csx_full !! 64 = None) by (vm_compute; reflexivity).
  assert (E2 : CsxManager.patterns Examples.csxm_full !! 64 = None)
    by (vm_compute; reflexivity).
  assert (E3 : (Csx.flag_avail_ Examples.csx_full <=? Ctl.CTL_PATTERNS_MAX) = false)
    by (vm_compute; reflexivity).
  assert (E4 : (CsxManager.flag_avail_ Examples.csxm_full <=? Ctl.CTL_PATTERNS_MAX)
               = false) by (vm_compute; reflexivity).
  rewrite E1, E3 in Ha. rewrite E2, E4 in Hb.
  split; [exact Ha|]. split; [exact Hb|].
  destruct (GetFlag_at_most_CTL_PATTERNS_MAX Examples.csx_full Examples.csxm_full 63 1 H1 H2)
    as (_ & Hc & _).
  eexists. vm_compute in Hc |- *. reflexivity.
Defined.

(** C9 at the partition [spm_mixed], whose fourth row follows a row
    with one element and two empty rows: in the streams of both
    assemblers the first unit of the fourth row starts after the three
    bytes of the first row's unit; it has the [CTL_RJMP] bit and the
    varint of 3. *)
Lemma unit_header_row_jump_witness :
  CsxSpec.flags_ok (Csx.CsxManager_new Examples.spm_mixed)
  /\ CsxSpec.row_ok (Csx.CsxManager_new Examples.spm_mixed)
  /\ CsxManagerSpec.flags_ok
       (CsxManager.CsxManager_new Examples.spm_mixed Examples.uninit)
  /\ CsxManagerSpec.row_ok
       (CsxManager.CsxManager_new Examples.spm_mixed Examples.uninit)
  /\ (exists csx m' c1 cj,
        Csx.MakeCsx Examples.junk (Csx.CsxManager_new Examples.spm_mixed)
        = Ok (csx, m')
        /\ c1 `prefix_of` Csx.ctl csx
        /\ length c1 = 3%nat
        /\ CsxSpec.rjmp_header c1 (Csx.ctl csx) 2 cj
        /\ CsxSpec.unit_rjmp (Csx.ctl csx) 3 = true
        /\ Varint.da_put_ul [] (2 + 1) = Some [3])
  /\ (exists csx m' c1 cj,
        CsxManager.MakeCsx 4 Examples.junk Examples.junk_info
          (CsxManager.CsxManager_new Examples.spm_mixed Examples.uninit) false
        = Ok (csx, m')
        /\ c1 `prefix_of` CsxManager.ctl csx
        /\ length c1 = 3%nat
        /\ CsxSpec.rjmp_header c1 (CsxManager.ctl csx) 2 cj
        /\ CsxSpec.unit_rjmp (CsxManager.ctl csx) 3 = true).
Proof.
  assert (H1 : CsxSpec.flags_ok (Csx.CsxManager_new Examples.spm_mixed)).
  { split; [vm_compute; discriminate|]. intros id pi H.
    cbn in H. rewrite lookup_empty in H. discriminate. }
  assert (H2 : CsxSpec.row_ok (Csx.CsxManager_new Examples.spm_mixed)).
  { split; [reflexivity|].
    split; [vm_compute; discriminate | vm_compute; reflexivity]. }
  assert (H3 : CsxManagerSpec.flags_ok
                 (CsxManager.CsxManager_new Examples.spm_mixed Examples.uninit)).
  { split; [vm_compute; discriminate|]. intros id pi H.
    cbn in H. rewrite lookup_empty in H. discriminate. }
  assert (H4 : CsxManagerSpec.row_ok
                 (CsxManager.CsxManager_new Examples.spm_mixed Examples.uninit)).
  { split; [reflexivity|].
    split; [vm_compute; discriminate | vm_compute; reflexivity]. }
  repeat (split; [assumption|]).
  destruct (unit_header_row_jump
              (Csx.CsxManager_new Examples.spm_mixed)
              (CsxManager.CsxManager_new Examples.spm_mixed Examples.uninit)
              4 [5; 6] 1 (Spm.DeltaRLE 3 1 Spm.HORIZONTAL) H1 H2 H3 H4)
    as (_ & _ & _ & _ & _ & _ & Ha & Hb).
  assert (Hpre : ([[Spm.Elem 1 10]] : list (list (Spm.SpmRowElem Z))) = []
                 \/ exists pre' r, [[Spm.Elem 1 10]] = pre' ++ [r] /\ r <> []).
  { right. exists [], [Spm.Elem 1 10]. split; [reflexivity | discriminate]. }
  split.
  - destruct (Csx.MakeCsx Examples.junk (Csx.CsxManager_new Examples.spm_mixed))
      as [[csx m']|f] eqn:E; [|vm_compute in E; discriminate].
    destruct (Ha Examples.junk csx m' [[Spm.Elem 1 10]] 2%nat
                [Spm.Elem 2 11;
                 Spm.PatElem 5 (Spm.DeltaRLE 3 1 Spm.HORIZONTAL) [1; 2; 3];
                 Spm.Elem 300 7; Spm.Elem 1000 8] []
                eq_refl eq_refl ltac:(discriminate) Hpre
                ltac:(vm_compute; reflexivity) E)
      as (mA & cj & HmA & Hp & Hh).
    vm_compute in HmA. injection HmA as <-.
    exists csx, m', [0; 1; 0], cj.
    split; [reflexivity|]. split; [exact Hp|]. split; [reflexivity|].
    split; [exact Hh|]. split; [|reflexivity].
    destruct Hh as [Hbit _]. apply Hbit. discriminate.
  - destruct (CsxManager.MakeCsx 4 Examples.junk Examples.junk_info
                (CsxManager.CsxManager_new Examples.spm_mixed Examples.uninit)
                false) as [[csx m']|f] eqn:E; [|vm_compute in E; discriminate].
    destruct (Hb Examples.junk Examples.junk_info false csx m'
                [[Spm.Elem 1 10]] 2%nat
                [Spm.Elem 2 11;
                 Spm.PatElem 5 (Spm.DeltaRLE 3 1 Spm.HORIZONTAL) [1; 2; 3];
                 Spm.Elem 300 7; Spm.Elem 1000 8] []
                eq_refl eq_refl ltac:(discriminate) Hpre
                ltac:(vm_compute; reflexivity) E)
      as (mA & iA & cj & HmA & Hp & Hh).
    vm_compute in HmA. injection HmA as <- _.
    exists csx, m', [0; 1; 0], cj.
    split; [reflexivity|]. split; [exact Hp|]. split; [reflexivity|].
    split; [exact Hh|].
    destruct Hh as [Hbit _]. apply Hbit. discriminate.
Defined.

(** * Further properties of the sources *)

Section Codecs.
Import Varint Delta Ctl CodecSpec DrleSpec.

Lemma lor_128_small x : 0 <= x < 128 -> Z.lor x 128 = x + 128.
Proof.
  intros Hx.
  assert (Hl : Z.land x 128 = 0).
  { apply Z.bits_inj'. intros n Hn. rewrite Z.land_spec, Z.bits_0.
    change 128 with (2 ^ 7). rewrite Z.pow2_bits_eqb by lia.
    destruct (Z.eqb_spec 7 n) as [<-|]; [|apply andb_false_r].
    rewrite andb_true_r.
    destruct (Z.eq_dec x 0) as [->|]; [apply Z.bits_0|].
    apply Z.bits_above_log2; [lia|].
    apply Z.log2_lt_pow2; lia. }
  rewrite <- Z.lxor_lor by exact Hl. symmetry. by apply Z.add_nocarry_lxor.
Qed.

Lemma land_127 x : 0 <= x -> Z.land x 127 = x mod 128.
Proof.
  intros Hx. change 127 with (Z.ones 7). by rewrite Z.land_ones by lia.
Qed.

Lemma da_put_ul_loop_S rounds da val :
  0 <= val ->
  da_put_ul_loop (S rounds) da val
  = if val <? 128 then Some (da ++ [val mod 128])
    else da_put_ul_loop rounds (da ++ [Z.lor (val mod 128) 128]) (val / 128).
Proof.
  intros Hv. cbn [da_put_ul_loop]. change (Z.shiftl 1 LONGUC_SHIFT) with 128.
  change (128 - 1) with 127. rewrite land_127 by exact Hv.
  change LONGUC_SHIFT with 7. rewrite Z.shiftr_div_pow2 by lia.
  reflexivity.
Qed.

Lemma da_put_ul_loop_varint rounds : forall da val,
  0 <= val < 128 ^ Z.of_nat (S rounds) ->
  exists bs, da_put_ul_loop (S rounds) da val = Some (da ++ bs)
             /\ varint_wf bs /\ varint_value bs = val
             /\ (length bs <= S rounds)%nat
             /\ ((1 < length bs)%nat -> 128 ^ (Z.of_nat (length bs) - 1) <= val).
Proof.
  induction rounds as [|rounds IH]; intros da val Hv;
    rewrite da_put_ul_loop_S by lia;
    destruct (Z.ltb_spec val 128) as [Hs|Hs].
  1,3: exists [val mod 128]; rewrite Z.mod_small by lia;
    (split; [reflexivity|]); split;
    [ exists [], val; split; [reflexivity|]; split; [constructor | lia]
    | split; [cbn [varint_value fold_right]; rewrite land_127, Z.mod_small by lia; lia
             | cbn [length]; lia ] ].
  { change (128 ^ Z.of_nat 1) with 128 in Hv. lia. }
  assert (Hq : 0 <= val / 128 < 128 ^ Z.of_nat (S rounds)).
  { split; [apply Z.div_pos; lia|].
    apply Z.div_lt_upper_bound; [lia|].
    replace (Z.of_nat (S (S rounds))) with (1 + Z.of_nat (S rounds)) in Hv
      by lia.
    rewrite Z.pow_add_r in Hv by lia. change (128 ^ 1) with 128 in Hv. lia. }
  destruct (IH (da ++ [Z.lor (val mod 128) 128]) (val / 128) Hq)
    as (bs & Hbs & (init & l & -> & Hinit & Hl) & Hval & Hlen & Hmin).
  assert (Hm : 0 <= val mod 128 < 128) by (apply Z.mod_pos_bound; lia).
  exists (Z.lor (val mod 128) 128 :: init ++ [l]).
  rewrite Hbs, <- app_assoc. split; [reflexivity|]. split.
  { exists (Z.lor (val mod 128) 128 :: init), l. split; [reflexivity|].
    split; [|exact Hl]. constructor; [|exact Hinit].
    rewrite lor_128_small by exact Hm. lia. }
  split.
  { change (varint_value (Z.lor (val mod 128) 128 :: init ++ [l]))
      with (Z.land (Z.lor (val mod 128) 128) 127
            + 128 * varint_value (init ++ [l])).
    rewrite Hval, lor_128_small by exact Hm.
    rewrite land_127 by lia.
    replace (val mod 128 + 128) with (val mod 128 + 1 * 128) by lia.
    rewrite Z.mod_add, Z.mod_mod by lia.
    pose proof (Z.div_mod val 128). lia. }
  split; [cbn [length] in *; lia|].
  intros _. cbn [length].
  replace (Z.of_nat (S (length (init ++ [l]))) - 1)
    with (1 + (Z.of_nat (length (init ++ [l])) - 1)) by lia.
  assert (Hpos : (0 < length (init ++ [l]))%nat)
    by (rewrite length_app; cbn [length]; lia).
  rewrite Z.pow_add_r by lia. change (128 ^ 1) with 128.
  destruct (decide (1 < length (init ++ [l]))%nat) as [Hgt|Hle].
  + specialize (Hmin Hgt). pose proof (Z.div_mod val 128). lia.
  + replace (Z.of_nat (length (init ++ [l])) - 1) with 0 by lia.
    change (128 ^ 0) with 1. lia.
Qed.

(** X1, the varint writer [da_put_ul] of csx.cc.  For every [unsigned
    long] value the loop returns within its ten rounds; it appends, after
    the bytes already in the array, at most ten bytes: every byte but the
    last has the high bit set, the last is below 128, and the low seven
    bits of the bytes, least significant group first, are the value.  No
    shorter sequence is written with a zero group at the end: a varint of
    [n > 1] bytes stands for a value of at least [128^(n-1)]. *)
Theorem da_put_ul_varint (da : list Z) (val : Z) :
  is_u64 val ->
  exists bs, da_put_ul da val = Some (da ++ bs)
             /\ varint_wf bs /\ varint_value bs = val
             /\ (length bs <= 10)%nat
             /\ ((1 < length bs)%nat -> 128 ^ (Z.of_nat (length bs) - 1) <= val).
Proof.
  intros [H0 H1]. unfold da_put_ul. apply (da_put_ul_loop_varint 9).
  split; [exact H0|]. eapply Z.lt_trans; [exact H1|]. reflexivity.
Qed.

(** X2, the domain on which the [uc_get_ul] macro of csx.cc reads back
    what [da_put_ul] wrote.  The macro returns the value written and
    leaves the pointer after its bytes, whatever [_uc] held and whatever
    follows in the buffer, exactly for the values below 128, those
    [da_put_ul] writes as one byte. *)
Theorem uc_get_ul_reads_back_iff (val : Z) (bs : list Z) :
  is_u64 val ->
  da_put_ul [] val = Some bs ->
  (forall _uc0 rest, uc_get_ul _uc0 (bs ++ rest) = Some (val, rest))
  <-> val < 128.
Proof.
  intros Hu Hbs. split.
  - intros Hget. destruct (Z.lt_ge_cases val 128) as [|Hge]; [assumption|].
    exfalso. destruct Hu as [H0 H1].
    unfold da_put_ul in Hbs. rewrite da_put_ul_loop_S in Hbs by lia.
    destruct (Z.ltb_spec val 128) as [|_]; [lia|].
    assert (Hq : 0 <= val / 128 < 128 ^ Z.of_nat 9).
    { split; [apply Z.div_pos; lia|].
      apply Z.div_lt_upper_bound; [lia|].
      eapply Z.lt_trans; [exact H1|]. reflexivity. }
    destruct (da_put_ul_loop_varint 8 ([] ++ [Z.lor (val mod 128) 128])
                (val / 128) Hq)
      as (bs' & Hbs' & (init & l & -> & _ & _) & _).
    rewrite Hbs' in Hbs. injection Hbs as <-.
    assert (Hm : 0 <= val mod 128 < 128) by (apply Z.mod_pos_bound; lia).
    specialize (Hget 0 []). rewrite app_nil_r in Hget.
    cbn [app] in Hget. unfold uc_get_ul in Hget. cbn [u8_get] in Hget.
    rewrite lor_128_small in Hget by exact Hm.
    destruct (Z.ltb_spec 127 (val mod 128 + 128)) as [_|]; [|lia].
    destruct init as [|b init]; cbn [app uc_get_ul_loop] in Hget;
      change (64 <=? 7) with false in Hget;
      change (127 <? 0) with false in Hget; cbv iota in Hget;
      change (Z.shiftl 0 7) with 0 in Hget;
      change (wrap64 0) with 0 in Hget;
      apply (f_equal (fmap fst)) in Hget;
      cbn [fmap option_fmap option_map fst] in Hget;
      injection Hget as Hval;
      rewrite wrap64_small in Hval
        by (split; [lia | apply Z.lt_trans with 256; [lia | reflexivity]]);
      lia.
  - intros Hv _uc0 rest. destruct Hu as [H0 _].
    rewrite (da_put_ul_small [] val) in Hbs by lia. injection Hbs as <-.
    unfold uc_get_ul. cbn [app u8_get].
    destruct (Z.ltb_spec 127 val); [lia | reflexivity].
Qed.

Lemma le_bytes_value w : forall v,
  0 <= v < 256 ^ Z.of_nat w -> le_value (le_bytes w v) = v.
Proof.
  induction w as [|w IH]; intros v Hv.
  { change (256 ^ Z.of_nat 0) with 1 in Hv. cbn [le_bytes le_value fold_right].
    lia. }
  cbn [le_bytes]. change (le_value (v mod 256 :: le_bytes w (v / 256)))
    with (v mod 256 + 256 * le_value (le_bytes w (v / 256))).
  rewrite IH.
  - pose proof (Z.div_mod v 256). lia.
  - split; [apply Z.div_pos; lia|]. apply Z.div_lt_upper_bound; [lia|].
    replace (Z.of_nat (S w)) with (1 + Z.of_nat w) in Hv by lia.
    rewrite Z.pow_add_r in Hv by lia. change (256 ^ 1) with 256 in Hv. lia.
Qed.

Lemma max_element_bound l :
  Forall is_u64 l ->
  is_u64 (Csx.max_element l) /\ Forall (fun d => d <= Csx.max_element l) l.
Proof.
  unfold is_u64. induction 1 as [|d l Hd _ [IH1 IH2]];
    cbn [Csx.max_element fold_right].
  { split; [lia | constructor]. }
  fold (Csx.max_element l). split; [lia|]. constructor; [lia|].
  eapply Forall_impl; [exact IH2|]. cbv beta. intros. lia.
Qed.

(** X3, the width of the deltas of a unit.  The width [GetDeltaSize] of
    Delta.hpp gives for the largest delta of a unit ([max_element], as
    [AddCols] and [AddXs] take it) holds every delta of the unit: a delta
    stored in a slot of that width ([Copy]: a [static_cast] to the
    narrower type) loses no bit, for the bytes stored, least significant
    first, stand for the delta itself. *)
Theorem GetDeltaSize_max_element_lossless (l : list Z) :
  Forall is_u64 l ->
  Forall (fun d =>
            le_value (le_bytes (Z.to_nat (GetDeltaSize (Csx.max_element l))) d)
            = d) l.
Proof.
  intros Hl. destruct (max_element_bound l Hl) as [Hmax Hle].
  destruct (GetDeltaSize_smallest_fit _ Hmax) as (Hin & Hfit & _).
  rewrite Forall_forall in Hle, Hl. apply Forall_forall. intros d Hd.
  apply le_bytes_value. specialize (Hle d Hd). destruct (Hl d Hd) as [H0 _].
  split; [exact H0|]. eapply Z.le_lt_trans; [exact Hle|].
  eapply Z.lt_le_trans; [exact Hfit|].
  assert (Hw : 0 <= GetDeltaSize (Csx.max_element l)).
  { cbn [In] in Hin. lia. }
  rewrite Z2Nat.id by exact Hw. change 256 with (2 ^ 8).
  rewrite <- Z.pow_mul_r by lia. lia.
Qed.

Lemma DeltaDecode_Csx_DeltaEncode xs : forall prev,
  Forall is_u64 xs -> DeltaDecode prev (Csx.DeltaEncode xs prev) = xs.
Proof.
  induction xs as [|x xs IH]; intros prev Hxs; [reflexivity|].
  inversion Hxs as [|? ? Hx Hxs']; subst.
  cbn [Csx.DeltaEncode DeltaDecode].
  assert (E : wrap64 (prev + wrap64 (x - prev)) = x).
  { rewrite wrap64_add_r. replace (prev + (x - prev)) with x by lia.
    by apply wrap64_small. }
  rewrite E, IH by exact Hxs'. reflexivity.
Qed.

Lemma DeltaDecode_Drle_DeltaEncode_loop xs : forall prev,
  Forall is_u64 xs -> DeltaDecode prev (Drle.DeltaEncode_loop prev xs) = xs.
Proof.
  induction xs as [|x xs IH]; intros prev Hxs; [reflexivity|].
  inversion Hxs as [|? ? Hx Hxs']; subst.
  cbn [Drle.DeltaEncode_loop DeltaDecode].
  assert (E : wrap64 (prev + wrap64 (x - prev)) = x).
  { rewrite wrap64_add_r. replace (prev + (x - prev)) with x by lia.
    by apply wrap64_small. }
  rewrite E, IH by exact Hxs'. reflexivity.
Qed.

(** X4, delta encoding and the columns.  [DeltaEncode] of csx.cc
    (in place, from the column [x0] before the unit) and [DeltaEncode] of
    drle.cc (the first item kept) lose nothing on [uint64_t] columns, also
    when the columns are not increasing and a difference wraps around:
    adding the deltas up again modulo [2^64] gives the columns back.  The
    encoder of drle.cc is the one of csx.cc started from the column 0. *)
Theorem DeltaEncode_DeltaDecode (xs : list Z) (x0 : Z) :
  Forall is_u64 xs ->
  DeltaDecode x0 (Csx.DeltaEncode xs x0) = xs
  /\ DeltaDecode 0 (Drle.DeltaEncode xs) = xs
  /\ Drle.DeltaEncode xs = Csx.DeltaEncode xs 0.
Proof.
  intros Hxs. split; [by apply DeltaDecode_Csx_DeltaEncode|].
  assert (E : Drle.DeltaEncode xs = Csx.DeltaEncode xs 0).
  { destruct xs as [|x xs]; [reflexivity|].
    inversion Hxs as [|? ? Hx Hxs']; subst.
    cbn [Drle.DeltaEncode Csx.DeltaEncode]. rewrite Z.sub_0_r.
    rewrite wrap64_small by exact Hx. f_equal.
    clear Hxs Hx. revert x. induction xs as [|y xs IH]; intros x; [reflexivity|].
    inversion Hxs' as [|? ? Hy Hxs'']; subst.
    cbn [Drle.DeltaEncode_loop Csx.DeltaEncode]. f_equal. by apply IH. }
  split; [|exact E]. rewrite E. by apply DeltaDecode_Csx_DeltaEncode.
Qed.

Lemma RLEncode_loop_replicate n v : forall f rest,
  Drle.RLEncode_loop {| Drle.freq := f; Drle.val := v |} (replicate n v ++ rest)
  = Drle.RLEncode_loop {| Drle.freq := f + Z.of_nat n; Drle.val := v |} rest.
Proof.
  induction n as [|n IH]; intros f rest.
  { cbn [replicate app]. by rewrite Z.add_0_r. }
  cbn [replicate app Drle.RLEncode_loop Drle.val Drle.freq].
  rewrite Z.eqb_refl, IH. do 2 f_equal. lia.
Qed.

Lemma RLEncode_loop_expand_runs rles : forall r,
  1 <= Drle.freq r ->
  Forall (fun r => 1 <= Drle.freq r) rles ->
  maximal (r :: rles) ->
  Drle.RLEncode_loop {| Drle.freq := 1; Drle.val := Drle.val r |}
    (replicate (Z.to_nat (Drle.freq r) - 1) (Drle.val r) ++ expand rles)
  = r :: rles.
Proof.
  induction rles as [|r' rles IH]; intros r Hr Hpos Hmax;
    rewrite RLEncode_loop_replicate.
  - cbn [expand flat_map Drle.RLEncode_loop]. destruct r as [f v].
    cbn [Drle.freq Drle.val] in *. do 2 f_equal. lia.
  - inversion Hpos as [|? ? Hr' Hpos']; subst.
    destruct Hmax as [Hne Hmax].
    change (expand (r' :: rles))
      with (replicate (Z.to_nat (Drle.freq r')) (Drle.val r') ++ expand rles).
    destruct (Z.to_nat (Drle.freq r')) as [|k] eqn:Ek; [lia|].
    cbn [replicate app Drle.RLEncode_loop Drle.val Drle.freq].
    destruct (Z.eqb_spec (Drle.val r) (Drle.val r')) as [|_]; [contradiction|].
    replace k with (Z.to_nat (Drle.freq r') - 1)%nat by lia.
    rewrite IH by assumption. destruct r as [f v].
    cbn [Drle.freq Drle.val] in *. do 2 f_equal. lia.
Qed.

(** X5, [RLEncode] of drle.cc gives the one maximal run-length
    encoding of its input: a list of runs of a positive length in which
    no two neighbours have the same value stands for the input exactly
    when it is the list [RLEncode] returns. *)
Theorem RLEncode_canonical (input : list Z) (rles : list Drle.RLE) :
  Forall (fun r => 1 <= Drle.freq r) rles ->
  maximal rles ->
  (expand rles = input <-> Drle.RLEncode input = rles).
Proof.
  intros Hpos Hmax. split; [|intros <-; apply RLEncode_expand].
  intros <-. destruct rles as [|r rles]; [reflexivity|].
  inversion Hpos as [|? ? Hr Hpos']; subst.
  change (expand (r :: rles))
    with (replicate (Z.to_nat (Drle.freq r)) (Drle.val r) ++ expand rles).
  destruct (Z.to_nat (Drle.freq r)) as [|k] eqn:Ek; [lia|].
  cbn [replicate app Drle.RLEncode].
  replace k with (Z.to_nat (Drle.freq r) - 1)%nat by lia.
  by apply RLEncode_loop_expand_runs.
Qed.

End Codecs.

Lemma da_put_ul_varint_witness :
  is_u64 300
  /\ exists bs, Varint.da_put_ul [7] 300 = Some ([7] ++ bs)
       /\ CodecSpec.varint_wf bs /\ CodecSpec.varint_value bs = 300
       /\ (length bs <= 10)%nat
       /\ ((1 < length bs)%nat -> 128 ^ (Z.of_nat (length bs) - 1) <= 300).
Proof.
  assert (H : is_u64 300) by (unfold is_u64; lia).
  split; [exact H|]. exact (da_put_ul_varint [7] 300 H).
Defined.

Lemma uc_get_ul_reads_back_iff_witness :
  is_u64 100 /\ Varint.da_put_ul [] 100 = Some [100]
  /\ ((forall _uc0 rest,
         Varint.uc_get_ul _uc0 ([100] ++ rest) = Some (100, rest))
      <-> 100 < 128).
Proof.
  assert (H : is_u64 100) by (unfold is_u64; lia).
  assert (H' : Varint.da_put_ul [] 100 = Some [100]) by reflexivity.
  split; [exact H|]. split; [exact H'|].
  exact (uc_get_ul_reads_back_iff 100 [100] H H').
Defined.

Lemma GetDeltaSize_max_element_lossless_witness :
  Forall is_u64 [3; 70000; 255]
  /\ Forall (fun d =>
               CodecSpec.le_value
                 (Ctl.le_bytes
                    (Z.to_nat (Delta.GetDeltaSize
                                 (Csx.max_element [3; 70000; 255]))) d) = d)
       [3; 70000; 255].
Proof.
  assert (H : Forall is_u64 [3; 70000; 255])
    by (repeat constructor; unfold is_u64; lia).
  split; [exact H|]. exact (GetDeltaSize_max_element_lossless _ H).
Defined.

Lemma DeltaEncode_DeltaDecode_witness :
  Forall is_u64 [9; 4; 4; 20]
  /\ CodecSpec.DeltaDecode 6 (Csx.DeltaEncode [9; 4; 4; 20] 6) = [9; 4; 4; 20]
  /\ CodecSpec.DeltaDecode 0 (Drle.DeltaEncode [9; 4; 4; 20]) = [9; 4; 4; 20]
  /\ Drle.DeltaEncode [9; 4; 4; 20] = Csx.DeltaEncode [9; 4; 4; 20] 0.
Proof.
  assert (H : Forall is_u64 [9; 4; 4; 20])
    by (repeat constructor; unfold is_u64; lia).
  split; [exact H|]. exact (DeltaEncode_DeltaDecode _ 6 H).
Defined.

Lemma RLEncode_canonical_witness :
  Forall (fun r => 1 <= Drle.freq r)
    [ {| Drle.freq := 3; Drle.val := 1 |}; {| Drle.freq := 1; Drle.val := 5 |} ]
  /\ DrleSpec.maximal
       [ {| Drle.freq := 3; Drle.val := 1 |}; {| Drle.freq := 1; Drle.val := 5 |} ]
  /\ (DrleSpec.expand
        [ {| Drle.freq := 3; Drle.val := 1 |}; {| Drle.freq := 1; Drle.val := 5 |} ]
      = [1; 1; 1; 5]
      <-> Drle.RLEncode [1; 1; 1; 5]
          = [ {| Drle.freq := 3; Drle.val := 1 |};
              {| Drle.freq := 1; Drle.val := 5 |} ]).
Proof.
  assert (H1 : Forall (fun r => 1 <= Drle.freq r)
                 [ {| Drle.freq := 3; Drle.val := 1 |};
                   {| Drle.freq := 1; Drle.val := 5 |} ])
    by (repeat constructor; cbn [Drle.freq]; lia).
  assert (H2 : DrleSpec.maximal
                 [ {| Drle.freq := 3; Drle.val := 1 |};
                   {| Drle.freq := 1; Drle.val := 5 |} ])
    by (cbn [DrleSpec.maximal Drle.val]; repeat split; discriminate).
  split; [exact H1|]. split; [exact H2|].
  exact (RLEncode_canonical [1; 1; 1; 5] _ H1 H2).
Defined.

(** * The statistics pass *)

Section StatsPass.
Import Spm Drle DrleSpec StatsSpec.
Context {V : Type}.

Lemma DeltaEncode_loop_first_differences xs : forall prev,
  DeltaEncode_loop prev xs = first_differences (prev :: xs).
Proof.
  unfold first_differences. induction xs as [|x xs IH]; intros prev;
    [reflexivity|].
  cbn [DeltaEncode_loop drop zip_with]. f_equal. rewrite IH.
  reflexivity.
Qed.

Lemma DeltaEncode_column_deltas xs : DeltaEncode xs = column_deltas xs.
Proof.
  destruct xs as [|x0 xs]; [reflexivity|]. cbn [DeltaEncode column_deltas].
  f_equal. apply DeltaEncode_loop_first_differences.
Qed.

Lemma rle_spec l :
  Forall (fun r => 1 <= freq r) (rle l) /\ maximal (rle l)
  /\ expand (rle l) = l
  /\ match l with
     | [] => rle l = []
     | x :: _ => exists f rs, rle l = {| freq := f; val := x |} :: rs
     end.
Proof.
  induction l as [|x l (Hpos & Hmax & Hexp & Hhd)].
  { cbn [rle]. repeat split; constructor. }
  cbn [rle]. destruct (rle l) as [|r rs] eqn:E.
  - split; [repeat constructor; cbn [freq]; lia|].
    split; [cbn [maximal]; tauto|]. split; [by rewrite <- Hexp | eauto].
  - apply Forall_cons in Hpos as [Hr Hrs].
    destruct (Z.eqb_spec (val r) x) as [Ev|Hne].
    + split; [constructor; [cbn [freq]; lia | done]|]. split.
      { cbn [maximal val] in *. rewrite <- Ev. tauto. }
      split; [|eauto]. rewrite <- Hexp, <- Ev.
      change (expand ({| freq := freq r + 1; val := val r |} :: rs))
        with (replicate (Z.to_nat (freq r + 1)) (val r) ++ expand rs).
      change (expand (r :: rs))
        with (replicate (Z.to_nat (freq r)) (val r) ++ expand rs).
      replace (Z.to_nat (freq r + 1)) with (S (Z.to_nat (freq r))) by lia.
      reflexivity.
    + split; [constructor; [cbn [freq]; lia | by constructor]|]. split.
      { cbn [maximal val] in *. split; [congruence | done]. }
      split; [by rewrite <- Hexp | eauto].
Qed.

Lemma RLEncode_rle l : RLEncode l = rle l.
Proof.
  destruct (rle_spec l) as (Hpos & Hmax & Hexp & Hhd).
  destruct l as [|x l]; [by rewrite Hhd|].
  destruct Hhd as (f & rs & E). rewrite E in *.
  inversion Hpos as [|? ? Hf Hrs]; subst. cbn [freq] in Hf.
  change (expand ({| freq := f; val := x |} :: rs))
    with (replicate (Z.to_nat f) x ++ expand rs) in Hexp.
  destruct (Z.to_nat f) as [|k] eqn:Ek; [lia|].
  cbn [replicate app] in Hexp. injection Hexp as <-.
  cbn [RLEncode].
  replace k with (Z.to_nat (freq {| freq := f; val := x |}) - 1)%nat
    by (cbn [freq]; lia).
  by apply (RLEncode_loop_expand_runs rs {| freq := f; val := x |}).
Qed.

Lemma generateStats_rows t min_limit (rws : list (list (SpmRowElem V))) :
  forall stats,
  isBlockType t = 0 ->
  fold_left (generateStats_row t min_limit) rws ([], stats)
  = ([], fold_left (updateStats_rle min_limit)
           (flat_map (fun row => flat_map (fun xs => rle (column_deltas xs))
                                   (segments [] row)) rws)
           stats).
Proof.
  induction rws as [|row rws IH]; intros stats Ht; [reflexivity|].
  cbn [fold_left flat_map]. rewrite generateStats_elems by exact Ht.
  rewrite IH by exact Ht. rewrite fold_left_app. do 2 f_equal.
  f_equal. apply flat_map_ext. intros xs.
  by rewrite DeltaEncode_column_deltas, RLEncode_rle.
Qed.

(** C6 as amended, the statistics pass.  For an iteration order that
    is not a block order, [generateStats] returns the table that has, for
    every delta value, the sum of the lengths of the runs of that value
    with [freq >= min_limit] and the number of those runs, and no entry
    for a value without such a run.  The runs are those of the vectors of
    consecutive plain elements of every row, a vector being counted by
    its first column, as its distance from the column 0, followed by its
    first differences; they are maximal, of at least one item, and stand
    for these deltas in order. *)
Theorem generateStats_runs (Spm : SPM V) (min_limit : Z) :
  isBlockType (type Spm) = 0 ->
  (forall v,
     nnz (stats_at (generateStats Spm min_limit) v)
     = runs_nnz min_limit v (spm_runs Spm)
     /\ npatterns (stats_at (generateStats Spm min_limit) v)
        = runs_npatterns min_limit v (spm_runs Spm)
     /\ (generateStats Spm min_limit !! v = None
         <-> runs_npatterns min_limit v (spm_runs Spm) = 0))
  /\ (forall xs,
        Forall (fun r => 1 <= freq r) (rle (column_deltas xs))
        /\ maximal (rle (column_deltas xs))
        /\ expand (rle (column_deltas xs)) = column_deltas xs).
Proof.
  intros Ht. split.
  - intros v. unfold generateStats.
    rewrite generateStats_rows by exact Ht. cbn [snd]. fold (spm_runs Spm).
    destruct (updateStats_rle_fold min_limit (spm_runs Spm) ∅ v)
      as (Hn & Hp & Hnone).
    unfold stats_at in Hn at 2. unfold stats_at in Hp at 2.
    rewrite lookup_empty in Hn, Hp. cbn [default nnz npatterns] in Hn, Hp.
    split; [by rewrite Hn|]. split; [by rewrite Hp|].
    rewrite Hnone, lookup_empty. tauto.
  - intros xs. destruct (rle_spec (column_deltas xs)) as (H1 & H2 & H3 & _).
    done.
Qed.

End StatsPass.

(** C6 as the spec words it does not hold: the glossary takes the runs
    of the first differences.  A row with the columns 2 and 4 has one
    first difference, 2, a run of one item; with [min_limit = 2] no run
    counts, yet [generateStats] credits the delta 2 with one run of two
    nonzeros, the first column being a delta of 2 from the column 0. *)
Lemma generateStats_counts_first_column :
  Drle.generateStats
    (Examples.mk_spm 2 [[Spm.Elem 2 10; Spm.Elem 4 20]]) 2 !! 2
  = Some {| Drle.nnz := 2; Drle.npatterns := 1 |}
  /\ StatsSpec.delta_rle [2; 4] = [{| Drle.freq := 1; Drle.val := 2 |}]
  /\ DrleSpec.runs_npatterns 2 2 (StatsSpec.delta_rle [2; 4]) = 0.
Proof. repeat split; vm_compute; reflexivity. Qed.

(** C6 at the partitions [spm_mixed], whose runs have one item each, and
    [spm_run], whose row is one run of five items of the delta 1. *)
Lemma generateStats_runs_witness :
  Spm.isBlockType (Spm.type Examples.spm_mixed) = 0
  /\ Spm.isBlockType (Spm.type Examples.spm_run) = 0
  /\ StatsSpec.spm_runs Examples.spm_mixed
     = [ {| Drle.freq := 1; Drle.val := 1 |};
         {| Drle.freq := 1; Drle.val := 2 |};
         {| Drle.freq := 1; Drle.val := 300 |};
         {| Drle.freq := 1; Drle.val := 700 |} ]
  /\ StatsSpec.spm_runs Examples.spm_run
     = [ {| Drle.freq := 5; Drle.val := 1 |} ]
  /\ Drle.nnz (Drle.stats_at (Drle.generateStats Examples.spm_mixed 1) 700) = 1
  /\ Drle.npatterns
       (Drle.stats_at (Drle.generateStats Examples.spm_mixed 1) 700) = 1
  /\ Drle.generateStats Examples.spm_mixed 2 !! 700 = None
  /\ Drle.nnz (Drle.stats_at (Drle.generateStats Examples.spm_run 4) 1) = 5
  /\ Drle.npatterns
       (Drle.stats_at (Drle.generateStats Examples.spm_run 4) 1) = 1
  /\ Drle.generateStats Examples.spm_run 6 !! 1 = None.
Proof.
  assert (H : Spm.isBlockType (Spm.type Examples.spm_mixed) = 0) by reflexivity.
  assert (H' : Spm.isBlockType (Spm.type Examples.spm_run) = 0) by reflexivity.
  split; [exact H|]. split; [exact H'|].
  split; [vm_compute; reflexivity|]. split; [vm_compute; reflexivity|].
  destruct (generateStats_runs Examples.spm_mixed 1 H) as [H1 _].
  destruct (generateStats_runs Examples.spm_mixed 2 H) as [H2 _].
  destruct (generateStats_runs Examples.spm_run 4 H') as [H4 _].
  destruct (generateStats_runs Examples.spm_run 6 H') as [H6 _].
  destruct (H1 700) as (Hn & Hp & _). destruct (H2 700) as (_ & _ & Hnone).
  destruct (H4 1) as (Hn4 & Hp4 & _). destruct (H6 1) as (_ & _ & Hnone6).
  split; [rewrite Hn; vm_compute; reflexivity|].
  split; [rewrite Hp; vm_compute; reflexivity|].
  split; [apply Hnone; vm_compute; reflexivity|].
  split; [rewrite Hn4; vm_compute; reflexivity|].
  split; [rewrite Hp4; vm_compute; reflexivity|].
  apply Hnone6. vm_compute. reflexivity.
Defined.
